(* ===== verification/_CoqProject ===== *)
-Q . S2P
Prelude.v
KvServer.v
KvModel.v
KvClerk.v
Lock.v
KvClients.v
KvTest.v
KvRace.v
LabGob.v
LabRpc.v
Demux.v
SockRpc.v
Tester.v
Config.v
Harness.v
Daemon.v
Rsm.v
Annotation.v
RaftTest.v
ShardCfg.v
ShardTest.v
MrCoordinator.v
MrWorker.v
MrJob.v
MrTest.v
MrApps.v
TestRun.v
KvRun.v
CtrlTest.v
Stubs.v
