(* ===== verification/Prelude.v ===== *)
(** * Verification of the 6.5840 laboratory code

    The repository ([src/src/], Go) is a distributed-systems course: a MapReduce
    system, a versioned key/value server with its clerk and a lock built on it,
    a sharded-configuration library, and the harness that tests them, which
    simulates a network, runs servers in processes of their own, and checks what
    they do.  The Raft, replicated-state-machine and sharded key/value servers
    are skeletons, so the development models everything around them.

    ** Files

    - [Prelude] (this file): Go outcomes ([outcome]: value, panic, fatal), slice
      indexing, machine words, decimal printing, 32-bit FNV-1a, counting in
      lists, runs of a deterministic machine and their invariants, a codec used
      by witnesses, the tactics and the hint database [go].
    - [KvServer] ([kvsrv1/server.go], [kvsrv1/rpc/rpc.go]): handlers that put an
      operation on a bounded queue and one goroutine that serves it.  The class
      [KVStore] with [KVStoreLaws] is what the clients are proved against: a
      store of independent registers, each with a version.
    - [KvModel] ([models1/kv.go]): the linearizability checker's model, compared
      with the order in which the server serves operations.
    - [KvClerk] ([kvsrv1/client.go]): Get and Put with their retries.  A script
      says what happens to each RPC ([delivery]) and which puts of other clients
      come before it.
    - [Lock] ([kvsrv1/lock/lock.go]): Acquire and Release, one step per RPC
      attempt, any number of clients interleaved.
    - [KvClients] ([kvtest1/porcupine.go], [kvtest1/kvtest.go]): the test clerk
      that logs every Get and Put with its times, any number of clients over a
      lossy network; [KvTest]: the tests' sequential helpers and the checks of
      what clients found; [KvRace]: the concurrent client loops of the tests
      (puts to one key, appends to a JSON value) run as those clients; [KvRun]
      ([kvraft1/test.go], [kvsrv1/test.go], [shardkv1/test.go]): how the tests
      make clerks, and the check that data is sharded.
    - [LabGob] ([labgob/labgob.go]): the checks for lower-case fields and for
      decoding into non-default values, and the calls around the gob codec.
    - [LabRpc] ([labrpc/labrpc.go]): the simulated network.  Each request under
      way is a small state machine; events are the goroutines' steps, the
      tester's calls and the expiry of timers, in any order.  Its theorem
      [quiet_call_delivery] is the [delivery] the clerk assumes.
    - [Demux] ([tester1/demux/], [tester1/sockrpc/]): framing on a byte stream,
      matching of replies to outstanding calls; [SockRpc] ([sockrpc/rpcsrv.go],
      [demux/dmxsrv.go]): the server that accepts connections and serves every
      request in a goroutine of its own, with any number of those clients.
    - [Tester] ([tester1/group.go], [srv.go], [persister.go], [clnts.go]):
      groups of servers as a mesh of [LabRpc] ends, partitions, crashes and
      restarts; [Config] ([tester1/config.go]): the registries of groups and
      clients and their cleanup, the goroutine that repartitions; [Harness]: the
      whole configuration of a test from [MakeConfig] to [Cleanup], with the
      statistics of [Begin] and [End] and the time limit.
    - [Daemon] ([tester1/daemonclnt.go], [daemonsrv.go], [testsrv.go]): a server
      as a process of its own: its command line, the exchange that starts it, the
      checkpoint that stops it, and its RPCs, which go through the tester.
    - [Rsm] ([kvraft1/rsm/server.go], [test.go]): the replicated counter the
      tests use, the search for a leader, the check of the counters.
    - [Annotation] ([tester1/annotation.go]): the timeline of a test.
    - [RaftTest] ([raft1/test.go], [raft1/server.go]): the Raft tester's checks
      of what servers apply, and the servers' appliers; [TestRun] ([raft1/test.go],
      [raft1/proxy.go], [kvraft1/rsm/test.go]): the daemons that the Raft and RSM
      testers kill and start, the proxies to them, and [wait]; [Stubs]
      ([annotator.go], [raft1/proxy.go], [rsm/proxy.go] and the RPC handlers): the
      RPCs between servers and tester, over connections that can be closed.
    - [ShardCfg] ([shardkv1/shardcfg/shardcfg.go]): configurations, rebalancing,
      joining and leaving; [ShardTest] ([shardkv1/test.go]): the test that makes
      groups join and leave, over [ShardCfg] and [Config]; [CtrlTest] (same
      file): the tests in which several shard controllers compete or one is cut
      off in the middle of a change.
    - [MrCoordinator] ([mr/coordinator.go], [mr/rpc.go]): the coordinator's
      handlers, retry timers and main goroutine.
    - [MrWorker] ([mr/worker.go], [main/mrsequential.go], [mrapps/]): map and
      reduce tasks over a file system, and the sequential program.
    - [MrJob]: the coordinator and any number of workers over one file system,
      with crashes and tasks handed out twice; [MrTest] ([mr/util.go]): what the
      MapReduce tests do with the output, and the applications that observe how
      tasks are run; [MrApps] ([mrapps/wc.go], [indexer.go], [crash.go]): the
      applications that look at words, from bytes up, and the worker's loop.

    ** How the code is modelled

    A Go method that changes its receiver is a function from the old state to
    the new one, with the same name.  Concurrency is a deterministic [exec] on
    events chosen freely: every interleaving of the goroutines is a list of
    events, and theorems on [run] hold for all of them.  A channel is a list
    with its capacity; a blocked send or receive is [None] (the event cannot
    happen yet).  The order in which a Go map is ranged over, random draws,
    readings of the clock and failures of the file system or of RPCs are
    arguments.  Integers are [Z]; [u64] and [u32] wrap.  Names a [Randstring]
    call makes are arguments assumed fresh where that matters.

    ** What the theorems show

    - The store: the concurrent server is linearizable (its history is that of
      the operations served one at a time) and answers every call; the model of
      the checker accepts the serving order except for the ErrNoKey answers of
      Put, which it has no step for.
    - The clerk: a Put is applied at most once, with the result it reports; the
      loops end when one RPC gets through; a Get returns what was in the store.
    - The lock: mutual exclusion, no reachable panic, and progress of a client
      left alone.
    - The test clients: the histories they log linearize, with [KvModel]'s steps,
      whatever the network loses; the tests of one key and of appends pass on
      every such run, never fail a client, and the checks accept exactly the
      contents they are meant to.
    - The network: a positive reply comes from an execution of the handler,
      none comes from a deleted server, a reliable network loses nothing, and
      without reconfiguration every call falls in the clerk's three cases.
    - The transport: frames survive any cut of the stream, replies reach the
      calls they answer, and no caller is left waiting after an error; with a
      server at the other end, what callers get back is what serving their
      requests one at a time returns, and no request is served twice.
    - The tester: partitions connect exactly the servers of a side; a restarted
      server has what it last saved and is unreachable until connected; the
      timeline shows every fault; the Raft tester reports an error exactly when
      the applied commands are inconsistent or out of order; [one] returns only
      on agreement, [wait] only when enough servers have the command; the checks
      ask connected servers only, and none that was killed; a snapshot restores the server that took it; deleted
      clients leave no end behind.  Whatever a test does with its groups and
      clients, nothing fails, the cleanup leaves no server and no client's end,
      and [End] reports what happened since [Begin].
    - RPCs of the testers: with every connection open the Raft tester's verdict on
      what servers apply is exact through two layers of encoding, and closing
      connections or restarting servers never makes it report an error.
    - Processes: a daemon reads back the command line it was started with, its
      start cannot deadlock and ends with the saved persister in use; the copy
      taken when it is shut down covers everything it has told anybody; its RPCs
      are those of the tester's network.
    - The replicated counter: replicas and restored snapshots agree; a number
      returned to the tester is one increment's, and is returned if any connected
      server answers.
    - Groups: any allowed history of joins and leaves ends with exactly the
      members running, on the network and owning shards.  The check that data is
      sharded returns only if some key was out of reach, and leaves the group it
      shut down running.  Controllers that compete or are cut off leave every shard
      with a running owner and never make the test itself abort; what the verdict
      of [partitionCtrler] means is [partition_verdict].
    - Configurations: [Rebalance] terminates with every shard on a group and
      loads that differ by at most one; every history of joins and leaves keeps
      the configuration well formed and accepted by [CheckConfig].
    - MapReduce: [Done] only after all tasks are complete, map outputs fixed by
      the first completion, a job that can always still finish whatever workers
      were lost, and the distributed output equal to the sequential one up to
      order of lines, whatever workers crash or are given a task twice, as long
      as no two execute the same reduce task at once ([clashing_reducers] and
      [late_worker_truncates] show what happens otherwise: outputs are written
      in place); the tests that compare the two pass, and two processes that run
      at the same time notice.  With [wc.go] the output is the number of
      occurrences of each word, with [indexer.go] the documents it is in.  A
      worker goes on while the coordinator answers.

    ** Bounds and fuel

    Loops over slices and maps are structural.  The balancing loop of
    [Rebalance] and the type walk of [checkType] have fuel ([balance_fuel],
    [type_fuel]) proved sufficient for every input.  [ReadCalls] and the scan of
    [mrsequential] take the length of the input, which every step shortens.
    [dial] has the code's bound on retries.  The clerk's and [one]'s loops are
    bounded by the script of what the network does, which is any finite one.
    [PutAtLeastOnce] and [PutAtLeastOnceJson] take the number of turns, and are
    proved to return when there are more than the versions another client
    can add.  [onePartition] takes the number of times the clock is read within
    its ten seconds; one is enough when a server answers.  Counters of the tests
    (group numbers) are [Z] without wrap: no run reaches 2^63; the 32-bit
    counters of operations and requests wrap ([int32]).

    ** Not modelled

    The third-party checker and visualiser, encoding/gob and encoding/json
    (arguments with the round trip as a law), unicode.IsLetter (an argument), process control and sockets,
    command-line programs, timing, and the parts listed in the headers of the
    files.  The skeletons
    ([raft.go], [rsm.go], the servers and clerks of [kvraft1] and [shardkv1], the
    shard controller) have no code to model; [Rsm], [ShardTest], [CtrlTest] and
    [Stubs] take what the tests rely on of them as parameters, with laws where
    they are needed.  The commands of [main/] handle arguments and call the
    packages above.  The parts of [daemonclnt.go] that are left start and kill
    processes, and the flags, title and sleeps of the tests only set the scene. *)

From stdpp Require Import base gmap list strings pretty sorting relations.
From Stdlib Require Export ZArith Lia.
From Stdlib Require Import Ascii.

(** ** Go outcomes

    A Go statement sequence either runs to its end with a value, panics
    (index out of range, explicit [panic]), or ends the process or the test
    ([log.Fatalf], [t.Fatalf]). *)
Inductive outcome (A : Type) : Type :=
  | Ret (a : A)
  | Panic (msg : string)
  | Fatal (msg : string).
Arguments Ret {A} a.
Arguments Panic {A} msg.
Arguments Fatal {A} msg.

#[export] Instance outcome_ret : MRet outcome := fun A a => Ret a.
#[export] Instance outcome_bind : MBind outcome := fun A B k m =>
  match m with
  | Ret a => k a
  | Panic e => Panic e
  | Fatal e => Fatal e
  end.

#[export] Instance outcome_eq_dec {A} `{EqDecision A} : EqDecision (outcome A).
Proof. solve_decision. Defined.

Definition is_ret {A} (o : outcome A) : bool :=
  match o with Ret _ => true | _ => false end.

(** Indexing a slice panics out of range; loops stop at the first panic. *)
Definition idx {A} (l : list A) (i : nat) : outcome A :=
  match l !! i with Some x => Ret x | None => Panic "index out of range" end.

Fixpoint foldo {A S} (f : S -> A -> outcome S) (s : S) (l : list A) : outcome S :=
  match l with
  | [] => Ret s
  | x :: l => s' ← f s x; foldo f s' l
  end.

Lemma idx_Some {A} (l : list A) i x : l !! i = Some x -> idx l i = Ret x.
Proof. unfold idx. by intros ->. Qed.

Lemma foldo_app {A S} (f : S -> A -> outcome S) s l1 l2 :
  foldo f s (l1 ++ l2) = s' ← foldo f s l1; foldo f s' l2.
Proof.
  revert s. induction l1 as [|x l1 IH]; intros s; [done|]. simpl.
  destruct (f s x); simpl; [apply IH|done..].
Qed.

(** What every turn of a loop keeps, the loop keeps. *)
Lemma foldo_inv {A S} (P : S -> Prop) (f : S -> A -> outcome S) l s s' :
  (forall s x s', P s -> f s x = Ret s' -> P s') -> P s -> foldo f s l = Ret s' -> P s'.
Proof.
  intros Hf. revert s. induction l as [|x l IH]; intros s Hs; simpl; [by intros [= <-]|].
  destruct (f s x) as [s1| |] eqn:E; [|done..]. simpl. apply IH. by eapply Hf.
Qed.

(** ** Machine integers, as [Z] with the wrap-around written out *)

Declare Scope go_scope.
Delimit Scope go_scope with go.

Definition wrap (w : Z) (x : Z) : Z := (x mod 2 ^ w)%Z.
Notation u64 := (wrap 64).
Notation u32 := (wrap 32).

Lemma wrap_bound w x : (0 <= w)%Z -> (0 <= wrap w x < 2 ^ w)%Z.
Proof. intros Hw. apply Z.mod_pos_bound. by apply Z.pow_pos_nonneg. Qed.

Lemma wrap_small w x : (0 <= x < 2 ^ w)%Z -> wrap w x = x.
Proof. apply Z.mod_small. Qed.

(** ** FNV-1a, 32 bits (Go's [hash/fnv].New32a), used by two components *)

Definition fnv_offset32 : Z := 2166136261.
Definition fnv_prime32 : Z := 16777619.

Fixpoint fnv32a_from (h : Z) (s : string) : Z :=
  match s with
  | EmptyString => h
  | String c s' =>
      fnv32a_from (u32 (Z.lxor h (Z.of_N (Ascii.N_of_ascii c)) * fnv_prime32)) s'
  end.

Definition fnv32a (s : string) : Z := fnv32a_from fnv_offset32 s.

Lemma fnv32a_from_bound s h :
  (0 <= h < 2 ^ 32)%Z -> (0 <= fnv32a_from h s < 2 ^ 32)%Z.
Proof.
  revert h. induction s as [|c s IH]; intros h Hh; [done|].
  apply IH. by apply wrap_bound.
Qed.

Lemma fnv32a_bound s : (0 <= fnv32a s < 2 ^ 32)%Z.
Proof. by apply fnv32a_from_bound. Qed.

(** ** Decimal numbers and separators in names *)

Fixpoint has_char (c : Ascii.ascii) (s : string) : bool :=
  match s with
  | EmptyString => false
  | String c' s' => bool_decide (c = c') || has_char c s'
  end.

(** [fmt]'s [%d] and [%v] and [strconv.Itoa] on a non-negative number. *)
Definition itoa (n : nat) : string := pretty n.

Definition not_digit (c : Ascii.ascii) : Prop := forall x, pretty_N_char x <> c.

Lemma pretty_N_go_no_char c x s :
  not_digit c -> has_char c s = false -> has_char c (pretty_N_go x s) = false.
Proof.
  intros Hc. revert s. induction (N.lt_wf_0 x) as [x _ IH]; intros s Hs.
  destruct (decide (x = 0)%N) as [->|].
  - by rewrite pretty_N_go_0.
  - rewrite pretty_N_go_step by lia. apply IH; [apply N.div_lt; lia|]. simpl. rewrite Hs, orb_false_r.
    apply bool_decide_eq_false. intros Heq. by eapply Hc.
Qed.

Lemma itoa_no_char c n : not_digit c -> has_char c (itoa n) = false.
Proof.
  intros Hc. unfold itoa, pretty, pretty_nat, pretty, pretty_N. case_decide.
  - simpl. rewrite orb_false_r. apply bool_decide_eq_false. intros Heq. apply (Hc 0%N). by rewrite Heq.
  - by apply pretty_N_go_no_char.
Qed.

Lemma not_digit_dash : not_digit "-"%char.
Proof. intros x. unfold pretty_N_char. by repeat case_match. Qed.

Lemma itoa_no_dash n : has_char "-"%char (itoa n) = false.
Proof. apply itoa_no_char, not_digit_dash. Qed.

#[export] Instance itoa_inj : Inj (=) (=) itoa.
Proof. intros n m H. by apply (inj pretty) in H. Qed.

Lemma pretty_Z_nonneg z : (0 <= z)%Z -> pretty z = itoa (Z.to_nat z).
Proof.
  intros Hz. assert (Hn : pretty z = pretty (Z.to_N z)) by (unfold pretty at 1, pretty_Z; by destruct z).
  rewrite Hn. unfold itoa, pretty at 2, pretty_nat. f_equal. lia.
Qed.

Lemma length_append s t : String.length (s +:+ t) = String.length s + String.length t.
Proof. induction s as [|c s IH]; simpl; [done|by rewrite IH]. Qed.

Lemma append_assoc (a b c : string) : (a +:+ b) +:+ c = a +:+ (b +:+ c).
Proof. induction a as [|x a IH]; [done|]. exact (f_equal (String x) IH). Qed.

Lemma append_nil_r (a : string) : a +:+ "" = a.
Proof. induction a as [|x a IH]; [done|]. exact (f_equal (String x) IH). Qed.

Lemma has_char_app c a b : has_char c (a +:+ b) = has_char c a || has_char c b.
Proof. induction a as [|x a IH]; [done|]. cbn. by rewrite <-orb_assoc, <-IH. Qed.

(** [encoding/base64]'s [URLEncoding]: three bytes are four characters, and
    the last group is padded. *)
Definition b64_alphabet : string := "ABCDEFGHIJKLMNOPQRSTUVWXYZabcdefghijklmnopqrstuvwxyz0123456789-_".
Definition b64_char (x : N) : Ascii.ascii := default "A"%char (String.get (N.to_nat (x mod 64)) b64_alphabet).

Fixpoint base64url (s : string) : string :=
  let n := Ascii.N_of_ascii in
  match s with
  | EmptyString => ""
  | String a EmptyString =>
      let x := (n a * 65536)%N in
      String (b64_char (x / 262144)) (String (b64_char (x / 4096)) "==")
  | String a (String b EmptyString) =>
      let x := (n a * 65536 + n b * 256)%N in
      String (b64_char (x / 262144)) (String (b64_char (x / 4096)) (String (b64_char (x / 64)) "="))
  | String a (String b (String c s)) =>
      let x := (n a * 65536 + n b * 256 + n c)%N in
      String (b64_char (x / 262144)) (String (b64_char (x / 4096)) (String (b64_char (x / 64)) (String (b64_char x) (base64url s))))
  end.

Lemma string_ind3 (P : string -> Prop) :
  P "" -> (forall a, P (String a "")) -> (forall a b, P (String a (String b ""))) ->
  (forall a b c s, P s -> P (String a (String b (String c s)))) -> forall s, P s.
Proof. intros H0 H1 H2 H3. fix IH 1. intros [|a [|b [|c s]]]; [done..|]. by apply H3. Qed.

Lemma base64url_length s : String.length s <= String.length (base64url s).
Proof. induction s using string_ind3; cbn; lia. Qed.

(** Only characters of the alphabet and the padding occur. *)
Lemma b64_char_in x : has_char (b64_char x) b64_alphabet = true.
Proof.
  unfold b64_char. assert (N.to_nat (x mod 64) < 64) as Hlt by (pose proof (N.mod_lt x 64 ltac:(done)); lia).
  revert Hlt. generalize (N.to_nat (x mod 64)). intros k Hk. do 64 (destruct k as [|k]; [done|]). lia.
Qed.

Lemma base64url_chars c s : has_char c b64_alphabet = false -> c <> "="%char -> has_char c (base64url s) = false.
Proof.
  intros Hc Hp. assert (Hb : forall x, bool_decide (c = b64_char x) = false).
  { intros x. apply bool_decide_eq_false. intros ->. by rewrite b64_char_in in Hc. }
  assert (He : bool_decide (c = "="%char) = false) by by apply bool_decide_eq_false.
  induction s as [|a|a b|a b d s IH] using string_ind3; cbn [base64url has_char]; rewrite ?Hb, ?He, ?IH; done.
Qed.

Lemma has_char_substring c n s : has_char c s = false -> has_char c (String.substring 0 n s) = false.
Proof.
  revert n. induction s as [|x s IH]; intros [|n] H; [done..|]. cbn in *. apply orb_false_iff in H as [-> H]. by apply IH.
Qed.

Lemma length_substring n s : n <= String.length s -> String.length (String.substring 0 n s) = n.
Proof. revert n. induction s as [|x s IH]; intros [|n] H; cbn in *; [done|lia|done|]. rewrite IH; lia. Qed.

(** A separator that occurs in neither prefix splits a name uniquely. *)
Lemma split_at_inj c s1 s2 t1 t2 :
  has_char c s1 = false -> has_char c s2 = false ->
  s1 +:+ String c t1 = s2 +:+ String c t2 -> s1 = s2 /\ t1 = t2.
Proof.
  revert s2. induction s1 as [|a1 s1 IH]; intros [|a2 s2]; simpl; intros H1 H2 Heq; simplify_eq; try done.
  - rewrite bool_decide_eq_true_2 in H2 by done. done.
  - rewrite bool_decide_eq_true_2 in H1 by done. done.
  - apply orb_false_iff in H1 as [_ H1], H2 as [_ H2].
    by destruct (IH s2 H1 H2 H) as [-> ->].
Qed.

(** ** Counting elements of a list *)

Definition lcount {A} (P : A -> Prop) `{forall x, Decision (P x)} (l : list A) : nat :=
  length (filter P l).

Section lcount.
Context {A : Type} (P : A -> Prop) `{!forall x, Decision (P x)}.

Lemma lcount_nil : lcount P [] = 0.
Proof. done. Qed.

Lemma lcount_cons x l : lcount P (x :: l) = (if decide (P x) then 1 else 0) + lcount P l.
Proof. unfold lcount. rewrite filter_cons. by case_decide. Qed.

Lemma lcount_app l1 l2 : lcount P (l1 ++ l2) = lcount P l1 + lcount P l2.
Proof. unfold lcount. by rewrite filter_app, length_app. Qed.

Lemma lcount_le_length l : lcount P l <= length l.
Proof. apply length_filter. Qed.

(** Replacing one element moves the count by the difference of the two. *)
Lemma lcount_insert l i x y :
  l !! i = Some x ->
  lcount P (<[i:=y]> l) + (if decide (P x) then 1 else 0) =
  lcount P l + (if decide (P y) then 1 else 0).
Proof.
  intros Hi. rewrite <-(take_drop_middle l i x Hi) at 2.
  rewrite insert_take_drop by (by apply lookup_lt_Some in Hi).
  rewrite !lcount_app, !lcount_cons. lia.
Qed.

Lemma lcount_zero l : lcount P l = 0 <-> Forall (fun x => ~ P x) l.
Proof.
  induction l as [|x l IH]; [by split|].
  rewrite lcount_cons, Forall_cons, <-IH. case_decide; intuition lia.
Qed.

Lemma lcount_pos l : 0 < lcount P l -> exists i x, l !! i = Some x /\ P x.
Proof.
  intros Hpos. induction l as [|y l IH]; [by rewrite lcount_nil in Hpos; lia|].
  rewrite lcount_cons in Hpos. case_decide as Hy.
  - by exists 0, y.
  - destruct IH as (i & x & ? & ?); [lia|]. by exists (S i), x.
Qed.
End lcount.

Lemma elem_of_insert_inv {A} (l : list A) i x y : y ∈ <[i:=x]> l -> y = x \/ y ∈ l.
Proof.
  intros (j & Hj)%list_elem_of_lookup. rewrite list_lookup_insert in Hj.
  case_decide; [left; congruence|right]. by eapply list_elem_of_lookup_2.
Qed.

(** Sums over a list. *)
Definition zsum {A} (f : A -> Z) (l : list A) : Z := foldr (fun x n => f x + n)%Z 0%Z l.

Lemma zsum_app {A} (f : A -> Z) l1 l2 : zsum f (l1 ++ l2) = (zsum f l1 + zsum f l2)%Z.
Proof. induction l1 as [|x l1 IH]; simpl; [done|]. unfold zsum in *. lia. Qed.

Lemma zsum_insert {A} (f : A -> Z) l i x y :
  l !! i = Some x -> zsum f (<[i:=y]> l) = (zsum f l - f x + f y)%Z.
Proof.
  intros Hi. rewrite <-(take_drop_middle l i x Hi) at 2.
  rewrite insert_take_drop by (by apply lookup_lt_Some in Hi). rewrite !zsum_app. simpl. lia.
Qed.

Lemma zsum_ext {A} (f g : A -> Z) l : (forall x, x ∈ l -> f x = g x) -> zsum f l = zsum g l.
Proof. induction l as [|x l IH]; intros H; [done|]. simpl. rewrite (H x) by set_solver. f_equal. apply IH. set_solver. Qed.

Lemma zsum_nonneg {A} (f : A -> Z) l : (forall x, x ∈ l -> (0 <= f x)%Z) -> (0 <= zsum f l)%Z.
Proof.
  induction l as [|x l IH]; intros H; [done|]. simpl. pose proof (H x ltac:(set_solver)).
  specialize (IH ltac:(set_solver)). lia.
Qed.

Lemma zsum_add {A} (f g : A -> Z) l : zsum (fun x => f x + g x)%Z l = (zsum f l + zsum g l)%Z.
Proof. induction l as [|x l IH]; simpl; [done|]. unfold zsum in *. lia. Qed.

Lemma zsum_zero {A} (f : A -> Z) l : (forall x, x ∈ l -> f x = 0%Z) -> zsum f l = 0%Z.
Proof. induction l as [|x l IH]; intros H; [done|]. simpl. rewrite (H x), IH by set_solver. done. Qed.

Lemma zsum_pos {A} (f : A -> Z) l : (0 < zsum f l)%Z -> exists x, x ∈ l /\ (0 < f x)%Z.
Proof.
  induction l as [|x l IH]; simpl; [done|]. intros Hp. destruct (decide (0 < f x)%Z) as [Hx|Hx]; [exists x; set_solver|].
  destruct IH as (y & ? & ?); [unfold zsum in *; lia|]. exists y. set_solver.
Qed.

Lemma zsum_fmap {A B} (f : B -> Z) (g : A -> B) l : zsum f (g <$> l) = zsum (f ∘ g) l.
Proof. induction l as [|x l IH]; [done|]. simpl. f_equal. apply IH. Qed.

(** Replacing one element of a list whose elements each contribute a list. *)
Lemma concat_imap_insert {A B} (g : nat -> A -> list B) l i x :
  l !! i = Some x ->
  exists rest, concat (imap g l) ≡ₚ g i x ++ rest /\ forall y, concat (imap g (<[i:=y]> l)) ≡ₚ g i y ++ rest.
Proof.
  intros Hi. pose proof (lookup_lt_Some _ _ _ Hi) as Hlt.
  exists (concat (imap g (take i l)) ++ concat (imap (g ∘ (Nat.add (S i))) (drop (S i) l))).
  assert (Hall : forall y, concat (imap g (take i l ++ y :: drop (S i) l)) ≡ₚ
    g i y ++ concat (imap g (take i l)) ++ concat (imap (g ∘ (Nat.add (S i))) (drop (S i) l))).
  { intros y. rewrite imap_app, concat_app. simpl. rewrite length_take, Nat.min_l by lia.
    rewrite Nat.add_0_r. rewrite Permutation_app_swap_app.
    do 2 apply Permutation_app_head. apply reflexive_eq. f_equal. apply imap_ext. intros j z _. simpl. f_equal. lia. }
  split; [by rewrite <-(take_drop_middle l i x Hi) at 1|].
  intros y. by rewrite insert_take_drop.
Qed.

(** ** Invariants of labelled executions

    A component with interleavings is given by an executable step
    [exec : event -> state -> option state]; [run] is a schedule and [reach]
    the states a schedule can produce. *)
Section Exec.
Context {S E : Type} (exec : E -> S -> option S).

Fixpoint run (es : list E) (s : S) : option S :=
  match es with
  | [] => Some s
  | e :: es' => exec e s ≫= run es'
  end.

Definition reach (s s' : S) : Prop := exists es, run es s = Some s'.

Lemma run_app es1 es2 s : run (es1 ++ es2) s = run es1 s ≫= run es2.
Proof.
  revert s. induction es1 as [|e es1 IH]; intros s; simpl; [done|].
  destruct (exec e s); simpl; [apply IH|done].
Qed.

Lemma run_snoc es e s s' :
  run (es ++ [e]) s = Some s' <-> exists s1, run es s = Some s1 /\ exec e s1 = Some s'.
Proof.
  rewrite run_app. destruct (run es s) as [s1|]; simpl.
  - split.
    + intros H. exists s1. split; [done|]. by destruct (exec e s1).
    + intros (? & [= <-] & ->). done.
  - split; [done|]. by intros (? & ? & _).
Qed.

(** Rule induction: a property of the initial state kept by each event. *)
Lemma run_invariant (I : S -> Prop) :
  (forall e s s', I s -> exec e s = Some s' -> I s') ->
  forall es s s', I s -> run es s = Some s' -> I s'.
Proof.
  intros Hstep es. induction es as [|e es IH]; intros s s' Hs; simpl.
  - by intros [= <-].
  - destruct (exec e s) as [s1|] eqn:He; simpl; [|done].
    apply IH. by eapply Hstep.
Qed.

Lemma reach_invariant (I : S -> Prop) s :
  I s -> (forall e s s', I s -> exec e s = Some s' -> I s') ->
  forall s', reach s s' -> I s'.
Proof. intros Hs Hstep s' [es Hes]. by eapply run_invariant. Qed.

Lemma reach_refl s : reach s s.
Proof. by exists []. Qed.

Lemma reach_trans s1 s2 s3 : reach s1 s2 -> reach s2 s3 -> reach s1 s3.
Proof.
  intros [es1 H1] [es2 H2]. exists (es1 ++ es2). by rewrite run_app, H1.
Qed.

#[export] Instance reach_preorder : PreOrder reach.
Proof. split; [exact reach_refl | exact reach_trans]. Qed.
End Exec.

(** Reading a component of the state a schedule ends in. *)
Lemma demo_read {S A} (f : S -> A) (o : option S) (s : S) (a : A) :
  o = Some s -> f <$> o = Some a -> f s = a.
Proof. intros -> [= ?]. done. Qed.

(** ** A codec for countable types

    Used where a witness needs a concrete [encoding/json] or [encoding/gob]. *)

Fixpoint pos_bits (p : positive) : string :=
  match p with
  | xH => ""
  | xO p => String "0"%char (pos_bits p)
  | xI p => String "1"%char (pos_bits p)
  end.

Fixpoint bits_pos (s : string) : option positive :=
  match s with
  | EmptyString => Some xH
  | String c s => p ← bits_pos s; if decide (c = "0"%char) then Some (xO p) else Some (xI p)
  end.

Lemma bits_pos_bits p : bits_pos (pos_bits p) = Some p.
Proof. induction p as [p IH|p IH|]; simpl; [by rewrite IH..|done]. Qed.

Definition enc_str {A} `{Countable A} (x : A) : string := pos_bits (encode x).
Definition dec_str {A} `{Countable A} (s : string) : option A := p ← bits_pos s; decode p.

Lemma dec_enc_str {A} `{Countable A} (x : A) : dec_str (enc_str x) = Some x.
Proof. unfold dec_str, enc_str. rewrite bits_pos_bits. apply decode_encode. Qed.

(** ** Choice below a bound *)

Lemma finite_choice {A} `{Inhabited A} (P : nat -> A -> Prop) n :
  (forall i, i < n -> exists x, P i x) -> exists f, forall i, i < n -> P i (f i).
Proof.
  induction n as [|n IH]; intros Hall; [exists (fun _ => inhabitant); lia|].
  destruct IH as [f Hf]; [intros i Hi; apply Hall; lia|]. destruct (Hall n) as [x Hx]; [lia|].
  exists (fun i => if decide (i = n) then x else f i). intros i Hi. case_decide as Hd; [by subst|]. apply Hf. lia.
Qed.

(** ** Tactics and hints shared by the components *)

Create HintDb go discriminated.
#[export] Hint Resolve reach_refl : go.
#[export] Hint Rewrite @lcount_nil @lcount_cons @lcount_app : go.

(** Split every option/conditional of a hypothesis about a handler. *)
Ltac inv_step H :=
  repeat (case_match || simplify_option_eq); simplify_eq/=;
  try (match type of H with ?x = ?x => clear H end).

(** Case analysis on the conditionals of the goal, closing the easy cases. *)
Ltac go_cases := repeat (case_match || case_decide); simplify_eq/=; try done; try lia.
