(* ===== verification/KvServer.v ===== *)
(** * The key/value server of [kvsrv1]

    Models [src/src/kvsrv1/rpc/rpc.go] (the error names and the RPC argument
    and reply structs) and [src/src/kvsrv1/server.go]: the map of versioned
    values, the queue [opQ] the RPC handlers feed, and the single goroutine
    that serves the queue in order.  A handler sends its operation on [opQ]
    (a channel of capacity 256) and blocks on a private, unbuffered reply
    channel, here named by a number; the loop takes one operation, answers on
    its channel and thereby lets the handler return.

    [KVStore] is the interface the clerk and the lock are verified against:
    a store of independent versioned registers.  [kv_store_laws] discharges
    it for the server's map. *)

From S2P Require Import Prelude.
From stdpp Require Import base gmap strings list.

(** ** rpc.go *)

Definition Err := string.
Bind Scope string_scope with Err.
Definition OK : Err := "OK".
Definition ErrNoKey : Err := "ErrNoKey".
Definition ErrVersion : Err := "ErrVersion".
Definition ErrMaybe : Err := "ErrMaybe".
Definition ErrWrongLeader : Err := "ErrWrongLeader".
Definition ErrWrongGroup : Err := "ErrWrongGroup".

(** [Tversion] is a [uint64]. *)
Definition Tversion := Z.
Bind Scope Z_scope with Tversion.

Record PutArgs := mkPutArgs { put_key : string; put_value : string; put_version : Tversion }.
Record PutReply := mkPutReply { preply_err : Err }.
Record GetArgs := mkGetArgs { get_key : string }.
Record GetReply := mkGetReply { greply_value : string; greply_version : Tversion; greply_err : Err }.

(** ** server.go: data *)

Record kvValue := mkKvValue { value : string; version : Tversion }.

(** A queued operation: its arguments and the reply channel of its handler. *)
Inductive kvOp :=
  | kvOpGet (args : GetArgs) (replyChan : nat)
  | kvOpPut (args : PutArgs) (replyChan : nat).

Inductive kvReply :=
  | RGet (r : GetReply)
  | RPut (r : PutReply).

Record KVServer := mkKVServer { kv : gmap string kvValue; opQ : list kvOp }.

#[export] Instance kvValue_eq_dec : EqDecision kvValue.
Proof. solve_decision. Defined.
#[export] Instance PutArgs_eq_dec : EqDecision PutArgs.
Proof. solve_decision. Defined.
#[export] Instance GetArgs_eq_dec : EqDecision GetArgs.
Proof. solve_decision. Defined.
#[export] Instance kvOp_eq_dec : EqDecision kvOp.
Proof. solve_decision. Defined.

Definition opQ_cap : nat := 256.

Definition op_chan (op : kvOp) : nat :=
  match op with kvOpGet _ c => c | kvOpPut _ c => c end.

Definition op_key (op : kvOp) : string :=
  match op with kvOpGet a _ => get_key a | kvOpPut a _ => put_key a end.

(** ** The body of the serving loop *)

Definition serve_get (m : gmap string kvValue) (args : GetArgs) : GetReply :=
  match m !! get_key args with
  | Some v => mkGetReply (value v) (version v) OK
  | None => mkGetReply "" 0%Z ErrNoKey
  end.

Definition serve_put (m : gmap string kvValue) (args : PutArgs)
    : gmap string kvValue * PutReply :=
  match m !! put_key args with
  | Some v =>
      if decide (version v = put_version args) then
        (<[put_key args := mkKvValue (put_value args) (u64 (version v + 1))]> m, mkPutReply OK)
      else (m, mkPutReply ErrVersion)
  | None =>
      if decide (put_version args = 0%Z) then
        (<[put_key args := mkKvValue (put_value args) 1]> m, mkPutReply OK)
      else (m, mkPutReply ErrNoKey)
  end.

(** One iteration of the goroutine of [MakeKVServer], on the operation taken
    from [opQ]. *)
Definition serve (m : gmap string kvValue) (op : kvOp) : gmap string kvValue * kvReply :=
  match op with
  | kvOpGet args _ => (m, RGet (serve_get m args))
  | kvOpPut args _ => let '(m', r) := serve_put m args in (m', RPut r)
  end.

Definition MakeKVServer : KVServer := mkKVServer ∅ [].

(** ** Handlers, loop and their interleavings *)

(** What an observer of the RPC boundary sees. *)
Inductive hist_event :=
  | HCall (op : kvOp)
  | HReturn (chan : nat) (r : kvReply).

Record server_sys := mkSys {
  sys_srv : KVServer;
  sys_next : nat;               (** the next fresh reply channel *)
  sys_hist : list hist_event    (** oldest first *)
}.

Definition sys_init : server_sys := mkSys MakeKVServer 0 [].

(** [KVServer.Get] and [KVServer.Put] up to the blocking receive: make the
    reply channel and send the operation; [None] while the queue is full. *)
Definition handler_send (mk : nat -> kvOp) (s : server_sys) : option server_sys :=
  let q := opQ (sys_srv s) in
  if decide (length q < opQ_cap) then
    let op := mk (sys_next s) in
    Some (mkSys (mkKVServer (kv (sys_srv s)) (q ++ [op])) (S (sys_next s))
                (sys_hist s ++ [HCall op]))
  else None.

Definition Get (args : GetArgs) : server_sys -> option server_sys :=
  handler_send (kvOpGet args).
Definition Put (args : PutArgs) : server_sys -> option server_sys :=
  handler_send (kvOpPut args).

(** One turn of the loop: receive, serve, answer; the blocked handler returns
    with the reply. [None] while the queue is empty. *)
Definition loop_step (s : server_sys) : option server_sys :=
  match opQ (sys_srv s) with
  | [] => None
  | op :: q =>
      let '(m', r) := serve (kv (sys_srv s)) op in
      Some (mkSys (mkKVServer m' q) (sys_next s) (sys_hist s ++ [HReturn (op_chan op) r]))
  end.

Inductive server_event := EvGet (args : GetArgs) | EvPut (args : PutArgs) | EvLoop.

Definition server_exec (e : server_event) (s : server_sys) : option server_sys :=
  match e with
  | EvGet args => Get args s
  | EvPut args => Put args s
  | EvLoop => loop_step s
  end.

(** ** The interface: a store of independent versioned registers *)

(** What a conditional put does to one register: the new content and the
    error returned. *)
Definition put_result (o : option kvValue) (val : string) (ver : Tversion)
    : option kvValue * Err :=
  match o with
  | Some v => if decide (version v = ver) then (Some (mkKvValue val (u64 (version v + 1))), OK)
              else (o, ErrVersion)
  | None => if decide (ver = 0%Z) then (Some (mkKvValue val 1), OK) else (None, ErrNoKey)
  end.

Class KVStore (St : Type) := {
  st_look : St -> string -> option kvValue;
  st_get : St -> GetArgs -> GetReply;
  st_put : St -> PutArgs -> St * PutReply;
}.

Class KVStoreLaws (St : Type) `{!KVStore St} := {
  st_get_reply s a :
    st_get s a = match st_look s (get_key a) with
                 | Some v => mkGetReply (value v) (version v) OK
                 | None => mkGetReply "" 0%Z ErrNoKey
                 end;
  st_put_reply s a :
    preply_err (st_put s a).2 = (put_result (st_look s (put_key a)) (put_value a) (put_version a)).2;
  st_put_look s a k :
    st_look (st_put s a).1 k =
      if decide (k = put_key a)
      then (put_result (st_look s k) (put_value a) (put_version a)).1
      else st_look s k;
}.

#[export] Instance kv_store : KVStore (gmap string kvValue) := {|
  st_look m k := m !! k;
  st_get := serve_get;
  st_put := serve_put;
|}.

#[export] Instance kv_store_laws : KVStoreLaws (gmap string kvValue).
Proof.
  split.
  - done.
  - intros m a. simpl. unfold serve_put, put_result. go_cases.
  - intros m a k. simpl. unfold serve_put, put_result.
    destruct (decide (k = put_key a)) as [->|Hne].
    + destruct (m !! put_key a) eqn:Hm; case_decide; simpl; by simplify_map_eq.
    + destruct (m !! put_key a); case_decide; simpl; by simplify_map_eq.
Qed.

(** ** Versions *)

Definition reg_ver (o : option kvValue) : Z :=
  match o with Some v => version v | None => 0%Z end.

Definition ver_ok (z : Z) : Prop := (0 <= z < 2 ^ 64)%Z.

Lemma put_result_ok_iff o val ver :
  (put_result o val ver).2 = OK <-> reg_ver o = ver.
Proof. unfold put_result, reg_ver. destruct o; case_decide; simpl; naive_solver. Qed.

Lemma put_result_fail o val ver :
  (put_result o val ver).2 <> OK -> (put_result o val ver).1 = o.
Proof. unfold put_result. destruct o; case_decide; simpl; done. Qed.

Lemma put_result_ok o val ver :
  (reg_ver o < 2 ^ 64 - 1)%Z -> (0 <= reg_ver o)%Z -> (put_result o val ver).2 = OK ->
  (put_result o val ver).1 = Some (mkKvValue val (reg_ver o + 1)).
Proof.
  unfold put_result, reg_ver. intros Hb Hp.
  destruct o; case_decide; simpl; try done; intros _.
  by rewrite wrap_small by lia.
Qed.

Lemma put_result_errs o val ver :
  let e := (put_result o val ver).2 in e = OK \/ e = ErrVersion \/ e = ErrNoKey.
Proof. unfold put_result. destruct o; case_decide; simpl; auto. Qed.

(** A put never removes a key. *)
Lemma put_result_keeps o val ver : is_Some o -> is_Some (put_result o val ver).1.
Proof. intros [v ->]. simpl. case_decide; by eexists. Qed.

Lemma put_result_nokey o val ver :
  (put_result o val ver).2 = ErrNoKey <-> o = None /\ ver <> 0%Z.
Proof. unfold put_result. destruct o; case_decide; simpl; naive_solver. Qed.

Lemma put_result_errversion o val ver :
  (put_result o val ver).2 = ErrVersion <-> is_Some o /\ reg_ver o <> ver.
Proof.
  unfold put_result, reg_ver. destruct o; case_decide; simpl; split; try done;
    try (by intros [[? ?] ?]); by eauto.
Qed.

#[export] Hint Resolve put_result_keeps : go.

(** ** Sequential runs and histories *)

(** The operations [ops] executed one after the other. *)
Fixpoint seq_run (m : gmap string kvValue) (ops : list kvOp)
    : gmap string kvValue * list kvReply :=
  match ops with
  | [] => (m, [])
  | op :: ops' =>
      let '(m1, r) := serve m op in
      let '(m2, rs) := seq_run m1 ops' in (m2, r :: rs)
  end.

Definition hist_calls (h : list hist_event) : list kvOp :=
  omap (fun e => match e with HCall op => Some op | HReturn _ _ => None end) h.
Definition hist_returns (h : list hist_event) : list (nat * kvReply) :=
  omap (fun e => match e with HCall _ => None | HReturn c r => Some (c, r) end) h.

Lemma seq_run_app m ops1 ops2 :
  seq_run m (ops1 ++ ops2) =
  let '(m1, rs1) := seq_run m ops1 in
  let '(m2, rs2) := seq_run m1 ops2 in (m2, rs1 ++ rs2).
Proof.
  revert m. induction ops1 as [|op ops1 IH]; intros m; simpl.
  - by destruct (seq_run m ops2).
  - destruct (serve m op) as [m1 r]. rewrite IH.
    destruct (seq_run m1 ops1) as [m2 rs1]. by destruct (seq_run m2 ops2).
Qed.

Lemma seq_run_length m ops : length (seq_run m ops).2 = length ops.
Proof.
  revert m. induction ops as [|op ops IH]; intros m; simpl; [done|].
  destruct (serve m op) as [m1 r]. specialize (IH m1).
  destruct (seq_run m1 ops) as [m2 rs]. simpl in *. lia.
Qed.

(** [done] is the part of the calls that has been answered. *)
Definition served (s : server_sys) (done : list kvOp) : Prop :=
  hist_calls (sys_hist s) = done ++ opQ (sys_srv s) /\
  (seq_run ∅ done).1 = kv (sys_srv s) /\
  hist_returns (sys_hist s) = zip (op_chan <$> done) (seq_run ∅ done).2 /\
  op_chan <$> hist_calls (sys_hist s) = seq 0 (sys_next s).

Lemma served_init : served sys_init [].
Proof. done. Qed.

Lemma served_send mk s s' done :
  (forall c, op_chan (mk c) = c) ->
  served s done -> handler_send mk s = Some s' -> served s' done.
Proof.
  unfold handler_send, served. intros Hmk (Hc & Hkv & Hr & Hn) Hs.
  case_decide; simplify_eq/=. unfold hist_calls, hist_returns in *.
  rewrite !omap_app. simpl. rewrite Hc, Hr, app_nil_r.
  split_and!; [by rewrite app_assoc|done|done|].
  rewrite fmap_app, <-Hc, Hn. simpl. rewrite Hmk.
  exact (eq_sym (seq_S _ 0)).
Qed.

Lemma served_loop s s' done :
  served s done -> loop_step s = Some s' ->
  exists op, served s' (done ++ [op]) /\ opQ (sys_srv s) = op :: opQ (sys_srv s').
Proof.
  unfold loop_step, served. intros (Hc & Hkv & Hr & Hn) Hs.
  destruct (opQ (sys_srv s)) as [|op q] eqn:Hq; [done|].
  destruct (serve (kv (sys_srv s)) op) as [m' r] eqn:Hserve. simplify_eq/=.
  exists op. split; [|done]. pose proof (seq_run_app ∅ done [op]) as Happ.
  pose proof (seq_run_length ∅ done) as Hlen.
  destruct (seq_run ∅ done) as [m1 rs1] eqn:Hrun. simplify_eq/=.
  rewrite Hserve in Happ. rewrite Happ. unfold hist_calls, hist_returns in *.
  rewrite !omap_app. simpl. rewrite Hc, Hr, app_nil_r.
  split_and!; [by rewrite <-app_assoc|done| |by rewrite <-Hc].
  rewrite fmap_app, zip_with_app by (by rewrite length_fmap). done.
Qed.

Lemma served_reach es s : run server_exec es sys_init = Some s -> exists done, served s done.
Proof.
  apply (run_invariant server_exec (fun s => exists done, served s done)).
  - intros e s1 s2 [done Hd] He. destruct e; simpl in He.
    + exists done. by eapply (served_send (kvOpGet args)).
    + exists done. by eapply (served_send (kvOpPut args)).
    + destruct (served_loop _ _ _ Hd He) as (op & H & _). by exists (done ++ [op]).
  - exists []. apply served_init.
Qed.

(** ** Theorems *)

(** C1: linearizability of the concurrent server.  In every execution of the
    handlers and the loop, the calls answered so far form a prefix of the
    calls made (so answers come in call order, which refines real-time
    order), the store is the result of executing that prefix sequentially
    from the empty map, every answer is the one this sequential execution
    computes and is delivered on its own call's reply channel, and no reply
    channel is shared by two calls. *)
Theorem server_linearizable es s :
  run server_exec es sys_init = Some s ->
  exists done,
    hist_calls (sys_hist s) = done ++ opQ (sys_srv s) /\
    (seq_run ∅ done).1 = kv (sys_srv s) /\
    hist_returns (sys_hist s) = zip (op_chan <$> done) (seq_run ∅ done).2 /\
    NoDup (op_chan <$> hist_calls (sys_hist s)).
Proof.
  intros Hrun. destruct (served_reach _ _ Hrun) as (done & Hc & Hkv & Hr & Hn).
  exists done. split_and!; [done..|]. rewrite Hn. apply NoDup_seq.
Qed.

Lemma loop_drains n s done :
  length (opQ (sys_srv s)) = n -> served s done ->
  exists s', run server_exec (replicate n EvLoop) s = Some s' /\ opQ (sys_srv s') = [] /\
             served s' (done ++ opQ (sys_srv s)).
Proof.
  revert s done. induction n as [|n IH]; intros s done Hlen Hs; simpl.
  - apply nil_length_inv in Hlen. exists s. by rewrite Hlen, app_nil_r.
  - destruct (loop_step s) as [s1|] eqn:Hl.
    2:{ unfold loop_step in Hl. destruct (opQ (sys_srv s)); [done|].
        by destruct (serve _ _). }
    destruct (served_loop _ _ _ Hs Hl) as (op & Hs1 & Hq).
    rewrite Hq in Hlen. simplify_eq/=.
    destruct (IH s1 _ eq_refl Hs1) as (s' & Hr & He & Hd).
    exists s'. split_and!; [done..|]. by rewrite Hq, <-app_assoc in *.
Qed.

(** C40: no call is lost and none waits forever on the loop: from every
    reachable state, as many turns of the loop as there are queued operations
    empty the queue, and then every call made has been answered. *)
Theorem server_answers_all es s :
  run server_exec es sys_init = Some s ->
  exists s', run server_exec (replicate (length (opQ (sys_srv s))) EvLoop) s = Some s' /\
    opQ (sys_srv s') = [] /\
    (hist_returns (sys_hist s')).*1 = op_chan <$> hist_calls (sys_hist s).
Proof.
  intros Hrun. destruct (served_reach _ _ Hrun) as (done & Hs).
  destruct (loop_drains _ s done eq_refl Hs) as (s' & Hr & Hq & Hd).
  exists s'. split_and!; [done..|]. destruct Hd as (_ & _ & Hret & _).
  destruct Hs as (Hc & _). rewrite Hret, Hc, fst_zip; [done|].
  by rewrite length_fmap, seq_run_length.
Qed.

Definition server_demo : list server_event :=
  [EvPut (mkPutArgs "k" "a" 0); EvGet (mkGetArgs "k"); EvLoop; EvPut (mkPutArgs "k" "b" 7);
   EvLoop; EvLoop; EvGet (mkGetArgs "z")].

Lemma server_linearizable_witness :
  exists s, run server_exec server_demo sys_init = Some s /\
  exists done,
    hist_calls (sys_hist s) = done ++ opQ (sys_srv s) /\
    (seq_run ∅ done).1 = kv (sys_srv s) /\
    hist_returns (sys_hist s) = zip (op_chan <$> done) (seq_run ∅ done).2 /\
    NoDup (op_chan <$> hist_calls (sys_hist s)).
Proof.
  destruct (run server_exec server_demo sys_init) as [s|] eqn:H; [|by vm_compute in H].
  exists s. split; [done|]. exact (server_linearizable server_demo s H).
Defined.

Lemma server_answers_all_witness :
  exists s, run server_exec server_demo sys_init = Some s /\
  exists s', run server_exec (replicate (length (opQ (sys_srv s))) EvLoop) s = Some s' /\
    opQ (sys_srv s') = [] /\
    (hist_returns (sys_hist s')).*1 = op_chan <$> hist_calls (sys_hist s).
Proof.
  destruct (run server_exec server_demo sys_init) as [s|] eqn:H; [|by vm_compute in H].
  exists s. split; [done|]. exact (server_answers_all server_demo s H).
Defined.
