(* ===== verification/KvModel.v ===== *)
(** * The linearizability model of [models1]

    Models [src/src/models1/kv.go], the sequential specification the tester
    hands to the porcupine checker: operations are partitioned by key and each
    partition is replayed with [Step] from [Init].  The search porcupine does
    for an order of the operations is not code of the repository; what is
    proved is which orders the model accepts, and that the server's own
    serving order is one of them. *)

From S2P Require Import Prelude KvServer.
From stdpp Require Import base gmap strings list sorting pretty.

Record KvInput := mkKvInput {
  ki_op : Z;   (** uint8: 0 get, 1 put *)
  ki_key : string; ki_value : string; ki_version : Z }.
Record KvOutput := mkKvOutput { ko_value : string; ko_version : Z; ko_err : string }.
Record KvState := mkKvState { ks_value : string; ks_version : Z }.

#[export] Instance KvInput_eq_dec : EqDecision KvInput.
Proof. solve_decision. Defined.
#[export] Instance KvOutput_eq_dec : EqDecision KvOutput.
Proof. solve_decision. Defined.

(** The fields of [porcupine.Operation] the code sets. *)
Record Operation := mkOperation {
  op_ClientId : Z; op_Input : KvInput; op_Call : Z; op_Output : KvOutput; op_Return : Z }.

#[export] Instance Operation_eq_dec : EqDecision Operation.
Proof. solve_decision. Defined.

(** ** KvModel *)

Definition Partition_add (m : gmap string (list Operation)) (v : Operation)
    : gmap string (list Operation) :=
  let key := ki_key (op_Input v) in
  <[key := default [] (m !! key) ++ [v]]> m.

Definition Partition_map (history : list Operation) : gmap string (list Operation) :=
  foldl Partition_add ∅ history.

Definition Partition (history : list Operation) : list (list Operation) :=
  let m := Partition_map history in
  let keys := merge_sort String.le (map_to_list m).*1 in
  (fun k => default [] (m !! k)) <$> keys.

Definition Init : KvState := mkKvState "" 0.

(** The state handed on after a step: a [KvState], or the string ["<invalid>"]
    an unknown operation code leaves behind. *)
Inductive mstate := MState (st : KvState) | MInvalid.

Definition Step (st : KvState) (inp : KvInput) (out : KvOutput) : bool * mstate :=
  if decide (ki_op inp = 0%Z) then
    (bool_decide (ko_value out = ks_value st), MState st)
  else if decide (ki_op inp = 1%Z) then
    if decide (ks_version st = ki_version inp) then
      (bool_decide (ko_err out = "OK" \/ ko_err out = "ErrMaybe"),
       MState (mkKvState (ki_value inp) (u64 (ks_version st + 1))))
    else
      (bool_decide (ko_err out = "ErrVersion" \/ ko_err out = "ErrMaybe"), MState st)
  else (false, MInvalid).

Definition DescribeOperation (inp : KvInput) (out : KvOutput) : string :=
  if decide (ki_op inp = 0%Z) then
    ("get('" ++ ki_key inp ++ "') -> ('" ++ ko_value out ++ "', '" ++ pretty (ko_version out)
      ++ "', '" ++ ko_err out ++ "')")%string
  else if decide (ki_op inp = 1%Z) then
    ("put('" ++ ki_key inp ++ "', '" ++ ki_value inp ++ "', '" ++ pretty (ki_version inp)
      ++ "') -> ('" ++ ko_err out ++ "')")%string
  else "<invalid>".

(** Replaying one partition in the given order. *)
Fixpoint accepts (st : KvState) (ops : list Operation) : bool :=
  match ops with
  | [] => true
  | o :: ops' =>
      match Step st (op_Input o) (op_Output o) with
      | (true, MState st') => accepts st' ops'
      | _ => false
      end
  end.

Definition model_accepts (history : list Operation) : bool :=
  forallb (accepts Init) (Partition history).

(** ** Partition *)

Definition on_key (k : string) (o : Operation) : Prop := ki_key (op_Input o) = k.
#[export] Instance on_key_dec k o : Decision (on_key k o).
Proof. unfold on_key. apply _. Defined.

Lemma Partition_map_from m history k :
  default [] (foldl Partition_add m history !! k)
  = default [] (m !! k) ++ filter (on_key k) history.
Proof.
  revert m. induction history as [|o h IH]; intros m; simpl.
  - by rewrite app_nil_r.
  - rewrite IH, filter_cons. unfold Partition_add; simpl.
    destruct (decide (on_key k o)) as [Hk|Hne]; unfold on_key in *.
    + subst k. rewrite lookup_insert_eq. simpl. by rewrite <-app_assoc.
    + by rewrite lookup_insert_ne.
Qed.

Lemma Partition_map_keys m history k :
  is_Some (foldl Partition_add m history !! k)
  <-> is_Some (m !! k) \/ exists o, o ∈ history /\ on_key k o.
Proof.
  revert m. induction history as [|o h IH]; intros m; simpl.
  - set_solver.
  - rewrite IH. unfold Partition_add, on_key; simpl. destruct (decide (ki_key (op_Input o) = k)) as [<-|Hne].
    + rewrite lookup_insert_eq. split; intros _; [right|left; by eexists].
      exists o. set_solver.
    + rewrite lookup_insert_ne by done. set_solver.
Qed.

Definition history_keys (history : list Operation) : list string :=
  merge_sort String.le (map_to_list (Partition_map history)).*1.

Lemma Partition_keys history :
  Partition history = (fun k => filter (on_key k) history) <$> history_keys history.
Proof.
  unfold Partition, history_keys. apply list_fmap_ext. intros i k _.
  unfold Partition_map. rewrite Partition_map_from. by rewrite lookup_empty.
Qed.

Lemma history_keys_elem history k :
  k ∈ history_keys history <-> exists o, o ∈ history /\ on_key k o.
Proof.
  unfold history_keys. rewrite merge_sort_Permutation.
  transitivity (is_Some (Partition_map history !! k)).
  - rewrite list_elem_of_fmap. split.
    + intros ([k' v] & -> & Hin). apply elem_of_map_to_list in Hin. by eexists.
    + intros [v Hv]. exists (k, v). split; [done|]. by apply elem_of_map_to_list.
  - unfold Partition_map. rewrite Partition_map_keys, lookup_empty.
    split; [intros [[? ?]|?]; done|by right].
Qed.

(** [Partition] splits a history into one group per key that occurs in
    it, the groups in strictly increasing key order, each group holding
    exactly the operations on its key in history order. *)
Theorem Partition_spec history :
  exists keys,
    Partition history = (fun k => filter (on_key k) history) <$> keys /\
    StronglySorted String.le keys /\ NoDup keys /\
    forall k, k ∈ keys <-> exists o, o ∈ history /\ ki_key (op_Input o) = k.
Proof.
  exists (history_keys history). split_and!.
  - apply Partition_keys.
  - apply (StronglySorted_merge_sort String.le).
  - unfold history_keys. rewrite merge_sort_Permutation. apply NoDup_fst_map_to_list.
  - apply history_keys_elem.
Qed.

(** ** The server's serving order is accepted *)

(** The record [kvtest] logs for an operation and its answer. *)
Definition op_record (op : kvOp) (r : kvReply) : Operation :=
  match op, r with
  | kvOpGet a _, RGet g =>
      mkOperation 0 (mkKvInput 0 (get_key a) "" 0) 0
        (mkKvOutput (greply_value g) (greply_version g) (greply_err g)) 0
  | kvOpPut a _, RPut p =>
      mkOperation 0 (mkKvInput 1 (put_key a) (put_value a) (put_version a)) 0
        (mkKvOutput "" 0 (preply_err p)) 0
  | _, _ => mkOperation 0 (mkKvInput 2 "" "" 0) 0 (mkKvOutput "" 0 "") 0
  end.

Definition op_records (ops : list kvOp) (rs : list kvReply) : list Operation :=
  zip_with op_record ops rs.

(** The abstraction of one register of the server: what [Init] and [Step]
    keep for a key; a missing key is the initial state. *)
Definition abs_state (o : option kvValue) : KvState :=
  match o with Some v => mkKvState (value v) (version v) | None => Init end.

(** A put the server refused because the key does not exist. *)
Definition put_nokey (o : Operation) : Prop :=
  ki_op (op_Input o) = 1%Z /\ ko_err (op_Output o) = "ErrNoKey".
#[export] Instance put_nokey_dec o : Decision (put_nokey o).
Proof. unfold put_nokey. apply _. Defined.

(** One operation of the server against one step of the model: they agree,
    except that the model refuses a put answered [ErrNoKey]. *)
Lemma Step_serve m op :
  let '(m', r) := serve m op in
  let o := op_record op r in
  ki_key (op_Input o) = op_key op /\
  (forall k, k <> op_key op -> m' !! k = m !! k) /\
  Step (abs_state (m !! op_key op)) (op_Input o) (op_Output o) =
    (bool_decide (~ put_nokey o), MState (abs_state (m' !! op_key op))).
Proof.
  destruct op as [a c|a c]; simpl.
  - split_and!; [done..|]. unfold Step, serve_get, put_nokey; simpl.
    destruct (m !! get_key a); simpl; f_equal; by rewrite !bool_decide_eq_true_2 by naive_solver.
  - unfold serve_put. destruct (m !! put_key a) as [v|] eqn:Hm; case_decide as Hv; simpl.
    all: split_and!; [done|intros; by simplify_map_eq|].
    all: unfold Step, put_nokey; simpl; simplify_map_eq; simpl.
    all: rewrite ?(decide_True (P := _ = _)) by done; simpl.
    all: rewrite ?(decide_False (P := _ = put_version a)) by done; simpl; try done.
    by rewrite Hm.
Qed.

Lemma accepts_seq_run k ops m :
  accepts (abs_state (m !! k)) (filter (on_key k) (op_records ops (seq_run m ops).2))
  = forallb (fun o => bool_decide (~ put_nokey o))
      (filter (on_key k) (op_records ops (seq_run m ops).2)).
Proof.
  revert m. induction ops as [|op ops IH]; intros m; simpl; [done|].
  pose proof (Step_serve m op) as Hstep. destruct (serve m op) as [m1 r].
  specialize (IH m1). destruct (seq_run m1 ops) as [m2 rs]; simpl in *.
  destruct Hstep as (Hkey & Hframe & Hstep). rewrite filter_cons.
  destruct (decide (on_key k (op_record op r))) as [Hk|Hne]; unfold on_key in *;
    rewrite Hkey in *; simpl.
  - subst k. rewrite Hstep. case_bool_decide; simpl; [by rewrite IH|done].
  - by rewrite <-IH, Hframe by done.
Qed.

(** C21: the server against the checker's model.  The operations served from
    the empty store, in serving order and with the answers given, are
    accepted by [KvModel] exactly when no put among them was answered
    [ErrNoKey]: every other behaviour of the server is a behaviour of the
    model, and an [ErrNoKey] put is one the model has no step for. *)
Theorem model_accepts_serving_order ops :
  let history := op_records ops (seq_run ∅ ops).2 in
  model_accepts history = true <-> Forall (fun o => ~ put_nokey o) history.
Proof.
  intros history. unfold model_accepts. rewrite Partition_keys.
  rewrite <-Is_true_true, forallb_True, Forall_fmap, !Forall_forall.
  assert (Hall : forall k, accepts Init (filter (on_key k) history) =
    forallb (fun o => bool_decide (~ put_nokey o)) (filter (on_key k) history)).
  { intros k. pose proof (accepts_seq_run k ops ∅) as H. by rewrite lookup_empty in H. }
  unfold compose. setoid_rewrite Hall. setoid_rewrite forallb_True.
  setoid_rewrite Forall_forall. split.
  - intros H o Ho. apply (bool_decide_unpack (~ put_nokey o)).
    apply (H (ki_key (op_Input o))).
    + rewrite history_keys_elem. by exists o.
    + by rewrite list_elem_of_filter.
  - intros H k _ o. rewrite list_elem_of_filter. intros [_ Ho].
    apply bool_decide_pack. by apply H.
Qed.
