(* ===== verification/KvClerk.v ===== *)
(** * The key/value clerk of [kvsrv1]

    Models [src/src/kvsrv1/client.go]: the retry loops of [Clerk.Get] and
    [Clerk.Put] over a network that may lose the request, or run the handler
    and lose the reply.  The store is any implementation of the [KVStore]
    interface.  A call is driven by a script with one entry per RPC attempt:
    the puts other clients get served before the attempt reaches the server,
    and what the network does to the attempt.  A finished script leaves the
    loop still retrying ([None]). *)

From S2P Require Import Prelude KvServer.
From stdpp Require Import base gmap strings list.

(** What happens to one RPC ([ck.clnt.Call]). *)
Inductive delivery :=
  | ReqLost      (** the request never reaches the server; [Call] is false *)
  | ReplyLost    (** the handler runs, the reply is lost; [Call] is false *)
  | Delivered.   (** [Call] is true and the reply is the handler's *)

#[export] Instance delivery_eq_dec : EqDecision delivery.
Proof. solve_decision. Defined.

Record attempt := mkAttempt { att_env : list PutArgs; att_delivery : delivery }.

Definition script_puts (script : list attempt) : Z :=
  foldr (fun a n => Z.of_nat (length (att_env a)) + 1 + n)%Z 0%Z script.

(** [RandWait] sleeps [randWaitBaseMs + rand.Intn(randWaitMaxAddedTime + 1)]
    milliseconds; [draw] is the random source's value before the reduction. *)
Definition randWaitBaseMs : Z := 50.
Definition randWaitMaxAddedTime : Z := 150.
Definition RandWait (draw : Z) : Z := (randWaitBaseMs + draw mod (randWaitMaxAddedTime + 1))%Z.

(** The [switch] after a successful [Call]: [Some] is the clerk's return
    value, [None] another turn of the loop. *)
Definition get_switch (reply : GetReply) : option (string * Tversion * Err) :=
  if decide (greply_err reply = OK) then
    Some (greply_value reply, greply_version reply, OK)
  else if decide (greply_err reply = ErrNoKey) then Some ("", 0%Z, ErrNoKey)
  else None.

(** [i] is the number of RPCs sent so far, this one included. *)
Definition put_switch (i : Z) (reply : PutReply) : option Err :=
  if decide (preply_err reply = OK) then Some OK
  else if decide (preply_err reply = ErrVersion) then
    if decide (1 < i)%Z then Some ErrMaybe else Some ErrVersion
  else if decide (preply_err reply = ErrNoKey) then Some ErrNoKey
  else None.

Section Clerk.
Context {St : Type} `{HSt : KVStore St} `{!KVStoreLaws St}.
Implicit Types (s : St) (args : PutArgs) (script : list attempt).

Definition env_puts s (l : list PutArgs) : St := foldl (fun s a => (st_put s a).1) s l.

(** One attempt of a put: the store after it, the server's answer if the
    handler ran, and the reply if it came back. *)
Definition put_call (d : delivery) s args : St * option Err * option PutReply :=
  match d with
  | ReqLost => (s, None, None)
  | ReplyLost => let '(s', r) := st_put s args in (s', Some (preply_err r), None)
  | Delivered => let '(s', r) := st_put s args in (s', Some (preply_err r), Some r)
  end.

Definition get_call (d : delivery) s (args : GetArgs) : option GetReply :=
  match d with
  | ReqLost | ReplyLost => None
  | Delivered => Some (st_get s args)
  end.

(** [Clerk.Put]'s loop, entered with [i] RPCs already sent.  Besides the
    store and the result it returns, for the proofs only, the answers the
    server gave to the clerk's own attempts, lost ones included. *)
Fixpoint clerk_Put (i : Z) (script : list attempt) (s : St) (args : PutArgs)
    : St * option Err * list Err :=
  match script with
  | [] => (s, None, [])
  | a :: script' =>
      let i := u64 (i + 1) in
      let '(s', ans, rep) := put_call (att_delivery a) (env_puts s (att_env a)) args in
      match rep ≫= put_switch i with
      | Some e => (s', Some e, option_list ans)
      | None =>
          let '(s'', res, log) := clerk_Put i script' s' args in
          (s'', res, option_list ans ++ log)
      end
  end.

Fixpoint clerk_Get (script : list attempt) (s : St) (args : GetArgs)
    : St * option (string * Tversion * Err) :=
  match script with
  | [] => (s, None)
  | a :: script' =>
      let s' := env_puts s (att_env a) in
      match get_call (att_delivery a) s' args ≫= get_switch with
      | Some r => (s', Some r)
      | None => clerk_Get script' s' args
      end
  end.

(** ** One register under puts *)

Definition kver s k : Z := reg_ver (st_look s k).

(** How a sequence of at most [n] puts can change the register of [k]. *)
Definition grows (k : string) (n : Z) s s' : Prop :=
  (kver s k <= kver s' k <= kver s k + n)%Z /\
  (is_Some (st_look s k) -> is_Some (st_look s' k)).

Lemma grows_refl k s : grows k 0 s s.
Proof. split; [lia|done]. Qed.

Lemma grows_trans k n1 n2 s1 s2 s3 :
  grows k n1 s1 s2 -> grows k n2 s2 s3 -> grows k (n1 + n2) s1 s3.
Proof. intros [? ?] [? ?]. split; [lia|auto]. Qed.

Lemma put_grows k s args :
  (0 <= kver s k)%Z -> (kver s k + 1 < 2 ^ 64)%Z -> grows k 1 s (st_put s args).1.
Proof.
  unfold grows, kver. intros Hp Hb. rewrite st_put_look. case_decide as Hk; [|split; [lia|done]].
  destruct (decide ((put_result (st_look s k) (put_value args) (put_version args)).2 = OK)) as [Ho|Ho].
  - rewrite put_result_ok by (done || lia). split; [simpl; lia|by eexists].
  - rewrite (put_result_fail _ _ _ Ho). split; [lia|done].
Qed.

Lemma env_grows k l s :
  (0 <= kver s k)%Z -> (kver s k + Z.of_nat (length l) < 2 ^ 64)%Z ->
  grows k (Z.of_nat (length l)) s (env_puts s l).
Proof.
  revert s. induction l as [|a l IH]; intros s Hp Hb; [apply grows_refl|].
  rewrite length_cons in Hb. assert (Hg : grows k 1 s (st_put s a).1) by (apply put_grows; lia).
  replace (Z.of_nat (length (a :: l))) with (1 + Z.of_nat (length l))%Z by (simpl; lia).
  eapply grows_trans; [done|]. destruct Hg as [? ?]. apply IH; lia.
Qed.

(** The clerk's own attempt: it leaves the register alone, or it is
    answered, and an [OK] answer moves exactly the requested version on. *)
Lemma put_call_spec d s args s' ans rep :
  let k := put_key args in
  put_call d s args = (s', ans, rep) ->
  (0 <= kver s k)%Z -> (kver s k + 1 < 2 ^ 64)%Z ->
  grows k 1 s s' /\
  (rep = None \/ exists e, ans = Some e /\ rep = Some (mkPutReply e)) /\
  match ans with
  | None => True
  | Some e =>
      (e = OK /\ kver s k = put_version args /\ kver s' k = (put_version args + 1)%Z
        /\ is_Some (st_look s' k)) \/
      (e = ErrVersion /\ is_Some (st_look s k) /\ kver s k <> put_version args) \/
      (e = ErrNoKey /\ st_look s k = None /\ put_version args <> 0%Z)
  end.
Proof.
  intros k Hcall Hp Hb.
  assert (Hans : let e := preply_err (st_put s args).2 in
      let s' := (st_put s args).1 in
      (e = OK /\ kver s k = put_version args /\ kver s' k = (put_version args + 1)%Z
        /\ is_Some (st_look s' k)) \/
      (e = ErrVersion /\ is_Some (st_look s k) /\ kver s k <> put_version args) \/
      (e = ErrNoKey /\ st_look s k = None /\ put_version args <> 0%Z)).
  { simpl. rewrite st_put_reply. unfold kver at 2. rewrite st_put_look, decide_True by done.
    fold k. set (o := st_look s k).
    destruct (put_result_errs o (put_value args) (put_version args)) as [He|[He|He]].
    - left. rewrite put_result_ok by (done || (unfold o, kver in *; lia)).
      pose proof He as Hv. apply put_result_ok_iff in Hv. simpl. unfold kver. fold o.
      split_and!; [done|done|lia|by eexists].
    - right; left. split; [done|]. by apply put_result_errversion in He.
    - right; right. split; [done|]. by apply put_result_nokey in He. }
  pose proof (put_grows k s args Hp Hb) as Hg.
  destruct d; simpl in Hcall; [|destruct (st_put s args) as [s1 r] eqn:Hput..]; simplify_eq/=.
  - split_and!; [|by left|done]. eapply (grows_trans _ 0 1); [apply grows_refl|].
    split; [lia|done].
  - by split_and!; [|left|].
  - split_and!; [done| |done]. right. exists (preply_err r). by destruct r.
Qed.

(** ** Retries *)

Lemma script_puts_nonneg script : (Z.of_nat (length script) <= script_puts script)%Z.
Proof. induction script as [|a script IH]; simpl; [done|]. unfold script_puts in *. lia. Qed.

(** What the environment and one attempt leave for the rest of a script. *)
Lemma attempt_step a script s args s' ans rep :
  let k := put_key args in
  let s1 := env_puts s (att_env a) in
  put_call (att_delivery a) s1 args = (s', ans, rep) ->
  (0 <= kver s k)%Z -> (kver s k + script_puts (a :: script) < 2 ^ 64)%Z ->
  grows k (Z.of_nat (length (att_env a))) s s1 /\ grows k 1 s1 s' /\
  (0 <= kver s1 k)%Z /\ (kver s1 k + 1 < 2 ^ 64)%Z /\
  (0 <= kver s' k)%Z /\ (kver s' k + script_puts script < 2 ^ 64)%Z.
Proof.
  intros k s1 Hcall Hp Hb. pose proof (script_puts_nonneg script) as Hn. simpl in Hb.
  fold (script_puts script) in Hb.
  pose proof (env_grows k (att_env a) s Hp ltac:(lia)) as He. fold s1 in He.
  destruct He as [He1 He2].
  destruct (put_call_spec _ _ _ _ _ _ Hcall) as (Hg & _); [fold k; lia..|].
  fold k in Hg. pose proof Hg as [Hg1 _]. split_and!; try done; lia.
Qed.

(** Once the version has moved past the requested one, every retry is
    refused and the clerk can only answer [ErrMaybe]. *)
Lemma clerk_Put_spent script i s args s' e log :
  let k := put_key args in
  clerk_Put i script s args = (s', Some e, log) ->
  (1 <= i)%Z -> (i + Z.of_nat (length script) < 2 ^ 64)%Z ->
  (0 <= kver s k)%Z -> (kver s k + script_puts script < 2 ^ 64)%Z ->
  (put_version args < kver s k)%Z -> is_Some (st_look s k) ->
  e = ErrMaybe /\ lcount (fun x => x = OK) log = 0.
Proof.
  intros k; subst k. revert i s log. induction script as [|a script IH]; intros i s log Hrun Hi Hil Hp Hb Hv Hk;
    [done|].
  simpl in Hrun. destruct (put_call (att_delivery a) (env_puts s (att_env a)) args)
    as [[s2 ans] rep] eqn:Hcall.
  destruct (attempt_step _ script _ _ _ _ _ Hcall Hp Hb) as ([Hg1 Hg2] & [Hg3 Hg4] & H1 & H2 & H3 & H4).
  destruct (put_call_spec _ _ _ _ _ _ Hcall H1 H2) as (_ & Hrep & Hans).
  assert (Hnot : forall x, ans = Some x -> x = ErrVersion).
  { intros x ->. destruct Hans as [(_ & ? & _)|[(? & _)|(_ & Hnone & _)]]; [lia|done|].
    destruct (Hg2 Hk) as [? Hsome]. by rewrite Hnone in Hsome. }
  simpl in Hil. rewrite (wrap_small 64) in Hrun by lia.
  assert (Hlog0 : lcount (fun x => x = OK) (option_list ans) = 0).
  { destruct ans as [x|]; [|done]. simpl. rewrite lcount_cons, (Hnot x), decide_False by done. done. }
  destruct (rep ≫= put_switch (i + 1)) as [e'|] eqn:Hsw.
  - simplify_eq. split; [|done]. destruct Hrep as [->|(x & -> & ->)]; [done|].
    rewrite (Hnot x eq_refl) in Hsw. simpl in Hsw. unfold put_switch in Hsw; simpl in Hsw.
    by rewrite decide_True in Hsw by lia; simplify_eq.
  - destruct (clerk_Put (i + 1) script s2 args) as [[s3 res] log'] eqn:Hrec. simplify_eq.
    rewrite lcount_app, Hlog0. eapply IH; eauto; lia.
Qed.

Lemma clerk_Put_sound_from script i s args s' e log :
  let k := put_key args in
  clerk_Put i script s args = (s', Some e, log) ->
  (0 <= i)%Z -> (i + Z.of_nat (length script) < 2 ^ 64)%Z ->
  (0 <= kver s k)%Z -> (kver s k + script_puts script < 2 ^ 64)%Z ->
  (e = OK /\ lcount (fun x => x = OK) log = 1 /\ last log = Some OK) \/
  (e = ErrVersion /\ i = 0%Z /\ log = [ErrVersion]) \/
  (e = ErrNoKey /\ lcount (fun x => x = OK) log = 0) \/
  (e = ErrMaybe /\ lcount (fun x => x = OK) log <= 1).
Proof.
  intros k; subst k. revert i s log. induction script as [|a script IH]; intros i s log Hrun Hi Hil Hp Hb; [done|].
  simpl in Hrun. destruct (put_call (att_delivery a) (env_puts s (att_env a)) args)
    as [[s2 ans] rep] eqn:Hcall.
  destruct (attempt_step _ script _ _ _ _ _ Hcall Hp Hb) as ([Hg1 Hg2] & [Hg3 Hg4] & H1 & H2 & H3 & H4).
  destruct (put_call_spec _ _ _ _ _ _ Hcall H1 H2) as (_ & Hrep & Hans).
  simpl in Hil. rewrite (wrap_small 64) in Hrun by lia.
  destruct (rep ≫= put_switch (i + 1)) as [e'|] eqn:Hsw.
  - simplify_eq. destruct Hrep as [->|(x & -> & ->)]; [done|].
    simpl in Hsw. unfold put_switch in Hsw; simpl in Hsw.
    destruct Hans as [(-> & _)|[(-> & _)|(-> & _)]]; simpl in *; simplify_eq.
    + by left.
    + case_decide; simplify_eq; [by right; right; right; split; [|vm_compute; lia]|].
      right; left. split_and!; [done|lia|done].
    + right; right; left. done.
  - destruct (clerk_Put (i + 1) script s2 args) as [[s3 res] log'] eqn:Hrec. simplify_eq.
    rewrite lcount_app. destruct (decide (ans = Some OK)) as [->|Hno].
    + destruct Hans as [(_ & Hv & Hv' & Hs)|[(? & _)|(? & _)]]; [|done..].
      destruct (clerk_Put_spent _ _ _ _ _ _ _ Hrec) as [-> ->]; lia || eauto.
    + assert (Hl0 : lcount (fun x => x = OK) (option_list ans) = 0).
      { destruct ans as [x|]; [|done]. simpl.
        rewrite lcount_cons, decide_False by congruence. done. }
      rewrite Hl0. edestruct IH as [(-> & Hc & Hl)|[(-> & Hi0 & ->)|[Hn|Hm]]]; eauto; try lia.
      left. split_and!; [done|done|]. by rewrite last_app, Hl.
Qed.

Lemma clerk_Put_terminates_from script i s args :
  Exists (fun a => att_delivery a = Delivered) script -> is_Some (clerk_Put i script s args).1.2.
Proof.
  revert i s. induction script as [|a script IH]; intros i s Hex; [by apply Exists_nil in Hex|].
  simpl. destruct (put_call (att_delivery a) (env_puts s (att_env a)) args) as [[s2 ans] rep] eqn:Hcall.
  destruct (rep ≫= put_switch (u64 (i + 1))) eqn:Hsw; [by eexists|].
  specialize (IH (u64 (i + 1)) s2).
  destruct (clerk_Put (u64 (i + 1)) script s2 args) as [[s3 res] log]. simpl in *.
  apply IH. apply Exists_cons in Hex as [Hd|Hex]; [|done]. exfalso. rewrite Hd in Hcall. simpl in Hcall.
  destruct (st_put _ _) as [s1 r] eqn:Hput. simplify_eq/=.
  pose proof (st_put_reply (env_puts s (att_env a)) args) as Hr. rewrite Hput in Hr; simpl in Hr.
  pose proof (put_result_errs (st_look (env_puts s (att_env a)) (put_key args))
    (put_value args) (put_version args)) as He. simpl in He. rewrite <-Hr in He.
  unfold put_switch in Hsw. destruct He as [He|[He|He]]; rewrite He in Hsw; simpl in Hsw; by repeat case_decide.
Qed.

(** C5: [Clerk.Put] over an unreliable network, with other clients' puts in
    between, while the register's [uint64] version cannot wrap.  The server
    performs the put at most once over all retries, and the result tells
    what it must: [OK] means performed, by the last RPC; [ErrVersion] is
    only ever the answer to the first RPC and means not performed;
    [ErrNoKey] means not performed; [ErrMaybe] leaves both open; nothing
    else is returned. *)
Theorem clerk_Put_at_most_once script s args s' e log :
  clerk_Put 0 script s args = (s', Some e, log) ->
  (0 <= kver s (put_key args))%Z ->
  (kver s (put_key args) + script_puts script < 2 ^ 64)%Z ->
  (e = OK /\ lcount (fun x => x = OK) log = 1 /\ last log = Some OK) \/
  (e = ErrVersion /\ log = [ErrVersion]) \/
  (e = ErrNoKey /\ lcount (fun x => x = OK) log = 0) \/
  (e = ErrMaybe /\ lcount (fun x => x = OK) log <= 1).
Proof.
  intros Hrun Hp Hb. pose proof (script_puts_nonneg script).
  destruct (clerk_Put_sound_from _ _ _ _ _ _ _ Hrun) as [?|[(? & _ & ?)|[?|?]]]; auto; lia.
Qed.

(** the retry loops end as soon as one RPC gets through: if the network
    delivers at least one attempt of the script, both [Clerk.Put] and
    [Clerk.Get] return. *)
Theorem clerk_terminates script s args key :
  Exists (fun a => att_delivery a = Delivered) script ->
  is_Some (clerk_Put 0 script s args).1.2 /\
  is_Some (clerk_Get script s key).2.
Proof.
  intros Hex. split; [by apply clerk_Put_terminates_from|].
  revert s. induction Hex as [a script Hd|a script _ IH]; intros s; simpl.
  - rewrite Hd. simpl. rewrite st_get_reply. by destruct (st_look _ _).
  - by destruct (get_call _ _ _ ≫= _).
Qed.

(** what [Clerk.Get] returns is the content of the store at the moment
    its last RPC is served: the value and version of the key, or
    [("", 0, ErrNoKey)] when it has none.  No other error is returned. *)
Theorem clerk_Get_reads script s key s' r :
  clerk_Get script s key = (s', Some r) ->
  r = match st_look s' (get_key key) with
      | Some v => (value v, version v, OK)
      | None => ("", 0%Z, ErrNoKey)
      end.
Proof.
  revert s. induction script as [|a script IH]; intros s Hrun; [done|]. simpl in Hrun.
  destruct (att_delivery a); simpl in Hrun; [by eapply IH..|].
  rewrite st_get_reply in Hrun.
  destruct (st_look (env_puts s (att_env a)) (get_key key)) eqn:Hl;
    unfold get_switch in Hrun; simpl in Hrun; simplify_eq; by rewrite Hl.
Qed.
End Clerk.

(** ** Witnesses, on the server's map *)

Definition demo_put : PutArgs := mkPutArgs "k" "mine" 1.
Definition demo_store : gmap string kvValue := {["k" := mkKvValue "old" 1]}.
(** The first reply is lost after the server performed the put. *)
Definition demo_performed : list attempt := [mkAttempt [] ReplyLost; mkAttempt [] Delivered].
(** Another client's put gets in first, then the same network behaviour. *)
Definition demo_refused : list attempt :=
  [mkAttempt [mkPutArgs "k" "theirs" 1] ReplyLost; mkAttempt [] Delivered].

Lemma clerk_Put_at_most_once_witness :
  (clerk_Put 0 demo_performed demo_store demo_put).1.2 = Some ErrMaybe /\
  lcount (fun x => x = OK) (clerk_Put 0 demo_performed demo_store demo_put).2 <= 1.
Proof.
  split; [by vm_compute|].
  destruct (clerk_Put 0 demo_performed demo_store demo_put) as [[s' e] log] eqn:H.
  assert (e = Some ErrMaybe) as -> by (change e with (s', e, log).1.2; rewrite <-H; by vm_compute).
  destruct (clerk_Put_at_most_once _ _ _ _ _ _ H ltac:(by vm_compute) ltac:(by vm_compute))
    as [(? & _)|[(? & _)|[(? & _)|(_ & Hc)]]]; [done..|exact Hc].
Defined.

Lemma clerk_terminates_witness :
  is_Some (clerk_Put 0 demo_performed demo_store demo_put).1.2 /\
  is_Some (clerk_Get demo_performed demo_store (mkGetArgs "k")).2.
Proof. apply clerk_terminates. right. by left. Defined.

Lemma clerk_Get_reads_witness :
  (clerk_Get demo_performed demo_store (mkGetArgs "k")).2 = Some ("old", 1%Z, OK) /\
  ("old", 1%Z, OK) =
    match st_look demo_store "k" with
    | Some v => (value v, version v, OK)
    | None => ("", 0%Z, ErrNoKey)
    end.
Proof.
  split; [by vm_compute|].
  exact (clerk_Get_reads demo_performed demo_store (mkGetArgs "k") demo_store _ eq_refl).
Defined.

(** [ErrMaybe] is as precise as the clerk can be.  Two executions in
    which the clerk sees the same RPC outcomes and returns [ErrMaybe] differ
    in whether the server performed the put. *)
Theorem ErrMaybe_undetermined :
  att_delivery <$> demo_performed = att_delivery <$> demo_refused /\
  (clerk_Put 0 demo_performed demo_store demo_put).1.2 = Some ErrMaybe /\
  (clerk_Put 0 demo_refused demo_store demo_put).1.2 = Some ErrMaybe /\
  st_look (clerk_Put 0 demo_performed demo_store demo_put).1.1 "k" = Some (mkKvValue "mine" 2) /\
  st_look (clerk_Put 0 demo_refused demo_store demo_put).1.1 "k" = Some (mkKvValue "theirs" 2).
Proof. by vm_compute. Qed.
