(* ===== verification/Lock.v ===== *)
(** * The lock of [kvsrv1/lock]

    Models [src/src/kvsrv1/lock/lock.go]: [Acquire] and [Release] over a
    key/value clerk.  Any number of clients run the two functions on one lock
    name; their RPC attempts interleave arbitrarily, requests and replies may
    be lost, and other keys may be written meanwhile.  The program counter of
    a client says which clerk call of which function it is in; the decisions
    between the calls are the [acq_after_*] and [rel_after_*] functions, one
    per clerk call of the source.  [holding] is a ghost: it is set when
    [Acquire] returns and cleared when [Release] is called. *)

From S2P Require Import Prelude KvServer KvClerk.
From stdpp Require Import base gmap strings list.

Definition emptyLockOwnerId : string := "".

Inductive lock_pc :=
  | Idle                              (** in neither function *)
  | AcqGet                            (** [Acquire], the [Get] at the top of the loop *)
  | AcqPut (i : Z) (version : Z)      (** [Acquire], inside [Put], [i] RPCs sent *)
  | AcqCheck                          (** [Acquire], the [Get] after [ErrMaybe] *)
  | RelGet | RelPut (i : Z) (version : Z) | RelCheck
  | Crashed (msg : string).           (** a [panic] *)

(** What a branch of the source does next. *)
Inductive flow := Goto (p : lock_pc) | Return | Crash (msg : string).

Definition unowned (ownerId : string) (err : Err) : bool :=
  bool_decide (err = ErrNoKey \/ ownerId = emptyLockOwnerId).

Definition acq_after_get (id ownerId : string) (version : Z) (err : Err) : flow :=
  if negb (unowned ownerId err) then
    if decide (ownerId = id) then Return else Goto AcqGet
  else Goto (AcqPut 0 version).

Definition acq_after_put (err : Err) : flow :=
  if decide (err = OK) then Return
  else if decide (err = ErrVersion) then Goto AcqGet
  else if decide (err = ErrMaybe) then Goto AcqCheck
  else if decide (err = ErrNoKey) then Crash "we fked up the version num"
  else Goto AcqGet.

Definition acq_after_check (id ownerId : string) (err : Err) : flow :=
  if decide (err = ErrNoKey) then Crash "something fked up, lock key was deleted"
  else if decide (ownerId = id) then Return
  else Goto AcqGet.

Definition rel_after_get (id ownerId : string) (version : Z) (err : Err) : flow :=
  if decide (unowned ownerId err = true \/ ownerId <> id) then Return
  else Goto (RelPut 0 version).

Definition rel_after_put (err : Err) : flow :=
  if decide (err = OK) then Return
  else if decide (err = ErrVersion) then Crash "Release ErrVersion"
  else if decide (err = ErrMaybe) then Goto RelCheck
  else if decide (err = ErrNoKey) then Crash "Release ErrNoKey"
  else Goto RelGet.

Definition rel_after_check (ownerId : string) (err : Err) : flow :=
  if decide (err = ErrNoKey) then Crash "something fked up the version num"
  else if decide (ownerId <> emptyLockOwnerId) then Goto RelGet
  else Return.

(** One client: the lock object's [id] (its [name] is the section's), where
    it is, and the ghost. *)
Record client := mkClient { c_id : string; c_pc : lock_pc; c_holding : bool }.

Definition MakeLock (id : string) : client := mkClient id Idle false.

Definition apply_flow (acquiring : bool) (cl : client) (f : flow) : client :=
  match f with
  | Goto p => mkClient (c_id cl) p (c_holding cl)
  | Return => mkClient (c_id cl) Idle acquiring
  | Crash m => mkClient (c_id cl) (Crashed m) (c_holding cl)
  end.

Section Lock.
Context {St : Type} `{HSt : KVStore St} `{!KVStoreLaws St}.
Context (name : string).   (** [lk.name] *)
Implicit Types (s : St) (cl : client).

(** One RPC attempt of the clerk call a client is in. *)
Definition client_step (d : delivery) s cl : St * client :=
  let get k :=
    match get_call d s (mkGetArgs name) ≫= get_switch with
    | Some (ownerId, version, err) => (s, k ownerId version err)
    | None => (s, cl)
    end in
  let put val version i again k :=
    let i := u64 (i + 1) in
    let '(s', _, rep) := put_call d s (mkPutArgs name val version) in
    match rep ≫= put_switch i with
    | Some err => (s', k err)
    | None => (s', mkClient (c_id cl) (again i) (c_holding cl))
    end in
  match c_pc cl with
  | Idle | Crashed _ => (s, cl)
  | AcqGet => get (fun o v e => apply_flow true cl (acq_after_get (c_id cl) o v e))
  | AcqPut i version =>
      put (c_id cl) version i (fun i => AcqPut i version)
        (fun e => apply_flow true cl (acq_after_put e))
  | AcqCheck => get (fun o _ e => apply_flow true cl (acq_after_check (c_id cl) o e))
  | RelGet => get (fun o v e => apply_flow false cl (rel_after_get (c_id cl) o v e))
  | RelPut i version =>
      put emptyLockOwnerId version i (fun i => RelPut i version)
        (fun e => apply_flow false cl (rel_after_put e))
  | RelCheck => get (fun o _ e => apply_flow false cl (rel_after_check o e))
  end.

Record lock_sys := mkLockSys { ls_store : St; ls_clients : list client }.

Inductive lock_event :=
  | EvAcquire (c : nat)                 (** client [c] calls [Acquire] *)
  | EvRelease (c : nat)                 (** client [c] calls [Release] *)
  | EvNet (c : nat) (d : delivery)      (** one RPC attempt of client [c] *)
  | EvOther (args : PutArgs).           (** anybody writes another key *)

Definition lock_exec (e : lock_event) (ls : lock_sys) : option lock_sys :=
  let '(mkLockSys s cls) := ls in
  match e with
  | EvAcquire c =>
      cl ← cls !! c;
      match c_pc cl with
      | Idle => Some (mkLockSys s (<[c := mkClient (c_id cl) AcqGet (c_holding cl)]> cls))
      | _ => None
      end
  | EvRelease c =>
      cl ← cls !! c;
      match c_pc cl with
      | Idle => Some (mkLockSys s (<[c := mkClient (c_id cl) RelGet false]> cls))
      | _ => None
      end
  | EvNet c d =>
      cl ← cls !! c;
      let '(s', cl') := client_step d s cl in
      Some (mkLockSys s' (<[c := cl']> cls))
  | EvOther args =>
      if decide (put_key args = name) then None
      else Some (mkLockSys (st_put s args).1 cls)
  end.

Definition lock_init (s : St) (ids : list string) : lock_sys :=
  mkLockSys s (MakeLock <$> ids).

(** ** The invariant *)

Definition owner (o : option kvValue) : string :=
  match o with Some v => value v | None => emptyLockOwnerId end.

(** [client_ok o cl]: what the register [o] of the lock and the state of
    client [cl] say of each other. *)
Definition client_ok (o : option kvValue) cl : Prop :=
  (c_holding cl = true -> owner o = c_id cl) /\
  match c_pc cl with
  | Idle | AcqGet => True
  | RelGet => c_holding cl = false
  | AcqPut i w =>
      c_holding cl = false /\ (0 <= i)%Z /\ (w <= reg_ver o)%Z /\
      (o = None -> w = 0%Z) /\ (w = reg_ver o -> owner o = emptyLockOwnerId)
  | AcqCheck | RelCheck => c_holding cl = false /\ is_Some o
  | RelPut i w =>
      c_holding cl = false /\ is_Some o /\ (0 <= i)%Z /\ (w <= reg_ver o)%Z /\
      (w = reg_ver o -> owner o = c_id cl) /\ (i = 0%Z -> w = reg_ver o)
  | Crashed _ => False
  end.

Definition pc_count (p : lock_pc) : Z :=
  match p with AcqPut i _ | RelPut i _ => i | _ => 0%Z end.

(** [n] bounds the number of events so far, plus the initial version. *)
Definition lock_inv (ids : list string) (n : Z) (ls : lock_sys) : Prop :=
  let o := st_look (ls_store ls) name in
  (0 <= reg_ver o <= n)%Z /\
  c_id <$> ls_clients ls = ids /\
  Forall (fun cl => client_ok o cl /\ (pc_count (c_pc cl) <= n)%Z) (ls_clients ls).

(** The register changed hands: only the unowned lock or the mover's own
    lock can be moved, and the version goes up. *)
Definition moved (id : string) (o o' : option kvValue) : Prop :=
  o' = o \/
  ((owner o = emptyLockOwnerId \/ owner o = id) /\ is_Some o' /\
   reg_ver o' = (reg_ver o + 1)%Z).

Lemma client_ok_other id o o' cl :
  moved id o o' -> c_id cl <> id -> c_id cl <> emptyLockOwnerId ->
  client_ok o cl -> client_ok o' cl.
Proof.
  intros [->|(Hown & Hsome & Hver)] Hid Hne [Hhold Hpc]; [done|].
  assert (Hnot : owner o <> c_id cl) by (destruct Hown as [-> | ->]; congruence).
  split; [intros H; by destruct Hnot; apply Hhold|].
  destruct (c_pc cl); try done; try (by destruct Hpc).
  - destruct Hpc as (? & ? & ? & ? & ?). split_and!; [done|done|lia|by destruct Hsome; naive_solver|lia].
  - destruct Hpc as (? & ? & ? & ? & Hw & Hi). split_and!; [done..|lia|lia|].
    intros ->. exfalso. by apply Hnot, Hw, Hi.
Qed.

(** ** One attempt of one client *)

Lemma put_call_result d s args s' ans rep :
  put_call d s args = (s', ans, rep) ->
  (rep = None \/ rep = Some (mkPutReply
    (put_result (st_look s (put_key args)) (put_value args) (put_version args)).2)) /\
  (s' = s /\ rep = None \/
   s' = (st_put s args).1 /\ st_look s' (put_key args) =
     (put_result (st_look s (put_key args)) (put_value args) (put_version args)).1).
Proof.
  intros Hcall. pose proof (st_put_reply s args) as Hr.
  pose proof (st_put_look s args (put_key args)) as Hl. rewrite decide_True in Hl by done.
  destruct d; simpl in Hcall; [|destruct (st_put s args) as [s1 [e]]..]; simplify_eq/=; rewrite <-?Hr; auto.
Qed.

(** The register after a put of a client whose version [w] is not ahead. *)
Lemma put_moved o id val w :
  (0 <= reg_ver o)%Z -> (reg_ver o + 1 < 2 ^ 64)%Z -> (w <= reg_ver o)%Z ->
  (w = reg_ver o -> owner o = emptyLockOwnerId \/ owner o = id) ->
  let r := put_result o val w in
  moved id o r.1 /\
  ((r.2 = OK /\ w = reg_ver o /\ r.1 = Some (mkKvValue val (reg_ver o + 1))) \/
   (r.2 = ErrVersion /\ is_Some o /\ r.1 = o /\ (w < reg_ver o)%Z) \/
   (r.2 = ErrNoKey /\ o = None /\ w <> 0%Z)).
Proof.
  intros Hp Hb Hw Hown r. destruct (put_result_errs o val w) as [He|[He|He]].
  - pose proof He as Hv. apply put_result_ok_iff in Hv.
    assert (r.1 = Some (mkKvValue val (reg_ver o + 1))) as Hr by (apply put_result_ok; [lia..|done]).
    rewrite Hr. split; [|by left]. right. split_and!; [by apply Hown|by eexists|done].
  - assert (r.1 = o) as Hr by (apply put_result_fail; unfold r; by rewrite He).
    apply put_result_errversion in He as [? ?].
    split; [by left|]. right; left. split_and!; [|done|done|lia].
    apply put_result_errversion; split; [done|lia].
  - assert (r.1 = o) as Hr by (apply put_result_fail; unfold r; by rewrite He).
    split; [by left|]. right; right. split; [done|]. by apply put_result_nokey in He.
Qed.

Lemma client_step_frame d s cl s' cl' k :
  client_step d s cl = (s', cl') -> k <> name ->
  st_look s' k = st_look s k /\ c_id cl' = c_id cl.
Proof.
  intros Hstep Hk. unfold client_step in Hstep.
  assert (Hid : forall b f, c_id (apply_flow b cl f) = c_id cl) by (by intros b []).
  destruct (c_pc cl); simpl in Hstep; simplify_eq; try done;
    try (repeat case_match; simplify_eq; by rewrite ?Hid).
  all: destruct (put_call _ _ _) as [[s1 ans] rep] eqn:Hcall;
    destruct (put_call_result _ _ _ _ _ _ Hcall) as [_ Hs1];
    assert (st_look s1 k = st_look s k) by
      (destruct Hs1 as [[-> _]|[-> _]]; [done|]; by rewrite st_put_look, decide_False);
    repeat case_match; simplify_eq; by rewrite ?Hid.
Qed.

Lemma get_result d s r :
  get_call d s (mkGetArgs name) ≫= get_switch = Some r ->
  match st_look s name with
  | Some v => r = (value v, version v, OK)
  | None => r = (emptyLockOwnerId, 0%Z, ErrNoKey)
  end.
Proof.
  intros H. destruct d; simpl in H; try done. rewrite st_get_reply in H. simpl in H.
  destruct (st_look s name); unfold get_switch in H; simpl in H; by simplify_eq.
Qed.

(** What one attempt must establish, from a register [o] to [o']. *)
Definition step_ok (n : Z) (o o' : option kvValue) cl cl' : Prop :=
  c_id cl' = c_id cl /\ client_ok o' cl' /\ moved (c_id cl) o o' /\
  (pc_count (c_pc cl') <= n + 1)%Z.

(** The three [Get]s: the register is unchanged. *)
Lemma step_ok_get n o cl f b :
  client_ok o cl -> (0 <= n)%Z ->
  match f with
  | Goto p => client_ok o (mkClient (c_id cl) p (c_holding cl)) /\ pc_count p = 0%Z
  | Return => b = true -> owner o = c_id cl
  | Crash _ => False
  end ->
  step_ok n o o cl (apply_flow b cl f).
Proof.
  intros Hok Hn. destruct f as [p| |m]; simpl; [intros [? ?]|intros ?|done].
  - split_and!; [done|done|by left|simpl; lia].
  - split_and!; [done|by split|by left|simpl; lia].
Qed.

Lemma acq_get_ok n o cl own v e :
  client_ok o cl -> c_pc cl = AcqGet -> (0 <= n)%Z -> c_id cl <> emptyLockOwnerId ->
  match o with
  | Some w => (own, v, e) = (value w, version w, OK)
  | None => (own, v, e) = (emptyLockOwnerId, 0%Z, ErrNoKey)
  end ->
  step_ok n o o cl (apply_flow true cl (acq_after_get (c_id cl) own v e)).
Proof.
  intros Hok Hpc Hn Hne Hr. apply step_ok_get; [done..|]. destruct Hok as [Hhold _].
  assert (Hnh : owner o <> c_id cl -> c_holding cl = false).
  { intros Ho. destruct (c_holding cl); [|done]. by destruct Ho; apply Hhold. }
  unfold acq_after_get, unowned. destruct o as [w|]; simplify_eq; case_bool_decide as Hu; simpl.
  - destruct Hu as [?|Hu]; [done|]. simpl in Hnh. rewrite Hu in Hnh.
    split; [|done]. split; simpl; [by rewrite Hnh|]. split_and!; try done. by apply Hnh.
  - case_decide; simpl; [done|]. split; [|done]. split; [done|by simpl].
  - split; [|done]. split; simpl in *; [by rewrite Hnh|]. split_and!; try done. by apply Hnh.
  - destruct Hu. by left.
Qed.

Lemma acq_check_ok n o cl own v e :
  client_ok o cl -> c_pc cl = AcqCheck -> (0 <= n)%Z ->
  match o with
  | Some w => (own, v, e) = (value w, version w, OK)
  | None => (own, v, e) = (emptyLockOwnerId, 0%Z, ErrNoKey)
  end ->
  step_ok n o o cl (apply_flow true cl (acq_after_check (c_id cl) own e)).
Proof.
  intros Hok Hpc Hn Hr. apply step_ok_get; [done..|]. destruct Hok as [Hhold Hs].
  rewrite Hpc in Hs. destruct Hs as [Hh [w ->]]. simplify_eq.
  unfold acq_after_check. rewrite decide_False by done. case_decide; [done|].
  split; [|done]. split; [by rewrite Hh|done].
Qed.

Lemma rel_get_ok n o cl own v e :
  client_ok o cl -> c_pc cl = RelGet -> (0 <= n)%Z ->
  match o with
  | Some w => (own, v, e) = (value w, version w, OK)
  | None => (own, v, e) = (emptyLockOwnerId, 0%Z, ErrNoKey)
  end ->
  step_ok n o o cl (apply_flow false cl (rel_after_get (c_id cl) own v e)).
Proof.
  intros Hok Hpc Hn Hr. apply step_ok_get; [done..|]. destruct Hok as [Hhold Hs].
  rewrite Hpc in Hs. unfold rel_after_get, unowned. case_decide as Hd; [done|].
  destruct o as [w|]; simplify_eq; [|destruct Hd; left; by rewrite bool_decide_eq_true_2; auto].
  split; [|done]. split; simpl; [by rewrite Hs|].
  split_and!; try done. intros _. destruct (decide (value w = c_id cl)); [done|].
  destruct Hd. by right.
Qed.

Lemma rel_check_ok n o cl own v e :
  client_ok o cl -> c_pc cl = RelCheck -> (0 <= n)%Z ->
  match o with
  | Some w => (own, v, e) = (value w, version w, OK)
  | None => (own, v, e) = (emptyLockOwnerId, 0%Z, ErrNoKey)
  end ->
  step_ok n o o cl (apply_flow false cl (rel_after_check own e)).
Proof.
  intros Hok Hpc Hn Hr. apply step_ok_get; [done..|]. destruct Hok as [Hhold Hs].
  rewrite Hpc in Hs. destruct Hs as [Hh [w ->]]. simplify_eq.
  unfold rel_after_check. rewrite decide_False by done. case_decide; [|done].
  split; [|done]. by split; [rewrite Hh|].
Qed.

Ltac lk := try done; try lia; try (by eexists); try (split; [done|by eexists]).

(** The two [Put]s.  [after] is the branch taken on the clerk's result. *)
Lemma acq_put_ok n o cl i w rep o' :
  client_ok o cl -> c_pc cl = AcqPut i w -> c_id cl <> emptyLockOwnerId ->
  (0 <= reg_ver o)%Z -> (reg_ver o + 1 < 2 ^ 64)%Z -> (i <= n)%Z ->
  let r := put_result o (c_id cl) w in
  (rep = None \/ rep = Some (mkPutReply r.2)) ->
  (o' = o /\ rep = None \/ o' = r.1) ->
  step_ok n o o' cl
    match rep ≫= put_switch (i + 1) with
    | Some err => apply_flow true cl (acq_after_put err)
    | None => mkClient (c_id cl) (AcqPut (i + 1) w) (c_holding cl)
    end.
Proof.
  intros [Hhold Hs] Hpc Hne Hp Hb Hin r Hrep Ho'. rewrite Hpc in Hs.
  destruct Hs as (Hh & Hi & Hw & Hnone & Hown).
  destruct (put_moved o (c_id cl) (c_id cl) w Hp Hb Hw) as [Hmv Hres]; [by auto|]. fold r in Hmv, Hres.
  assert (Hmv' : moved (c_id cl) o o') by (destruct Ho' as [[-> _]| ->]; [by left|done]).
  destruct Hrep as [->|Hrep]; simpl.
  - split_and!; [done| |done|simpl; lia]. split; [by rewrite Hh|]. simpl.
    destruct Ho' as [[-> _]| ->]; [split_and!; lk|].
    destruct Hres as [(_ & Hv & ->)|[(_ & [? ?] & -> & ?)|(_ & ? & ?)]]; [..|by destruct Hnone].
    + split_and!; simpl; lk.
    + split_and!; lk.
  - destruct Ho' as [[_ ?]| ->]; [by rewrite Hrep in *|]. rewrite Hrep. simpl. unfold put_switch. simpl.
    destruct Hres as [(-> & Hv & Hr)|[(-> & [? ?] & Hr & ?)|(_ & ? & ?)]]; [..|by destruct Hnone]; simpl.
    + rewrite Hr in *. split_and!; [done|by split|done|simpl; lia].
    + rewrite Hr in *. case_decide; simpl; split_and!; lk; simpl; lk; split; simpl; lk; by rewrite Hh.
Qed.

Lemma rel_put_ok n o cl i w rep o' :
  client_ok o cl -> c_pc cl = RelPut i w ->
  (0 <= reg_ver o)%Z -> (reg_ver o + 1 < 2 ^ 64)%Z -> (i <= n)%Z ->
  let r := put_result o emptyLockOwnerId w in
  (rep = None \/ rep = Some (mkPutReply r.2)) ->
  (o' = o /\ rep = None \/ o' = r.1) ->
  step_ok n o o' cl
    match rep ≫= put_switch (i + 1) with
    | Some err => apply_flow false cl (rel_after_put err)
    | None => mkClient (c_id cl) (RelPut (i + 1) w) (c_holding cl)
    end.
Proof.
  intros [Hhold Hs] Hpc Hp Hb Hin r Hrep Ho'. rewrite Hpc in Hs.
  destruct Hs as (Hh & Hsome & Hi & Hw & Hown & Hi0).
  destruct (put_moved o (c_id cl) emptyLockOwnerId w Hp Hb Hw) as [Hmv Hres]; [by auto|].
  fold r in Hmv, Hres.
  assert (Hmv' : moved (c_id cl) o o') by (destruct Ho' as [[-> _]| ->]; [by left|done]).
  destruct Hrep as [->|Hrep]; simpl.
  - split_and!; [done| |done|simpl; lia]. split; [by rewrite Hh|]. simpl.
    destruct Ho' as [[-> _]| ->]; [split_and!; lk|].
    destruct Hres as [(_ & Hv & ->)|[(_ & _ & -> & ?)|(_ & -> & ?)]]; [..|by destruct Hsome].
    + split_and!; simpl; lk.
    + split_and!; lk.
  - destruct Ho' as [[_ ?]| ->]; [by rewrite Hrep in *|]. rewrite Hrep. simpl. unfold put_switch. simpl.
    destruct Hres as [(-> & Hv & Hr)|[(-> & _ & Hr & ?)|(_ & -> & ?)]]; [..|by destruct Hsome]; simpl.
    + rewrite Hr in *. split_and!; [done|by split|done|simpl; lia].
    + rewrite Hr in *. rewrite decide_True by (assert (i <> 0%Z) by (intros ->; lia); lia).
      simpl. split_and!; [done| |done|simpl; lia]. split; [by rewrite Hh|done].
Qed.

Lemma client_step_ok d s cl s' cl' n :
  client_step d s cl = (s', cl') ->
  let o := st_look s name in
  client_ok o cl -> c_id cl <> emptyLockOwnerId ->
  (0 <= reg_ver o <= n)%Z -> (n + 1 < 2 ^ 64)%Z -> (pc_count (c_pc cl) <= n)%Z ->
  step_ok n o (st_look s' name) cl cl'.
Proof.
  intros Hstep o Hok Hne [Hp Hn] Hb Hi.
  assert (Hstay : step_ok n o o cl cl) by (split_and!; [done..|by left|lia]).
  unfold client_step in Hstep. cbv zeta beta in Hstep. destruct (c_pc cl) as [| |i w| | |i w| |m] eqn:Hpc.
  1,8: by injection Hstep as <- <-.
  1,3,4,6: case_match eqn:Hg; [destruct p as [[own v] e]|];
    injection Hstep as <- <-; [|done]; apply get_result in Hg; fold o in Hg.
  - apply acq_get_ok; [done..|lia|done|exact Hg].
  - eapply acq_check_ok; [done..|lia|exact Hg].
  - apply rel_get_ok; [done..|lia|exact Hg].
  - eapply rel_check_ok; [done..|lia|exact Hg].
  - destruct (put_call _ _ _) as [[s1 ans] rep] eqn:Hcall.
    destruct (put_call_result _ _ _ _ _ _ Hcall) as [Hrep Hs1]. simpl in Hrep, Hs1, Hi.
    assert (0 <= i)%Z by (destruct Hok as [_ Hs]; rewrite Hpc in Hs; tauto).
    rewrite (wrap_small 64) in Hstep by lia.
    assert (Hfin := acq_put_ok n o cl i w rep (st_look s1 name) Hok Hpc Hne Hp ltac:(lia) Hi Hrep).
    destruct (rep ≫= put_switch (i + 1)); simplify_eq; apply Hfin; naive_solver.
  - destruct (put_call _ _ _) as [[s1 ans] rep] eqn:Hcall.
    destruct (put_call_result _ _ _ _ _ _ Hcall) as [Hrep Hs1]. simpl in Hrep, Hs1, Hi.
    assert (0 <= i)%Z by (destruct Hok as [_ Hs]; rewrite Hpc in Hs; tauto).
    rewrite (wrap_small 64) in Hstep by lia.
    assert (Hfin := rel_put_ok n o cl i w rep (st_look s1 name) Hok Hpc Hp ltac:(lia) Hi Hrep).
    destruct (rep ≫= put_switch (i + 1)); simplify_eq; apply Hfin; naive_solver.
Qed.

(** ** All clients together *)

Definition ids_ok (ids : list string) : Prop := NoDup ids /\ emptyLockOwnerId ∉ ids.

Lemma lock_inv_lookup ids n ls c cl :
  lock_inv ids n ls -> ls_clients ls !! c = Some cl ->
  ids !! c = Some (c_id cl) /\ client_ok (st_look (ls_store ls) name) cl /\
  (pc_count (c_pc cl) <= n)%Z.
Proof.
  intros (_ & <- & Hall) Hc. rewrite list_lookup_fmap, Hc.
  destruct (Forall_lookup_1 _ _ _ _ Hall Hc) as [? ?]. done.
Qed.

(** Client [c] moves from [cl] to [cl'] and the register with it. *)
Lemma lock_inv_update ids n s cls s' c cl cl' :
  ids_ok ids -> lock_inv ids n (mkLockSys s cls) -> cls !! c = Some cl ->
  step_ok n (st_look s name) (st_look s' name) cl cl' ->
  lock_inv ids (n + 1) (mkLockSys s' (<[c := cl']> cls)).
Proof.
  intros [Hnd Hne] Hinv Hc (Hid & Hok & Hmv & Hn).
  destruct (lock_inv_lookup _ _ _ _ _ Hinv Hc) as (Hids & _ & _). simpl in *.
  destruct Hinv as ([Hv1 Hv2] & Hmap & Hall). unfold lock_inv; simpl in *. split_and!.
  - destruct Hmv as [->|(_ & _ & ->)]; lia.
  - destruct Hmv as [->|(_ & _ & ->)]; lia.
  - rewrite list_fmap_insert, Hid, <-Hmap. apply list_insert_id. by rewrite list_lookup_fmap, Hc.
  - apply Forall_lookup_2. intros j clj Hj.
    rewrite list_lookup_insert in Hj. case_decide as Hjc; [by simplify_eq|].
    destruct (Forall_lookup_1 _ _ _ _ Hall Hj) as [Hokj Hcj]. split; [|lia].
    eapply client_ok_other; [done| | |done].
    + intros Heq. assert (j = c); [|naive_solver eauto using lookup_lt_Some].
      eapply NoDup_lookup; [done| |done]. by rewrite <-Hmap, list_lookup_fmap, Hj, <-Heq.
    + intros Heq. apply Hne. rewrite <-Heq, <-Hmap.
      apply list_elem_of_fmap. exists clj. split; [done|]. by eapply list_elem_of_lookup_2.
Qed.

Lemma lock_exec_inv ids n e ls ls' :
  ids_ok ids -> (n + 1 < 2 ^ 64)%Z -> lock_inv ids n ls -> lock_exec e ls = Some ls' ->
  lock_inv ids (n + 1) ls'.
Proof.
  intros Hids Hn Hinv Hstep. destruct ls as [s cls]. destruct e as [c|c|c d|args]; simpl in Hstep.
  1-3: destruct (cls !! c) as [cl|] eqn:Hc; simpl in Hstep; [|done];
    destruct (lock_inv_lookup _ _ _ _ _ Hinv Hc) as (Hidc & [Hhold Hok] & Hpc); simpl in *.
  - destruct (c_pc cl) eqn:Hcpc; simplify_eq. eapply lock_inv_update; [done..|].
    split_and!; [done|by split|by left|simpl; destruct Hinv; lia].
  - destruct (c_pc cl) eqn:Hcpc; simplify_eq. eapply lock_inv_update; [done..|].
    split_and!; [done|by split|by left|simpl; destruct Hinv; lia].
  - destruct (client_step d s cl) as [s' cl'] eqn:Hcl. simplify_eq.
    eapply lock_inv_update; [done..|]. destruct Hinv as (? & <- & ?).
    eapply client_step_ok; [done|by split| |done..].
    intros Heq. apply Hids. rewrite <-Heq. by eapply list_elem_of_lookup_2.
  - case_decide as Hk; simplify_eq. destruct Hinv as (Hv & Hm & Hall).
    unfold lock_inv. simpl in *. rewrite st_put_look, decide_False by done.
    split_and!; [lia..|done|]. eapply Forall_impl; [done|]. simpl. intros ? [? ?]. split; [done|lia].
Qed.

Lemma lock_run_inv ids es n ls ls' :
  ids_ok ids -> (n + Z.of_nat (length es) < 2 ^ 64)%Z -> lock_inv ids n ls ->
  run lock_exec es ls = Some ls' -> lock_inv ids (n + Z.of_nat (length es)) ls'.
Proof.
  intros Hids. revert n ls. induction es as [|e es IH]; intros n ls Hn Hinv Hrun; simpl in Hrun.
  - simplify_eq. by rewrite Z.add_0_r.
  - destruct (lock_exec e ls) as [ls1|] eqn:He; [|done]. rewrite length_cons in *.
    replace (n + Z.of_nat (S (length es)))%Z with (n + 1 + Z.of_nat (length es))%Z by lia.
    apply (IH _ ls1); [lia|by eapply lock_exec_inv; eauto; lia|done].
Qed.

Lemma lock_init_inv s ids :
  (0 <= kver s name)%Z -> lock_inv ids (kver s name) (lock_init s ids).
Proof.
  intros Hv. split_and!; [done|done| |].
  - simpl. rewrite <-list_fmap_compose. apply list_fmap_id.
  - apply Forall_fmap, Forall_true. intros id. by split.
Qed.

(** Everything a schedule from an initial state satisfies. *)
Definition lock_run_from (s : St) (ids : list string) (es : list lock_event) (ls : lock_sys) : Prop :=
  ids_ok ids /\ (0 <= kver s name)%Z /\ (kver s name + Z.of_nat (length es) < 2 ^ 64)%Z /\
  run lock_exec es (lock_init s ids) = Some ls.

Lemma lock_run_from_inv s ids es ls :
  lock_run_from s ids es ls -> lock_inv ids (kver s name + Z.of_nat (length es)) ls.
Proof.
  intros (Hids & Hv & Hn & Hrun). eapply lock_run_inv; [done..| |done]. by apply lock_init_inv.
Qed.

(** C2: mutual exclusion.  However the clients' calls, their RPC attempts
    and the losses interleave, starting from any store whose version for
    the lock's key cannot wrap during the run, no two clients hold the lock
    at the same time. *)
Theorem lock_mutual_exclusion s ids es ls c1 c2 cl1 cl2 :
  lock_run_from s ids es ls ->
  ls_clients ls !! c1 = Some cl1 -> c_holding cl1 = true ->
  ls_clients ls !! c2 = Some cl2 -> c_holding cl2 = true ->
  c1 = c2.
Proof.
  intros Hrun H1 Hh1 H2 Hh2. pose proof (lock_run_from_inv _ _ _ _ Hrun) as Hinv.
  destruct (lock_inv_lookup _ _ _ _ _ Hinv H1) as (Hi1 & [Ho1 _] & _).
  destruct (lock_inv_lookup _ _ _ _ _ Hinv H2) as (Hi2 & [Ho2 _] & _).
  destruct Hrun as ([Hnd _] & _). eapply NoDup_lookup; [done|done|].
  by rewrite Hi2, <-(Ho1 Hh1), <-(Ho2 Hh2).
Qed.

(** none of the four [panic]s of [Acquire] and [Release] is reachable,
    and a client that holds the lock is the owner the server stores. *)
Theorem lock_no_panic s ids es ls c cl :
  lock_run_from s ids es ls -> ls_clients ls !! c = Some cl ->
  (forall m, c_pc cl <> Crashed m) /\
  (c_holding cl = true -> exists v, st_look (ls_store ls) name = Some v /\ value v = c_id cl).
Proof.
  intros Hrun Hc. pose proof (lock_run_from_inv _ _ _ _ Hrun) as Hinv.
  destruct (lock_inv_lookup _ _ _ _ _ Hinv Hc) as (Hid & [Hhold Hok] & _). split.
  - intros m Hm. by rewrite Hm in Hok.
  - intros Hh. specialize (Hhold Hh). destruct Hrun as ([_ Hne] & _).
    destruct (st_look (ls_store ls) name) as [v|]; simpl in Hhold; [by exists v|].
    exfalso. apply Hne. rewrite Hhold. by eapply list_elem_of_lookup_2.
Qed.

(** ** A client left alone finishes *)

Definition acquiring (p : lock_pc) : bool :=
  match p with AcqGet | AcqPut _ _ | AcqCheck => true | _ => false end.
Definition releasing (p : lock_pc) : bool :=
  match p with RelGet | RelPut _ _ | RelCheck => true | _ => false end.

(** How many delivered RPCs the client still needs. *)
Definition rank (o : option kvValue) (p : lock_pc) : nat :=
  match p with
  | Idle | Crashed _ => 0
  | AcqGet | RelGet => 2
  | AcqCheck | RelCheck => 3
  | AcqPut _ w | RelPut _ w => if decide (w = reg_ver o) then 1 else 4
  end.

(** [goal_ok p o cl]: what the function [p] is in achieves when it returns. *)
Definition goal_ok (p : lock_pc) (o : option kvValue) cl : Prop :=
  (acquiring p = true -> c_holding cl = true /\ owner o = c_id cl) /\
  (releasing p = true -> c_holding cl = false /\ owner o <> c_id cl).

Definition alone_ok (o : option kvValue) cl : Prop :=
  acquiring (c_pc cl) = true -> owner o = emptyLockOwnerId \/ owner o = c_id cl.

Definition progress (o o' : option kvValue) cl cl' : Prop :=
  (c_pc cl' = Idle /\ goal_ok (c_pc cl) o' cl') \/
  (o' = o /\ rank o (c_pc cl') < rank o (c_pc cl) /\ c_pc cl' <> Idle /\
   acquiring (c_pc cl') = acquiring (c_pc cl) /\ releasing (c_pc cl') = releasing (c_pc cl)).

Lemma progress_put_acq o cl i w :
  client_ok o cl -> c_pc cl = AcqPut i w -> c_id cl <> emptyLockOwnerId ->
  (0 <= reg_ver o)%Z -> (reg_ver o + 1 < 2 ^ 64)%Z ->
  let r := put_result o (c_id cl) w in
  match put_switch (i + 1) (mkPutReply r.2) with
  | Some err => progress o r.1 cl (apply_flow true cl (acq_after_put err))
  | None => False
  end.
Proof.
  intros [_ Hs] Hpc Hne Hp Hb r. rewrite Hpc in Hs. destruct Hs as (Hh & Hi & Hw & Hnone & Hown).
  destruct (put_moved o (c_id cl) (c_id cl) w Hp Hb Hw) as [_ Hres]; [by auto|]. fold r in Hres.
  unfold put_switch, progress, goal_ok. rewrite Hpc. simpl.
  destruct Hres as [(-> & Hv & Hr)|[(-> & _ & Hr & ?)|(_ & ? & ?)]]; [..|by destruct Hnone]; simpl.
  - left. rewrite Hr. done.
  - rewrite Hr, (decide_False (P := w = _)) by lia.
    case_decide; simpl; right; split_and!; done || lia.
Qed.

Lemma progress_put_rel o cl i w :
  client_ok o cl -> c_pc cl = RelPut i w -> c_id cl <> emptyLockOwnerId ->
  (0 <= reg_ver o)%Z -> (reg_ver o + 1 < 2 ^ 64)%Z ->
  let r := put_result o emptyLockOwnerId w in
  match put_switch (i + 1) (mkPutReply r.2) with
  | Some err => progress o r.1 cl (apply_flow false cl (rel_after_put err))
  | None => False
  end.
Proof.
  intros [_ Hs] Hpc Hne Hp Hb r. rewrite Hpc in Hs. destruct Hs as (Hh & Hsome & Hi & Hw & Hown & Hi0).
  destruct (put_moved o (c_id cl) emptyLockOwnerId w Hp Hb Hw) as [_ Hres]; [by auto|]. fold r in Hres.
  unfold put_switch, progress, goal_ok. rewrite Hpc. simpl.
  destruct Hres as [(-> & Hv & Hr)|[(-> & _ & Hr & ?)|(_ & -> & ?)]]; [..|by destruct Hsome]; simpl.
  - left. rewrite Hr. done.
  - rewrite Hr, (decide_False (P := w = _)) by lia.
    rewrite decide_True by (assert (i <> 0%Z) by (intros ->; lia); lia). simpl.
    right. split_and!; done || lia.
Qed.

Lemma delivered_get s o f cl :
  st_look s name = o ->
  match get_call Delivered s (mkGetArgs name) ≫= get_switch with
  | Some (ownerId, version, err) => (s, f ownerId version err)
  | None => (s, cl)
  end = match o with
        | Some v => (s, f (value v) (version v) OK)
        | None => (s, f emptyLockOwnerId 0%Z ErrNoKey)
        end :> St * client.
Proof. intros <-. simpl. rewrite st_get_reply; simpl. by destruct (st_look s name). Qed.

Lemma delivered_put s args r :
  st_put s args = r -> put_call Delivered s args = (r.1, Some (preply_err r.2), Some r.2).
Proof. intros <-. simpl. by destruct (st_put s args). Qed.

Lemma delivered_progress s cl s' cl' n o :
  client_step Delivered s cl = (s', cl') -> st_look s name = o ->
  client_ok o cl -> alone_ok o cl -> c_pc cl <> Idle -> c_id cl <> emptyLockOwnerId ->
  (0 <= reg_ver o <= n)%Z -> (n + 1 < 2 ^ 64)%Z -> (pc_count (c_pc cl) <= n)%Z ->
  progress o (st_look s' name) cl cl'.
Proof.
  intros Hstep Ho Hok Hal Hidle Hne [Hp Hn] Hb Hi.
  unfold client_step in Hstep. cbv zeta beta in Hstep. pose proof Hok as [Hhold Hs].
  destruct (c_pc cl) as [| |i w| | |i w| |m] eqn:Hpc; [done|..|done].
  1,3,4,6: rewrite (delivered_get _ _ _ _ Ho) in Hstep; unfold progress, goal_ok;
    unfold alone_ok in Hal; rewrite Hpc in *; simpl in Hal |- *;
    destruct o as [v|]; injection Hstep as <- <-; rewrite ?Ho.
  - unfold acq_after_get, unowned. case_bool_decide as Hu; simpl.
    + right. rewrite decide_True by done. split_and!; done || lia.
    + destruct Hal as [?|Hown]; [done|by destruct Hu; right|]. rewrite decide_True by done. by left.
  - right. simpl. rewrite ?decide_True by done. split_and!; done || lia.
  - unfold acq_after_check. simpl. case_decide; simpl; [by left|]. right. split_and!; done || lia.
  - by destruct Hs as [_ [??]].
  - unfold rel_after_get, unowned. case_decide as Hd; simpl.
    + left. split; [done|]. split; [done|]. intros _. split; [done|].
      destruct Hd as [Hd|Hd]; [|done]. apply bool_decide_eq_true in Hd as [?|Hd]; [done|].
      rewrite Hd. done.
    + right. rewrite decide_True by done. split_and!; done || lia.
  - left. done.
  - unfold rel_after_check. simpl. case_decide as Hd; simpl; [right; split_and!; done || lia|].
    left. split; [done|]. split; [done|]. intros _. split; [done|]. simpl.
    destruct (decide (value v = emptyLockOwnerId)) as [->|]; [done|by destruct Hd].
  - by destruct Hs as [_ [??]].
  - rewrite (delivered_put _ _ _ eq_refl) in Hstep. simpl in Hstep, Hi.
    assert (0 <= i)%Z by tauto. rewrite (wrap_small 64) in Hstep by lia.
    pose proof (st_put_reply s (mkPutArgs name (c_id cl) w)) as Hr.
    pose proof (st_put_look s (mkPutArgs name (c_id cl) w) name) as Hl.
    rewrite decide_True in Hl by done. destruct (st_put _ _) as [s1 [e]]. simpl in *. subst e.
    pose proof (progress_put_acq o cl i w Hok Hpc Hne Hp ltac:(lia)) as Hpr. simpl in Hpr.
    rewrite Ho in *. destruct (put_switch _ _); [|done]. simplify_eq. by rewrite Hl.
  - rewrite (delivered_put _ _ _ eq_refl) in Hstep. simpl in Hstep, Hi.
    assert (0 <= i)%Z by tauto. rewrite (wrap_small 64) in Hstep by lia.
    pose proof (st_put_reply s (mkPutArgs name emptyLockOwnerId w)) as Hr.
    pose proof (st_put_look s (mkPutArgs name emptyLockOwnerId w) name) as Hl.
    rewrite decide_True in Hl by done. destruct (st_put _ _) as [s1 [e]]. simpl in *. subst e.
    pose proof (progress_put_rel o cl i w Hok Hpc Hne Hp ltac:(lia)) as Hpr. simpl in Hpr.
    rewrite Ho in *. destruct (put_switch _ _); [|done]. simplify_eq. by rewrite Hl.
Qed.

Lemma alone_finishes m ids n ls c cl :
  ids_ok ids -> lock_inv ids n ls -> (n + Z.of_nat m < 2 ^ 64)%Z ->
  ls_clients ls !! c = Some cl -> c_pc cl <> Idle ->
  alone_ok (st_look (ls_store ls) name) cl ->
  rank (st_look (ls_store ls) name) (c_pc cl) <= m ->
  exists k ls' cl', k <= m /\ run lock_exec (replicate k (EvNet c Delivered)) ls = Some ls' /\
    ls_clients ls' !! c = Some cl' /\ c_pc cl' = Idle /\
    goal_ok (c_pc cl) (st_look (ls_store ls') name) cl'.
Proof.
  intros Hids. revert n ls cl. induction m as [|m IH]; intros n ls cl Hinv Hn Hc Hidle Hal Hrank.
  - destruct (lock_inv_lookup _ _ _ _ _ Hinv Hc) as (_ & [_ Hs] & _).
    destruct (c_pc cl); simpl in Hrank; try case_decide; done || lia.
  - destruct ls as [s cls]; simpl in *.
    destruct (lock_inv_lookup _ _ _ _ _ Hinv Hc) as (Hid & Hok & Hcnt). simpl in *.
    destruct (client_step Delivered s cl) as [s' cl'] eqn:Hstep.
    assert (Hexec : lock_exec (EvNet c Delivered) (mkLockSys s cls) =
      Some (mkLockSys s' (<[c:=cl']> cls))) by (simpl; by rewrite Hc; simpl; rewrite Hstep).
    assert (Hc' : (<[c:=cl']> cls) !! c = Some cl')
      by (apply list_lookup_insert_eq; by eapply lookup_lt_Some).
    assert (Hids' : c_id cl' = c_id cl /\ c_id cl <> emptyLockOwnerId).
    { pose proof Hinv as (Hv & _ & _). split; [|intros Heq; apply Hids; rewrite <-Heq;
        by eapply list_elem_of_lookup_2].
      edestruct client_step_ok as [? _]; [done|done| |exact Hv|lia|done|done].
      intros Heq; apply Hids; rewrite <-Heq; by eapply list_elem_of_lookup_2. }
    destruct Hids' as [Hid' Hne].
    assert (Hinv' : lock_inv ids (n + 1) (mkLockSys s' (<[c:=cl']> cls)))
      by (eapply lock_exec_inv; [done| |done|done]; lia).
    destruct Hinv as (Hv & _ & _).
    destruct (delivered_progress _ _ _ _ n _ Hstep eq_refl Hok Hal Hidle Hne Hv)
      as [[Hi Hg]|(Ho & Hr & Hi & Ha & Hrel)]; [lia|done|..].
    + exists 1, (mkLockSys s' (<[c:=cl']> cls)), cl'. simpl in *. rewrite Hc; simpl. rewrite Hstep.
      split_and!; done || lia.
    + destruct (IH (n + 1)%Z (mkLockSys s' (<[c:=cl']> cls)) cl') as (k & ls' & cl'' & Hk & Hrun & Hl & Hp & Hg);
        simpl; rewrite ?Ho; try done; try lia.
      { unfold alone_ok in *. by rewrite Ha, Hid'. }
      exists (S k), ls', cl''. split_and!; [lia| |done|done|].
      * change (replicate (S k) (EvNet c Delivered)) with
          (EvNet c Delivered :: replicate k (EvNet c Delivered)).
        change (lock_exec (EvNet c Delivered) (mkLockSys s cls) ≫=
          run lock_exec (replicate k (EvNet c Delivered)) = Some ls').
        by rewrite Hexec.
      * unfold goal_ok in *. by rewrite <-Ha, <-Hrel.
Qed.

(** C27: obstruction freedom.  From any reachable state, a client inside
    [Acquire] or [Release] whose RPCs get through while the others pause
    returns after at most four of them, provided, for [Acquire], that the
    lock is free or already its own.  [Acquire] then holds the lock and is
    its owner at the server; after [Release] it neither holds nor owns it.
    This covers calls caught in the middle of lost replies. *)
Theorem lock_obstruction_free s ids es ls c cl :
  lock_run_from s ids es ls -> (kver s name + Z.of_nat (length es) + 4 < 2 ^ 64)%Z ->
  ls_clients ls !! c = Some cl -> c_pc cl <> Idle ->
  alone_ok (st_look (ls_store ls) name) cl ->
  exists k ls' cl', k <= 4 /\ run lock_exec (replicate k (EvNet c Delivered)) ls = Some ls' /\
    ls_clients ls' !! c = Some cl' /\ c_pc cl' = Idle /\
    goal_ok (c_pc cl) (st_look (ls_store ls') name) cl'.
Proof.
  intros Hrun Hn Hc Hidle Hal. pose proof (lock_run_from_inv _ _ _ _ Hrun) as Hinv.
  eapply alone_finishes; [apply Hrun|done|lia|done..|].
  destruct (c_pc cl); simpl; try case_decide; lia.
Qed.
End Lock.

(** ** Witnesses: two clients contending on the server's map *)

Definition demo_ids : list string := ["A"; "B"].
Definition demo_lock_store : gmap string kvValue := ∅.

(** [A]'s put is performed but its reply lost; [B] spins meanwhile; [A]
    retries, gets [ErrMaybe] and finds itself the owner. *)
Definition demo_lock_run : list lock_event :=
  [EvAcquire 0; EvAcquire 1; EvNet 0 Delivered; EvNet 1 Delivered; EvNet 0 ReplyLost;
   EvNet 1 Delivered; EvNet 1 Delivered; EvOther (mkPutArgs "x" "1" 0); EvNet 0 Delivered;
   EvNet 0 Delivered].

Definition demo_lock_end : option (lock_sys (St := gmap string kvValue)) :=
  run (lock_exec "l") demo_lock_run (lock_init demo_lock_store demo_ids).

Lemma demo_lock_run_from ls :
  demo_lock_end = Some ls -> lock_run_from "l" demo_lock_store demo_ids demo_lock_run ls.
Proof.
  intros H. split_and!; [|by vm_compute|by vm_compute|done].
  split; [by apply (bool_decide_unpack _)|by apply (bool_decide_unpack _)].
Qed.

Lemma lock_mutual_exclusion_witness :
  exists ls, demo_lock_end = Some ls /\
    (c_holding <$> ls_clients ls) = [true; false] /\
    forall c2 cl2, ls_clients ls !! c2 = Some cl2 -> c_holding cl2 = true -> 0 = c2.
Proof.
  destruct demo_lock_end as [ls|] eqn:H; [|by vm_compute in H].
  assert (Hh : c_holding <$> ls_clients ls = [true; false]).
  { refine (demo_read (fun l => c_holding <$> ls_clients l) _ _ _ H _). by vm_compute. }
  exists ls. split_and!; [done|done|]. intros c2 cl2 Hc2 Hh2.
  destruct (ls_clients ls) as [|cl1 cls] eqn:Hcls; [done|]. simpl in Hh. simplify_eq.
  eapply (lock_mutual_exclusion "l" _ _ _ ls 0 c2 cl1 cl2 (demo_lock_run_from ls H));
    rewrite ?Hcls; done.
Defined.

Lemma lock_no_panic_witness :
  exists ls, demo_lock_end = Some ls /\
    forall c cl, ls_clients ls !! c = Some cl ->
      (forall m, c_pc cl <> Crashed m) /\
      (c_holding cl = true -> exists v, st_look (ls_store ls) "l" = Some v /\ value v = c_id cl).
Proof.
  destruct demo_lock_end as [ls|] eqn:H; [|by vm_compute in H].
  exists ls. split; [done|]. intros c cl.
  exact (lock_no_panic "l" _ _ _ ls c cl (demo_lock_run_from ls H)).
Defined.

(** [A] stopped right after its lost reply. *)
Lemma lock_obstruction_free_witness :
  exists ls cl, run (lock_exec "l") (take 5 demo_lock_run) (lock_init demo_lock_store demo_ids) = Some ls /\
    ls_clients ls !! 0 = Some cl /\ c_pc cl = AcqPut 1 0 /\
    exists k ls' cl', k <= 4 /\
      run (lock_exec "l") (replicate k (EvNet 0 Delivered)) ls = Some ls' /\
      ls_clients ls' !! 0 = Some cl' /\ c_pc cl' = Idle /\
      goal_ok (c_pc cl) (st_look (ls_store ls') "l") cl'.
Proof.
  destruct (run (lock_exec "l") (take 5 demo_lock_run) (lock_init demo_lock_store demo_ids))
    as [ls|] eqn:H; [|by vm_compute in H].
  set (cl := mkClient "A" (AcqPut 1 0) false).
  assert (Hcl : ls_clients ls !! 0 = Some cl).
  { refine (demo_read (fun l => ls_clients l !! 0) _ _ _ H _). by vm_compute. }
  assert (Ho : owner (st_look (ls_store ls) "l") = "A").
  { refine (demo_read (fun l => owner (st_look (ls_store l) "l")) _ _ _ H _). by vm_compute. }
  exists ls, cl. split_and!; [done|done|done|].
  apply (lock_obstruction_free "l" demo_lock_store demo_ids (take 5 demo_lock_run) ls 0 cl);
    [|by vm_compute|done|done|by right].
  split_and!; [|by vm_compute|by vm_compute|done].
  split; by apply (bool_decide_unpack _).
Defined.
