(* ===== verification/KvClients.v ===== *)
(** * KvClients: many clients on one store, and what they log

    The clients of [src/src/kvtest1/] run programs that call a clerk's Get and
    Put ([src/src/kvsrv1/client.go]); [src/src/kvtest1/porcupine.go] logs every
    completed call with the times of its call and return ([OpLog], [Get],
    [Put]), and the checker asks whether the log is linearizable for the model
    of [src/src/models1/kv.go].  Here any number of clients, each with its own
    program, interleave their RPC attempts on one store; the log is the code's,
    and every entry carries, for the proofs only, the time at which the call
    took effect. *)

From S2P Require Import Prelude KvServer KvModel KvClerk.
From stdpp Require Import base gmap strings list sorting.
From Stdlib Require Import ZArith Lia Sorted Permutation.
From stdpp Require Import list.

Module KvClients.

(** ** Clerk calls, one RPC attempt at a time *)

Inductive call := CPut (args : PutArgs) | CGet (key : string).
Inductive result := RPutErr (e : Err) | RGetRes (value : string) (version : Tversion) (e : Err).

Definition call_key (c : call) : string := match c with CPut a => put_key a | CGet k => k end.

(** A call under way: the RPCs sent, the time it was made and, for the proofs
    only, the time at which its put was performed, if it was. *)
Record pending := mkPend { p_call : call; p_i : Z; p_start : Z; p_done : option Z }.

(** The operation [Get] and [Put] append to the log. *)
Definition kv_input (c : call) : KvInput :=
  match c with
  | CPut a => mkKvInput 1 (put_key a) (put_value a) (put_version a)
  | CGet k => mkKvInput 0 k "" 0
  end.
Definition kv_output (r : result) : KvOutput :=
  match r with
  | RPutErr e => mkKvOutput "" 0 e
  | RGetRes v ver e => mkKvOutput v ver e
  end.
Definition log_entry (cli : nat) (c : call) (r : result) (start ret : Z) : Operation :=
  mkOperation (Z.of_nat cli) (kv_input c) start (kv_output r) ret.

(** [OpLog.Append], [OpLog.Len] and [OpLog.Read]. *)
Definition OpLog : Type := list Operation.
Definition OpLog_Append (op : Operation) (l : OpLog) : OpLog := l ++ [op].
Definition OpLog_Len (l : OpLog) : nat := length l.
Definition OpLog_Read (l : OpLog) : list Operation := l.

(** A client's program: the clerk call it makes next if any, what it does with
    the result, and how it moves on its own (its random choices, the message
    on its [done] channel). *)
Class Program (C I : Type) := {
  want : C -> option call;
  resume : C -> result -> outcome C;
  tell : I -> C -> option (outcome C) }.

(** Replaying operations on one key through the model. *)
Fixpoint replay (st : KvState) (ops : list Operation) : option KvState :=
  match ops with
  | [] => Some st
  | o :: ops =>
      match Step st (op_Input o) (op_Output o) with
      | (true, MState st') => replay st' ops
      | _ => None
      end
  end.

Lemma replay_accepts st ops : accepts st ops = true <-> is_Some (replay st ops).
Proof.
  revert st. induction ops as [|o ops IH]; intros st; simpl; [by split; [eexists|]|].
  destruct (Step st _ _) as [[] [st'|]]; [apply IH|..]; by split; [|intros []].
Qed.

Lemma replay_app st l1 l2 : replay st (l1 ++ l2) = replay st l1 ≫= fun st' => replay st' l2.
Proof.
  revert st. induction l1 as [|o l1 IH]; intros st; [done|]. simpl.
  destruct (Step st _ _) as [[] [st'|]]; [apply IH|done..].
Qed.

(** A log entry without its time of return. *)
Definition erase (x : Z * Operation) : Z * Operation :=
  (x.1, mkOperation (op_ClientId x.2) (op_Input x.2) (op_Call x.2) (op_Output x.2) 0).

Lemma replay_erase st key l :
  replay st (filter (on_key key) (erase <$> l).*2) = replay st (filter (on_key key) l.*2).
Proof.
  revert st. induction l as [|[t o] l IH]; intros st; [done|]. rewrite !fmap_cons, !filter_cons.
  unfold on_key at 1. simpl. destruct (decide (ki_key (op_Input o) = key)) as [Hk|Hk].
  - rewrite decide_True by done. simpl. destruct (Step st _ _) as [[] [st'|]]; [apply IH|done..].
  - rewrite decide_False by done. apply IH.
Qed.

Lemma put_nokey_erase l : Forall (fun x => ~ put_nokey x.2) (erase <$> l) <-> Forall (fun x => ~ put_nokey x.2) l.
Proof. by rewrite Forall_fmap. Qed.

Section Clients.
Context {St : Type} `{HSt : KVStore St} `{!KVStoreLaws St}.
Implicit Types (s : St) (d : delivery) (p : pending).

(** One RPC attempt of a call: one turn of the loop of [Clerk.Put] or
    [Clerk.Get].  The answer of the server comes third, for the proofs. *)
Definition attempt_call d s p : St * option result * option Err * Z :=
  match p_call p with
  | CPut args =>
      let i := u64 (p_i p + 1) in
      let '(s', ans, rep) := put_call d s args in
      (s', RPutErr <$> (rep ≫= put_switch i), ans, i)
  | CGet key =>
      (s, (fun r => RGetRes r.1.1 r.1.2 r.2) <$> (get_call d s (mkGetArgs key) ≫= get_switch), None, p_i p)
  end.

(** The calls of a script, one after the other, are the clerk's. *)
Lemma attempt_call_clerk_Put a script s args i start :
  clerk_Put i (a :: script) s args =
  let '(s', r, ans, i') := attempt_call (att_delivery a) (env_puts s (att_env a)) (mkPend (CPut args) i start None) in
  match r with
  | Some (RPutErr e) => (s', Some e, option_list ans)
  | _ => let '(s'', res, log) := clerk_Put i' script s' args in (s'', res, option_list ans ++ log)
  end.
Proof. cbn. destruct (put_call _ _ args) as [[s' ans] rep]. by destruct (rep ≫= put_switch (u64 (i + 1))). Qed.

Lemma attempt_call_clerk_Get a script s key i start :
  clerk_Get (a :: script) s (mkGetArgs key) =
  match attempt_call (att_delivery a) (env_puts s (att_env a)) (mkPend (CGet key) i start None) with
  | (s', Some (RGetRes v ver e), _, _) => (s', Some (v, ver, e))
  | (s', _, _, _) => clerk_Get script s' (mkGetArgs key)
  end.
Proof. cbn. by destruct (get_call _ _ _ ≫= get_switch) as [[[v ver] e]|]. Qed.

(** ** The system *)

Context {C I : Type} `{!Program C I}.

(** [ks_log]: the log, each entry with the time its call took effect;
    [ks_lin], for the proofs only: the effects in the order they happened, as
    log entries without a time of return. *)
Record sys := mkKs {
  ks_store : St;
  ks_clients : list (C * option pending);
  ks_now : Z;
  ks_log : list (Z * Operation);
  ks_lin : list (Z * Operation);
  ks_fatal : bool }.

Inductive event :=
  | ETell (c : nat) (x : I)          (** client [c] moves on its own *)
  | EStart (c : nat)                 (** client [c] makes the call it wants *)
  | EAttempt (c : nat) (d : delivery).

Definition set_client (c : nat) (x : C * option pending) (fatal : bool) (k : sys) : sys :=
  mkKs (ks_store k) (<[c := x]> (ks_clients k)) (ks_now k + 1) (ks_log k) (ks_lin k) fatal.

(** A client that panics or calls [Fatalf] ends the test. *)
Definition next_state (st : C) (o : outcome C) : C * bool :=
  match o with Ret st' => (st', false) | _ => (st, true) end.

(** The effect of an attempt at time [now], if this is when it takes it: a put
    the server performs, or the last RPC of any other call. *)
Definition effect (c : nat) (t : Z) p (r : result) : Z * Operation :=
  (t, log_entry c (p_call p) r (p_start p) 0).
Definition effect_of (c : nat) (now : Z) p (r : option result) (ans : option Err) : list (Z * Operation) :=
  match p_done p with
  | Some _ => []
  | None =>
      match r with
      | Some r => [effect c now p r]
      | None => if decide (ans = Some OK) then [effect c now p (RPutErr ErrMaybe)] else []
      end
  end.

Definition exec (e : event) (k : sys) : option sys :=
  if ks_fatal k then None else
  match e with
  | ETell c x =>
      cl ← ks_clients k !! c;
      match cl with
      | (st, None) =>
          o ← tell x st;
          let '(st', fatal) := next_state st o in Some (set_client c (st', None) fatal k)
      | _ => None
      end
  | EStart c =>
      cl ← ks_clients k !! c;
      match cl with
      | (st, None) => cl ← want st; Some (set_client c (st, Some (mkPend cl 0 (ks_now k) None)) false k)
      | _ => None
      end
  | EAttempt c d =>
      cl ← ks_clients k !! c;
      match cl with
      | (st, Some p) =>
          let '(s', r, ans, i) := attempt_call d (ks_store k) p in
          let now := ks_now k in
          let lin := ks_lin k ++ effect_of c now p r ans in
          match r with
          | None =>
              let done := match p_done p with
                          | Some t => Some t
                          | None => if decide (ans = Some OK) then Some now else None end in
              Some (mkKs s' (<[c := (st, Some (mkPend (p_call p) i (p_start p) done))]> (ks_clients k))
                      (now + 1) (ks_log k) lin false)
          | Some r =>
              let log := ks_log k ++ [(default now (p_done p), log_entry c (p_call p) r (p_start p) now)] in
              let '(st', fatal) := next_state st (resume st r) in
              Some (mkKs s' (<[c := (st', None)]> (ks_clients k)) (now + 1) log lin fatal)
          end
      | _ => None
      end
  end.

(** Clients start at time [now] on the store [s]. *)
Definition init (now : Z) (s : St) (cs : list C) : sys := mkKs s ((fun c => (c, None)) <$> cs) now [] [] false.

(** The checker's log. *)
Definition oplog (k : sys) : OpLog := (ks_log k).*2.

(** ** One attempt, case by case *)

Definition same s s' : Prop := forall k, st_look s' k = st_look s k.
Definition stored s s' (a : PutArgs) : Prop :=
  forall k, st_look s' k = if decide (k = put_key a) then Some (mkKvValue (put_value a) (put_version a + 1))
                           else st_look s k.

(** What a [Get] reads in a register. *)
Definition reading (o : option kvValue) : result :=
  match o with
  | Some v => RGetRes (value v) (version v) OK
  | None => RGetRes "" 0 ErrNoKey
  end.

Inductive attempt_case s p : St -> option result -> option Err -> Z -> Prop :=
  | AC_get key r :
      p_call p = CGet key -> r = None \/ r = Some (reading (st_look s key)) ->
      attempt_case s p s r None (p_i p)
  | AC_lost a : p_call p = CPut a -> attempt_case s p s None None (p_i p + 1)
  | AC_done a s' r :
      p_call p = CPut a -> kver s (put_key a) = put_version a -> stored s s' a ->
      r = None \/ r = Some (RPutErr OK) ->
      attempt_case s p s' r (Some OK) (p_i p + 1)
  | AC_version a s' r :
      p_call p = CPut a -> is_Some (st_look s (put_key a)) -> kver s (put_key a) <> put_version a ->
      same s s' ->
      r = None \/ r = Some (RPutErr (if decide (p_i p = 0%Z) then ErrVersion else ErrMaybe)) ->
      attempt_case s p s' r (Some ErrVersion) (p_i p + 1)
  | AC_nokey a s' r :
      p_call p = CPut a -> st_look s (put_key a) = None -> put_version a <> 0%Z -> same s s' ->
      r = None \/ r = Some (RPutErr ErrNoKey) ->
      attempt_case s p s' r (Some ErrNoKey) (p_i p + 1).

Lemma st_put_cases s a :
  (0 <= kver s (put_key a))%Z -> (kver s (put_key a) + 1 < 2 ^ 64)%Z ->
  let s' := (st_put s a).1 in
  let e := preply_err (st_put s a).2 in
  (e = OK /\ kver s (put_key a) = put_version a /\ stored s s' a) \/
  (e = ErrVersion /\ is_Some (st_look s (put_key a)) /\ kver s (put_key a) <> put_version a /\ same s s') \/
  (e = ErrNoKey /\ st_look s (put_key a) = None /\ put_version a <> 0%Z /\ same s s').
Proof.
  intros Hp Hb. cbn zeta. rewrite st_put_reply. unfold kver in *.
  set (o := st_look s (put_key a)) in *.
  pose proof (put_result_errs o (put_value a) (put_version a)) as He. cbn zeta in He.
  assert (Hsame : (put_result o (put_value a) (put_version a)).2 <> OK -> same s (st_put s a).1).
  { intros Hno k. rewrite st_put_look. case_decide as Hk; [|done]. rewrite Hk. by apply put_result_fail. }
  destruct He as [He|[He|He]].
  - left. pose proof He as Hv. apply put_result_ok_iff in Hv. split_and!; [done..|].
    intros k. rewrite st_put_look. case_decide as Hk; [|done]. rewrite Hk. fold o.
    by rewrite put_result_ok, Hv by (done || lia).
  - right; left. split; [done|]. destruct (put_result_errversion o (put_value a) (put_version a)) as [Hx _].
    destruct (Hx He). split_and!; [done..|]. apply Hsame. by rewrite He.
  - right; right. split; [done|]. destruct (put_result_nokey o (put_value a) (put_version a)) as [Hx _].
    destruct (Hx He). split_and!; [done..|]. apply Hsame. by rewrite He.
Qed.

Lemma attempt_cases d s p s' r ans i :
  attempt_call d s p = (s', r, ans, i) ->
  (forall k, 0 <= kver s k)%Z -> (forall k, kver s k + 1 < 2 ^ 64)%Z -> (0 <= p_i p)%Z -> (p_i p + 1 < 2 ^ 64)%Z ->
  attempt_case s p s' r ans i.
Proof.
  unfold attempt_call. intros Hc Hp Hb Hi Hib. destruct (p_call p) as [a|key] eqn:Hcall.
  - rewrite (wrap_small 64) in Hc by lia.
    destruct (st_put_cases s a (Hp _) (Hb _)) as [(He & Hv & Hst)|[(He & Hv & Hne & Hst)|(He & Hv & Hne & Hst)]].
    all: destruct d; simpl in Hc; [by simplify_eq; eapply AC_lost|destruct (st_put s a) as [s1 [e]]; simplify_eq/=..].
    + eapply AC_done; eauto.
    + eapply AC_done; eauto.
    + eapply AC_version; eauto.
    + eapply AC_version; eauto. right. unfold put_switch. simpl.
      destruct (decide (p_i p = 0%Z)); [rewrite decide_False by lia|rewrite decide_True by lia]; done.
    + eapply AC_nokey; eauto.
    + eapply AC_nokey; eauto.
  - destruct d; simpl in Hc; simplify_eq; (eapply AC_get; [done|]); [by left..|right].
    rewrite st_get_reply. by destruct (st_look s' _) as [[v ver]|].
Qed.

(** What an attempt that ends a call tells its client. *)
Lemma attempt_get s p s' r ans i key :
  attempt_case s p s' (Some r) ans i -> p_call p = CGet key -> r = reading (st_look s key) /\ s' = s.
Proof.
  intros Ha Hc. remember (Some r) as ro eqn:Hro.
  destruct Ha as [key' r' Hc' [Hr|Hr]|a Hc'|a s' r' Hc'|a s' r' Hc'|a s' r' Hc']; rewrite Hc in Hc'; by simplify_eq.
Qed.

Lemma attempt_get_same s p s' r ans i key : attempt_case s p s' r ans i -> p_call p = CGet key -> s' = s.
Proof. intros Ha Hc. destruct Ha as [?? Hc'|? Hc'|??? Hc'|??? Hc'|??? Hc']; rewrite Hc in Hc'; by simplify_eq. Qed.

Lemma attempt_put s p s' r ans i a :
  attempt_case s p s' (Some r) ans i -> p_call p = CPut a ->
  (r = RPutErr OK /\ ans = Some OK /\ kver s (put_key a) = put_version a /\ stored s s' a) \/
  (r = RPutErr (if decide (p_i p = 0%Z) then ErrVersion else ErrMaybe) /\ ans = Some ErrVersion /\
     is_Some (st_look s (put_key a)) /\ kver s (put_key a) <> put_version a /\ same s s') \/
  (r = RPutErr ErrNoKey /\ ans = Some ErrNoKey /\ st_look s (put_key a) = None /\ put_version a <> 0%Z /\ same s s').
Proof.
  intros Ha Hc. remember (Some r) as ro eqn:Hro.
  destruct Ha as [key' r' Hc' Hr|a' Hc'|a' s' r' Hc' Hv Hst Hr|a' s' r' Hc' Hs Hv Hst Hr|a' s' r' Hc' Hs Hv Hst Hr];
    subst; rewrite Hc in Hc'; simplify_eq; destruct Hr as [|Hr]; simplify_eq; naive_solver.
Qed.

Lemma attempt_effect s p s' r ans i :
  attempt_case s p s' r ans i ->
  (exists a, p_call p = CPut a /\ ans = Some OK /\ kver s (put_key a) = put_version a /\ stored s s' a) \/
  (ans <> Some OK /\ same s s').
Proof. intros []; [by right..|left; by eauto|by right|by right]. Qed.

(** ** The steps of the system *)

(** A pending call: a performed put has been sent, and its version is spent. *)
Definition pend_ok s (now : Z) p : Prop :=
  (0 <= p_i p <= now)%Z /\ (p_start p < now)%Z /\
  match p_done p with
  | None => True
  | Some t => exists a, p_call p = CPut a /\ (1 <= p_i p)%Z /\ (p_start p <= t < now)%Z /\
      (put_version a < kver s (put_key a))%Z /\ is_Some (st_look s (put_key a))
  end.

Record basic (k : sys) : Prop := {
  b_now : (0 <= ks_now k)%Z;
  b_ver key : (0 <= kver (ks_store k) key <= ks_now k)%Z;
  b_pend c st p : ks_clients k !! c = Some (st, Some p) -> pend_ok (ks_store k) (ks_now k) p;
  b_want c st p : ks_clients k !! c = Some (st, Some p) -> want st = Some (p_call p) }.

Definition next_done p (now : Z) (ans : option Err) : option Z :=
  match p_done p with
  | Some t => Some t
  | None => if decide (ans = Some OK) then Some now else None
  end.

Inductive exec_case (k : sys) : event -> sys -> Prop :=
  | X_tell c st o x :
      ks_clients k !! c = Some (st, None) -> tell x st = Some o ->
      exec_case k (ETell c x) (set_client c ((next_state st o).1, None) (next_state st o).2 k)
  | X_start c st cl :
      ks_clients k !! c = Some (st, None) -> want st = Some cl ->
      exec_case k (EStart c) (set_client c (st, Some (mkPend cl 0 (ks_now k) None)) false k)
  | X_retry c d st p s' ans i :
      ks_clients k !! c = Some (st, Some p) -> attempt_case (ks_store k) p s' None ans i -> d <> Delivered ->
      exec_case k (EAttempt c d) (mkKs s'
        (<[c := (st, Some (mkPend (p_call p) i (p_start p) (next_done p (ks_now k) ans)))]> (ks_clients k))
        (ks_now k + 1) (ks_log k) (ks_lin k ++ effect_of c (ks_now k) p None ans) false)
  | X_return c d st p s' r ans i :
      ks_clients k !! c = Some (st, Some p) -> attempt_case (ks_store k) p s' (Some r) ans i ->
      exec_case k (EAttempt c d)
       (mkKs s' (<[c := ((next_state st (resume st r)).1, None)]> (ks_clients k)) (ks_now k + 1)
        (ks_log k ++ [(default (ks_now k) (p_done p), log_entry c (p_call p) r (p_start p) (ks_now k))])
        (ks_lin k ++ effect_of c (ks_now k) p (Some r) ans) (next_state st (resume st r)).2).

(** A reply that arrives ends the call. *)
Lemma delivered_returns s p s' r ans i : attempt_call Delivered s p = (s', r, ans, i) -> is_Some r.
Proof.
  unfold attempt_call. destruct (p_call p) as [a|key]; simpl.
  - pose proof (st_put_reply s a) as He. destruct (st_put s a) as [s1 [e]]. simpl in *. intros ?; simplify_eq.
    pose proof (put_result_errs (st_look s (put_key a)) (put_value a) (put_version a)) as Hr. simpl in Hr.
    unfold put_switch. simpl.
    destruct Hr as [->|[->| ->]]; simpl; repeat case_decide; by eexists.
  - rewrite st_get_reply. intros ?; simplify_eq/=. destruct (st_look s' key); by eexists.
Qed.

Lemma exec_cases e k k' :
  exec e k = Some k' -> basic k -> (ks_now k + 1 < 2 ^ 64)%Z -> exec_case k e k'.
Proof.
  intros He Hb Hn. unfold exec in He. destruct (ks_fatal k); [done|].
  destruct e as [c x|c|c d]; destruct (ks_clients k !! c) as [[st [p|]]|] eqn:Hc; simpl in He; try done.
  - destruct (tell x st) as [o|] eqn:Ht; simpl in He; [|done].
    pose proof (X_tell k c st o x Hc Ht) as HX. destruct (next_state st o). by simplify_eq.
  - destruct (want st) as [cl|] eqn:Hw; simplify_eq/=. by eapply X_start.
  - destruct (attempt_call d (ks_store k) p) as [[[s' r] ans] i] eqn:Ha.
    pose proof (b_pend _ Hb _ _ _ Hc) as (Hi & Hst & _).
    pose proof (fun H : d = Delivered => delivered_returns _ _ _ _ _ _
      (eq_ind d (fun d => attempt_call d (ks_store k) p = _) Ha _ H)) as Hd.
    apply attempt_cases in Ha; [|intros key; pose proof (b_ver _ Hb key); lia..|lia|lia].
    destruct r as [r|].
    + pose proof (X_return k c d st p s' r ans i Hc Ha) as HX.
      destruct (next_state st (resume st r)). by simplify_eq.
    + simplify_eq. apply (X_retry k c d st p s' ans i); [done..|]. intros ?. by destruct Hd.
Qed.

Lemma attempt_grows s p s' r ans i :
  attempt_case s p s' r ans i -> (forall k, 0 <= kver s k)%Z -> forall k, grows k 1 s s'.
Proof.
  intros Ha Hp k. assert (Hsame : forall s', same s s' -> grows k 1 s s').
  { intros s2 Hs. unfold grows, kver. rewrite (Hs k). split; [lia|done]. }
  destruct Ha as [| |a s' r Hc Hv Hst|a s' r|a s' r]; [by apply Hsame..| |by apply Hsame|by apply Hsame].
  unfold grows, kver in *. rewrite (Hst k). case_decide as Hk; [|split; [lia|done]].
  rewrite Hk, Hv. simpl. split; [lia|by eexists].
Qed.

Lemma pend_ok_mono s s' now now' p :
  pend_ok s now p -> (now <= now')%Z -> (forall k, grows k 1 s s') -> pend_ok s' now' p.
Proof.
  unfold pend_ok. intros (Hi & Hs & Hd) Hn Hg. split_and!; [lia..|].
  destruct (p_done p); [|done]. destruct Hd as (a & ? & ? & ? & ? & ?).
  destruct (Hg (put_key a)) as [? Hk]. exists a. split_and!; [done|lia..|by apply Hk].
Qed.

Lemma pend_ok_next s p s' r ans i now :
  attempt_case s p s' r ans i -> (forall k, 0 <= kver s k)%Z -> pend_ok s now p ->
  pend_ok s' (now + 1) (mkPend (p_call p) i (p_start p) (next_done p now ans)).
Proof.
  intros Ha Hp Hok.
  assert (Hi : (p_i p <= i <= p_i p + 1)%Z) by (destruct Ha; lia).
  pose proof (attempt_grows _ _ _ _ _ _ Ha Hp) as Hg.
  destruct (pend_ok_mono s s' now (now + 1) p Hok) as (Hi' & Hs' & Hd'); [lia|done|]. destruct Hok as (Hi0 & Hs0 & _).
  split_and!; simpl; [lia..|]. unfold next_done. destruct (p_done p) as [t|].
  - destruct Hd' as (a & ? & ? & ? & ? & ?). exists a. split_and!; try done; lia.
  - case_decide as Hans; [|done]. destruct Ha as [| |a s' r Hc Hv Hst| |]; simplify_eq.
    exists a. unfold kver. rewrite (Hst (put_key a)), decide_True by done. simpl. split_and!; [done|lia..|by eexists].
Qed.

(** A property of every pending call, when one client changes. *)
Lemma pending_insert (Q : C -> pending -> Prop) (cls : list (C * option pending)) c y :
  (forall c0 st p, cls !! c0 = Some (st, Some p) -> Q st p) ->
  (forall st p, y = (st, Some p) -> Q st p) ->
  forall c0 st p, <[c:=y]> cls !! c0 = Some (st, Some p) -> Q st p.
Proof.
  intros Hall Hy c0 st p Hl. rewrite list_lookup_insert in Hl. case_decide; simplify_eq; [by eapply Hy|by eapply Hall].
Qed.

Lemma exec_basic e k k' : basic k -> exec_case k e k' -> basic k'.
Proof.
  intros [Hn Hv Hp Hw] Hx. assert (Hv0 : forall key, (0 <= kver (ks_store k) key)%Z) by (intros key; apply Hv).
  assert (Hp' : forall s', (forall key, grows key 1 (ks_store k) s') ->
    forall c st p, ks_clients k !! c = Some (st, Some p) -> pend_ok s' (ks_now k + 1) p).
  { intros s' Hg c st p Hc. eapply pend_ok_mono; [by eapply Hp|lia|done]. }
  assert (Hrefl : forall key, grows key 1 (ks_store k) (ks_store k)) by (intros key; split; [lia|done]).
  destruct Hx as [c st o x Hc Ht|c st cl Hc Hwt|c d st p s' ans i Hc Ha Hd|c d st p s' r ans i Hc Ha]; split; simpl.
  1,5,9,13: lia.
  1,4: intros key; pose proof (Hv key); lia.
  1-4: eapply pending_insert; [by eauto|intros; simplify_eq].
  - unfold pend_ok; simpl. split_and!; lia || done.
  - done.
  - intros key. destruct (attempt_grows _ _ _ _ _ _ Ha Hv0 key). specialize (Hv key). lia.
  - eapply pending_insert; [apply Hp'; by eapply attempt_grows|]. intros; simplify_eq.
    eapply pend_ok_next; [done|done|]. by eapply Hp.
  - eapply pending_insert; [by eauto|]. intros; simplify_eq. simpl. by eapply Hw.
  - intros key. destruct (attempt_grows _ _ _ _ _ _ Ha Hv0 key). specialize (Hv key). lia.
  - eapply pending_insert; [apply Hp'; by eapply attempt_grows|]. intros; simplify_eq.
  - eapply pending_insert; [by eauto|]. intros; simplify_eq.
Qed.

(** Invariants of runs too short for a version or a counter to wrap. *)
Lemma run_bounded (P : event -> Prop) (Inv : sys -> Prop) :
  (forall e k k', P e -> (ks_now k + 1 < 2 ^ 64)%Z -> basic k -> Inv k -> exec_case k e k' -> Inv k') ->
  forall es k k', Forall P es -> basic k -> Inv k -> run exec es k = Some k' ->
  (ks_now k + Z.of_nat (length es) < 2 ^ 64)%Z -> basic k' /\ Inv k'.
Proof.
  intros Hstep es. induction es as [|e es IH]; intros k k' HP Hb HI Hr Hl; [simpl in Hr; by simplify_eq|].
  simpl in Hr. rewrite length_cons in Hl. apply Forall_cons_1 in HP as [He' HP].
  destruct (exec e k) as [k1|] eqn:He; [|done]. simpl in Hr.
  pose proof (exec_cases _ _ _ He Hb ltac:(lia)) as Hx. assert (Hn : ks_now k1 = (ks_now k + 1)%Z) by (by destruct Hx).
  eapply (IH k1); [done|by eapply exec_basic|eapply Hstep; [done| |done..]; lia|done|lia].
Qed.

Lemma exec_clients e k k' : exec_case k e k' -> length (ks_clients k') = length (ks_clients k).
Proof. by intros []; simpl; rewrite length_insert. Qed.

(** Every event takes one tick. *)
Lemma exec_now e k k' : exec e k = Some k' -> ks_now k' = (ks_now k + 1)%Z.
Proof.
  unfold exec. destruct (ks_fatal k); [done|]. intros He.
  destruct e as [c x|c|c d]; destruct (ks_clients k !! c) as [[st [p|]]|]; simpl in He; try done.
  - destruct (tell x st) as [o|]; simpl in He; [|done]. destruct (next_state st o). by simplify_eq.
  - destruct (want st); by simplify_eq/=.
  - destruct (attempt_call d (ks_store k) p) as [[[s' r] ans] i]. destruct r as [r|]; [|by simplify_eq].
    destruct (next_state st (resume st r)). by simplify_eq.
Qed.

Lemma run_now es k k' : run exec es k = Some k' -> ks_now k' = (ks_now k + Z.of_nat (length es))%Z.
Proof.
  revert k. induction es as [|e es IH]; intros k Hr; [simpl in *; simplify_eq; lia|]. simpl in Hr.
  destruct (exec e k) as [k1|] eqn:He; [|done]. rewrite (IH _ Hr), (exec_now _ _ _ He), length_cons. lia.
Qed.

Lemma basic_init now s cs :
  (0 <= now)%Z -> (forall key, 0 <= kver s key <= now)%Z -> basic (init now s cs).
Proof.
  intros Hn Hv. split; [done|done|..]; simpl; intros c st p; rewrite list_lookup_fmap; by destruct (cs !! c).
Qed.

(** ** Linearizability of the log *)

Definition no_nokey (l : list (Z * Operation)) : Prop := Forall (fun x => ~ put_nokey x.2) l.
Definition replay_key (key : string) (st : KvState) (l : list (Z * Operation)) : option KvState :=
  replay st (filter (on_key key) l.*2).

(** The effect of an attempt is the step of the model its register makes. *)
Lemma effect_replay s p s' r ans i c now now' key :
  attempt_case s p s' r ans i -> pend_ok s now p ->
  (forall k, 0 <= kver s k)%Z -> (forall k, kver s k + 1 < 2 ^ 64)%Z ->
  no_nokey (effect_of c now' p r ans) ->
  replay_key key (abs_state (st_look s key)) (effect_of c now' p r ans) = Some (abs_state (st_look s' key)).
Proof.
  intros Ha (_ & _ & Hd) Hp Hb Hno. unfold replay_key.
  assert (Hsame : forall s2, same s s2 -> Some (abs_state (st_look s key)) = Some (abs_state (st_look s2 key))).
  { intros s2 Hs. by rewrite (Hs key). }
  assert (Hone : forall x, effect_of c now' p r ans = [x] ->
    (ki_key (op_Input x.2) <> key -> st_look s' key = st_look s key) ->
    (ki_key (op_Input x.2) = key ->
       Step (abs_state (st_look s key)) (op_Input x.2) (op_Output x.2) = (true, MState (abs_state (st_look s' key)))) ->
    replay (abs_state (st_look s key)) (filter (on_key key) (effect_of c now' p r ans).*2) = Some (abs_state (st_look s' key))).
  { intros x -> Hne Hst. simpl. rewrite filter_cons, filter_nil. unfold on_key.
    destruct (decide _) as [Hk|Hk]; simpl; [by rewrite Hst|by rewrite Hne]. }
  destruct Ha as [key0 r Hc Hr|a Hc|a s' r Hc Hv Hst Hr|a s' r Hc Hk Hv Hst Hr|a s' r Hc Hk Hv Hst Hr].
  - unfold effect_of in *. destruct (p_done p) as [t|]; [destruct Hd as (? & ? & _); congruence|].
    destruct Hr as [->| ->]; [done|]. eapply Hone; [done|done|]. unfold effect. simpl. rewrite Hc. simpl. intros ->.
    destruct (st_look s key) as [[v ver]|]; unfold Step; simpl; by rewrite ?bool_decide_eq_true_2.
  - unfold effect_of. by destruct (p_done p).
  - unfold effect_of in *. destruct (p_done p) as [t|].
    { destruct Hd as (a' & Ha' & _ & _ & Hlt & _). rewrite Hc in Ha'. injection Ha' as <-. lia. }
    assert (exists e, (e = OK \/ e = ErrMaybe) /\
      match r with Some r => [effect c now' p r]
                 | None => if decide (Some OK = Some OK) then [effect c now' p (RPutErr ErrMaybe)] else [] end
      = [effect c now' p (RPutErr e)]) as (e & He & Heq).
    { destruct Hr as [-> | ->]; eexists; (split; [|done]); auto. }
    eapply Hone; [exact Heq|..]; unfold effect; simpl; rewrite Hc; simpl.
    + intros Hne. rewrite (Hst key). by rewrite decide_False.
    + intros <-. rewrite (Hst (put_key a)), decide_True by done. unfold Step, kver in *. simpl.
      specialize (Hb (put_key a)). specialize (Hp (put_key a)).
      destruct (st_look s (put_key a)) as [[v ver]|]; simpl in *; rewrite decide_True by done;
        rewrite bool_decide_eq_true_2 by done; unfold Init in *; simpl; rewrite <-Hv, wrap_small by lia; done.
  - unfold effect_of in *. destruct (p_done p) as [t|]; [by apply Hsame|].
    destruct Hr as [->| ->]; [by apply Hsame|].
    eapply Hone; [done|..]; unfold effect; simpl; rewrite Hc; simpl; [intros; by rewrite (Hst key)|].
    intros <-. rewrite (Hst (put_key a)). destruct Hk as [[v ver] Hk]. unfold Step, kver in *. rewrite Hk in *. simpl in *.
    rewrite decide_False by done. by rewrite bool_decide_eq_true_2 by (case_decide; auto).
  - unfold effect_of in *. destruct (p_done p) as [t|]; [by apply Hsame|].
    destruct Hr as [->| ->]; [by apply Hsame|]. apply Forall_cons_1 in Hno as [Hno _].
    destruct Hno. unfold put_nokey, effect. simpl. by rewrite Hc.
Qed.

(** A put performed earlier is refused ever after, and reported as unsure. *)
Lemma done_result s p s' r ans i now t :
  attempt_case s p s' r ans i -> pend_ok s now p -> p_done p = Some t ->
  same s s' /\ (forall e, r = Some e -> e = RPutErr ErrMaybe).
Proof.
  intros Ha (_ & _ & Hd) Ht. rewrite Ht in Hd. destruct Hd as (a & Hc & Hi & _ & Hlt & Hk).
  destruct Ha as [key0 r Hc' Hr|a' Hc'|a' s' r Hc' Hv Hst Hr|a' s' r Hc' Hs Hv Hst Hr|a' s' r Hc' Hs Hv Hst Hr];
    rewrite Hc in Hc'; simplify_eq.
  - split; [done|]. intros; simplify_eq.
  - lia.
  - split; [done|]. intros e ->. destruct Hr as [|Hr]; simplify_eq. by rewrite decide_False by lia.
  - destruct Hk as [? Hk]. by rewrite Hk in Hs.
Qed.

Definition pend_effect (c : nat) (x : C * option pending) : list (Z * Operation) :=
  match x.2 with
  | Some p => match p_done p with Some t => [effect c t p (RPutErr ErrMaybe)] | None => [] end
  | None => []
  end.
Definition pend_effects (cls : list (C * option pending)) : list (Z * Operation) := concat (imap pend_effect cls).

Record lin_ok (k : sys) : Prop := {
  lo_perm : ks_lin k ≡ₚ (erase <$> ks_log k) ++ pend_effects (ks_clients k);
  lo_sorted : StronglySorted Z.lt (ks_lin k).*1;
  lo_before t : t ∈ (ks_lin k).*1 -> (t < ks_now k)%Z;
  lo_log : Forall (fun x => op_Call x.2 <= x.1 <= op_Return x.2)%Z (ks_log k);
  lo_replay key : no_nokey (ks_lin k) ->
    replay_key key Init (ks_lin k) = Some (abs_state (st_look (ks_store k) key)) }.

Lemma effect_of_time c now p r ans x : x ∈ (effect_of c now p r ans).*1 -> x = now.
Proof.
  unfold effect_of. destruct (p_done p); [by intros ?%not_elem_of_nil|].
  destruct r; [by intros ->%list_elem_of_singleton|]. case_decide; [by intros ->%list_elem_of_singleton|].
  by intros ?%not_elem_of_nil.
Qed.

Lemma effect_of_sorted c now p r ans : StronglySorted Z.lt (effect_of c now p r ans).*1.
Proof.
  unfold effect_of. destruct (p_done p); [constructor|]. destruct r; [repeat constructor|].
  case_decide; repeat constructor.
Qed.

(** What an attempt adds to the effects keeps them ordered and replayable. *)
Lemma lin_effects k c st p s' r ans i cls log f :
  basic k -> lin_ok k -> (ks_now k + 1 < 2 ^ 64)%Z ->
  ks_clients k !! c = Some (st, Some p) -> attempt_case (ks_store k) p s' r ans i ->
  ks_lin k ++ effect_of c (ks_now k) p r ans ≡ₚ (erase <$> log) ++ pend_effects cls ->
  Forall (fun x => op_Call x.2 <= x.1 <= op_Return x.2)%Z log ->
  lin_ok (mkKs s' cls (ks_now k + 1) log (ks_lin k ++ effect_of c (ks_now k) p r ans) f).
Proof.
  intros Hb [_ Hs Hbef _ Hrep] Hn Hc Ha Hperm Hlog. split; simpl; [done|..|done|].
  - rewrite fmap_app. apply StronglySorted_app_2; [|done|apply effect_of_sorted].
    intros x1 x2 H1 ->%effect_of_time. by apply Hbef.
  - intros t. rewrite fmap_app, elem_of_app. intros [?%Hbef | ->%effect_of_time]; lia.
  - intros key Hno. apply Forall_app in Hno as [Hno1 Hno2]. unfold replay_key.
    rewrite fmap_app, filter_app, replay_app. fold (replay_key key Init (ks_lin k)). rewrite Hrep by done. simpl.
    eapply effect_replay; [done|by eapply b_pend|..|done].
    + intros key'. pose proof (b_ver _ Hb key'). lia.
    + intros key'. pose proof (b_ver _ Hb key'). lia.
Qed.

Lemma exec_lin e k k' :
  True -> (ks_now k + 1 < 2 ^ 64)%Z -> basic k -> lin_ok k -> exec_case k e k' -> lin_ok k'.
Proof.
  intros _ Hn Hb Hl Hx. pose proof Hl as [Hp Hs Hbef Hlog Hrep].
  destruct Hx as [c st o x Hc Ht|c st cl Hc Hw|c d st p s' ans i Hc Ha Hd|c d st p s' r ans i Hc Ha];
    destruct (concat_imap_insert pend_effect _ _ _ Hc) as (rest & Hrest & Hnew).
  1-2: split; simpl; [|done|intros t Ht'; specialize (Hbef t Ht'); lia|done|done];
    rewrite Hp; apply Permutation_app_head; unfold pend_effects; by rewrite Hrest, Hnew.
  - eapply lin_effects; [done..| |done]. unfold pend_effects in *. rewrite Hp, Hrest, Hnew.
    rewrite <-app_assoc. apply Permutation_app_head. unfold effect_of, pend_effect, next_done. simpl.
    destruct (p_done p) as [t|]; simpl; [by rewrite app_nil_r|].
    case_decide; [by rewrite Permutation_app_comm|by rewrite app_nil_r].
  - pose proof (b_pend _ Hb _ _ _ Hc) as Hok.
    eapply lin_effects; [done..| |].
    + unfold pend_effects in *. rewrite Hp, Hrest, Hnew, fmap_app, <-!app_assoc. apply Permutation_app_head.
      unfold effect_of, pend_effect. simpl. destruct (p_done p) as [t|] eqn:Ht; simpl.
      * destruct (done_result _ _ _ _ _ _ _ _ Ha Hok Ht) as [_ Hr]. rewrite (Hr r eq_refl), app_nil_r. done.
      * by rewrite Permutation_app_comm.
    + apply Forall_app. split; [done|]. apply Forall_singleton. simpl. destruct Hok as (_ & ? & Hd).
      destruct (p_done p); simpl; [|lia]. destruct Hd as (? & _ & _ & ? & _). lia.
Qed.

Lemma no_nokey_perm l l' : l ≡ₚ l' -> no_nokey l -> no_nokey l'.
Proof. unfold no_nokey. by intros ->. Qed.

Lemma pend_effects_none cls : (forall c st p, cls !! c = Some (st, Some p) -> p_done p = None) -> pend_effects cls = [].
Proof.
  unfold pend_effects. intros H. apply concat_nil_Forall. rewrite Forall_forall. intros l (c & Hl)%list_elem_of_lookup.
  rewrite list_lookup_imap in Hl. destruct (cls !! c) as [[st [p|]]|] eqn:Hc; simplify_eq/=; [|done].
  unfold pend_effect. simpl. by rewrite (H _ _ _ Hc).
Qed.

(** A put is performed once: an attempt that moves a register is the first. *)
Lemma attempt_once s p s' r ans i now :
  attempt_case s p s' r ans i -> pend_ok s now p -> ans = Some OK -> p_done p = None.
Proof.
  intros Ha (_ & _ & Hd) Hans. destruct (p_done p) as [t|] eqn:Ht; [|done]. exfalso.
  destruct Hd as (a & Hc & _ & _ & Hlt & _).
  destruct Ha as [| |a' s' r Hc' Hv| |]; try done. rewrite Hc in Hc'. simplify_eq. lia.
Qed.

(** What an attempt does to the version of a key. *)
Lemma attempt_version s p s' r ans i key :
  attempt_case s p s' r ans i ->
  kver s' key = (kver s key + if decide (ans = Some OK /\ call_key (p_call p) = key) then 1 else 0)%Z.
Proof.
  intros Ha. assert (Hsame : forall s2, same s s2 -> kver s2 key = (kver s key + 0)%Z).
  { intros s2 Hs. unfold kver. rewrite (Hs key). lia. }
  destruct Ha as [| |a s' r Hc Hv Hst|a s' r Hc _ _ Hst|a s' r Hc _ _ Hst].
  3: { rewrite Hc. simpl. destruct (decide (put_key a = key)) as [Hk|Hk].
       - rewrite decide_True by done. subst key. unfold kver in *. rewrite (Hst (put_key a)), decide_True by done.
         simpl. by rewrite Hv.
       - rewrite decide_False by naive_solver. unfold kver. rewrite (Hst key), decide_False by done. lia. }
  all: rewrite decide_False by naive_solver; by apply Hsame.
Qed.

Lemma lin_ok_init now s cs : (forall key, st_look s key = None) -> lin_ok (init now s cs).
Proof.
  intros Hs. split; simpl; [|constructor|by intros ? ?%not_elem_of_nil|constructor|].
  - rewrite pend_effects_none; [done|]. intros c st p. rewrite list_lookup_fmap. by destruct (cs !! c).
  - intros key _. by rewrite Hs.
Qed.

(** A log linearizable for the model. *)
Definition linearizable (log : OpLog) : Prop :=
  exists lin : list (Z * Operation),
    lin.*2 ≡ₚ OpLog_Read log /\
    StronglySorted Z.lt lin.*1 /\
    Forall (fun x => op_Call x.2 <= x.1 <= op_Return x.2)%Z lin /\
    model_accepts lin.*2 = true.

Lemma history_linearizable es now s cs k :
  run exec es (init now s cs) = Some k ->
  (0 <= now)%Z -> (now + Z.of_nat (length es) < 2 ^ 64)%Z ->
  (forall key, st_look s key = None) ->
  (forall c st p, ks_clients k !! c = Some (st, Some p) -> p_done p = None) ->
  Forall (fun o => ~ put_nokey o) (oplog k) ->
  linearizable (oplog k).
Proof.
  intros Hr Hn Hlen Hs Hpend Hno.
  assert (Hv : forall key, kver s key = 0%Z) by (intros key; unfold kver; by rewrite Hs).
  destruct (run_bounded (fun _ => True) lin_ok exec_lin es (init now s cs) k) as [_ [Hperm Hsort _ Hlog Hrep]];
    [by apply Forall_forall|..|done|done|].
  - apply basic_init; [done|]. intros key. rewrite Hv. lia.
  - by apply lin_ok_init.
  - rewrite pend_effects_none, app_nil_r in Hperm by done.
    apply Permutation_map_inv in Hperm as (lin & Hlin & Hperm). exists lin.
    change (map erase lin) with (erase <$> lin) in Hlin.
    assert (Hnok : no_nokey (ks_lin k)).
    { rewrite Hlin. apply put_nokey_erase. apply (no_nokey_perm (ks_log k)); [done|]. unfold oplog in Hno. by rewrite Forall_fmap in Hno. }
    split_and!.
    + unfold OpLog_Read, oplog. by rewrite Hperm.
    + replace lin.*1 with (ks_lin k).*1; [done|]. rewrite Hlin, <-list_fmap_compose. apply list_fmap_ext. by intros i x _.
    + by rewrite <-Hperm.
    + unfold model_accepts. rewrite Partition_keys. apply forallb_forall. intros l Hl.
      apply in_map_iff in Hl as (key & <- & _). apply replay_accepts. rewrite <-replay_erase, <-Hlin.
      eexists. by apply Hrep.
Qed.
(** C3: the log the tests hand to the linearizability checker is linearizable
    for its model.  Whatever programs any number of clients run, however their
    RPC attempts interleave and whatever the network loses: if no put that was
    performed is still unanswered and no put was answered [ErrNoKey] (which the
    model has no step for), the log can be put in an order, each operation at an
    instant between its call and its return, that [KvModel] accepts.  Puts
    answered [ErrMaybe] are in it too, performed or not. *)
Theorem clerk_history_linearizable es now s cs k :
  run exec es (init now s cs) = Some k ->
  (0 <= now)%Z -> (now + Z.of_nat (length es) < 2 ^ 64)%Z ->
  (forall key, st_look s key = None) ->
  (forall c st p, ks_clients k !! c = Some (st, Some p) -> p_done p = None) ->
  Forall (fun o => ~ put_nokey o) (oplog k) ->
  exists lin : list (Z * Operation),
    lin.*2 ≡ₚ OpLog_Read (oplog k) /\
    StronglySorted Z.lt lin.*1 /\
    Forall (fun x => op_Call x.2 <= x.1 <= op_Return x.2)%Z lin /\
    model_accepts lin.*2 = true.
Proof. apply history_linearizable. Qed.

(** C35: neither a version nor a clerk's count of RPCs wraps before 2^64 events:
    after a run, every register's version and every pending call's count is at
    most the time, so the [uint64] arithmetic of server and clerk is exact. *)
Theorem versions_bounded es now s cs k :
  run exec es (init now s cs) = Some k ->
  (0 <= now)%Z -> (forall key, 0 <= kver s key <= now)%Z -> (now + Z.of_nat (length es) < 2 ^ 64)%Z ->
  (forall key, 0 <= kver (ks_store k) key <= now + Z.of_nat (length es))%Z /\
  (forall c st p, ks_clients k !! c = Some (st, Some p) -> 0 <= p_i p <= now + Z.of_nat (length es))%Z.
Proof.
  intros Hr Hn Hv Hlen.
  destruct (run_bounded (fun _ => True) (fun _ => True) ltac:(done) es (init now s cs) k) as [Hb _];
    [by apply Forall_forall|by apply basic_init|done..|].
  pose proof (run_now _ _ _ Hr) as Ht. simpl in Ht. rewrite <-Ht. split; [apply Hb|].
  intros c st p Hc. by destruct (b_pend _ Hb _ _ _ Hc).
Qed.

End Clients.

(** ** Witnesses: clients that make the calls of a list *)

#[export] Instance script_program : Program (list call) unit := {|
  want cs := head cs;
  resume cs _ := Ret (tail cs);
  tell _ _ := None |}.

Definition demo_clients : list (list call) :=
  [[CPut (mkPutArgs "k" "a" 0); CGet "k"]; [CPut (mkPutArgs "k" "b" 0)]].
(** The first put is performed and its reply lost; the other client's is
    refused in between. *)
Definition demo_events : list (@event unit) :=
  [EStart 0; EStart 1; EAttempt 0 ReplyLost; EAttempt 1 Delivered; EAttempt 0 Delivered; EStart 0; EAttempt 0 Delivered].

Lemma clerk_history_linearizable_witness :
  exists k, run exec demo_events (init 0 (∅ : gmap string kvValue) demo_clients) = Some k /\
  exists lin : list (Z * Operation),
    lin.*2 ≡ₚ OpLog_Read (oplog k) /\ StronglySorted Z.lt lin.*1 /\
    Forall (fun x => op_Call x.2 <= x.1 <= op_Return x.2)%Z lin /\ model_accepts lin.*2 = true.
Proof.
  destruct (run exec demo_events (init 0 (∅ : gmap string kvValue) demo_clients)) as [k|] eqn:H; [|by vm_compute in H].
  exists k. split; [done|].
  apply (clerk_history_linearizable demo_events 0 (∅ : gmap string kvValue) demo_clients k H); [done|done|..].
  - intros key. apply lookup_empty.
  - rewrite (demo_read ks_clients _ k [([], None); ([], None)] H eq_refl). intros [|[|c]] st p [=].
  - apply (bool_decide_eq_true_1 _).
    apply (demo_read (fun k => bool_decide (Forall (fun o => ~ put_nokey o) (oplog k))) _ k true H). by vm_compute.
Defined.

Lemma versions_bounded_witness :
  exists k, run exec demo_events (init 0 (∅ : gmap string kvValue) demo_clients) = Some k /\
  (forall key, 0 <= kver (ks_store k) key <= 0 + Z.of_nat (length demo_events))%Z /\
  (forall c st p, ks_clients k !! c = Some (st, Some p) -> 0 <= p_i p <= 0 + Z.of_nat (length demo_events))%Z.
Proof.
  destruct (run exec demo_events (init 0 (∅ : gmap string kvValue) demo_clients)) as [k|] eqn:H; [|by vm_compute in H].
  exists k. split; [done|].
  apply (versions_bounded demo_events 0 (∅ : gmap string kvValue) demo_clients k H); [done|..|done].
  intros key. unfold kver. simpl. rewrite lookup_empty. simpl. lia.
Defined.

End KvClients.
