(* ===== verification/KvTest.v ===== *)
(** * The checks of the key/value tests

    Models [src/src/kvtest1/kvtest.go] and [src/src/kvtest1/porcupine.go]: the
    clerk interface and its counting wrapper, the logged [Get] and [Put], the
    JSON accesses, the loops that put at least once, the checks of what is in
    the store, and the comparison of a store with what the clients report.  The
    concurrent clients are in [KvRace].  [encoding/json] is a parameter with
    its round trip; a clerk is any [IKVClerk], as in the code. *)

From S2P Require Import Prelude KvServer KvModel KvClerk KvClients.
From stdpp Require Import base gmap strings list.

Module KvTest.

(** ** encoding/json *)

Class Json (A : Type) := {
  Marshal : A -> option string;
  Unmarshal : string -> option A }.

Class JsonLaws (A : Type) `{!Json A} := {
  Marshal_total x : is_Some (Marshal x);
  Unmarshal_Marshal x s : Marshal x = Some s -> Unmarshal s = Some x }.

(** ** Entries and results *)

Record EntryV := mkEntryV { ev_Id : Z; ev_V : Tversion }.
(** [entry] and [EntryN] have the same fields. *)
Record entry := mkEntry { e_Id : Z; e_N : Z }.
Notation EntryN := entry (only parsing).

#[export] Instance EntryV_eq_dec : EqDecision EntryV.
Proof. solve_decision. Defined.
#[export] Instance entry_eq_dec : EqDecision entry.
Proof. solve_decision. Defined.

#[export] Instance EntryV_countable : Countable EntryV.
Proof. by refine (inj_countable' (fun e => (ev_Id e, ev_V e)) (fun x => mkEntryV x.1 x.2) _); intros []. Defined.
#[export] Instance entry_countable : Countable entry.
Proof. by refine (inj_countable' (fun e => (e_Id e, e_N e)) (fun x => mkEntry x.1 x.2) _); intros []. Defined.

Record ClntRes := mkClntRes { Nok : Z; Nmaybe : Z }.

(** ** CheckAppends *)

(** The maps [expect] and [skipped]; a missing key reads as 0. *)
Notation counts := (gmap Z Z).
Definition count_of (m : counts) (id : Z) : Z := default 0%Z (m !! id).

Definition init_counts (nclnt : nat) : counts :=
  foldr (fun i m => <[Z.of_nat i := 0%Z]> m) ∅ (seq 0 nclnt).

Definition append_step (ms : counts * counts) (e : EntryN) : outcome (counts * counts) :=
  let '(expect, skipped) := ms in
  let x := count_of expect (e_Id e) in
  if decide (e_N e < x)%Z then Fatal "wrong expecting"
  else if decide (x = e_N e) then Ret (<[e_Id e := (x + 1)%Z]> expect, skipped)
  else Ret (<[e_Id e := (e_N e + 1)%Z]> expect,
            <[e_Id e := (count_of skipped (e_Id e) + (e_N e - x))%Z]> skipped).

(** [rs[c]] for an [int] [c]. *)
Definition rs_at (rs : list ClntRes) (c : Z) : outcome ClntRes :=
  if decide (c < 0)%Z then Panic "index out of range" else idx rs (Z.to_nat c).

(** One turn of the loop over [expect]. *)
Definition check_client (expect skipped : counts) (rs : list ClntRes) (c : Z) : outcome unit :=
  r ← rs_at rs c;
  if decide (Nmaybe r < count_of skipped c)%Z then Fatal "skipped puts on server > maybe"
  else if decide (Nok r + Nmaybe r < count_of expect c)%Z then Fatal "puts on server > ok+maybe"
  else Ret tt.

(** [int(ver)] of a [uint64]. *)
Definition int_of (x : Z) : Z := (wrap 64 (x + 2 ^ 63) - 2 ^ 63)%Z.

(** [order] is the order in which Go ranges over [expect]. *)
Definition CheckAppends (es : list EntryN) (nclnt : nat) (rs : list ClntRes) (ver : Tversion) (order : list Z)
    : outcome unit :=
  ms ← foldo append_step (init_counts nclnt, init_counts nclnt) es;
  if decide (Z.of_nat (length es) + 1 <> int_of ver)%Z then Fatal "appends in val != puts on server"
  else foldo (fun _ c => check_client ms.1 ms.2 rs c) tt order.

(** The keys of [expect] when the loop starts. *)
Definition expect_keys (es : list EntryN) (nclnt : nat) : list Z :=
  match foldo append_step (init_counts nclnt, init_counts nclnt) es with
  | Ret ms => (map_to_list ms.1).*1
  | _ => []
  end.

(** ** What CheckAppends accepts *)

(** The numbers client [id] has in the list, the next one expected of it, and
    how many it left out. *)
Definition ns_of (id : Z) (es : list EntryN) : list Z := e_N <$> filter (fun e => e_Id e = id) es.
Definition next_of (id : Z) (es : list EntryN) : Z :=
  match last (ns_of id es) with Some n => (n + 1)%Z | None => 0%Z end.
Definition skipped_of (id : Z) (es : list EntryN) : Z := (next_of id es - Z.of_nat (length (ns_of id es)))%Z.

(** Strictly increasing from 0 on. *)
Fixpoint increasing (lo : Z) (ns : list Z) : Prop :=
  match ns with
  | [] => True
  | n :: ns => (lo <= n)%Z /\ increasing (n + 1) ns
  end.

Lemma increasing_snoc lo ns n :
  increasing lo (ns ++ [n]) <->
  increasing lo ns /\ (match last ns with Some m => m + 1 | None => lo end <= n)%Z.
Proof.
  revert lo. induction ns as [|m ns IH]; intros lo; simpl; [tauto|]. rewrite IH.
  rewrite last_cons. destruct (last ns); tauto.
Qed.

Lemma ns_of_app id l1 l2 : ns_of id (l1 ++ l2) = ns_of id l1 ++ ns_of id l2.
Proof. unfold ns_of. by rewrite filter_app, fmap_app. Qed.

Lemma ns_of_snoc id es e : ns_of id (es ++ [e]) = if decide (e_Id e = id) then ns_of id es ++ [e_N e] else ns_of id es.
Proof.
  rewrite ns_of_app. unfold ns_of at 2. rewrite filter_cons, filter_nil.
  destruct (decide (e_Id e = id)); [done|]. by rewrite app_nil_r.
Qed.

Lemma next_of_snoc id es e : next_of id (es ++ [e]) = if decide (e_Id e = id) then (e_N e + 1)%Z else next_of id es.
Proof. unfold next_of. rewrite ns_of_snoc. destruct (decide _); [|done]. by rewrite last_snoc. Qed.

Lemma skipped_of_snoc id es e :
  skipped_of id (es ++ [e]) =
  if decide (e_Id e = id) then (skipped_of id es + (e_N e - next_of id es))%Z else skipped_of id es.
Proof.
  unfold skipped_of. rewrite next_of_snoc, ns_of_snoc. destruct (decide _); [|done]. rewrite length_app. simpl. lia.
Qed.

Lemma init_counts_of nclnt id : count_of (init_counts nclnt) id = 0%Z.
Proof.
  unfold init_counts, count_of. induction (seq 0 nclnt) as [|i l IH]; simpl; [done|].
  destruct (decide (Z.of_nat i = id)) as [->|]; [by rewrite lookup_insert_eq|by rewrite lookup_insert_ne].
Qed.

Lemma init_counts_dom nclnt id : is_Some (init_counts nclnt !! id) <-> (0 <= id < Z.of_nat nclnt)%Z.
Proof.
  unfold init_counts. assert (H : is_Some (foldr (fun i m => <[Z.of_nat i := 0%Z]> m) (∅ : counts) (seq 0 nclnt) !! id)
    <-> exists i, i ∈ seq 0 nclnt /\ Z.of_nat i = id).
  { induction (seq 0 nclnt) as [|i l IH]; simpl.
    - rewrite lookup_empty. split; [by intros []|intros (? & ?%not_elem_of_nil & _); done].
    - destruct (decide (Z.of_nat i = id)) as [Hi|Hi].
      + rewrite Hi, lookup_insert_eq. split; [intros _; exists i; set_solver|intros _; by eexists].
      + rewrite lookup_insert_ne, IH by done. set_solver. }
  rewrite H. split.
  - intros (i & Hi%elem_of_seq & <-). lia.
  - intros Hi. exists (Z.to_nat id). rewrite elem_of_seq. lia.
Qed.

(** The loop over the entries computes [next_of] and [skipped_of]. *)
Definition append_inv (nclnt : nat) (es : list EntryN) (ms : counts * counts) : Prop :=
  (forall id, increasing 0 (ns_of id es)) /\
  (forall id, count_of ms.1 id = next_of id es /\ count_of ms.2 id = skipped_of id es) /\
  (forall id, is_Some (ms.1 !! id) <-> (0 <= id < Z.of_nat nclnt)%Z \/ id ∈ e_Id <$> es).

Lemma count_of_insert m i x j : count_of (<[i := x]> m) j = if decide (i = j) then x else count_of m j.
Proof.
  unfold count_of. destruct (decide (i = j)) as [->|]; [by rewrite lookup_insert_eq|by rewrite lookup_insert_ne].
Qed.

Lemma next_of_increasing id es e : increasing 0 (ns_of id (es ++ [e])) <->
  increasing 0 (ns_of id es) /\ (e_Id e = id -> (next_of id es <= e_N e)%Z).
Proof.
  rewrite ns_of_snoc. destruct (decide (e_Id e = id)); [|tauto]. rewrite increasing_snoc.
  unfold next_of. tauto.
Qed.

Lemma append_step_spec nclnt es e ms :
  append_inv nclnt es ms ->
  match append_step ms e with
  | Ret ms' => append_inv nclnt (es ++ [e]) ms'
  | Fatal _ => ~ increasing 0 (ns_of (e_Id e) (es ++ [e]))
  | Panic _ => False
  end.
Proof.
  intros (Hinc & Hc & Hd). destruct ms as [expect skipped]. unfold append_step. simpl in *.
  destruct (Hc (e_Id e)) as [Hx Hs].
  case_decide as Hlt; [rewrite next_of_increasing; intros [_ H]; specialize (H eq_refl); lia|].
  assert (Hdom : forall x id, is_Some (<[e_Id e := x]> expect !! id)
    <-> (0 <= id < Z.of_nat nclnt)%Z \/ id ∈ e_Id <$> (es ++ [e])).
  { intros x id. rewrite fmap_app, elem_of_app. simpl. rewrite list_elem_of_singleton. destruct (decide (e_Id e = id)) as [->|Hne].
    - rewrite lookup_insert_eq. split; [auto|by eexists].
    - rewrite lookup_insert_ne, Hd by done. naive_solver. }
  assert (Hinc' : forall id, increasing 0 (ns_of id (es ++ [e]))).
  { intros id. rewrite next_of_increasing. split; [done|]. intros <-. lia. }
  case_decide as Heq; (split; [done|split; [|apply Hdom]]); intros id; simpl; destruct (Hc id) as [Hx' Hs'];
    rewrite !count_of_insert, next_of_snoc, skipped_of_snoc; destruct (decide (e_Id e = id)) as [<-|]; lia.
Qed.

Lemma append_loop_spec nclnt es0 ms0 es :
  append_inv nclnt es0 ms0 ->
  match foldo append_step ms0 es with
  | Ret ms => append_inv nclnt (es0 ++ es) ms
  | Fatal _ => exists id, ~ increasing 0 (ns_of id (es0 ++ es))
  | Panic _ => False
  end.
Proof.
  revert es0 ms0. induction es as [|e es IH]; intros es0 ms0 H0; simpl; [by rewrite app_nil_r|].
  pose proof (append_step_spec nclnt es0 e ms0 H0) as Hs. destruct (append_step ms0 e) as [ms1| |]; simpl; [|done|].
  - specialize (IH _ _ Hs). by rewrite <-app_assoc in IH.
  - exists (e_Id e). intros Hi. apply Hs. replace (es0 ++ e :: es) with ((es0 ++ [e]) ++ es) in Hi by (by rewrite <-app_assoc).
    clear -Hi. induction es as [|e' es IH] using rev_ind; [by rewrite app_nil_r in Hi|].
    rewrite app_assoc, next_of_increasing in Hi. by apply IH, Hi.
Qed.

Definition client_fits (expect skipped : counts) (rs : list ClntRes) (c : Z) : Prop :=
  (0 <= c)%Z /\ exists r, rs !! Z.to_nat c = Some r /\
    (count_of skipped c <= Nmaybe r)%Z /\ (count_of expect c <= Nok r + Nmaybe r)%Z.

Lemma check_client_Ret expect skipped rs c u :
  check_client expect skipped rs c = Ret u <-> client_fits expect skipped rs c.
Proof.
  unfold check_client, client_fits, rs_at, idx. destruct u.
  case_decide; simpl; [split; [done|]; intros [? _]; lia|].
  destruct (rs !! Z.to_nat c) as [r|]; simpl; [|split; [done|]; by intros (_ & ? & ? & _)].
  case_decide; simpl; [split; [done|]; intros (_ & r' & ? & ? & ?); simplify_eq; lia|].
  case_decide; simpl; [split; [done|]; intros (_ & r' & ? & ? & ?); simplify_eq; lia|].
  split; [|done]. intros _. split; [lia|]. exists r. split; [done|lia].
Qed.

Lemma check_clients_Ret expect skipped rs order :
  foldo (fun _ c => check_client expect skipped rs c) tt order = Ret tt <->
  Forall (client_fits expect skipped rs) order.
Proof.
  induction order as [|c order IH]; simpl; [by split; [constructor|]|].
  rewrite Forall_cons, <-IH. destruct (check_client expect skipped rs c) as [[]|?|?] eqn:Hc; simpl.
  - apply check_client_Ret in Hc. tauto.
  - split; [done|]. intros [Hf _]. by apply (check_client_Ret _ _ _ _ tt) in Hf; rewrite Hc in Hf.
  - split; [done|]. intros [Hf _]. by apply (check_client_Ret _ _ _ _ tt) in Hf; rewrite Hc in Hf.
Qed.

Lemma append_inv_init nclnt : append_inv nclnt [] (init_counts nclnt, init_counts nclnt).
Proof.
  split; [done|]. split; simpl; intros id; [by rewrite init_counts_of|].
  rewrite init_counts_dom. split; [auto|by intros [?|?%not_elem_of_nil]].
Qed.

Lemma CheckAppends_Ret es nclnt rs ver order :
  order ≡ₚ expect_keys es nclnt ->
  CheckAppends es nclnt rs ver order = Ret tt <->
  (forall id, increasing 0 (ns_of id es)) /\
  int_of ver = (Z.of_nat (length es) + 1)%Z /\
  (forall id, (0 <= id < Z.of_nat nclnt)%Z \/ id ∈ e_Id <$> es ->
     (0 <= id)%Z /\ exists r, rs !! Z.to_nat id = Some r /\
       (skipped_of id es <= Nmaybe r)%Z /\ (next_of id es <= Nok r + Nmaybe r)%Z).
Proof.
  unfold CheckAppends, expect_keys. intros Hord.
  pose proof (append_loop_spec nclnt [] _ es (append_inv_init nclnt)) as Hl. simpl in Hl.
  destruct (foldo _ _ es) as [ms|?|?]; simpl in *; [|done|by split; [done|]; intros [Hi _]; destruct Hl as [id []]].
  destruct Hl as (Hinc & Hc & Hd).
  case_decide; [split; [done|]; intros (_ & ? & _); congruence|].
  rewrite check_clients_Ret, Hord, Forall_forall.
  assert (Hin : forall id, id ∈ (map_to_list ms.1).*1 <-> (0 <= id < Z.of_nat nclnt)%Z \/ id ∈ e_Id <$> es).
  { intros id. rewrite <-Hd. split.
    - intros ([i x] & -> & Hx)%list_elem_of_fmap. apply elem_of_map_to_list in Hx. by eexists.
    - intros [x Hx]. apply list_elem_of_fmap. exists (id, x). split; [done|]. by apply elem_of_map_to_list. }
  setoid_rewrite Hin. split.
  - intros H0. split_and!; [done|lia|]. intros id Hid. destruct (H0 id Hid) as (? & r & ? & ? & ?).
    destruct (Hc id) as [Hx Hs]. split; [done|]. exists r. split_and!; [done|lia..].
  - intros (_ & _ & H0) id Hid. destruct (H0 id Hid) as (? & r & ? & ? & ?).
    destruct (Hc id) as [Hx Hs]. split; [done|]. exists r. split_and!; [done|lia..].
Qed.


(** ** JSON accesses

    What [GetJson] makes of a Get's results, and the bytes [PutJson] puts. *)
Definition GetJson_result {A} `{!Json A} (r : string * Tversion * Err) : outcome (A * Tversion) :=
  let '(val, ver, err) := r in
  if decide (err = OK) then
    match Unmarshal val with
    | Some v => Ret (v, ver)
    | None => Fatal "Unmarshal err"
    end
  else Fatal "Get err".

Definition PutJson_bytes {A} `{!Json A} (v : A) : outcome string :=
  match Marshal v with Some b => Ret b | None => Fatal "marshal" end.

Lemma PutJson_bytes_Ret {A} `{!Json A, !JsonLaws A} (v : A) : exists b, PutJson_bytes v = Ret b /\ Marshal v = Some b.
Proof. unfold PutJson_bytes. destruct (Marshal_total v) as [b Hb]. rewrite Hb. by exists b. Qed.

Lemma GetJson_result_Ret {A} `{!Json A, !JsonLaws A} (v : A) b ver :
  Marshal v = Some b -> GetJson_result (b, ver, OK) = Ret (v, ver).
Proof. intros Hb. simpl. by rewrite (Unmarshal_Marshal _ _ Hb). Qed.

(** ** Clerks

    A call of a clerk that never returns is [None]. *)
Class IKVClerk (S : Type) := {
  ck_Get : string -> S -> option (S * (string * Tversion * Err));
  ck_Put : string -> string -> Tversion -> S -> option (S * Err) }.

(** What the test holds: the clerk's world, [Config.ops] (an [int32]), the
    monotonic clock, the log. *)
Record world (S : Type) := mkWorld { w_ck : S; w_ops : Z; w_clock : Z; w_oplog : KvClients.OpLog }.
Arguments mkWorld {S}.
Arguments w_ck {S}.
Arguments w_ops {S}.
Arguments w_clock {S}.
Arguments w_oplog {S}.

(** Test code: it may hang, fail the test, or go on. *)
Definition M (S A : Type) : Type := world S -> option (outcome (world S * A)).
#[export] Instance M_ret S : MRet (M S) := fun A a w => Some (Ret (w, a)).
#[export] Instance M_bind S : MBind (M S) := fun A B k m w =>
  match m w with
  | Some (Ret (w', a)) => k a w'
  | Some (Panic e) => Some (Panic e)
  | Some (Fatal e) => Some (Fatal e)
  | None => None
  end.

Section Checks.
Context {S : Type} `{!IKVClerk S}.
Implicit Types (w : world S) (me : Z).

Definition Fatalf {A} (msg : string) : M S A := fun _ => Some (Fatal msg).
Definition lift {A} (o : outcome A) : M S A := fun w => Some (a ← o; Ret (w, a)).
Definition OpInc : M S unit := fun w =>
  Some (Ret (mkWorld (w_ck w) (wrap 32 (w_ops w + 1 + 2 ^ 31) - 2 ^ 31) (w_clock w) (w_oplog w), tt))%Z.
(** [time.Since(t0)]; time passes. *)
Definition since : M S Z := fun w => Some (Ret (mkWorld (w_ck w) (w_ops w) (w_clock w + 1) (w_oplog w), w_clock w)).
Definition append_log (op : Operation) : M S unit := fun w =>
  Some (Ret (mkWorld (w_ck w) (w_ops w) (w_clock w) (KvClients.OpLog_Append op (w_oplog w)), tt)).
(** A call of the embedded clerk. *)
Definition clerk_call {A} (f : S -> option (S * A)) : M S A := fun w =>
  match f (w_ck w) with
  | Some (s, a) => Some (Ret (mkWorld s (w_ops w) (w_clock w) (w_oplog w), a))
  | None => None
  end.

(** [TestClerk]'s methods: count, then the embedded clerk's. *)
Definition TestClerk_Put (key value : string) (version : Tversion) : M S Err :=
  _ ← OpInc; clerk_call (ck_Put key value version).
Definition TestClerk_Get (key : string) : M S (string * Tversion * Err) :=
  _ ← OpInc; clerk_call (ck_Get key).

(** porcupine.go: [Get] and [Put], and the methods of [Test]. *)
Definition Get (key : string) (cli : Z) : M S (string * Tversion * Err) :=
  start ← since;
  r ← TestClerk_Get key;
  ret ← since;
  _ ← OpInc;
  _ ← append_log (mkOperation cli (mkKvInput 0 key "" 0) start (mkKvOutput r.1.1 r.1.2 r.2) ret);
  mret r.

Definition Put (key value : string) (version : Tversion) (cli : Z) : M S Err :=
  start ← since;
  err ← TestClerk_Put key value version;
  ret ← since;
  _ ← OpInc;
  _ ← append_log (mkOperation cli (mkKvInput 1 key value version) start (mkKvOutput "" 0 err) ret);
  mret err.

Definition Test_Get (key : string) (cli : Z) : M S (string * Tversion * Err) :=
  start ← since;
  r ← TestClerk_Get key;
  ret ← since;
  _ ← OpInc;
  _ ← append_log (mkOperation cli (mkKvInput 0 key "" 0) start (mkKvOutput r.1.1 r.1.2 r.2) ret);
  mret r.

Definition Test_Put (key value : string) (version : Tversion) (cli : Z) : M S Err :=
  start ← since;
  err ← TestClerk_Put key value version;
  ret ← since;
  _ ← append_log (mkOperation cli (mkKvInput 1 key value version) start (mkKvOutput "" 0 err) ret);
  mret err.

(** The loop ends by the clerk's answers; [fuel] bounds its turns, a test that
    needs more is still running. *)
Fixpoint PutAtLeastOnce (fuel : nat) (key value : string) (ver : Tversion) (me : Z) : M S Tversion :=
  match fuel with
  | 0 => fun _ => None
  | Datatypes.S fuel =>
      err ← Test_Put key value ver me;
      if decide (err = OK) then mret (u64 (ver + 1))
      else if decide (err = ErrMaybe \/ err = ErrVersion) then PutAtLeastOnce fuel key value (u64 (ver + 1)) me
      else if decide (ver <> 0%Z) then Fatalf "Put ver err"
      else PutAtLeastOnce fuel key value ver me
  end.

Definition CheckGet (key value : string) (version : Tversion) : M S unit :=
  r ← Test_Get key 0;
  let '(val, ver, err) := r in
  if decide (err <> OK) then Fatalf "Get returns error"
  else if decide (val <> value \/ ver <> version) then Fatalf "Get returns wrong value or version"
  else mret tt.

Section Json.
Context {A : Type} `{!Json A}.

Definition GetJson (key : string) (me : Z) : M S (A * Tversion) :=
  r ← Get key me; lift (GetJson_result r).

Definition PutJson (key : string) (v : A) (ver : Tversion) (me : Z) : M S Err :=
  b ← lift (PutJson_bytes v); Put key b ver me.

Fixpoint PutAtLeastOnceJson (fuel : nat) (key : string) (value : A) (ver : Tversion) (me : Z) : M S Tversion :=
  match fuel with
  | 0 => fun _ => None
  | Datatypes.S fuel =>
      err ← PutJson key value 0 me;
      if decide (err <> ErrMaybe) then mret ver
      else PutAtLeastOnceJson fuel key value (u64 (ver + 1)) me
  end.
End Json.

(** [res] is the caller's struct, updated in place: its new content comes back. *)
Definition add_res (res r : ClntRes) : ClntRes := mkClntRes (Nok res + Nok r) (Nmaybe res + Nmaybe r).
Definition put_counts_ok (ver0 : Tversion) (res : ClntRes) (reliable : bool) : bool :=
  if reliable then bool_decide (ver0 = u64 (Nok res))
  else bool_decide (ver0 <= u64 (Nok res + Nmaybe res))%Z.
Definition CheckPutConcurrent `{!Json EntryV} (key : string) (rs : list ClntRes) (res : ClntRes) (reliable : bool)
    : M S ClntRes :=
  e ← GetJson (A := EntryV) key (-1);
  let res := foldl add_res res rs in
  if put_counts_ok e.2 res reliable then mret res else Fatalf "Wrong number of puts".

Definition MakeKeys (n : nat) : list string := (fun i => "k" +:+ itoa i) <$> seq 0 n.

(** The loops of [SpreadPutsSize]; [va] are the values [Randstring] made. *)
Fixpoint spread_puts (kvs : list (string * string)) : M S unit :=
  match kvs with
  | [] => mret tt
  | (k, v) :: kvs => _ ← TestClerk_Put k v 0; spread_puts kvs
  end.
Fixpoint spread_checks (kvs : list (string * string)) : M S unit :=
  match kvs with
  | [] => mret tt
  | (k, v) :: kvs => _ ← CheckGet k v 1; spread_checks kvs
  end.
Definition SpreadPutsSize (n : nat) (va : list string) : M S (list string * list string) :=
  let ka := MakeKeys n in
  _ ← spread_puts (zip ka va);
  _ ← spread_checks (zip ka va);
  mret (ka, va).

End Checks.

(** ** checkPorcupine

    The checker's verdict, and what the function does about its visualisation
    file: open it ([VIS_FILE], or a temporary one), finalise the annotations,
    write it. *)
Inductive CheckResult := Ok | Illegal | Unknown.
Inductive vis_action := VisCreateTemp | VisOpen (path : string) | VisFinalize (text : string) | VisWrite.

Definition vis_open (fpath : string) : vis_action := if decide (fpath = "") then VisCreateTemp else VisOpen fpath.

(** [opened]: opening the file worked; [finalized]: [GetAnnotationFinalized]. *)
Definition checkPorcupine (check : KvClients.OpLog -> CheckResult) (enabled fpath : string) (opened finalized : bool)
    (log : KvClients.OpLog) : list vis_action * outcome unit :=
  match check (KvClients.OpLog_Read log) with
  | Illegal =>
      (vis_open fpath ::
         (if opened && negb (bool_decide (enabled = "never")) then [VisFinalize "test failed"; VisWrite] else []),
       Fatal "history is not linearizable")
  | _ =>
      (if bool_decide (enabled = "always") && finalized
       then vis_open fpath :: (if opened then [VisFinalize "test passed"; VisWrite] else []) else [],
       Ret tt)
  end.

(** ** A clerk that is the only one to write its keys

    What the tests with one client, or one client per key, rely on. *)
Definition clerk_err (ans e : Err) : Prop := e = ans \/ (e = ErrMaybe /\ ans <> ErrNoKey).
Definition reading (o : option kvValue) : string * Tversion * Err :=
  match o with Some v => (value v, version v, OK) | None => ("", 0%Z, ErrNoKey) end.

Class SoleView (S : Type) := {
  sc_ok : S -> Prop;
  sc_look : S -> string -> option kvValue }.

Class SoleClerk (S : Type) `{!IKVClerk S, !SoleView S} := {
  sc_Get key s s' r :
    sc_ok s -> ck_Get key s = Some (s', r) ->
    sc_ok s' /\ (forall k, sc_look s' k = sc_look s k) /\ r = reading (sc_look s key);
  sc_Put key value ver s s' e :
    sc_ok s -> ck_Put key value ver s = Some (s', e) ->
    let res := put_result (sc_look s key) value ver in
    sc_ok s' /\ clerk_err res.2 e /\ forall k, sc_look s' k = if decide (k = key) then res.1 else sc_look s k }.

(** The clerk of [kvsrv1] on a store: each call has its own script of RPC
    outcomes. *)
Record net_clerk (St : Type) := mkNet { nc_store : St; nc_net : list (list delivery) }.
Arguments mkNet {St}.
Arguments nc_store {St}.
Arguments nc_net {St}.

Section Net.
Context {St : Type} `{HSt : KVStore St} `{!KVStoreLaws St}.
Implicit Types (s : St).

Definition attempts (script : list delivery) : list attempt := mkAttempt [] <$> script.

#[export] Instance net_ikvclerk : IKVClerk (net_clerk St) := {|
  ck_Get key c :=
    match nc_net c with
    | [] => None
    | script :: net =>
        let '(s, r) := clerk_Get (attempts script) (nc_store c) (mkGetArgs key) in
        r ← r; Some (mkNet s net, r)
    end;
  ck_Put key value ver c :=
    match nc_net c with
    | [] => None
    | script :: net =>
        let '(s, e, _) := clerk_Put 0 (attempts script) (nc_store c) (mkPutArgs key value ver) in
        e ← e; Some (mkNet s net, e)
    end |}.

Lemma st_put_register s a k :
  st_look (st_put s a).1 k =
  if decide (k = put_key a) then (put_result (st_look s (put_key a)) (put_value a) (put_version a)).1 else st_look s k.
Proof. rewrite st_put_look. by case_decide as Hk; [rewrite Hk|]. Qed.

(** A put that was performed is refused when it is sent again. *)
Lemma put_result_again o val ver :
  (put_result o val ver).2 = OK -> (put_result (put_result o val ver).1 val ver).2 = ErrVersion.
Proof.
  assert (Hne : u64 (ver + 1) <> ver).
  { unfold wrap. intros Heq. assert (0 <= ver < 2 ^ 64)%Z by (rewrite <-Heq; by apply Z.mod_pos_bound).
    destruct (decide (ver = 2 ^ 64 - 1)%Z) as [->|]; [by vm_compute in Heq|]. rewrite Z.mod_small in Heq by lia. lia. }
  destruct o as [[v w]|]; simpl; case_decide; simpl; try done; intros _.
  - subst w. by rewrite decide_False.
  - subst ver. done.
Qed.

(** A put refused once with [ErrVersion], or performed, is refused again. *)
Lemma clerk_Put_refused script i s args s' e log :
  clerk_Put i (attempts script) s args = (s', Some e, log) ->
  (put_result (st_look s (put_key args)) (put_value args) (put_version args)).2 = ErrVersion ->
  (0 <= i)%Z -> (i + Z.of_nat (length script) < 2 ^ 64)%Z ->
  (forall k, st_look s' k = st_look s k) /\ (e = ErrMaybe \/ (i = 0%Z /\ e = ErrVersion)).
Proof.
  revert i s log. induction script as [|d script IH]; intros i s log Hrun Hver Hi Hl; [done|].
  simpl in Hrun. rewrite length_cons in Hl. rewrite (wrap_small 64) in Hrun by lia.
  assert (Hput : forall k, st_look (st_put s args).1 k = st_look s k).
  { intros k. rewrite st_put_register. case_decide as Hk; [|done]. rewrite Hk. apply put_result_fail. by rewrite Hver. }
  assert (Hans : preply_err (st_put s args).2 = ErrVersion) by (by rewrite st_put_reply).
  unfold env_puts in Hrun. simpl in Hrun.
  destruct d; simpl in Hrun; [|destruct (st_put s args) as [s1 [x]] eqn:Hst; simpl in *; subst x..].
  - destruct (clerk_Put (i + 1) _ s args) as [[s2 r] l] eqn:Hr. simplify_eq.
    destruct (IH _ _ _ Hr Hver) as [? [?|[]]]; [lia..|by split; auto|lia].
  - destruct (clerk_Put (i + 1) _ s1 args) as [[s2 r] l] eqn:Hr. simplify_eq.
    destruct (IH _ _ _ Hr) as [Hs [?|[]]]; [by rewrite Hput|lia..| |lia].
    split; [|by left]. intros k. by rewrite Hs.
  - unfold put_switch in Hrun. simpl in Hrun. case_decide; simplify_eq; (split; [done|]); [by left|].
    right. split; [lia|done].
Qed.

Lemma clerk_Put_sole script i s args s' e log :
  clerk_Put i (attempts script) s args = (s', Some e, log) ->
  (0 <= i)%Z -> (i + Z.of_nat (length script) < 2 ^ 64)%Z ->
  let res := put_result (st_look s (put_key args)) (put_value args) (put_version args) in
  clerk_err res.2 e /\ forall k, st_look s' k = if decide (k = put_key args) then res.1 else st_look s k.
Proof.
  revert i s log. induction script as [|d script IH]; intros i s log Hrun Hi Hl; [done|]. cbn zeta.
  pose proof (put_result_errs (st_look s (put_key args)) (put_value args) (put_version args)) as He. cbn zeta in He.
  assert (Hkeep : (put_result (st_look s (put_key args)) (put_value args) (put_version args)).2 <> OK ->
    forall k, st_look s k = if decide (k = put_key args)
      then (put_result (st_look s (put_key args)) (put_value args) (put_version args)).1 else st_look s k).
  { intros Hno k. case_decide as Hk; [|done]. by rewrite put_result_fail, Hk. }
  destruct (decide ((put_result (st_look s (put_key args)) (put_value args) (put_version args)).2 = ErrVersion)) as [Hv|Hv].
  { destruct (clerk_Put_refused _ _ _ _ _ _ _ Hrun Hv Hi Hl) as [Hs Hr]. rewrite Hv. split.
    - unfold clerk_err. naive_solver.
    - intros k. rewrite Hs. apply Hkeep. by rewrite Hv. }
  simpl in Hrun. rewrite length_cons in Hl. rewrite (wrap_small 64) in Hrun by lia.
  unfold env_puts in Hrun. simpl in Hrun. pose proof (st_put_register s args) as Hreg.
  pose proof (st_put_reply s args) as Hans.
  destruct d; simpl in Hrun; [|destruct (st_put s args) as [s1 [x]] eqn:Hst; simpl in *..].
  - destruct (clerk_Put (i + 1) _ s args) as [[s2 r] l] eqn:Hr. simplify_eq. by eapply IH; eauto; lia.
  - destruct (clerk_Put (i + 1) _ s1 args) as [[s2 r] l] eqn:Hr. simplify_eq.
    destruct He as [He|[He|He]]; [|done|].
    + destruct (clerk_Put_refused _ _ _ _ _ _ _ Hr) as [Hs Hm]; [|lia..|].
      { rewrite Hreg, decide_True by done. by apply put_result_again. }
      rewrite He. split; [|intros k; by rewrite Hs]. right. split; [|done]. destruct Hm as [?|[]]; [done|lia].
    + assert (Hsame : forall k, st_look s1 k = st_look s k) by (intros k; rewrite Hreg; symmetry; apply Hkeep; by rewrite He).
      destruct (IH _ _ _ Hr) as [Hc Hs]; [lia..|]. cbn zeta in Hc, Hs. rewrite Hsame in Hc.
      split; [done|]. intros k. by rewrite Hs, !Hsame.
  - unfold put_switch in Hrun. simpl in Hrun. subst x.
    destruct He as [He|[He|He]]; [|done|]; rewrite He in Hrun; simpl in Hrun; simplify_eq.
    all: split; [rewrite He; by left|by intros k; rewrite Hreg].
Qed.

Lemma clerk_Get_sole script s key s' r :
  clerk_Get (attempts script) s (mkGetArgs key) = (s', Some r) -> s' = s /\ r = reading (st_look s key).
Proof.
  revert s. induction script as [|d script IH]; intros s Hrun; [done|]. simpl in Hrun. unfold env_puts in Hrun. simpl in Hrun.
  destruct d; simpl in Hrun; [by apply IH..|]. rewrite st_get_reply in Hrun. simpl in Hrun.
  unfold reading. by destruct (st_look s key); simpl in Hrun; simplify_eq.
Qed.

#[export] Instance net_view : SoleView (net_clerk St) := {|
  sc_ok c := Forall (fun script => Z.of_nat (length script) < 2 ^ 64)%Z (nc_net c);
  sc_look c := st_look (nc_store c) |}.

#[export] Instance net_sole : SoleClerk (net_clerk St).
Proof.
  split.
  - intros key [s net] c' r Hok Hg. simpl in *. destruct net as [|script net]; [done|].
    destruct (clerk_Get _ s _) as [s' [r'|]] eqn:Hr; simplify_eq/=. apply clerk_Get_sole in Hr as [-> ->].
    by apply Forall_cons_1 in Hok as [_ Hok].
  - intros key val ver [s net] c' e Hok Hg. simpl in *. destruct net as [|script net]; [done|].
    destruct (clerk_Put _ _ s _) as [[s' [e'|]] l] eqn:Hr; simplify_eq/=.
    apply Forall_cons_1 in Hok as [? Hok]. by destruct (clerk_Put_sole _ _ _ _ _ _ _ Hr) as [Hc Hs]; [lia..|].
Qed.
End Net.

(** ** What the checks establish

    [wp m w Q]: run in [w], [m] does not fail the test, and if it returns, [Q]. *)
Section Sole.
Context {S : Type} `{!IKVClerk S, !SoleView S, !SoleClerk S}.
Implicit Types (w : world S).

Definition wp {A} (m : M S A) w (Q : world S -> A -> Prop) : Prop :=
  match m w with
  | Some (Ret (w', a)) => Q w' a
  | Some _ => False
  | None => True
  end.

Lemma wp_bind {A B} (m : M S A) (f : A -> M S B) w Q :
  wp m w (fun w' a => wp (f a) w' Q) -> wp (m ≫= f) w Q.
Proof. unfold wp, mbind, M_bind. by destruct (m w) as [[[w' a]| |]|]. Qed.

Definition wok w : Prop := sc_ok (w_ck w).
Definition reg w (k : string) : option kvValue := sc_look (w_ck w) k.
Definition keeps w w' : Prop := wok w' /\ forall k, reg w' k = reg w k.

(** What a put leaves, whatever else the test records of it. *)
Definition put_post key value ver w (Q : world S -> Err -> Prop) : Prop :=
  forall w' e, wok w' ->
  let res := put_result (reg w key) value ver in
  clerk_err res.2 e -> (forall k, reg w' k = if decide (k = key) then res.1 else reg w k) -> Q w' e.

Lemma wp_TestClerk_Put key value ver w Q :
  wok w ->
  put_post key value ver w Q ->
  wp (TestClerk_Put key value ver) w Q.
Proof.
  unfold wok, reg. intros Hok HQ. apply wp_bind. unfold wp, clerk_call. simpl.
  destruct (ck_Put _ _ _ _) as [[s' e]|] eqn:Hp; [|done].
  destruct (sc_Put _ _ _ _ _ _ Hok Hp) as (Hok' & He & Hs). by apply HQ.
Qed.

Lemma wp_TestClerk_Get key w Q :
  wok w -> (forall w', keeps w w' -> Q w' (reading (reg w key))) -> wp (TestClerk_Get key) w Q.
Proof.
  unfold wok, reg. intros Hok HQ. apply wp_bind. unfold wp, clerk_call. simpl.
  destruct (ck_Get _ _) as [[s' r]|] eqn:Hp; [|done].
  destruct (sc_Get _ _ _ _ Hok Hp) as (Hok' & Hs & ->). by apply HQ.
Qed.

Ltac wp_put_log HQ :=
  do 2 apply wp_bind; apply wp_TestClerk_Put; [done|]; intros w' e Hok' res He Hs;
  unfold wp; simpl; simple refine (HQ _ e _ _ _); [exact Hok'|exact He|exact Hs].

Lemma wp_Test_Put key value ver me w Q :
  wok w -> put_post key value ver w Q -> wp (Test_Put key value ver me) w Q.
Proof. intros Hok HQ. wp_put_log HQ. Qed.

Lemma wp_Put key value ver me w Q :
  wok w -> put_post key value ver w Q -> wp (Put key value ver me) w Q.
Proof. intros Hok HQ. wp_put_log HQ. Qed.

Lemma wp_Test_Get key me w Q :
  wok w -> (forall w', keeps w w' -> Q w' (reading (reg w key))) ->
  wp (Test_Get key me) w Q /\ wp (Get key me) w Q.
Proof.
  intros Hok HQ. split; (do 2 apply wp_bind; apply wp_TestClerk_Get; [done|]; intros w' Hk;
    unfold wp; simpl; refine (HQ _ _); exact Hk).
Qed.

(** [PutAtLeastOnce] while nobody else writes the key, from any version not
    above the key's, however many of its puts are performed without its knowing:
    it does not fail the test, and when it returns the key holds the value, at
    the version returned, which is above the one it started from; the other keys
    are untouched. *)
Theorem PutAtLeastOnce_spec fuel key value ver me w :
  wok w -> is_Some (reg w key) \/ ver = 0%Z ->
  (0 <= ver <= reg_ver (reg w key))%Z -> (reg_ver (reg w key) + Z.of_nat fuel < 2 ^ 64)%Z ->
  wp (PutAtLeastOnce fuel key value ver me) w (fun w' ver' =>
    (ver < ver')%Z /\ (reg_ver (reg w key) < ver')%Z /\
    reg w' key = Some (mkKvValue value ver') /\ forall k, k <> key -> reg w' k = reg w k).
Proof.
  revert w ver. induction fuel as [|fuel IH]; intros w ver Hok Hk Hv Hb; [done|]. simpl. apply wp_bind.
  apply wp_Test_Put; [done|]. intros w' e Hok' res He Hs. subst res.
  assert (Hu : u64 (ver + 1) = (ver + 1)%Z) by (apply wrap_small; lia). rewrite Hu.
  assert (Hother : forall k, k <> key -> reg w' k = reg w k) by (intros k Hne; by rewrite Hs, decide_False).
  specialize (Hs key). rewrite decide_True in Hs by done.
  destruct (put_result_errs (reg w key) value ver) as [Hr|[Hr|Hr]]; rewrite Hr in He.
  - rewrite put_result_ok in Hs by (done || lia). apply put_result_ok_iff in Hr.
    destruct He as [->|[-> _]].
    + rewrite decide_True by done. unfold wp. simpl. rewrite Hs, Hr. split_and!; [lia..|done|done].
    + rewrite decide_False, decide_True by (done || by left). unfold wp in *.
      specialize (IH w' (ver + 1)%Z Hok'). rewrite Hs in IH. simpl in IH.
      specialize (IH ltac:(left; by eexists) ltac:(lia) ltac:(lia)).
      destruct (PutAtLeastOnce _ _ _ _ _ w') as [[[w2 v2]| |]|]; try done. simpl in *.
      destruct IH as (? & ? & ? & Ho). split_and!; [lia..|done|]. intros k Hne. rewrite Ho by done. by apply Hother.
  - rewrite put_result_fail in Hs by (by rewrite Hr). apply put_result_errversion in Hr as [Hsome Hne].
    rewrite decide_False by (by destruct He as [->|[-> _]]).
    rewrite decide_True by (destruct He as [->|[-> _]]; auto).
    unfold wp in *. specialize (IH w' (ver + 1)%Z Hok'). rewrite Hs in IH.
    specialize (IH ltac:(by left) ltac:(lia) ltac:(lia)).
    destruct (PutAtLeastOnce _ _ _ _ _ w') as [[[w2 v2]| |]|]; try done. simpl in *.
    destruct IH as (? & ? & ? & Ho). split_and!; [lia..|done|]. intros k Hne'. rewrite Ho by done. by apply Hother.
  - apply put_result_nokey in Hr as [Hn Hne]. rewrite Hn in Hk. destruct Hk as [[? ?]|?]; done.
Qed.

Lemma wp_GetJson `{!Json A, !JsonLaws A} key me (x : A) v w Q :
  wok w -> reg w key = Some v -> Marshal x = Some (value v) ->
  (forall w', keeps w w' -> Q w' (x, version v)) -> wp (GetJson key me) w Q.
Proof.
  intros Hok Hr Hm HQ. apply wp_bind, wp_Test_Get; [done|]. intros w' Hk. rewrite Hr. unfold reading.
  rewrite (GetJson_result_Ret _ _ _ Hm). by apply HQ.
Qed.

Lemma wp_CheckGet key value ver w Q :
  wok w -> reg w key = Some (mkKvValue value ver) -> (forall w', keeps w w' -> Q w' tt) ->
  wp (CheckGet key value ver) w Q.
Proof.
  intros Hok Hr HQ. apply wp_bind, wp_Test_Get; [done|]. intros w' Hk. rewrite Hr. simpl.
  rewrite decide_False by (intros [?|?]; done). by apply HQ.
Qed.

Lemma keeps_trans w1 w2 w3 : keeps w1 w2 -> keeps w2 w3 -> keeps w1 w3.
Proof. intros [_ H1] [? H2]. split; [done|]. intros k. by rewrite H2. Qed.

Lemma wp_spread_checks kvs w0 w Q :
  keeps w0 w -> Forall (fun x => reg w0 x.1 = Some (mkKvValue x.2 1)) kvs ->
  (forall w', keeps w0 w' -> Q w' tt) -> wp (spread_checks kvs) w Q.
Proof.
  intros Hk Hf HQ. revert w Hk. induction Hf as [|[k v] kvs Hkv _ IH]; intros w Hk; [by apply HQ|].
  simpl. apply wp_bind. apply wp_CheckGet; [apply Hk|by rewrite (proj2 Hk)|].
  intros w' Hk'. apply IH. by eapply keeps_trans.
Qed.

Lemma wp_spread_puts kvs w Q :
  wok w -> NoDup kvs.*1 -> Forall (fun k => reg w k = None) kvs.*1 ->
  (forall w', wok w' -> Forall (fun x => reg w' x.1 = Some (mkKvValue x.2 1)) kvs ->
     (forall k, k ∉ kvs.*1 -> reg w' k = reg w k) -> Q w' tt) ->
  wp (spread_puts kvs) w Q.
Proof.
  revert w Q. induction kvs as [|[k v] kvs IH]; intros w Q Hok Hnd Hn HQ; simpl in *; [by apply HQ|].
  apply wp_bind, wp_TestClerk_Put; [done|]. apply NoDup_cons in Hnd as [Hk Hnd]. apply Forall_cons_1 in Hn as [Hn Hns].
  intros w1 e Hok1 res _ Hs. subst res. rewrite Hn in Hs. simpl in Hs.
  apply IH; [done|done| |].
  - apply Forall_forall. intros k' Hk'. rewrite Forall_forall in Hns. rewrite Hs, decide_False; [by apply Hns|].
    by intros ->.
  - intros w' Hok' Hf Ho. apply HQ; [done| |].
    + constructor; [|done]. simpl. by rewrite Ho, Hs, decide_True.
    + intros k' [Hne Hni]%not_elem_of_cons. rewrite Ho by done. by rewrite Hs, decide_False.
Qed.

Lemma MakeKeys_NoDup n : NoDup (MakeKeys n).
Proof.
  unfold MakeKeys. apply NoDup_fmap; [|apply NoDup_seq]. intros i j H. by apply (inj (String.app "k")), (inj itoa) in H.
Qed.

(** [SpreadPutsSize] on keys that do not exist passes its own checks on
    any network, although it ignores what its puts return: each key ends up with
    its value at version 1, and nothing else changes. *)
Theorem SpreadPuts_checks n va w :
  wok w -> length va = n -> (forall k, k ∈ MakeKeys n -> reg w k = None) ->
  wp (SpreadPutsSize n va) w (fun w' r =>
    r = (MakeKeys n, va) /\
    (forall i k v, MakeKeys n !! i = Some k -> va !! i = Some v -> reg w' k = Some (mkKvValue v 1)) /\
    forall k, k ∉ MakeKeys n -> reg w' k = reg w k).
Proof.
  intros Hok Hlen Hn. assert (Hz : (zip (MakeKeys n) va).*1 = MakeKeys n).
  { apply fst_zip. unfold MakeKeys. rewrite length_fmap, length_seq. lia. }
  apply wp_bind, wp_spread_puts; [done|rewrite Hz; apply MakeKeys_NoDup|rewrite Hz; by apply Forall_forall|].
  rewrite Hz. intros w1 Hok1 Hf Ho. apply wp_bind. eapply (wp_spread_checks _ w1); [done|done|].
  intros w' [_ Hk]. split_and!; [done| |].
  - intros i k v Hi Hv. rewrite Hk. rewrite Forall_forall in Hf. apply (Hf (k, v)).
    apply list_elem_of_lookup. exists i. apply lookup_zip_with_Some. by eauto.
  - intros k Hk'. rewrite Hk. by apply Ho.
Qed.

(** [PutAtLeastOnceJson] puts with version 0 whatever version it is given:
    on a key that exists it returns without ever having put. *)
Theorem PutAtLeastOnceJson_no_put `{!Json A} fuel key (value : A) ver me w :
  (forall x : A, is_Some (Marshal x)) ->
  wok w -> is_Some (reg w key) -> reg_ver (reg w key) <> 0%Z ->
  wp (PutAtLeastOnceJson fuel key value ver me) w (fun w' _ => forall k, reg w' k = reg w k).
Proof.
  intros Hm. revert w ver. induction fuel as [|fuel IH]; intros w ver Hok Hs Hv; [done|]. simpl. apply wp_bind.
  apply wp_bind. unfold PutJson_bytes, wp at 1, lift. destruct (Hm value) as [b ->]. simpl. apply wp_Put; [done|]. intros w' e Hok' res He Hw. subst res.
  assert (Hr : (put_result (reg w key) b 0).2 = ErrVersion) by (by apply put_result_errversion).
  assert (Hsame : forall k, reg w' k = reg w k).
  { intros k. rewrite Hw. case_decide as Hk; [|done]. rewrite Hk. apply put_result_fail. by rewrite Hr. }
  case_decide; [exact Hsame|]. specialize (IH w' (u64 (ver + 1)) Hok'). rewrite !Hsame in IH. specialize (IH Hs Hv).
  unfold wp in *. destruct (PutAtLeastOnceJson _ _ _ _ _ w') as [[[w2 v2]| |]|]; try done.
  intros k. by rewrite IH.
Qed.
End Sole.

(** ** On a reliable network *)
Section Reliable.
Context {St : Type} `{HSt : KVStore St} `{!KVStoreLaws St}.

Lemma net_reliable_put key value ver (c : net_clerk St) net :
  nc_net c = [Delivered] :: net ->
  ck_Put key value ver c =
  Some (mkNet (st_put (nc_store c) (mkPutArgs key value ver)).1 net,
        (put_result (st_look (nc_store c) key) value ver).2).
Proof.
  intros Hn. simpl. rewrite Hn. simpl. unfold env_puts. simpl.
  pose proof (st_put_reply (nc_store c) (mkPutArgs key value ver)) as He. simpl in He.
  destruct (st_put (nc_store c) (mkPutArgs key value ver)) as [s' [x]]. simpl in *. subst x.
  destruct (put_result_errs (st_look (nc_store c) key) value ver) as [Hr|[Hr|Hr]]; rewrite Hr; unfold put_switch; simpl; done.
Qed.

(** on a network that loses nothing [PutAtLeastOnce] ends, after at most as
    many puts as the key's version is above the one given, plus one, and puts
    exactly once. *)
Theorem PutAtLeastOnce_returns n fuel key value ver me (w : world (net_clerk St)) :
  nc_net (w_ck w) = replicate n [Delivered] ->
  is_Some (reg w key) \/ ver = 0%Z ->
  (0 <= ver <= reg_ver (reg w key))%Z -> (reg_ver (reg w key) + 1 < 2 ^ 64)%Z ->
  (reg_ver (reg w key) < ver + Z.of_nat n)%Z -> n <= fuel ->
  exists w', PutAtLeastOnce fuel key value ver me w = Some (Ret (w', reg_ver (reg w key) + 1)%Z).
Proof.
  revert n w ver. induction fuel as [|fuel IH]; intros n w ver Hn Hk Hv Hb Hlt Hf; [lia|].
  destruct n as [|n]; [lia|]. simpl in Hn.
  cbn [PutAtLeastOnce]. unfold Test_Put, TestClerk_Put, clerk_call, since, OpInc, append_log.
  unfold mbind, M_bind, mret, M_ret. cbn [w_ck w_ops w_clock w_oplog].
  rewrite (net_reliable_put _ _ _ _ _ Hn). cbn [w_ck w_ops w_clock w_oplog].
  unfold reg in *. cbn [sc_look net_view nc_store] in *.
  rewrite !(wrap_small 64 (ver + 1)) by lia.
  set (o := st_look (nc_store (w_ck w)) key) in *.
  destruct (put_result_errs o value ver) as [Hr|[Hr|Hr]]; rewrite Hr.
  - rewrite decide_True by done. apply put_result_ok_iff in Hr. eexists. by rewrite Hr.
  - rewrite decide_False by done. rewrite decide_True by auto.
    pose proof (put_result_fail o value ver ltac:(by rewrite Hr)) as Hsame.
    apply put_result_errversion in Hr as [Hsome Hne].
    match goal with |- context [PutAtLeastOnce fuel key value _ me ?w1] => specialize (IH n w1 (ver + 1)%Z eq_refl) end.
    cbn [w_ck nc_store] in IH. rewrite st_put_register in IH. cbn [put_key put_value put_version] in IH.
    rewrite decide_True in IH by done. fold o in IH. rewrite Hsame in IH. apply IH; auto; lia.
  - apply put_result_nokey in Hr as [Hr Hne]. rewrite Hr in Hk. destruct Hk as [[? ?]|?]; done.
Qed.
End Reliable.

(** ** The linearizability check passes *)
Section Porcupine.
Context {St : Type} `{HSt : KVStore St} `{!KVStoreLaws St} {C I : Type} `{!KvClients.Program C I}.

(** [CheckPorcupine] passes.  If the checker reports [Illegal] only for
    logs that have no linearization, then after any run of any clients on one
    store, whatever the network lost, with no performed put left unanswered and
    no put answered [ErrNoKey], the check does not fail the test, and writes its
    file only when [VIS_ENABLE] is [always]. *)
Theorem CheckPorcupine_passes (check : KvClients.OpLog -> CheckResult) es now (s : St) (cs : list C) k
    enabled fpath opened finalized :
  (forall log, check log = Illegal -> ~ KvClients.linearizable log) ->
  run KvClients.exec es (KvClients.init now s cs) = Some k ->
  (0 <= now)%Z -> (now + Z.of_nat (length es) < 2 ^ 64)%Z ->
  (forall key, st_look s key = None) ->
  (forall c st p, KvClients.ks_clients k !! c = Some (st, Some p) -> KvClients.p_done p = None) ->
  Forall (fun o => ~ put_nokey o) (KvClients.oplog k) ->
  let '(acts, o) := checkPorcupine check enabled fpath opened finalized (KvClients.oplog k) in
  o = Ret tt /\ (acts = [] \/ enabled = "always").
Proof.
  intros Hcheck Hr Hn Hlen Hs Hp Hno. unfold checkPorcupine.
  pose proof (KvClients.history_linearizable _ _ _ _ _ Hr Hn Hlen Hs Hp Hno) as Hlin.
  destruct (check (KvClients.OpLog_Read (KvClients.oplog k))) eqn:Hc; [|by destruct (Hcheck _ Hc)|].
  all: split; [done|]; case_bool_decide; [by right|by left].
Qed.
End Porcupine.

(** ** Witnesses *)

Definition countable_json (A : Type) `{Countable A} : Json A := {|
  Marshal x := Some (enc_str x);
  Unmarshal := dec_str |}.

Lemma countable_json_laws (A : Type) `{Countable A} : @JsonLaws A (countable_json A).
Proof. split; [by eexists|]. intros x s [= <-]. apply dec_enc_str. Qed.


(** A first put whose reply is lost, twice. *)
Definition demo_world : world (net_clerk (gmap string kvValue)) :=
  mkWorld (mkNet {["k" := mkKvValue "old" 1]} [[ReplyLost; Delivered]; [Delivered; Delivered]; [Delivered]; [Delivered]]) 0 0 [].

Lemma demo_world_ok : wok demo_world.
Proof. repeat constructor. Qed.

Lemma PutAtLeastOnce_spec_witness :
  (exists w', PutAtLeastOnce 5 "k" "new" 1 0 demo_world = Some (Ret (w', 3%Z))) /\
  wp (PutAtLeastOnce 5 "k" "new" 1 0) demo_world (fun w' ver' =>
    (1 < ver')%Z /\ (reg_ver (reg demo_world "k") < ver')%Z /\ reg w' "k" = Some (mkKvValue "new" ver') /\
    forall k, k <> "k" -> reg w' k = reg demo_world k).
Proof.
  split; [by eexists; vm_compute|].
  apply (PutAtLeastOnce_spec 5 "k" "new" 1 0 demo_world); [exact demo_world_ok|left; by eexists|by vm_compute|by vm_compute].
Defined.

Definition quiet_world : world (net_clerk (gmap string kvValue)) :=
  mkWorld (mkNet {["k" := mkKvValue "old" 2]} (replicate 3 [Delivered])) 0 0 [].

Lemma PutAtLeastOnce_returns_witness :
  exists w', PutAtLeastOnce 4 "k" "new" 0 0 quiet_world = Some (Ret (w', reg_ver (reg quiet_world "k") + 1))%Z.
Proof.
  apply (PutAtLeastOnce_returns 3 4 "k" "new" 0 0 quiet_world); [done|by right|by vm_compute|by vm_compute|by vm_compute|lia].
Defined.

Lemma SpreadPuts_checks_witness :
  wp (SpreadPutsSize 2 ["x"; "y"]) demo_world (fun w' r =>
    r = (MakeKeys 2, ["x"; "y"]) /\
    (forall i k v, MakeKeys 2 !! i = Some k -> ["x"; "y"] !! i = Some v -> reg w' k = Some (mkKvValue v 1)) /\
    forall k, k ∉ MakeKeys 2 -> reg w' k = reg demo_world k).
Proof.
  apply (SpreadPuts_checks 2 ["x"; "y"] demo_world); [exact demo_world_ok|done|].
  intros k Hk. assert (k = "k0" \/ k = "k1") as [->| ->]; [|done..].
  revert Hk. change (MakeKeys 2) with ["k0"; "k1"]. set_solver.
Defined.

Lemma PutAtLeastOnceJson_no_put_witness :
  (exists w', @PutAtLeastOnceJson _ _ EntryV (countable_json EntryV) 5 "k" (mkEntryV 1 1) 1 0 demo_world = Some (Ret (w', 2%Z))) /\
  wp (@PutAtLeastOnceJson _ _ EntryV (countable_json EntryV) 5 "k" (mkEntryV 1 1) 1 0) demo_world
    (fun w' _ => forall k, reg w' k = reg demo_world k).
Proof.
  split; [by eexists; vm_compute|].
  apply (@PutAtLeastOnceJson_no_put _ _ _ _ EntryV (countable_json EntryV));
    [by intros x; eexists|exact demo_world_ok|by eexists|by vm_compute].
Defined.

#[local] Existing Instance KvClients.script_program.

(** A checker that decides logs of one operation. *)
Definition demo_check (log : KvClients.OpLog) : CheckResult :=
  match log with
  | [o] => if model_accepts [o] then Ok else Illegal
  | _ => Unknown
  end.

Lemma demo_check_sound log : demo_check log = Illegal -> ~ KvClients.linearizable log.
Proof.
  destruct log as [|o [|]]; try done. simpl. destruct (model_accepts [o]) eqn:Ha; [done|].
  intros _ (lin & Hp & _ & _ & Hacc). apply Permutation_singleton_r in Hp.
  rewrite Hp, Ha in Hacc. done.
Qed.

Lemma CheckPorcupine_passes_witness :
  exists k, run KvClients.exec KvClients.demo_events
    (KvClients.init 0 (∅ : gmap string kvValue) KvClients.demo_clients) = Some k /\
  let '(acts, o) := checkPorcupine demo_check "" "" true false (KvClients.oplog k) in
  o = Ret tt /\ (acts = [] \/ "" = "always").
Proof.
  destruct (run KvClients.exec KvClients.demo_events (KvClients.init 0 (∅ : gmap string kvValue) KvClients.demo_clients))
    as [k|] eqn:H; [|by vm_compute in H].
  exists k. split; [done|].
  apply (CheckPorcupine_passes demo_check KvClients.demo_events 0 (∅ : gmap string kvValue) KvClients.demo_clients k
    "" "" true false demo_check_sound H); [done|done|..].
  - intros key. apply lookup_empty.
  - rewrite (demo_read KvClients.ks_clients _ k [([], None); ([], None)] H eq_refl). intros [|[|c]] st p [=].
  - apply (bool_decide_eq_true_1 _).
    apply (demo_read (fun k => bool_decide (Forall (fun o => ~ put_nokey o) (KvClients.oplog k))) _ k true H). by vm_compute.
Defined.

End KvTest.
