(* ===== verification/KvRace.v ===== *)
(** * Clients racing on one store

    The two client loops of [src/src/kvtest1/kvtest.go] that the tests run
    concurrently: [OneClientPut], which puts to a key until it is told to stop,
    and [OneClientAppend], which appends numbered entries to one shared list.
    Both are programs of [KvClients], so any number of them run with every
    interleaving of their RPC attempts and every loss of the network, and the
    theorems say that the checks the tests end with pass. *)

From S2P Require Import Prelude KvServer KvModel KvClerk KvClients KvTest.
From stdpp Require Import base gmap strings list.

Module KvRace.
Import KvClients KvTest.

(** What the [select] of a client loop finds: the done signal, or nothing yet
    and the next value of the random source. *)
Inductive select_input := SelDone | SelDefault (rnd : nat).

(** ** OneClientPut *)

(** Where a client is: at the [select]; in [OnePut], about to put [b] (the JSON
    of its entry) or about to read back; returned. *)
Inductive put_pc :=
  | PSelect
  | PPut (k : string) (ver : Tversion) (b : string)
  | PCheck (k : string) (ver : Tversion) (err : Err)
  | PReturned.

Record put_client := mkPutc { pc_me : Z; pc_verm : gmap string Tversion; pc_at : put_pc; pc_res : ClntRes }.

Section PutRace.
Context (randomkeys : bool) (ka : list string) `{!Json EntryV}.

Definition put_start (me : Z) : put_client :=
  mkPutc me (foldl (fun m k => <[k := 0%Z]> m) ∅ ka) PSelect (mkClntRes 0 0).

(** The body of [OnePut]'s loop, up to its put. *)
Definition OnePut_put (me : Z) (k : string) (ver : Tversion) : outcome put_pc :=
  b ← PutJson_bytes (mkEntryV me ver); Ret (PPut k ver b).

Definition pick_key (rnd : nat) : outcome string :=
  k ← idx ka 0;
  if randomkeys then idx ka (rnd mod length ka) else Ret k.

Definition put_tell (x : select_input) (c : put_client) : option (outcome put_client) :=
  match pc_at c with
  | PSelect =>
      match x with
      | SelDone => Some (Ret (mkPutc (pc_me c) (pc_verm c) PReturned (pc_res c)))
      | SelDefault rnd => Some (
          k ← pick_key rnd;
          at_ ← OnePut_put (pc_me c) k (default 0%Z (pc_verm c !! k));
          Ret (mkPutc (pc_me c) (pc_verm c) at_ (pc_res c)))
      end
  | _ => None
  end.

Definition put_want (c : put_client) : option call :=
  match pc_at c with
  | PPut k ver b => Some (CPut (mkPutArgs k b ver))
  | PCheck k _ _ => Some (CGet k)
  | _ => None
  end.

(** [OnePut] after its put: the error it checks. *)
Definition OnePut_err (err : Err) : outcome unit :=
  if decide (err = OK \/ err = ErrVersion \/ err = ErrMaybe) then Ret tt else Fatal "Wrong error".

(** [OnePut] after reading the key back, and its caller when it returns. *)
Definition OnePut_read (c : put_client) (k : string) (ver : Tversion) (err : Err) (g : string * Tversion * Err)
    : outcome put_client :=
  '(e, ver0) ← GetJson_result (A := EntryV) g;
  if decide (err = OK /\ ver0 = u64 (ver + 1) /\ ev_Id e <> pc_me c /\ ev_V e <> ver) then Fatal "Wrong value"
  else if decide (err = OK \/ err = ErrMaybe) then
    let verm := <[k := ver0]> (pc_verm c) in
    let res := pc_res c in
    Ret (mkPutc (pc_me c) verm PSelect
           (if decide (err = OK) then mkClntRes (Nok res + 1) (Nmaybe res) else mkClntRes (Nok res) (Nmaybe res + 1)))
  else
    at_ ← OnePut_put (pc_me c) k ver0;
    Ret (mkPutc (pc_me c) (pc_verm c) at_ (pc_res c)).

Definition put_resume (c : put_client) (r : result) : outcome put_client :=
  match pc_at c, r with
  | PPut k ver _, RPutErr err =>
      _ ← OnePut_err err; Ret (mkPutc (pc_me c) (pc_verm c) (PCheck k ver err) (pc_res c))
  | PCheck k ver err, RGetRes val ver0 gerr => OnePut_read c k ver err (val, ver0, gerr)
  | _, _ => Panic "result of another call"
  end.

#[export] Instance put_program : Program put_client select_input :=
  {| want := put_want; resume := put_resume; tell := put_tell |}.

(** [SpawnClientsAndWait]: client [i] runs with [me] = [i]; the results, in
    client order, once all have returned. *)
Definition put_results (cls : list (put_client * option pending)) : list ClntRes := (fun x => pc_res x.1) <$> cls.
Definition put_returned (cls : list (put_client * option pending)) : Prop :=
  Forall (fun x => pc_at x.1 = PReturned) cls.

(** *** Its invariant *)

Context {St : Type} `{HSt : KVStore St} `{!KVStoreLaws St} `{!JsonLaws EntryV}.
Implicit Types (s : St).

(** Every register holds the JSON of the entry put with the version before. *)
Definition entries_ok s : Prop :=
  forall key v, st_look s key = Some v ->
  (1 <= version v)%Z /\ exists id, Marshal (mkEntryV id (version v - 1)) = Some (value v).

Definition put_at_ok s (me : Z) (at_ : put_pc) : Prop :=
  match at_ with
  | PSelect | PReturned => True
  | PPut k ver b =>
      k ∈ ka /\ Marshal (mkEntryV me ver) = Some b /\ (0 <= ver <= kver s k)%Z /\ (ver = 0%Z \/ is_Some (st_look s k))
  | PCheck k ver err =>
      k ∈ ka /\ (0 <= ver)%Z /\ is_Some (st_look s k) /\ (err = OK \/ err = ErrVersion \/ err = ErrMaybe) /\
      (err = OK -> (ver < kver s k)%Z)
  end.

Definition put_client_ok s (c : put_client) : Prop :=
  (forall k ver, pc_verm c !! k = Some ver -> (0 <= ver <= kver s k)%Z /\ (ver = 0%Z \/ is_Some (st_look s k))) /\
  put_at_ok s (pc_me c) (pc_at c) /\
  (0 <= Nok (pc_res c))%Z /\ (0 <= Nmaybe (pc_res c))%Z /\
  (0 < Nok (pc_res c) + Nmaybe (pc_res c) -> exists k, k ∈ ka /\ is_Some (st_look s k))%Z.

Record put_inv (k : sys) : Prop := {
  pi_entries : entries_ok (ks_store k);
  pi_clients c cl p : ks_clients k !! c = Some (cl, p) -> put_client_ok (ks_store k) cl;
  pi_fatal : ks_fatal k = false }.

Lemma put_client_ok_mono s s' c :
  (forall key, grows key 1 s s') -> put_client_ok s c -> put_client_ok s' c.
Proof.
  intros Hg (Hv & Hat & ? & ? & Hk). split_and!; [|..|done|done|].
  - intros k ver Hl. destruct (Hv k ver Hl), (Hg k). split; [lia|naive_solver].
  - destruct (pc_at c) as [|k ver b|k ver err|]; simpl in *; [done| | |done]; destruct (Hg k); naive_solver lia.
  - intros Hp. destruct (Hk Hp) as (k & ? & ?). exists k. split; [done|]. by apply (Hg k).
Qed.

Lemma attempt_entries s p s' r ans i me k ver b :
  attempt_case s p s' r ans i -> (forall key, 0 <= kver s key)%Z ->
  p_call p = CPut (mkPutArgs k b ver) -> Marshal (mkEntryV me ver) = Some b ->
  entries_ok s -> entries_ok s'.
Proof.
  intros Ha Hp Hc Hb He. destruct Ha as [| |a s' r Hc' Hv Hst| a s' r Hc' Hs Hv Hst|a s' r Hc' Hs Hv Hst]; [done..| | |].
  - intros key v. rewrite (Hst key). case_decide; [|apply He]. intros; simplify_eq. rewrite Hc in Hc'. simplify_eq. simpl.
    pose proof (Hp k) as Hk. simpl in Hv.
    split; [lia|]. exists me. by replace (ver + 1 - 1)%Z with ver by lia.
  - intros key v. rewrite (Hst key). apply He.
  - intros key v. rewrite (Hst key). apply He.
Qed.

Lemma OnePut_put_ok s me k ver :
  k ∈ ka -> (0 <= ver <= kver s k)%Z -> ver = 0%Z \/ is_Some (st_look s k) ->
  exists at_, OnePut_put me k ver = Ret at_ /\ put_at_ok s me at_.
Proof.
  intros Hk Hv Hs. unfold OnePut_put. destruct (PutJson_bytes_Ret (mkEntryV me ver)) as (b & -> & Hb).
  eexists. split; [done|]. simpl. split_and!; done || lia.
Qed.

Lemma put_tell_ok s x c o :
  ka <> [] -> put_client_ok s c -> put_tell x c = Some o -> (0 <= kver s "")%Z -> (forall k, 0 <= kver s k)%Z ->
  exists c', o = Ret c' /\ put_client_ok s c'.
Proof.
  intros Hka (Hv & Hat & Hn) Ht _ Hp. unfold put_tell in Ht. destruct (pc_at c); try done.
  destruct x as [|rnd]; simplify_eq; [eexists; by split_and!|].
  assert (exists k, pick_key rnd = Ret k /\ k ∈ ka) as (k & -> & Hk).
  { assert (Hlen : length ka <> 0) by (by destruct ka).
    destruct (lookup_lt_is_Some_2 ka 0 ltac:(lia)) as [k0 Hk0].
    destruct (lookup_lt_is_Some_2 ka (rnd mod length ka)) as [k1 Hk1]; [by apply Nat.mod_upper_bound|].
    unfold pick_key. rewrite (idx_Some _ _ _ Hk0), (idx_Some _ _ _ Hk1).
    exists (if randomkeys then k1 else k0). destruct randomkeys; (split; [done|]); by eapply list_elem_of_lookup_2. }
  simpl. destruct (OnePut_put_ok s (pc_me c) k (default 0%Z (pc_verm c !! k))) as (at_ & -> & Hok); [done|..].
  - destruct (pc_verm c !! k) eqn:E; simpl; [by destruct (Hv _ _ E)|]. split; [done|apply Hp].
  - destruct (pc_verm c !! k) eqn:E; simpl; [by destruct (Hv _ _ E)|by left].
  - simpl. eexists. split; [done|]. split_and!; by destruct Hn as (? & ? & ?).
Qed.

Lemma put_resume_ok s p s' r ans i c now :
  attempt_case s p s' (Some r) ans i -> pend_ok s now p -> put_want c = Some (p_call p) ->
  (forall key, 0 <= kver s key)%Z -> (forall key, kver s key + 1 < 2 ^ 64)%Z ->
  entries_ok s -> put_client_ok s c -> exists c', put_resume c r = Ret c' /\ put_client_ok s' c'.
Proof.
  intros Ha Hpe Hw Hp Hb He Hc. pose proof (attempt_grows _ _ _ _ _ _ Ha Hp) as Hg.
  pose proof (put_client_ok_mono _ _ _ Hg Hc) as Hc'. unfold put_want in Hw.
  destruct Hc as (_ & Hat & _), Hc' as (Hv' & Hat' & Hn1 & Hn2 & Hn3).
  destruct (pc_at c) as [|k ver b|k ver err|] eqn:Eat; try done; injection Hw as Hw; symmetry in Hw.
  - (* the put's answer *)
    assert (exists err, r = RPutErr err /\ (err = OK \/ err = ErrVersion \/ err = ErrMaybe) /\
      is_Some (st_look s' k) /\ (err = OK -> (ver < kver s' k)%Z)) as (err & -> & Herr & Hsome & Hlt).
    { destruct Hat as (_ & _ & _ & Hk).
      destruct (attempt_put _ _ _ _ _ _ _ Ha Hw) as [(-> & _ & Hv & Hst)|[(-> & _ & Hs & Hv & Hst)|(-> & _ & Hs & Hv & Hst)]];
        simpl in *; eexists; (split; [done|]).
      - specialize (Hst k). simpl in Hst. rewrite decide_True in Hst by done. unfold kver in *. rewrite Hst. simpl.
        split_and!; [by left|by eexists|]. intros _. lia.
      - specialize (Hst k). rewrite Hst. split_and!; [case_decide; auto|done|by case_decide].
      - rewrite Hs in Hk. destruct Hk as [|[? ?]]; done. }
    unfold put_resume. rewrite Eat. unfold OnePut_err. rewrite decide_True by done. simpl. eexists. split; [done|].
    destruct Hat' as (Hk & _ & Hver & _). split_and!; simpl; try done. split_and!; done || lia.
  - (* the value read back *)
    destruct Hat as (Hk & Hver & [v Hl] & Herr & Hlt).
    destruct (attempt_get _ _ _ _ _ _ _ Ha Hw) as [-> ->].
    rewrite Hl. simpl. unfold put_resume. rewrite Eat. destruct (He k v Hl) as (Hv1 & id & Hm).
    unfold OnePut_read. rewrite (GetJson_result_Ret _ _ _ Hm). simpl.
    assert (Hkv : kver s k = version v) by (unfold kver; by rewrite Hl).
    specialize (Hb k). specialize (Hp k). rewrite Hkv in *.
    rewrite decide_False by (intros (E & Hu & _ & Hne); specialize (Hlt E); rewrite wrap_small in Hu by lia; lia).
    case_decide as Hdec.
    + eexists. split; [done|]. split_and!; simpl; [|done|case_decide; simpl; lia..|].
      * intros k' ver' Hl'. destruct (decide (k' = k)) as [->|Hne].
        -- rewrite lookup_insert_eq in Hl'. simplify_eq. rewrite Hkv, Hl. split; [lia|right; by eexists].
        -- rewrite lookup_insert_ne in Hl' by done. by apply Hv'.
      * intros _. exists k. split; [done|by eexists].
    + destruct (OnePut_put_ok s (pc_me c) k (version v)) as (at_ & -> & Hok); [done|rewrite Hkv; lia|right; by eexists|].
      simpl. eexists. split; [done|]. by split_and!.
Qed.

Lemma entries_step s p s' r ans i c :
  attempt_case s p s' r ans i -> put_want c = Some (p_call p) -> (forall key, 0 <= kver s key)%Z ->
  entries_ok s -> put_client_ok s c -> entries_ok s'.
Proof.
  intros Ha Hw Hp He (_ & Hat & _). unfold put_want in Hw.
  destruct (pc_at c) as [|k0 ver b|k0 ver err|]; try done; injection Hw as Hw; symmetry in Hw.
  - eapply attempt_entries; [done|done|done|by apply Hat|done].
  - by rewrite (attempt_get_same _ _ _ _ _ _ _ Ha Hw).
Qed.

Lemma put_step e k k' :
  ka <> [] -> (ks_now k + 1 < 2 ^ 64)%Z -> basic k -> put_inv k -> exec_case k e k' -> put_inv k'.
Proof.
  intros Hka Hn Hb [He Hc Hf] Hx.
  assert (Hp : forall key, (0 <= kver (ks_store k) key)%Z) by (intros key; apply (b_ver _ Hb key)).
  assert (Hbd : forall key, (kver (ks_store k) key + 1 < 2 ^ 64)%Z) by (intros key; pose proof (b_ver _ Hb key); lia).
  assert (Hins : forall s' c y, (forall key, grows key 1 (ks_store k) s') -> put_client_ok s' y.1 ->
    forall c0 cl p, <[c:=y]> (ks_clients k) !! c0 = Some (cl, p) -> put_client_ok s' cl).
  { intros s' c y Hg Hy c0 cl p Hl. rewrite list_lookup_insert in Hl. case_decide; simplify_eq; [done|].
    eapply put_client_ok_mono; [done|]. by eapply Hc. }
  assert (Hrefl : forall key, grows key 1 (ks_store k) (ks_store k)) by (intros key; split; [lia|done]).
  destruct Hx as [c st o x Hl Ht|c st cl Hl Hw|c d st p s' ans i Hl Ha Hd|c d st p s' r ans i Hl Ha].
  - destruct (put_tell_ok _ _ _ _ Hka (Hc _ _ _ Hl) Ht (Hp _) Hp) as (c' & -> & Hok).
    split; simpl; [done|by apply Hins|done].
  - split; simpl; [done|apply Hins; [done|]; by eapply Hc|done].
  - pose proof (attempt_grows _ _ _ _ _ _ Ha Hp) as Hg. pose proof (b_want _ Hb _ _ _ Hl) as Hw.
    split; simpl; [|apply Hins; [done|]; eapply put_client_ok_mono; [done|by eapply Hc]|done].
    by eapply entries_step; [..|by eapply Hc].
  - pose proof (attempt_grows _ _ _ _ _ _ Ha Hp) as Hg. pose proof (b_want _ Hb _ _ _ Hl) as Hw.
    destruct (put_resume_ok _ _ _ _ _ _ _ _ Ha (b_pend _ Hb _ _ _ Hl) Hw Hp Hbd He (Hc _ _ _ Hl)) as (c' & Hr & Hok).
    simpl. rewrite Hr. simpl. split; simpl; [|by apply Hins|done].
    by eapply entries_step; [..|by eapply Hc].
Qed.

(** *** Counting the puts on one key *)

Definition okc (c : put_client) : Z :=
  Nok (pc_res c) + match pc_at c with PCheck _ _ err => if decide (err = OK) then 1 else 0 | _ => 0 end.
Definition mayc (c : put_client) : Z :=
  Nmaybe (pc_res c) + match pc_at c with PCheck _ _ err => if decide (err = ErrMaybe) then 1 else 0 | _ => 0 end.
Definition donec (p : option pending) : Z := match p ≫= p_done with Some _ => 1 | None => 0 end.

Lemma OnePut_put_counts me k ver at_ :
  OnePut_put me k ver = Ret at_ -> exists b, at_ = PPut k ver b.
Proof. unfold OnePut_put. destruct (PutJson_bytes _); simpl; [|done..]. intros [= <-]. by eexists. Qed.

Lemma tell_counts x c o :
  put_tell x c = Some o -> okc (next_state c o).1 = okc c /\ mayc (next_state c o).1 = mayc c.
Proof.
  unfold put_tell, okc, mayc. destruct (pc_at c) eqn:Hat; try done. destruct x; intros [= <-]; simpl; [done|].
  destruct (pick_key rnd); simpl; [|by rewrite Hat..].
  destruct (OnePut_put _ _ _) as [at_| |] eqn:Hp; simpl; [|by rewrite Hat..].
  apply OnePut_put_counts in Hp as [b ->]. done.
Qed.

Lemma read_counts c k ver err g :
  pc_at c = PCheck k ver err ->
  let c' := (next_state c (OnePut_read c k ver err g)).1 in okc c' = okc c /\ mayc c' = mayc c.
Proof.
  intros Hat. cbn zeta. unfold OnePut_read. destruct (GetJson_result g) as [[e ver0]| |]; [|done..]. cbn [mbind outcome_bind].
  case_decide as H1; [done|]. case_decide as H2.
  - unfold okc, mayc. rewrite Hat. simpl. destruct H2 as [->| ->]; simpl; lia.
  - destruct (OnePut_put _ _ _) as [at_| |] eqn:Hp; [|done..]. apply OnePut_put_counts in Hp as [b ->].
    unfold okc, mayc. rewrite Hat. simpl. rewrite !decide_False by naive_solver. done.
Qed.

Lemma err_counts c k ver b err :
  pc_at c = PPut k ver b ->
  let c' := (next_state c (put_resume c (RPutErr err))).1 in
  okc c' = (okc c + if decide (err = OK) then 1 else 0)%Z /\
  mayc c' = (mayc c + if decide (err = ErrMaybe) then 1 else 0)%Z.
Proof.
  intros Hat. cbn zeta. unfold put_resume, OnePut_err. rewrite Hat.
  case_decide as He; simpl; unfold okc, mayc; rewrite Hat; simpl; [split; lia|].
  rewrite !decide_False by naive_solver. lia.
Qed.

Lemma get_counts c k ver err o :
  pc_at c = PCheck k ver err ->
  let c' := (next_state c (put_resume c (KvClients.reading o))).1 in okc c' = okc c /\ mayc c' = mayc c.
Proof.
  intros Hat. assert (exists g, put_resume c (KvClients.reading o) = OnePut_read c k ver err g) as [g ->].
  { unfold put_resume. rewrite Hat. destruct o; by eexists. }
  by apply read_counts.
Qed.

(** What a step changes: one client, by at most one put. *)
Lemma put_step_counts key e k k' :
  ka = [key] -> basic k -> put_inv k -> exec_case k e k' ->
  exists c x y, ks_clients k !! c = Some x /\ ks_clients k' = <[c := y]> (ks_clients k) /\
    ks_now k' = (ks_now k + 1)%Z /\
    let d := (kver (ks_store k') key - kver (ks_store k) key)%Z in
    (okc y.1 - okc x.1 <= d)%Z /\
    (d <= okc y.1 + mayc y.1 + donec y.2 - (okc x.1 + mayc x.1 + donec x.2))%Z /\
    (0 <= okc y.1 - okc x.1)%Z /\ (0 <= mayc y.1 - mayc x.1)%Z /\
    (okc y.1 + mayc y.1 - (okc x.1 + mayc x.1) <= 1)%Z.
Proof.
  intros Hka Hb Hi Hx.
  destruct Hx as [c st o x Hl Ht|c st cl Hl Hw|c d st p s' ans i Hl Ha Hd|c d st p s' r ans i Hl Ha].
  - exists c. do 2 eexists. split_and!; [done|done|done|]. simpl.
    destruct (tell_counts _ _ _ Ht) as [-> ->]. unfold donec. simpl. lia.
  - exists c. do 2 eexists. split_and!; [done|done|done|]. simpl. unfold donec. simpl. lia.
  - exists c. do 2 eexists. split_and!; [done|done|done|]. simpl. rewrite (attempt_version _ _ _ _ _ _ key Ha).
    pose proof (attempt_once _ _ _ _ _ _ _ Ha (b_pend _ Hb _ _ _ Hl)) as Hone.
    unfold donec, next_done. simpl. case_decide as Hdec.
    + destruct Hdec as [-> _]. rewrite Hone by done. simpl. lia.
    + destruct (p_done p); simpl; [lia|]. case_decide; lia.
  - exists c. do 2 eexists. split_and!; [done|done|done|]. simpl.
    pose proof (attempt_once _ _ _ _ _ _ _ Ha (b_pend _ Hb _ _ _ Hl)) as Hone.
    pose proof (fun t => done_result _ _ _ _ _ _ _ t Ha (b_pend _ Hb _ _ _ Hl)) as Hdone.
    pose proof (b_want _ Hb _ _ _ Hl) as Hw. simpl in Hw. unfold put_want in Hw.
    destruct (pi_clients _ Hi _ _ _ Hl) as (_ & Hat & _).
    destruct (pc_at st) as [|k0 ver b|k0 ver err|] eqn:Eat; try done; injection Hw as Hw; symmetry in Hw.
    + destruct Hat as [Hin _]. rewrite Hka, list_elem_of_singleton in Hin. subst k0.
      rewrite (attempt_version _ _ _ _ _ _ key Ha), Hw. simpl.
      pose proof (fun err => err_counts _ _ _ _ err Eat) as Hres.
      unfold donec. simpl.
      destruct (attempt_put _ _ _ _ _ _ _ Ha Hw) as [(-> & -> & _)|[(-> & -> & _)|(-> & -> & _)]].
      * rewrite decide_True by done. rewrite Hone by done. destruct (Hres OK) as [H1 H2]. simpl in *. lia.
      * rewrite (decide_False (P := _ = Some OK /\ _)) by (by intros [? _]). destruct (p_done p) as [t|] eqn:Ht; simpl.
        -- destruct (Hdone t eq_refl) as [_ Hr]. specialize (Hr _ eq_refl). injection Hr as ->.
           destruct (Hres ErrMaybe) as [H1 H2]. simpl in *. lia.
        -- destruct (decide (p_i p = 0%Z)); [destruct (Hres ErrVersion) as [H1 H2]|destruct (Hres ErrMaybe) as [H1 H2]];
             simpl in *; lia.
      * rewrite (decide_False (P := _ = Some OK /\ _)) by (by intros [? _]). destruct (p_done p) as [t|] eqn:Ht; simpl.
        -- destruct (Hdone t eq_refl) as [_ Hr]. by specialize (Hr _ eq_refl).
        -- destruct (Hres ErrNoKey) as [H1 H2]. simpl in *. lia.
    + destruct (attempt_get _ _ _ _ _ _ _ Ha Hw) as [-> ->].
      assert (p_done p = None) as Hnone.
      { destruct (p_done p) as [t|] eqn:Ht; [|done]. destruct (Hdone t eq_refl) as [_ Hr].
        specialize (Hr _ eq_refl). unfold KvClients.reading in Hr. by destruct (st_look _ _). }
      destruct (get_counts st k0 ver err (st_look (ks_store k) k0) Eat) as [-> ->].
      unfold donec. simpl. rewrite Hnone. lia.
Qed.

Record count_inv (key : string) (rel : bool) (k : sys) : Prop := {
  ci_put : put_inv k;
  ci_low : (zsum (fun x => okc x.1) (ks_clients k) <= kver (ks_store k) key)%Z;
  ci_high : (kver (ks_store k) key <= zsum (fun x => okc x.1 + mayc x.1 + donec x.2) (ks_clients k))%Z;
  ci_time : (zsum (fun x => okc x.1 + mayc x.1) (ks_clients k) <= ks_now k)%Z;
  ci_rel : rel = true -> forall c cl p, ks_clients k !! c = Some (cl, p) ->
    mayc cl = 0%Z /\ (forall p', p = Some p' -> p_i p' = 0%Z /\ p_done p' = None) }.

(** A network that loses nothing. *)
Definition delivered (e : @event select_input) : Prop :=
  match e with EAttempt _ d => d = Delivered | _ => True end.

Lemma rel_step e k k' :
  delivered e -> basic k -> put_inv k -> exec_case k e k' ->
  (forall c cl p, ks_clients k !! c = Some (cl, p) ->
    mayc cl = 0%Z /\ (forall p', p = Some p' -> p_i p' = 0%Z /\ p_done p' = None)) ->
  forall c cl p, ks_clients k' !! c = Some (cl, p) ->
    mayc cl = 0%Z /\ (forall p', p = Some p' -> p_i p' = 0%Z /\ p_done p' = None).
Proof.
  intros He Hb Hi Hx Hrel.
  assert (Hins : forall c y, mayc y.1 = 0%Z -> (forall p', y.2 = Some p' -> p_i p' = 0%Z /\ p_done p' = None) ->
    forall c0 cl p, <[c:=y]> (ks_clients k) !! c0 = Some (cl, p) ->
    mayc cl = 0%Z /\ (forall p', p = Some p' -> p_i p' = 0%Z /\ p_done p' = None)).
  { intros c y H1 H2 c0 cl p Hl. rewrite list_lookup_insert in Hl. case_decide; simplify_eq; [done|by eapply Hrel]. }
  destruct Hx as [c st o x Hl Ht|c st cl Hl Hw|c d st p s' ans i Hl Ha Hd|c d st p s' r ans i Hl Ha]; simpl in *;
    destruct (Hrel _ _ _ Hl) as [Hm Hp].
  - apply Hins; [|done]. simpl. by destruct (tell_counts _ _ _ Ht) as [_ ->].
  - apply Hins; [done|]. intros p' [= <-]. done.
  - done.
  - apply Hins; [|done]. simpl. destruct (Hp p eq_refl) as [Hp0 _].
    pose proof (b_want _ Hb _ _ _ Hl) as Hw. simpl in Hw. unfold put_want in Hw.
    destruct (pc_at st) as [|k0 ver b|k0 ver err|] eqn:Eat; try done; injection Hw as Hw; symmetry in Hw.
    + destruct (attempt_put _ _ _ _ _ _ _ Ha Hw) as [(-> & _)|[(-> & _)|(-> & _)]]; rewrite ?Hp0; simpl.
      all: match goal with |- context [RPutErr ?e] => destruct (err_counts _ _ _ _ e Eat) as [_ H] end; simpl in H; lia.
    + destruct (attempt_get _ _ _ _ _ _ _ Ha Hw) as [-> _].
      by destruct (get_counts st k0 ver err (st_look (ks_store k) k0) Eat) as [_ ->].
Qed.

Lemma count_step key rel e k k' :
  ka = [key] -> (rel = true -> delivered e) -> (ks_now k + 1 < 2 ^ 64)%Z -> basic k ->
  count_inv key rel k -> exec_case k e k' -> count_inv key rel k'.
Proof.
  intros Hka Hrel Hn Hb [Hput Hlow Hhigh Htime Hr] Hx.
  destruct (put_step_counts key _ _ _ Hka Hb Hput Hx) as (c & x & y & Hl & Hcl & Hnow & Hd).
  split; [eapply put_step; [by rewrite Hka|done..]|rewrite Hcl, (zsum_insert _ _ _ _ y Hl); simpl in *; lia..|].
  intros Hrt. eapply rel_step; [by apply Hrel|done|done|done|by apply Hr].
Qed.

Lemma foldl_add_res rs res :
  foldl add_res res rs = mkClntRes (Nok res + zsum Nok rs) (Nmaybe res + zsum Nmaybe rs).
Proof.
  revert res. induction rs as [|r rs IH]; intros [a b]; simpl; [by rewrite !Z.add_0_r|].
  rewrite IH. unfold add_res. simpl. f_equal; lia.
Qed.

Lemma put_start_verm me k ver : pc_verm (put_start me) !! k = Some ver -> ver = 0%Z.
Proof.
  unfold put_start. simpl. assert (H : forall m : gmap string Tversion, (forall k ver, m !! k = Some ver -> ver = 0%Z) ->
    foldl (fun m k => <[k := 0%Z]> m) m ka !! k = Some ver -> ver = 0%Z).
  { induction ka as [|k0 l IH]; intros m Hm; simpl; [apply Hm|]. apply IH. intros k' v'.
    destruct (decide (k0 = k')) as [->|]; [rewrite lookup_insert_eq; congruence|].
    rewrite lookup_insert_ne by done. apply Hm. }
  apply H. intros k' v'. by rewrite lookup_empty.
Qed.

(** [SpawnClientsAndWait]'s clients. *)
Definition put_clients (n : nat) : list put_client := (fun i => put_start (Z.of_nat i)) <$> seq 0 n.

Lemma put_inv_init now s n : (forall key, st_look s key = None) -> put_inv (init now s (put_clients n)).
Proof.
  intros Hs. split; simpl; [|..|done].
  - intros key v. by rewrite Hs.
  - intros c cl p Hl. unfold put_clients in Hl. rewrite !list_lookup_fmap in Hl.
    destruct (seq 0 n !! c) as [c0|]; [injection Hl as <- <-|done].
    split_and!; simpl; [|done|done|done|intros; lia].
    intros k ver ->%(put_start_verm 0). unfold kver. rewrite Hs. simpl. split; [lia|by left].
Qed.

Lemma count_inv_init key rel now s n :
  (0 <= now)%Z -> (forall key, st_look s key = None) -> count_inv key rel (init now s (put_clients n)).
Proof.
  intros Hn Hs. split; simpl; [by apply put_inv_init|..].
  - unfold put_clients. rewrite !zsum_fmap. unfold compose. simpl. unfold okc, kver. simpl. rewrite Hs. simpl.
    induction (seq 0 n); simpl; lia.
  - unfold put_clients. rewrite !zsum_fmap. unfold compose. simpl. unfold okc, mayc, donec, kver. simpl. rewrite Hs. simpl.
    induction (seq 0 n); simpl; lia.
  - unfold put_clients. rewrite !zsum_fmap. unfold compose, okc, mayc. simpl.
    induction (seq 0 n); simpl; lia.
  - intros _ c cl p Hl. unfold put_clients in Hl. rewrite !list_lookup_fmap in Hl.
    by destruct (seq 0 n !! c) as [c0|]; [injection Hl as <- <-|].
Qed.

(** When all clients have returned, the counters are their results. *)
Lemma returned_counts k :
  basic k -> put_returned (ks_clients k) ->
  zsum (fun x => okc x.1) (ks_clients k) = zsum Nok (put_results (ks_clients k)) /\
  zsum (fun x => okc x.1 + mayc x.1)%Z (ks_clients k)
    = (zsum Nok (put_results (ks_clients k)) + zsum Nmaybe (put_results (ks_clients k)))%Z /\
  zsum (fun x => okc x.1 + mayc x.1 + donec x.2)%Z (ks_clients k)
    = (zsum Nok (put_results (ks_clients k)) + zsum Nmaybe (put_results (ks_clients k)))%Z.
Proof.
  intros Hb Hret. unfold put_results. rewrite !zsum_fmap. unfold compose.
  assert (Hp : Forall (fun x => pc_at x.1 = PReturned /\ x.2 = None) (ks_clients k)).
  { apply Forall_lookup. intros c [cl p] Hl. pose proof (Forall_lookup_1 _ _ _ _ Hret Hl) as Hat. simpl in *.
    split; [done|]. destruct p as [p|]; [|done]. pose proof (b_want _ Hb _ _ _ Hl) as Hw. simpl in Hw.
    unfold put_want in Hw. by rewrite Hat in Hw. }
  clear Hret Hb. induction Hp as [|[cl p] l [Hat Hnone] _ (IH1 & IH2 & IH3)]; [done|]. simpl in *. subst p.
  assert (okc cl = Nok (pc_res cl) /\ mayc cl = Nmaybe (pc_res cl)) as [-> ->] by (unfold okc, mayc; rewrite Hat; lia).
  unfold donec at 1. unfold zsum in *. cbn [fst snd mbind option_bind] in *. lia.
Qed.

Lemma put_run key es now s n k (rel : bool) :
  run exec es (init now s (put_clients n)) = Some k ->
  (0 <= now)%Z -> (now + Z.of_nat (length es) < 2 ^ 64)%Z -> (forall key, st_look s key = None) -> ka = [key] ->
  (rel = true -> Forall delivered es) ->
  basic k /\ count_inv key rel k.
Proof.
  intros Hr Hn Hlen Hs Hka Hrel.
  apply (run_bounded (fun e => rel = true -> delivered e) (count_inv key rel)) with (es := es) (k := init now s (put_clients n)).
  - intros e k1 k2 He Hn1 Hb1 Hc1 Hx. by eapply count_step.
  - destruct rel; [|by apply Forall_forall]. eapply Forall_impl; [by apply Hrel|done].
  - apply basic_init; [done|]. intros key0. unfold kver. rewrite Hs. simpl. lia.
  - by apply count_inv_init.
  - done.
  - done.
Qed.

Lemma put_run_inv es now s n k :
  run exec es (init now s (put_clients n)) = Some k ->
  (0 <= now)%Z -> (now + Z.of_nat (length es) < 2 ^ 64)%Z -> (forall key, st_look s key = None) -> ka <> [] ->
  put_inv k.
Proof.
  intros Hr Hn Hlen Hs Hka.
  destruct (run_bounded (fun _ => True) put_inv (fun e k1 k2 _ => put_step e k1 k2 Hka) es (init now s (put_clients n)) k)
    as [_ Hi]; [by apply Forall_forall| |by apply put_inv_init|done|done|done].
  apply basic_init; [done|]. intros key0. unfold kver. rewrite Hs. simpl. lia.
Qed.


(** C36: the store is well typed throughout: whatever [OneClientPut] clients do,
    every register has a version of at least 1 and holds the JSON of an
    [EntryV] whose [V] is the version its put asked for, one below the
    register's; so every read of the tests decodes. *)
Theorem OneClientPut_store_typed es now s n k :
  run exec es (init now s (put_clients n)) = Some k ->
  (0 <= now)%Z -> (now + Z.of_nat (length es) < 2 ^ 64)%Z -> (forall key, st_look s key = None) -> ka <> [] ->
  forall key v, st_look (ks_store k) key = Some v ->
  (1 <= version v)%Z /\ exists id, GetJson_result (value v, version v, OK) = Ret (mkEntryV id (version v - 1), version v).
Proof.
  intros Hr Hn Hlen Hs Hka key v Hv. destruct (put_run_inv _ _ _ _ _ Hr Hn Hlen Hs Hka) as [He _ _].
  destruct (He key v Hv) as (H1 & id & Hm). split; [done|]. exists id. by apply GetJson_result_Ret.
Qed.

(** What the results of clients that have returned say of the store. *)
Lemma put_results_facts key rel k :
  ka = [key] -> basic k -> count_inv key rel k -> put_returned (ks_clients k) ->
  let rs := put_results (ks_clients k) in
  (0 <= zsum Nok rs <= kver (ks_store k) key)%Z /\ (0 <= zsum Nmaybe rs)%Z /\
  (kver (ks_store k) key <= zsum Nok rs + zsum Nmaybe rs <= ks_now k)%Z /\
  (rel = true -> zsum Nmaybe rs = 0%Z) /\
  (0 < zsum Nok rs + zsum Nmaybe rs -> is_Some (st_look (ks_store k) key))%Z.
Proof.
  intros Hka Hb [Hput Hlow Hhigh Htime Hmay] Hret rs.
  destruct (returned_counts k Hb Hret) as (E1 & E2 & E3). rewrite E1 in Hlow. rewrite E2 in Htime. rewrite E3 in Hhigh.
  assert (Hr : forall r, r ∈ rs -> (0 <= Nok r /\ 0 <= Nmaybe r)%Z /\
    (0 < Nok r + Nmaybe r -> is_Some (st_look (ks_store k) key))%Z /\ (rel = true -> Nmaybe r = 0%Z)).
  { intros r ([cl p] & -> & (c & Hc)%list_elem_of_lookup)%list_elem_of_fmap.
    destruct (pi_clients _ Hput _ _ _ Hc) as (_ & _ & ? & ? & Hk). split_and!; [done|done|..]; simpl.
    - intros Hgt. destruct (Hk Hgt) as (k0 & Hin & ?). rewrite Hka, list_elem_of_singleton in Hin. by subst k0.
    - intros Hrt. destruct (Hmay Hrt _ _ _ Hc) as [Hm _]. unfold mayc in Hm.
      pose proof (Forall_lookup_1 _ _ _ _ Hret Hc) as Hat. simpl in Hat. rewrite Hat in Hm. lia. }
  split_and!; try done.
  - apply zsum_nonneg. intros r Hin. by apply Hr.
  - apply zsum_nonneg. intros r Hin. by apply Hr.
  - intros Hrt. apply zsum_zero. intros r Hin. by apply Hr.
  - rewrite <-zsum_add. intros Hp. destruct (zsum_pos _ _ Hp) as (r & Hin & Hr0). by apply (Hr r).
Qed.

(** C20: [CheckPutConcurrent] passes.  When all clients have returned and at
    least one put was made, the store's version is at most the number of puts
    reported [OK] or [ErrMaybe], and exactly the number reported [OK] when the
    network lost nothing; so the check the tests end with succeeds, on any clerk
    reading that store, and the totals it leaves are the sums of the clients'. *)
Theorem CheckPutConcurrent_passes {W : Type} `{!IKVClerk W, !SoleView W, !SoleClerk W} key es now s n k (rel : bool)
    (w : world W) :
  run exec es (init now s (put_clients n)) = Some k ->
  (0 <= now)%Z -> (now + Z.of_nat (length es) < 2 ^ 64)%Z -> (forall key, st_look s key = None) -> ka = [key] ->
  (rel = true -> Forall delivered es) ->
  put_returned (ks_clients k) ->
  let rs := put_results (ks_clients k) in
  (0 < zsum Nok rs + zsum Nmaybe rs)%Z ->
  wok w -> reg w key = st_look (ks_store k) key ->
  wp (CheckPutConcurrent key rs (mkClntRes 0 0) rel) w (fun _ res => res = mkClntRes (zsum Nok rs) (zsum Nmaybe rs)).
Proof.
  intros Hr Hn Hlen Hs Hka Hrel Hret rs Hpos Hok Hw.
  assert (Hlen' : (ks_now k < 2 ^ 64)%Z) by (rewrite (run_now es _ _ Hr); simpl; lia).
  destruct (put_run key es now s n k rel Hr Hn Hlen Hs Hka Hrel) as [Hb Hc].
  destruct (put_results_facts key rel k Hka Hb Hc Hret) as (Hok1 & Hmay1 & Hhigh & Hrel1 & Hsome). fold rs in Hok1, Hmay1, Hhigh, Hrel1, Hsome.
  destruct (Hsome Hpos) as [v Hv]. destruct (pi_entries _ (ci_put _ _ _ Hc) key v Hv) as (Hv1 & id & Hm).
  assert (Hkv : kver (ks_store k) key = version v) by (unfold kver; by rewrite Hv). rewrite Hkv in *.
  apply wp_bind. eapply wp_GetJson; [done|by rewrite Hw|done|]. intros w' _. cbn [snd].
  rewrite foldl_add_res. cbn [Nok Nmaybe]. rewrite !Z.add_0_l.
  assert (put_counts_ok (version v) (mkClntRes (zsum Nok rs) (zsum Nmaybe rs)) rel = true) as ->; [|done].
  unfold put_counts_ok. cbn [Nok Nmaybe]. destruct rel; apply bool_decide_eq_true_2; rewrite wrap_small by lia; [|lia].
  specialize (Hrel1 eq_refl). lia.
Qed.
End PutRace.

(** ** OneClientAppend *)

(** At the [select]; about to read the list, or to put [b], the JSON of the list
    with the client's entry at its end; returned. *)
Inductive append_pc :=
  | ASelect
  | AGet
  | APut (es : list entry) (ver : Tversion) (b : string)
  | AReturned.

Record append_client := mkAppc { ap_me : Z; ap_i : Z; ap_at : append_pc; ap_res : ClntRes }.

Definition append_key : string := "k".

Section AppendRace.
Context `{!Json (list entry)}.

Definition append_start (me : Z) : append_client := mkAppc me 0 ASelect (mkClntRes 0 0).

Definition append_tell (x : select_input) (c : append_client) : option (outcome append_client) :=
  match ap_at c with
  | ASelect =>
      Some (Ret (mkAppc (ap_me c) (ap_i c) (match x with SelDone => AReturned | SelDefault _ => AGet end) (ap_res c)))
  | _ => None
  end.

Definition append_want (c : append_client) : option call :=
  match ap_at c with
  | AGet => Some (CGet append_key)
  | APut _ ver b => Some (CPut (mkPutArgs append_key b ver))
  | _ => None
  end.

Definition append_read (c : append_client) (g : string * Tversion * Err) : outcome append_client :=
  '(es, ver) ← GetJson_result (A := list entry) g;
  let es := es ++ [mkEntry (ap_me c) (ap_i c)] in
  b ← PutJson_bytes es;
  Ret (mkAppc (ap_me c) (ap_i c) (APut es ver b) (ap_res c)).

(** After the put: the next number, or the inner loop again. *)
Definition append_put (c : append_client) (err : Err) : append_client :=
  let res := ap_res c in
  if decide (err = OK) then mkAppc (ap_me c) (ap_i c + 1) ASelect (mkClntRes (Nok res + 1) (Nmaybe res))
  else if decide (err = ErrMaybe) then mkAppc (ap_me c) (ap_i c + 1) ASelect (mkClntRes (Nok res) (Nmaybe res + 1))
  else mkAppc (ap_me c) (ap_i c) AGet res.

Definition append_resume (c : append_client) (r : result) : outcome append_client :=
  match ap_at c, r with
  | AGet, RGetRes val ver err => append_read c (val, ver, err)
  | APut _ _ _, RPutErr err => Ret (append_put c err)
  | _, _ => Panic "result of another call"
  end.

#[export] Instance append_program : Program append_client select_input :=
  {| want := append_want; resume := append_resume; tell := append_tell |}.

Definition append_clients (n : nat) : list append_client := (fun i => append_start (Z.of_nat i)) <$> seq 0 n.
Definition append_results (cls : list (append_client * option pending)) : list ClntRes := (fun x => ap_res x.1) <$> cls.
Definition append_returned (cls : list (append_client * option pending)) : Prop :=
  Forall (fun x => ap_at x.1 = AReturned) cls.

(** *** Its invariant *)

Context {St : Type} `{HSt : KVStore St} `{!KVStoreLaws St} `{!JsonLaws (list entry)}.
Implicit Types (s : St) (es : list entry).

(** What the list [es] at version [ver] says of client [c]. *)
Definition append_client_ok es (ver : Tversion) (c : nat) (x : append_client * option pending) : Prop :=
  let cl := x.1 in
  let d := donec x.2 in
  ap_me cl = Z.of_nat c /\ (0 <= Nok (ap_res cl))%Z /\ (0 <= Nmaybe (ap_res cl))%Z /\
  ap_i cl = (Nok (ap_res cl) + Nmaybe (ap_res cl))%Z /\
  increasing 0 (ns_of (ap_me cl) es) /\
  (next_of (ap_me cl) es <= ap_i cl + d)%Z /\
  (Nok (ap_res cl) + d <= Z.of_nat (length (ns_of (ap_me cl) es)))%Z /\
  match ap_at cl with
  | APut es1 v b =>
      Marshal es1 = Some b /\ (v <= ver)%Z /\ (v = ver -> es1 = es ++ [mkEntry (ap_me cl) (ap_i cl)])
  | _ => True
  end.

Definition list_ok s es : Prop :=
  exists b, st_look s append_key = Some (mkKvValue b (Z.of_nat (length es) + 1)) /\ Marshal es = Some b.

Record append_inv (k : sys) : Prop := {
  ai_fatal : ks_fatal k = false;
  ai_list : exists es, list_ok (ks_store k) es /\
    (forall e, e ∈ es -> (0 <= e_Id e < Z.of_nat (length (ks_clients k)))%Z) /\
    forall c x, ks_clients k !! c = Some x -> append_client_ok es (Z.of_nat (length es) + 1) c x }.

Lemma list_ok_same s s' es : same s s' -> list_ok s es -> list_ok s' es.
Proof. intros Hs (b & Hl & Hm). exists b. by rewrite (Hs append_key). Qed.

Lemma list_ok_ver s es : list_ok s es -> kver s append_key = (Z.of_nat (length es) + 1)%Z.
Proof. intros (b & Hl & _). unfold kver. by rewrite Hl. Qed.

(** Another client's entry. *)
Lemma append_other es ver c x c' i :
  append_client_ok es ver c x -> c' <> c -> append_client_ok (es ++ [mkEntry (Z.of_nat c') i]) (ver + 1) c x.
Proof.
  intros (Hme & ? & ? & ? & Hinc & Hnext & Hlen & Hat) Hne. unfold append_client_ok.
  rewrite Hme in *. rewrite ns_of_snoc, next_of_snoc. simpl. rewrite !decide_False by (intros ?; lia).
  split_and!; try done. destruct (ap_at x.1); try done. destruct Hat as (? & ? & _). split_and!; [done|lia|]. intros ->. lia.
Qed.

(** The client's own entry: now in the list, and still to be acknowledged. *)
Lemma append_own es ver c cl p es1 b :
  append_client_ok es ver c (cl, p) -> donec p = 0%Z -> ap_at cl = APut es1 ver b ->
  let es' := es ++ [mkEntry (Z.of_nat c) (ap_i cl)] in
  es1 = es' /\ Marshal es' = Some b /\
  (forall p', donec p' = 1%Z -> append_client_ok es' (ver + 1) c (cl, p')) /\
  append_client_ok es' (ver + 1) c (append_put cl OK, None).
Proof.
  intros (Hme & ? & ? & Hi & Hinc & Hnext & Hlen & Hat) Hd Eat. cbn [fst snd] in *. rewrite Eat, Hd in *.
  destruct Hat as (Hm & _ & Hes). specialize (Hes eq_refl). rewrite Hme in *. subst es1. cbn zeta.
  set (es' := es ++ [mkEntry (Z.of_nat c) (ap_i cl)]) in *.
  assert (Hns : ns_of (Z.of_nat c) es' = ns_of (Z.of_nat c) es ++ [ap_i cl]) by (unfold es'; by rewrite ns_of_snoc, decide_True).
  assert (Hnx : next_of (Z.of_nat c) es' = (ap_i cl + 1)%Z) by (unfold es'; by rewrite next_of_snoc, decide_True).
  assert (Hinc' : increasing 0 (ns_of (Z.of_nat c) es')) by (apply next_of_increasing; split; [done|]; simpl; lia).
  assert (Hl' : Z.of_nat (length (ns_of (Z.of_nat c) es')) = (Z.of_nat (length (ns_of (Z.of_nat c) es)) + 1)%Z)
    by (rewrite Hns, length_app; simpl; lia).
  split_and!; [done|done|..].
  - intros p' Hp'. unfold append_client_ok. cbn [fst snd]. rewrite Hme, Hp', Eat, Hnx, Hl'.
    split_and!; try done; lia.
  - unfold append_put. rewrite decide_True by done. unfold append_client_ok, donec. cbn.
    rewrite Hme, Hnx, Hl'. split_and!; try done; lia.
Qed.

(** A refused put: unsure ones are counted, the others are tried again. *)
Lemma append_refused es ver c cl p err :
  append_client_ok es ver c (cl, p) -> err <> OK -> (donec p = 1%Z -> err = ErrMaybe) -> (0 <= donec p <= 1)%Z ->
  append_client_ok es ver c (append_put cl err, None).
Proof.
  intros (Hme & ? & ? & Hi & Hinc & Hnext & Hlen & Hat) Hne Hd Hb. cbn [fst snd] in *.
  unfold append_put. rewrite decide_False by done. unfold append_client_ok. cbn [fst snd]. unfold donec at 1 2. cbn.
  case_decide as Hm; cbn; split_and!; try done; try lia.
  all: assert (donec p <> 1%Z) by naive_solver; lia.
Qed.

Definition all_ok es (cls : list (append_client * option pending)) : Prop :=
  forall c x, cls !! c = Some x -> append_client_ok es (Z.of_nat (length es) + 1) c x.
Definition ids_ok es (n : nat) : Prop := forall e, e ∈ es -> (0 <= e_Id e < Z.of_nat n)%Z.

Lemma all_ok_insert es cls c y :
  all_ok es cls -> append_client_ok es (Z.of_nat (length es) + 1) c y -> all_ok es (<[c := y]> cls).
Proof. intros Hall Hy c0 x Hl. rewrite list_lookup_insert in Hl. case_decide as Hd; [destruct Hd; by simplify_eq|by apply Hall]. Qed.

(** A put that is performed. *)
Lemma append_perform s s' es cls c cl p a :
  list_ok s es -> ids_ok es (length cls) -> all_ok es cls -> cls !! c = Some (cl, Some p) ->
  append_want cl = Some (p_call p) -> p_call p = CPut a -> kver s (put_key a) = put_version a -> stored s s' a ->
  p_done p = None ->
  let es' := es ++ [mkEntry (Z.of_nat c) (ap_i cl)] in
  list_ok s' es' /\ ids_ok es' (length cls) /\
  (forall p', donec p' = 1%Z -> all_ok es' (<[c := (cl, p')]> cls)) /\
  all_ok es' (<[c := (append_put cl OK, None)]> cls).
Proof.
  intros Hls Hids Hall Hc Hw Hcall Hv Hst Hd es'. pose proof (list_ok_ver _ _ Hls) as Hver.
  unfold append_want in Hw. destruct (ap_at cl) as [| |es1 ver b|] eqn:Eat; try done; [congruence|].
  rewrite Hcall in Hw. injection Hw as <-. simpl in *. rewrite Hver in Hv. subst ver.
  assert (Hd0 : donec (Some p) = 0%Z) by (unfold donec; simpl; by rewrite Hd).
  destruct (append_own _ _ _ _ _ _ _ (Hall _ _ Hc) Hd0 Eat) as (-> & Hm & Hown1 & Hown2). fold es' in Hm, Hown1, Hown2.
  assert (Hlen : (Z.of_nat (length es') + 1 = Z.of_nat (length es) + 1 + 1)%Z) by (unfold es'; rewrite length_app; simpl; lia).
  assert (Hins : forall y, append_client_ok es' (Z.of_nat (length es) + 1 + 1) c y -> all_ok es' (<[c := y]> cls)).
  { intros y Hy c0 x Hl. rewrite Hlen. rewrite list_lookup_insert in Hl. case_decide as Hdec; [by destruct Hdec; simplify_eq|].
    apply append_other; [by apply Hall|]. intros ->. apply Hdec. split; [done|]. by apply lookup_lt_Some in Hl. }
  split_and!; [..|intros p' Hp'; by apply Hins, Hown1|by apply Hins].
  - exists b. split; [|done]. rewrite (Hst append_key), decide_True by done. simpl. by rewrite Hlen.
  - intros e. unfold es'. rewrite elem_of_app, list_elem_of_singleton. intros [He| ->]; [by apply Hids|]. simpl.
    apply lookup_lt_Some in Hc. lia.
Qed.

(** A call that ends. *)
Lemma append_return s s' es cls c cl p r ans i now :
  list_ok s es -> ids_ok es (length cls) -> all_ok es cls -> cls !! c = Some (cl, Some p) ->
  append_want cl = Some (p_call p) -> attempt_case s p s' (Some r) ans i -> pend_ok s now p ->
  exists cl' es', append_resume cl r = Ret cl' /\
    list_ok s' es' /\ ids_ok es' (length cls) /\ all_ok es' (<[c := (cl', None)]> cls).
Proof.
  intros Hls Hids Hall Hc Hw Ha Hpe. pose proof (Hall _ _ Hc) as Hcl.
  assert (Hd : (0 <= donec (Some p) <= 1)%Z) by (unfold donec; simpl; by destruct (p_done p)).
  assert (Hmay : donec (Some p) = 1%Z -> r = RPutErr ErrMaybe).
  { unfold donec. simpl. destruct (p_done p) as [t|] eqn:Ht; [|done]. intros _.
    by destruct (done_result _ _ _ _ _ _ _ _ Ha Hpe Ht) as [_ Hr]; apply Hr. }
  unfold append_want in Hw. unfold append_resume.
  destruct (ap_at cl) as [| |es1 ver b|] eqn:Eat; try done; injection Hw as Hw; symmetry in Hw.
  - destruct (attempt_get _ _ _ _ _ _ _ Ha Hw) as [Hr ->]. destruct Hls as (b & Hl & Hm). rewrite Hl in Hr. simpl in Hr.
    subst r. unfold append_read. rewrite (GetJson_result_Ret _ _ _ Hm). cbn [mbind outcome_bind].
    destruct (PutJson_bytes_Ret (es ++ [mkEntry (ap_me cl) (ap_i cl)])) as (b' & -> & Hm'). cbn [mbind outcome_bind].
    do 2 eexists. split_and!; [done|by exists b|done|]. apply all_ok_insert; [done|].
    destruct Hcl as (? & ? & ? & ? & ? & Hnext & Hlen & _). cbn [fst snd] in *.
    assert (donec (Some p) = 0%Z) as Hd0 by (assert (donec (Some p) <> 1%Z) by (intros Hd1; by specialize (Hmay Hd1)); lia).
    rewrite Hd0 in *. unfold append_client_ok. cbn [fst snd ap_me ap_i ap_at ap_res]. split_and!; try done; lia.
  - destruct (attempt_put _ _ _ _ _ _ _ Ha Hw) as [(-> & -> & Hv & Hst)|[(-> & _ & _ & _ & Hs)|(-> & _ & Hn & _)]].
    + destruct (append_perform s s' es cls c cl p (mkPutArgs append_key b ver)) as (? & ? & _ & ?); try done.
      * unfold append_want. by rewrite Eat, Hw.
      * by eapply attempt_once.
      * do 2 eexists. by split_and!.
    + do 2 eexists. split_and!; [done|by eapply list_ok_same|done|]. apply all_ok_insert; [done|].
      eapply append_refused; [done|by case_decide| |done]. intros Hd1. specialize (Hmay Hd1). by injection Hmay.
    + destruct Hls as (b' & Hl & _). simpl in Hn. by rewrite Hl in Hn.
Qed.

Lemma append_step e k k' :
  (ks_now k + 1 < 2 ^ 64)%Z -> basic k -> append_inv k -> exec_case k e k' -> append_inv k'.
Proof.
  intros Hn Hb [Hf (es & Hls & Hids & Hall)] Hx.
  assert (Hkeep : forall s' c y f, same (ks_store k) s' -> append_client_ok es (Z.of_nat (length es) + 1) c y -> f = false ->
    f = false /\ exists es, list_ok s' es /\ ids_ok es (length (<[c := y]> (ks_clients k))) /\ all_ok es (<[c := y]> (ks_clients k))).
  { intros s' c y f Hs Hy Hff. split; [done|]. exists es. rewrite length_insert.
    split_and!; [by eapply list_ok_same|done|by apply all_ok_insert]. }
  assert (Hrefl : same (ks_store k) (ks_store k)) by (by intros key).
  destruct Hx as [c st o x Hl Ht|c st cl Hl Hw|c d st p s' ans i Hl Ha Hd|c d st p s' r ans i Hl Ha];
    (enough (H : ks_fatal _ = false /\ exists es, list_ok (ks_store _) es /\ ids_ok es (length (ks_clients _)) /\ all_ok es (ks_clients _))
      by (destruct H; by split)); simpl;
    pose proof (Hall _ _ Hl) as Hst.
  - unfold append_tell in Ht. simpl in Ht. unfold append_tell in Ht. destruct (ap_at st) eqn:Eat; simplify_eq. simpl.
    apply Hkeep; [done| |done]. destruct Hst as (? & ? & ? & ? & ? & ? & ? & ?). split_and!; simpl; try done. by destruct x.
  - apply Hkeep; [done| |done]. exact Hst.
  - pose proof (b_want _ Hb _ _ _ Hl) as Hw.
    pose proof (attempt_once _ _ _ _ _ _ _ Ha (b_pend _ Hb _ _ _ Hl)) as Hone.
    destruct (attempt_effect _ _ _ _ _ _ Ha) as [(a & Hcall & -> & Hv & Hsto)|[Hans Hs]].
    + destruct (append_perform _ _ _ _ _ _ _ _ Hls Hids Hall Hl Hw Hcall Hv Hsto (Hone eq_refl)) as (Hls' & Hids' & Hall' & _).
      split; [done|]. eexists. rewrite length_insert. split_and!; [exact Hls'|exact Hids'|].
      apply Hall'. unfold next_done. by rewrite Hone.
    + apply Hkeep; [done| |done]. unfold next_done. rewrite (decide_False (P := ans = Some OK)) by done.
      unfold append_client_ok, donec in *. simpl in *. by destruct (p_done p).
  - pose proof (b_want _ Hb _ _ _ Hl) as Hw.
    destruct (append_return _ _ _ _ _ _ _ _ _ _ _ Hls Hids Hall Hl Hw Ha (b_pend _ Hb _ _ _ Hl)) as (cl' & es' & Hr & ? & ? & ?).
    rewrite Hr. simpl. split; [done|]. exists es'. by rewrite length_insert.
Qed.

Lemma append_start_inv now s n b0 :
  st_look s append_key = Some (mkKvValue b0 1) -> Marshal ([] : list entry) = Some b0 ->
  append_inv (init now s (append_clients n)).
Proof.
  intros Hs Hm. split; [done|]. exists []. split_and!; [by exists b0|by intros e ?%not_elem_of_nil|].
  simpl. intros c x Hl. unfold append_clients in Hl. rewrite !list_lookup_fmap in Hl.
  destruct (seq 0 n !! c) as [c0|] eqn:Hc; [|done]. apply lookup_seq in Hc as [-> _]. injection Hl as <-.
  by split_and!.
Qed.

(** The verdict on a list whose clients have all returned. *)
Lemma append_verdict es cls order :
  ids_ok es (length cls) -> all_ok es cls -> append_returned cls ->
  (forall c cl p, cls !! c = Some (cl, p) -> p = None) ->
  (Z.of_nat (length es) + 1 < 2 ^ 63)%Z -> order ≡ₚ expect_keys es (length cls) ->
  CheckAppends es (length cls) (append_results cls) (Z.of_nat (length es) + 1) order = Ret tt.
Proof.
  intros Hids Hall Hret Hnone Hlen Hord. apply CheckAppends_Ret; [done|].
  assert (Hcl : forall id, (0 <= id < Z.of_nat (length cls))%Z -> exists cl, cls !! Z.to_nat id = Some (cl, None) /\
    append_client_ok es (Z.of_nat (length es) + 1) (Z.to_nat id) (cl, None)).
  { intros id Hid. destruct (lookup_lt_is_Some_2 cls (Z.to_nat id) ltac:(lia)) as [[cl p] Hl].
    pose proof (Hnone _ _ _ Hl) as ->. exists cl. split; [done|by apply Hall]. }
  assert (Hid : forall id, (0 <= id < Z.of_nat (length cls))%Z \/ id ∈ e_Id <$> es -> (0 <= id < Z.of_nat (length cls))%Z).
  { intros id [?|(e & -> & He)%list_elem_of_fmap]; [done|by apply Hids]. }
  split_and!.
  - intros id. destruct (decide (0 <= id < Z.of_nat (length cls))%Z) as [Hin|Hout].
    + destruct (Hcl id Hin) as (cl & _ & Hme & _ & _ & _ & Hinc & _). cbn [fst] in *. rewrite Hme, Z2Nat.id in Hinc by lia. done.
    + assert (ns_of id es = []) as ->; [|done]. destruct (ns_of id es) as [|m l] eqn:Hf; [done|].
      assert (m ∈ ns_of id es) as (e & _ & [<- He]%list_elem_of_filter)%list_elem_of_fmap by (rewrite Hf; by left).
      destruct Hout. by apply Hids.
  - unfold int_of. rewrite wrap_small; lia.
  - intros id Hor. specialize (Hid id Hor). split; [lia|].
    destruct (Hcl id Hid) as (cl & Hl & Hme & ? & ? & Hi & _ & Hnext & Hns & _). cbn [fst snd] in *.
    rewrite Hme, Z2Nat.id in * by lia. unfold donec in *. simpl in *. exists (ap_res cl). split.
    + unfold append_results. by rewrite list_lookup_fmap, Hl.
    + unfold skipped_of. lia.
Qed.

(** C6: any number of [OneClientAppend] clients, started on an empty list, never
    fail the test, and once they have returned the list in the store passes
    [CheckAppends] in whatever order it ranges over its maps: per client the
    numbers increase, none is missing but for puts reported [ErrMaybe], and the
    version counts the entries. *)
Theorem OneClientAppend_passes evs now s n k b0 :
  run exec evs (init now s (append_clients n)) = Some k ->
  (0 <= now)%Z -> (now + Z.of_nat (length evs) < 2 ^ 63)%Z -> (forall key, 0 <= kver s key <= now)%Z ->
  st_look s append_key = Some (mkKvValue b0 1) -> Marshal ([] : list entry) = Some b0 ->
  ks_fatal k = false /\
  (append_returned (ks_clients k) -> exists l v,
     st_look (ks_store k) append_key = Some v /\ Marshal l = Some (value v) /\
     forall order, order ≡ₚ expect_keys l n ->
     CheckAppends l n (append_results (ks_clients k)) (version v) order = Ret tt).
Proof.
  intros Hr Hn Hlen Hv Hs Hm.
  destruct (run_bounded (fun _ => True) (fun k => append_inv k /\ length (ks_clients k) = n))
    with (es := evs) (k := init now s (append_clients n)) (k' := k) as [Hb [[Hf (l & Hl & Hids & Hall)] Hcls]].
  - intros e k1 k2 _ Hn1 Hb1 [Hi Hc] Hx. split; [by eapply append_step|]. by rewrite (exec_clients _ _ _ Hx).
  - by apply Forall_forall.
  - by apply basic_init.
  - split; [by eapply append_start_inv|]. simpl. unfold append_clients. by rewrite !length_fmap, length_seq.
  - done.
  - simpl. lia.
  - split; [done|]. intros Hret. destruct Hl as (b & Hlook & Hmar). do 2 eexists. split_and!; [done|done|].
    rewrite <-Hcls. intros order Hord. simpl. apply append_verdict; try done.
    + intros c cl p Hc. destruct p as [p|]; [|done]. pose proof (b_want _ Hb _ _ _ Hc) as Hw.
      pose proof (Forall_lookup_1 _ _ _ _ Hret Hc) as Hat. simpl in *. unfold append_want in Hw. by rewrite Hat in Hw.
    + pose proof (b_ver _ Hb append_key) as Hver. unfold kver in Hver. rewrite Hlook in Hver. simpl in Hver.
      rewrite (run_now _ _ _ Hr) in Hver. simpl in Hver. lia.
Qed.
End AppendRace.

(** ** Witnesses *)

#[local] Instance demo_json : Json EntryV := countable_json EntryV.
#[local] Instance demo_json_laws : JsonLaws EntryV := countable_json_laws EntryV.
#[local] Instance demo_list_json : Json (list entry) := countable_json (list entry).
#[local] Instance demo_list_json_laws : JsonLaws (list entry) := countable_json_laws (list entry).
#[local] Instance demo_put_program : Program put_client select_input := put_program false ["k"].

Definition demo_put_clients : list put_client := put_clients ["k"] 2.

(** Client 0's put is performed and unsure; client 1 is refused, then puts. *)
Definition demo_put_events : list (@event select_input) :=
  [ETell 0 (SelDefault 0); EStart 0; EAttempt 0 ReplyLost; ETell 1 (SelDefault 5); EStart 1; EAttempt 1 Delivered;
   EAttempt 0 Delivered; EStart 0; EAttempt 0 Delivered; ETell 0 SelDone; EStart 1; EAttempt 1 Delivered;
   EStart 1; EAttempt 1 Delivered; EStart 1; EAttempt 1 Delivered; ETell 1 SelDone].


Lemma OneClientPut_store_typed_witness :
  exists k, run exec demo_put_events (init 0 (∅ : gmap string kvValue) demo_put_clients) = Some k /\
  forall key v, st_look (ks_store k) key = Some v ->
  (1 <= version v)%Z /\ exists id, GetJson_result (value v, version v, OK) = Ret (mkEntryV id (version v - 1), version v).
Proof.
  destruct (run exec demo_put_events (init 0 (∅ : gmap string kvValue) demo_put_clients)) as [k|] eqn:H; [|by vm_compute in H].
  exists k. split; [done|].
  apply (OneClientPut_store_typed false ["k"] demo_put_events 0 (∅ : gmap string kvValue) 2 k H); [done|done| |done].
  intros key. apply lookup_empty.
Defined.

Lemma CheckPutConcurrent_passes_witness :
  exists k, run exec demo_put_events (init 0 (∅ : gmap string kvValue) demo_put_clients) = Some k /\
  put_results (ks_clients k) = [mkClntRes 0 1; mkClntRes 1 0] /\
  wp (CheckPutConcurrent "k" (put_results (ks_clients k)) (mkClntRes 0 0) false)
    (mkWorld (mkNet (ks_store k) [[Delivered]]) 0 0 [])
    (fun _ res => res = mkClntRes (zsum Nok (put_results (ks_clients k))) (zsum Nmaybe (put_results (ks_clients k)))).
Proof.
  destruct (run exec demo_put_events (init 0 (∅ : gmap string kvValue) demo_put_clients)) as [k|] eqn:H; [|by vm_compute in H].
  exists k. split; [done|].
  assert (Hres : put_results (ks_clients k) = [mkClntRes 0 1; mkClntRes 1 0]).
  { apply (demo_read (fun k => put_results (ks_clients k)) _ k _ H). by vm_compute. }
  split; [exact Hres|].
  apply (CheckPutConcurrent_passes false ["k"] "k" demo_put_events 0 (∅ : gmap string kvValue) 2 k false
    (mkWorld (mkNet (ks_store k) [[Delivered]]) 0 0 []) H); [done|done| |done|done| | | |done].
  - intros key. apply lookup_empty.
  - assert (Hat : (fun x => pc_at x.1) <$> ks_clients k = [PReturned; PReturned]).
    { apply (demo_read (fun k => (fun x => pc_at x.1) <$> ks_clients k) _ k _ H). by vm_compute. }
    unfold put_returned. apply (Forall_fmap (fun x : put_client * option pending => pc_at x.1) (fun a => a = PReturned) (ks_clients k)).
    rewrite Hat. by repeat constructor.
  - rewrite Hres. by vm_compute.
  - by repeat constructor.
Defined.

(** Client 0's first append is performed and unsure, client 1 appends once. *)
Definition demo_append_events : list (@event select_input) :=
  [ETell 0 (SelDefault 0); EStart 0; EAttempt 0 Delivered; ETell 1 (SelDefault 0); EStart 1; EAttempt 1 Delivered;
   EStart 0; EAttempt 0 ReplyLost; EStart 1; EAttempt 1 Delivered; EAttempt 0 Delivered; ETell 0 SelDone;
   EStart 1; EAttempt 1 Delivered; EStart 1; EAttempt 1 Delivered; ETell 1 SelDone].
Definition demo_list : gmap string kvValue := {["k" := mkKvValue (enc_str ([] : list entry)) 1]}.

Lemma OneClientAppend_passes_witness :
  exists k, run exec demo_append_events (init 1 demo_list (append_clients 2)) = Some k /\
  append_results (ks_clients k) = [mkClntRes 0 1; mkClntRes 1 0] /\
  ks_fatal k = false /\
  (append_returned (ks_clients k) -> exists l v,
     st_look (ks_store k) append_key = Some v /\ Marshal l = Some (value v) /\
     forall order, order ≡ₚ expect_keys l 2 ->
     CheckAppends l 2 (append_results (ks_clients k)) (version v) order = Ret tt).
Proof.
  destruct (run exec demo_append_events (init 1 demo_list (append_clients 2))) as [k|] eqn:H; [|by vm_compute in H].
  exists k. split; [done|]. split.
  { apply (demo_read (fun k => append_results (ks_clients k)) _ k _ H). by vm_compute. }
  apply (OneClientAppend_passes demo_append_events 1 demo_list 2 k (enc_str ([] : list entry)) H); [done|done| |done|done].
  intros key. unfold kver. simpl. unfold demo_list. destruct (decide (key = "k")) as [->|Hne].
  - rewrite lookup_singleton_eq. simpl. lia.
  - rewrite lookup_singleton_ne by done. simpl. lia.
Defined.

End KvRace.
