(* ===== verification/LabGob.v ===== *)
(** * LabGob: the checks around encoding/gob

    [src/src/labgob/labgob.go].  [checkType] walks the type graph of the
    values encoded and decoded and counts lower-case struct fields, visiting
    each type once; [checkDefault1] walks a value being decoded into and
    counts fields that are not at their default.  Types are nodes of a graph
    (Go's types may be recursive through pointers); the global variables
    [checked] and [errorCount] are the state passed through. *)

From S2P Require Import Prelude.
From stdpp Require Import base gmap list strings.
From Stdlib Require Import ZArith Lia.
From stdpp Require Import list.

Module LabGob.

(** What [reflect.Type] says of one type; [t] are the nodes of its parts. *)
Inductive tdesc :=
  | DStruct (fields : list (string * nat))
  | DElem (elem : nat)                     (* slice, array, pointer *)
  | DMap (elem key : nat)
  | DOther.

Section CheckType.
(** The types of the program, and [unicode.IsUpper] on the first rune of a
    field name. *)
Context (types : gmap nat tdesc) (upper : string -> bool).

Definition desc (t : nat) : tdesc := default DOther (types !! t).

Record state := mkState { checked : gset nat; errorCount : Z }.

(** [checkType]; [None] when the fuel runs out. *)
Fixpoint checkType (fuel : nat) (t : nat) (st : state) : option state :=
  match fuel with
  | 0 => None
  | S fuel =>
      if decide (t ∈ checked st) then Some st
      else
        let st := mkState ({[t]} ∪ checked st) (errorCount st) in
        match desc t with
        | DStruct fields =>
            foldl (fun o f =>
              st ← o;
              let st := if upper f.1 then st else mkState (checked st) (errorCount st + 1) in
              checkType fuel f.2 st) (Some st) fields
        | DElem elem => checkType fuel elem st
        | DMap elem key => st ← checkType fuel elem st; checkType fuel key st
        | DOther => Some st
        end
  end.

(** Enough fuel: one call per type, and the one that finds it checked. *)
Definition type_fuel : nat := size types + 2.

Definition children (t : nat) : list nat :=
  match desc t with
  | DStruct fields => fields.*2
  | DElem e => [e]
  | DMap e k => [e; k]
  | DOther => []
  end.

(** Lower-case fields of one type. *)
Definition lower_fields (t : nat) : Z :=
  match desc t with
  | DStruct fields => Z.of_nat (lcount (fun f => upper f.1 = false) fields)
  | _ => 0
  end.

Inductive reachable (t : nat) : nat -> Prop :=
  | reach_here : reachable t t
  | reach_child u v : reachable t u -> v ∈ children u -> reachable t v.

Lemma reachable_trans t u v : reachable t u -> reachable u v -> reachable t v.
Proof. intros H1 H2. induction H2; [done|]. by eapply reach_child. Qed.

Definition lower_sum (l : list nat) : Z := foldr (fun t n => (lower_fields t + n)%Z) 0%Z l.
Definition lower_total (s : gset nat) : Z := lower_sum (elements s).

Lemma lower_sum_app l1 l2 : lower_sum (l1 ++ l2) = (lower_sum l1 + lower_sum l2)%Z.
Proof. induction l1 as [|x l1 IH]; simpl; [done|]. rewrite IH. lia. Qed.

Lemma lower_sum_perm l1 l2 : l1 ≡ₚ l2 -> lower_sum l1 = lower_sum l2.
Proof. induction 1; simpl; lia. Qed.

Lemma lower_total_disj (s1 s2 : gset nat) :
  s1 ## s2 -> lower_total (s1 ∪ s2) = (lower_total s1 + lower_total s2)%Z.
Proof.
  intros Hd. unfold lower_total. rewrite (lower_sum_perm _ _ (elements_disj_union s1 s2 Hd)).
  apply lower_sum_app.
Qed.

Lemma lower_total_singleton t : lower_total {[t]} = lower_fields t.
Proof. unfold lower_total. rewrite elements_singleton. simpl. lia. Qed.

Lemma lower_total_empty : lower_total ∅ = 0%Z.
Proof. unfold lower_total. by rewrite elements_empty. Qed.

(** What a walk from the nodes [ts] does: the types newly checked are
    reachable, the walk leaves no unchecked child behind, and the count
    grows by their lower-case fields (and [extra]). *)
Record walked (ts : list nat) (extra : Z) (st st' : state) : Prop := {
  wk_mono : checked st ⊆ checked st';
  wk_ts : forall t, t ∈ ts -> t ∈ checked st';
  wk_closed : forall u, u ∈ checked st' -> u ∉ checked st -> forall v, v ∈ children u -> v ∈ checked st';
  wk_reach : forall u, u ∈ checked st' -> u ∉ checked st -> exists t, t ∈ ts /\ reachable t u;
  wk_count : errorCount st' = (errorCount st + extra + lower_total (checked st' ∖ checked st))%Z }.

Lemma walked_refl st t : t ∈ checked st -> walked [t] 0 st st.
Proof.
  intros Ht. split; [done|set_solver|set_solver|set_solver|].
  rewrite difference_diag_L, lower_total_empty. lia.
Qed.

Lemma walked_nil st : walked [] 0 st st.
Proof.
  split; [done|set_solver|set_solver|set_solver|].
  rewrite difference_diag_L, lower_total_empty. lia.
Qed.

Lemma walked_trans ts1 ts2 e1 e2 st st1 st2 :
  walked ts1 e1 st st1 -> walked ts2 e2 st1 st2 -> walked (ts1 ++ ts2) (e1 + e2) st st2.
Proof.
  intros [M1 T1 C1 R1 N1] [M2 T2 C2 R2 N2]. split.
  - by etransitivity.
  - set_solver.
  - intros u Hu Hnu v Hv. destruct (decide (u ∈ checked st1)); [apply M2; by eapply C1|by eapply C2].
  - intros u Hu Hnu. destruct (decide (u ∈ checked st1)) as [Hu1|Hu1].
    + destruct (R1 u Hu1 Hnu) as (t & ? & ?). exists t. set_solver.
    + destruct (R2 u Hu Hu1) as (t & ? & ?). exists t. set_solver.
  - rewrite N2, N1.
    assert (checked st2 ∖ checked st = (checked st1 ∖ checked st) ∪ (checked st2 ∖ checked st1)) as ->.
    { apply set_eq. intros x. destruct (decide (x ∈ checked st1)); set_solver. }
    rewrite lower_total_disj by set_solver. lia.
Qed.

Lemma walked_extra ts e st st' :
  walked ts e (mkState (checked st) (errorCount st + 1)) st' -> walked ts (e + 1) st st'.
Proof. intros [M T C R N]. simpl in *. split; [done..|]. rewrite N. lia. Qed.

(** Marking a type and walking its children. *)
Lemma walked_mark t e st st' :
  t ∉ checked st -> e = lower_fields t ->
  walked (children t) e (mkState ({[t]} ∪ checked st) (errorCount st)) st' -> walked [t] 0 st st'.
Proof.
  intros Ht -> [M T C R N]. simpl in *. split.
  - set_solver.
  - set_solver.
  - intros u Hu Hnu v Hv. destruct (decide (u = t)) as [->|]; [by apply T|]. eapply C; [done| |done]. set_solver.
  - intros u Hu Hnu. exists t. split; [set_solver|]. destruct (decide (u = t)) as [->|]; [constructor|].
    destruct (R u Hu) as (c & Hc & Hr); [set_solver|]. eapply reachable_trans; [|exact Hr].
    eapply reach_child; [constructor|done].
  - rewrite N.
    assert (checked st' ∖ checked st = {[t]} ∪ (checked st' ∖ ({[t]} ∪ checked st))) as ->.
    { apply set_eq. intros x. destruct (decide (x = t)) as [->|]; set_solver. }
    rewrite lower_total_disj by set_solver. rewrite lower_total_singleton. lia.
Qed.

(** Types not yet checked; [0] bounds the nodes without a description. *)
Definition unchecked (st : state) : gset nat := dom types ∖ checked st.

Lemma unchecked_mono st st' : checked st ⊆ checked st' -> size (unchecked st') <= size (unchecked st).
Proof. intros H. apply subseteq_size. unfold unchecked. set_solver. Qed.

(** Struct fields: each walk keeps enough fuel for the next. *)
Lemma checkType_fields fuel fields st :
  (forall t st, size (unchecked st) + 1 < fuel -> exists st', checkType fuel t st = Some st' /\ walked [t] 0 st st') ->
  size (unchecked st) + 1 < fuel ->
  exists st', foldl (fun o f =>
      st ← o;
      let st := if upper f.1 then st else mkState (checked st) (errorCount st + 1) in
      checkType fuel f.2 st) (Some st) fields = Some st' /\
    walked fields.*2 (Z.of_nat (lcount (fun f => upper f.1 = false) fields)) st st'.
Proof.
  intros IH. revert st. induction fields as [|f fields IHf]; intros st Hs.
  - exists st. split; [done|apply walked_nil].
  - cbn [foldl]. simpl.
    set (st0 := if upper f.1 then st else mkState (checked st) (errorCount st + 1)).
    assert (checked st0 = checked st) as Hc by (unfold st0; by case_match).
    destruct (IH f.2 st0) as (st1 & E1 & W1); [unfold unchecked; by rewrite Hc|].
    rewrite E1. assert (walked [f.2] (if upper f.1 then 0 else 1) st st1) as W1'.
    { unfold st0 in W1. destruct (upper f.1); [done|]. by apply walked_extra in W1. }
    destruct (IHf st1) as (st2 & E2 & W2).
    { pose proof (unchecked_mono _ _ (wk_mono _ _ _ _ W1')). lia. }
    exists st2. split; [exact E2|].
    assert (Z.of_nat (lcount (fun f => upper f.1 = false) (f :: fields)) =
      (if upper f.1 then 0 else 1) + Z.of_nat (lcount (fun f => upper f.1 = false) fields))%Z as ->.
    { rewrite lcount_cons. destruct (upper f.1); simpl; lia. }
    exact (walked_trans [f.2] fields.*2 _ _ st st1 st2 W1' W2).
Qed.

Lemma checkType_walks fuel t st :
  size (unchecked st) + 1 < fuel -> exists st', checkType fuel t st = Some st' /\ walked [t] 0 st st'.
Proof.
  revert t st. induction fuel as [|fuel IH]; intros t st Hs; [lia|]. simpl.
  destruct (decide (t ∈ checked st)) as [Ht|Ht]; [exists st; split; [done|by apply walked_refl]|].
  set (st1 := mkState ({[t]} ∪ checked st) (errorCount st)).
  destruct (decide (t ∈ dom types)) as [Hdom|Hdom].
  - assert (size (unchecked st1) < size (unchecked st)) as Hlt.
    { apply subset_size. unfold unchecked. simpl. set_solver. }
    assert (exists st', match desc t with
      | DStruct fields => foldl (fun o f => st ← o;
          let st := if upper f.1 then st else mkState (checked st) (errorCount st + 1) in
          checkType fuel f.2 st) (Some st1) fields
      | DElem elem => checkType fuel elem st1
      | DMap elem key => st ← checkType fuel elem st1; checkType fuel key st
      | DOther => Some st1
      end = Some st' /\ walked (children t) (lower_fields t) st1 st') as (st' & E & W).
    2: { exists st'. split; [exact E|]. by eapply walked_mark. }
    unfold children, lower_fields. destruct (desc t) as [fields|e|e k|].
    + apply checkType_fields; [exact IH|lia].
    + destruct (IH e st1) as (st' & E & W); [lia|]. by exists st'.
    + destruct (IH e st1) as (st' & E & W); [lia|].
      destruct (IH k st') as (st2 & E2 & W2).
      { pose proof (unchecked_mono _ _ (wk_mono _ _ _ _ W)). lia. }
      exists st2. rewrite E. simpl. split; [done|]. exact (walked_trans [e] [k] 0 0 st1 st' st2 W W2).
    + exists st1. split; [done|apply walked_nil].
  - assert (desc t = DOther) as Hd.
    { unfold desc. apply not_elem_of_dom in Hdom. by rewrite Hdom. }
    rewrite Hd. exists st1. split; [done|]. eapply walked_mark; [done|done|].
    unfold children, lower_fields. rewrite Hd. apply walked_nil.
Qed.

(** [checkType] terminates on every type graph, recursive types
    included, and does one full search: from any state of the [checked]
    map it marks exactly the types reachable from its argument through
    unmarked ones, and adds to [errorCount] the lower-case fields of the
    types it marks, each type once.  From the initial state these are all
    the reachable types; checking the same type again changes nothing. *)
Theorem checkType_complete t st :
  exists st', checkType type_fuel t st = Some st' /\ t ∈ checked st' /\
    errorCount st' = (errorCount st + lower_total (checked st' ∖ checked st))%Z /\
    (forall u, u ∈ checked st' -> u ∉ checked st -> reachable t u) /\
    (checked st = ∅ -> forall u, u ∈ checked st' <-> reachable t u) /\
    checkType type_fuel t st' = Some st'.
Proof.
  destruct (checkType_walks type_fuel t st) as (st' & E & [M T C R N]).
  { unfold type_fuel, unchecked. assert (size (dom types ∖ checked st) <= size (dom types)) as Hs.
    { apply subseteq_size. set_solver. } rewrite size_dom in Hs. lia. }
  exists st'. split_and!; [done|apply T; set_solver|lia| | |].
  - intros u Hu Hnu. destruct (R u Hu Hnu) as (t' & Ht' & Hr). by apply list_elem_of_singleton in Ht' as ->.
  - intros Hempty u. rewrite Hempty in *. split.
    + intros Hu. destruct (R u Hu) as (t' & Ht' & Hr); [set_solver|]. by apply list_elem_of_singleton in Ht' as ->.
    + induction 1 as [|u v Hr IH Hv]; [apply T; set_solver|]. eapply C; [exact IH|set_solver|done].
  - unfold type_fuel. rewrite Nat.add_comm. simpl. rewrite decide_True; [done|]. apply T. set_solver.
Qed.
End CheckType.

(** ** Values decoded into *)

(** A value by kind; basic values say whether they are their type's zero. *)
Inductive gval :=
  | VBasic (is_zero : bool)
  | VStruct (fields : list (string * gval))
  | VPtr (target : option gval)
  | VOther.

Lemma gval_nested_ind (P : gval -> Prop) :
  (forall z, P (VBasic z)) -> (forall fields, Forall (fun fv => P fv.2) fields -> P (VStruct fields)) ->
  P (VPtr None) -> (forall v, P v -> P (VPtr (Some v))) -> P VOther -> forall v, P v.
Proof.
  intros Hb Hs Hn Hp Ho. fix IH 1. intros [z|fields|[v|]|]; [apply Hb|apply Hs|apply Hp, IH|exact Hn|exact Ho].
  induction fields as [|[f v] fields IHf]; constructor; [apply IH|exact IHf].
Qed.

Definition field_name (name f : string) : string :=
  if decide (name = "") then f else name +:+ "." +:+ f.

Section Values.
(** [unicode.IsUpper] on the first rune of a field's name: the field is
    exported. *)
Context (upper : string -> bool).

(** [checkDefault1]: the paths of the fields it counts in [errorCount].  A value
    reached through a field that is not exported ([ro]) may not be read with
    [Interface], which panics. *)
Fixpoint checkDefault1 (ro : bool) (v : gval) (depth : nat) (name : string) : outcome (list string) :=
  if 3 <? depth then Ret [] else
  match v with
  | VStruct fields =>
      foldr (fun fv acc =>
        w ← checkDefault1 (ro || negb (upper fv.1)) fv.2 (depth + 1) (field_name name fv.1);
        ws ← acc; Ret (w ++ ws)) (Ret []) fields
  | VPtr (Some vv) => checkDefault1 ro vv (depth + 1) name
  | VBasic z =>
      if ro then Panic "reflect.Value.Interface: cannot return value obtained from unexported field or method"
      else Ret (if z then [] else [name])
  | VPtr None | VOther => Ret []
  end.

(** [checkDefault]: the new [errorCount] and the warning printed, which is
    the first ever; [None] is a nil interface. *)
Definition checkDefault (v : option gval) (errorCount : Z) : outcome (Z * option string) :=
  match v with
  | None => Ret (errorCount, None)
  | Some v =>
      w ← checkDefault1 false v 1 "";
      Ret ((errorCount + Z.of_nat (length w))%Z, if (errorCount <? 1)%Z then head w else None)
  end.

(** A non-zero basic value at most [d] levels down. *)
Inductive dirty : nat -> gval -> Prop :=
  | dirty_basic d : dirty (S d) (VBasic false)
  | dirty_field d f v fields : (f, v) ∈ fields -> dirty d v -> dirty (S d) (VStruct fields)
  | dirty_ptr d v : dirty d v -> dirty (S d) (VPtr (Some v)).

(** A basic value at most [d] levels down that may not be read. *)
Inductive hidden : bool -> nat -> gval -> Prop :=
  | hidden_basic d z : hidden true (S d) (VBasic z)
  | hidden_field ro d f v fields :
      (f, v) ∈ fields -> hidden (ro || negb (upper f)) d v -> hidden ro (S d) (VStruct fields)
  | hidden_ptr ro d v : hidden ro d v -> hidden ro (S d) (VPtr (Some v)).

(** What [checkDefault1] finds, [k] levels down. *)
Definition found (ro : bool) (k : nat) (v : gval) (r : outcome (list string)) : Prop :=
  match r with
  | Ret w => ~ hidden ro k v /\ (w <> [] <-> dirty k v)
  | Panic _ => hidden ro k v
  | Fatal _ => False
  end.

Lemma found_fields ro k depth name fields :
  (forall f v, (f, v) ∈ fields -> found (ro || negb (upper f)) k v (checkDefault1 (ro || negb (upper f)) v depth (field_name name f))) ->
  found ro (S k) (VStruct fields)
    (foldr (fun fv acc => w ← checkDefault1 (ro || negb (upper fv.1)) fv.2 depth (field_name name fv.1); ws ← acc; Ret (w ++ ws))
       (Ret []) fields).
Proof.
  intros H. assert (Hnil : ~ hidden ro (S k) (VStruct []) /\ ([] <> ([] : list string) <-> dirty (S k) (VStruct []))).
  { split; [inversion 1; set_solver|]. split; [done|]. inversion 1; set_solver. }
  induction fields as [|[f v] fields IH]; [exact Hnil|].
  assert (Hf := H f v ltac:(by left)). specialize (IH (fun f' v' Hin => H f' v' (list_elem_of_further _ _ _ Hin))).
  assert (Hh : hidden ro (S k) (VStruct ((f, v) :: fields)) <-> hidden (ro || negb (upper f)) k v \/ hidden ro (S k) (VStruct fields)).
  { split.
    - inversion 1 as [|? ? f' v' ? Hin Hh|]; subst. apply elem_of_cons in Hin as [[= -> ->]|Hin]; [by left|right; by econstructor].
    - intros [Hh|Hh]; [eapply hidden_field; [by left|done]|]. inversion Hh as [|? ? f' v' ? Hin Hh'|]; subst.
      eapply hidden_field; [by right|done]. }
  assert (Hd : dirty (S k) (VStruct ((f, v) :: fields)) <-> dirty k v \/ dirty (S k) (VStruct fields)).
  { split.
    - inversion 1 as [|? f' v' ? Hin Hh'|]; subst. apply elem_of_cons in Hin as [[= -> ->]|Hin]; [by left|right; by econstructor].
    - intros [Hh'|Hh']; [eapply dirty_field; [by left|done]|]. inversion Hh' as [|? f' v' ? Hin Hh''|]; subst.
      eapply dirty_field; [by right|done]. }
  cbn [foldr fst snd]. destruct (checkDefault1 _ v depth _) as [w|e|e]; cbn [mbind outcome_bind]; [|apply Hh; by left|done].
  destruct (foldr _ _ fields) as [ws|e|e]; cbn [mbind outcome_bind]; [|apply Hh; by right|done].
  destruct Hf as [Hf1 Hf2], IH as [I1 I2]. split; [rewrite Hh; tauto|]. rewrite Hd, <-Hf2, <-I2.
  destruct w as [|x w]; cbn; [split; [by right|by intros [?|?]]|split; [by left|done]].
Qed.

Lemma checkDefault1_found v ro depth name : found ro (4 - depth) v (checkDefault1 ro v depth name).
Proof.
  revert ro depth name. induction v as [z|fields IH| |v IH|] using gval_nested_ind; intros ro depth name; cbn [checkDefault1];
    (destruct (Nat.ltb_spec 3 depth) as [Hd|Hd];
      [replace (4 - depth) with 0 by lia; split; [by inversion 1|split; [done|by inversion 1]]|
       replace (4 - depth) with (S (4 - (depth + 1))) by lia]).
  - destruct ro; [constructor|]. split; [by inversion 1|]. destruct z; (split; [try done; intros _; constructor|]); [by inversion 1|done].
  - apply found_fields. intros f v Hin. rewrite Forall_forall in IH. apply (IH (f, v) Hin).
  - split; [by inversion 1|]. split; [done|]. by inversion 1.
  - specialize (IH ro (depth + 1) name). destruct (checkDefault1 ro v (depth + 1) name) as [w|e|e]; [|by constructor|done].
    destruct IH as [H1 H2]. split; [by inversion 1|]. rewrite H2. split; [by constructor|by inversion 1].
  - split; [by inversion 1|]. split; [done|]. by inversion 1.
Qed.

(** [checkDefault] counts an error exactly when the value holds a
    non-zero basic field within three levels of structs and pointers (the
    depth it searches to); it warns exactly then, if nothing was counted
    before.  A clean or deeper difference passes silently.  A basic field that
    is not exported is not counted: looking at it panics. *)
Theorem checkDefault_detects v n :
  (0 <= n)%Z ->
  match checkDefault (Some v) n with
  | Ret (n', w) => ~ hidden false 3 v /\ (n' = n <-> ~ dirty 3 v) /\ (is_Some w <-> n = 0%Z /\ dirty 3 v)
  | Panic _ => hidden false 3 v
  | Fatal _ => False
  end.
Proof.
  intros Hn. pose proof (checkDefault1_found v false 1 "") as Hd. change (4 - 1) with 3 in Hd.
  unfold checkDefault. destruct (checkDefault1 false v 1 "") as [[|w ws]| |]; cbn [mbind outcome_bind]; [..|done|done];
    destruct Hd as [Hh Hd]; (split; [done|]); rewrite <-Hd; simpl.
  - split; [split; [by intros _ ?|lia]|]. destruct (n <? 1)%Z; (split; [intros []; done|by intros [_ []]]).
  - split; [split; [lia|by intros []]|]. destruct (Z.ltb_spec n 1).
    + split; [intros _; split; [lia|done]|eauto].
    + split; [intros []; done|lia].
Qed.
End Values.

(** ** The encoder and the decoder *)

(** [encoding/gob]: an encoder's output and what decoding makes of the value
    decoded into, if they succeed; [type_of] and [shape] are what [reflect] says
    of a value. *)
Section Codec.
Context (types : gmap nat tdesc) (upper : string -> bool).
Context {V : Type} (type_of : V -> nat) (shape : V -> option gval).
Context (gob_Encode : V -> option string) (gob_Decode : string -> V -> option V).

Definition checkValue (value : V) (st : state) : option state := checkType types upper (type_fuel types) (type_of value) st.

(** The state after the call, and what the gob encoder returns. *)
Definition Encode (e : V) (st : state) : option (state * option string) :=
  st ← checkValue e st; Some (st, gob_Encode e).

(** A decoder may panic in [checkDefault]. *)
Definition Decode (b : string) (e : V) (st : state) : option (outcome (state * option V)) :=
  st ← checkValue e st;
  Some (r ← checkDefault upper (shape e) (errorCount st); Ret (mkState (checked st) r.1, gob_Decode b e)).

Definition Register (value : V) (st : state) : option state := checkValue value st.

(** labrpc.go's [Marshall] and [Unmarshall]. *)
Definition Marshall (args : V) (st : state) : option (outcome (state * string)) :=
  r ← Encode args st;
  Some (match r.2 with Some b => Ret (r.1, b) | None => Fatal "Marshall fatal: encode arg err" end).
Definition Unmarshall (b : string) (repl : V) (st : state) : option (outcome (state * V)) :=
  o ← Decode b repl st;
  Some (r ← o; match r.2 with Some v => Ret (r.1, v) | None => Fatal "Unmarshall fatal: decode reply err" end).

Lemma checkValue_total value st : exists st', checkValue value st = Some st'.
Proof.
  destruct (checkType_walks types upper (type_fuel types) (type_of value) st) as (st' & E & _); [|by exists st'].
  assert (Hs : size (unchecked types st) <= size (dom types)) by (apply subseteq_size; unfold unchecked; set_solver).
  rewrite size_dom in Hs. unfold type_fuel. lia.
Qed.
End Codec.

(** ** Witness *)
Definition demo_val : gval :=
  VPtr (Some (VStruct [("Err", VBasic true); ("Args", VPtr None); ("Value", VBasic false)])).

(** Exported names, in ASCII. *)
Definition demo_upper (f : string) : bool :=
  match f with String c _ => (65 <=? Ascii.nat_of_ascii c) && (Ascii.nat_of_ascii c <=? 90) | _ => false end.

Lemma checkDefault_detects_witness :
  (0 <= 0)%Z /\ checkDefault demo_upper (Some demo_val) 0 = Ret (1%Z, Some "Value") /\ dirty 3 demo_val.
Proof.
  split; [done|]. split; [done|].
  pose proof (checkDefault_detects demo_upper demo_val 0 ltac:(lia)) as H.
  change (checkDefault demo_upper (Some demo_val) 0) with (Ret (1%Z, Some "Value")) in H.
  apply H. by eexists.
Defined.

(** A value decoded into that has a lower-case field. *)
Lemma lower_case_panics :
  checkDefault demo_upper (Some (VPtr (Some (VStruct [("x", VBasic true)])))) 0 =
  Panic "reflect.Value.Interface: cannot return value obtained from unexported field or method".
Proof. done. Qed.
End LabGob.
