(* ===== verification/LabRpc.v ===== *)
(** * LabRpc: the simulated network

    [src/src/labrpc/labrpc.go].  [Network] holds client ends, servers and the
    connections between them under [mu]; every request is carried by its own
    goroutine [processReq], which starts another one running the handler.
    The system state is the network, the store of server objects and the
    list of requests with the place their two goroutines have reached; an
    event is one move of a goroutine or one call of the tester, and carries
    the random draws the code makes.  Time-outs and delays are events that
    may happen at any time.  A server object is named by a number, so that a
    server re-created under an old name is a different object. *)

From S2P Require Import Prelude KvClerk.
From stdpp Require Import base gmap list strings.
From Stdlib Require Import ZArith Lia Ascii.
From stdpp Require Import list.

Module LabRpc.

Definition SHORTDELAY : Z := 27.
Definition LONGDELAY : Z := 7000.
Definition MAXDELAY : Z := LONGDELAY + 100.

(** The delays in milliseconds, from the random draws ([rand.Intn(n)] is a
    draw modulo [n]): before an unreliable request, before the answer of a
    missing server, and of a reordered reply. *)
Definition pause_ms (draw : Z) : Z := draw mod SHORTDELAY.
Definition unanswered_ms (longDelays : bool) (draw : Z) : Z :=
  if longDelays then draw mod LONGDELAY else draw mod 100.
Definition reorder_ms (draw1 draw2 : Z) : Z := 200 + draw2 mod (1 + draw1 mod 2000).

Record reqMsg := mkReq { endname : string; svcMeth : string; args : string }.
Record replyMsg := mkReplyMsg { rep_ok : bool; rep_reply : string }.
Definition no_reply : replyMsg := mkReplyMsg false "".

#[export] Instance replyMsg_eq_dec : EqDecision replyMsg.
Proof. solve_decision. Defined.

(** ** Method names *)

(** [strings.LastIndex(s, ".")]: [None] is [-1]. *)
Fixpoint last_dot (s : string) : option nat :=
  match s with
  | EmptyString => None
  | String c s' =>
      match last_dot s' with
      | Some i => Some (S i)
      | None => if decide (c = "."%char) then Some 0 else None
      end
  end.

(** [svcMeth[:dot]], [svcMeth[dot+1:]]; slicing with [-1] panics. *)
Definition split_svcMeth (s : string) : outcome (string * string) :=
  match last_dot s with
  | Some dot => Ret (String.substring 0 dot s, String.substring (dot + 1) (String.length s) s)
  | None => Panic "slice bounds out of range"
  end.

(** ** Services *)

(** What [MakeService] reads of a method through [reflect]. *)
Record method_desc := mkMethod {
  md_Name : string; md_PkgPath : string; md_NumIn : nat; md_In2_Ptr : bool; md_NumOut : nat }.

Definition is_handler (m : method_desc) : bool :=
  negb (negb (bool_decide (md_PkgPath m = "")) || negb (md_NumIn m =? 3) ||
        negb (md_In2_Ptr m) || negb (md_NumOut m =? 0)).

(** The names [MakeService] registers. *)
Definition MakeService_methods (ms : list method_desc) : gset string :=
  list_to_set (md_Name <$> filter (fun m => is_handler m = true) ms).

Section Network.
(** The state the services of one server object work on. *)
Context {St : Type}.

(** A registered method: from the encoded arguments, the new state and the
    encoded reply; a decoding error is fatal. *)
Definition Method : Type := string -> St -> outcome (St * string).
Definition Service : Type := gmap string Method.

(** [Service.dispatch] *)
Definition Service_dispatch (svc : Service) (methname : string) (req : reqMsg) (st : St)
    : outcome (St * replyMsg) :=
  match svc !! methname with
  | Some m => r ← m (args req) st; Ret (r.1, mkReplyMsg true r.2)
  | None => Fatal "unknown method"
  end.

Record Server := mkServer {
  services : gmap string Service;
  count : Z;
  dispatchf : option (string -> string -> St -> St * (string * bool));
  app : St }.

Definition AddService (name : string) (svc : Service) (rs : Server) : Server :=
  mkServer (<[name := svc]> (services rs)) (count rs) (dispatchf rs) (app rs).

(** [Server.dispatch] *)
Definition Server_dispatch (rs : Server) (req : reqMsg) : outcome (Server * replyMsg) :=
  sm ← split_svcMeth (svcMeth req);
  let rs := mkServer (services rs) (count rs + 1) (dispatchf rs) (app rs) in
  let with_app st := mkServer (services rs) (count rs) (dispatchf rs) st in
  match dispatchf rs with
  | Some f =>
      let '(st, (rep, ok)) := f (svcMeth req) (args req) (app rs) in
      Ret (with_app st, mkReplyMsg ok rep)
  | None =>
      match services rs !! sm.1 with
      | Some svc => r ← Service_dispatch svc sm.2 req (app rs); Ret (with_app r.1, r.2)
      | None => Fatal "unknown service"
      end
  end.

(** ** The network *)

Record Network := mkNet {
  reliable : bool;
  longDelays : bool;
  longReordering : bool;
  ends : gset string;
  enabled : gmap string bool;
  servers : gmap string (option nat);            (* [None]: a nil entry *)
  connections : gmap string (option string);
  rpc_count : Z;
  rpc_bytes : Z }.

Definition MakeNetwork : Network := mkNet true false false ∅ ∅ ∅ ∅ 0 0.

Definition set_flags (rn : Network) (r ld lr : bool) : Network :=
  mkNet r ld lr (ends rn) (enabled rn) (servers rn) (connections rn) (rpc_count rn) (rpc_bytes rn).
Definition Reliable (yes : bool) (rn : Network) : Network :=
  set_flags rn yes (longDelays rn) (longReordering rn).
Definition LongDelays (yes : bool) (rn : Network) : Network :=
  set_flags rn (reliable rn) yes (longReordering rn).
Definition LongReordering (yes : bool) (rn : Network) : Network :=
  set_flags rn (reliable rn) (longDelays rn) yes.

Definition set_maps (rn : Network) es en sv cn : Network :=
  mkNet (reliable rn) (longDelays rn) (longReordering rn) es en sv cn (rpc_count rn) (rpc_bytes rn).

Definition MakeEnd (e : string) (rn : Network) : outcome Network :=
  if bool_decide (e ∈ ends rn) then Fatal "already exists"
  else Ret (set_maps rn ({[e]} ∪ ends rn) (<[e := false]> (enabled rn)) (servers rn)
             (<[e := None]> (connections rn))).
Definition LookupEnd (e : string) (rn : Network) : outcome string :=
  if bool_decide (e ∈ ends rn) then Ret e else Fatal "doesn't exist".
Definition DeleteEnd (e : string) (rn : Network) : outcome Network :=
  if bool_decide (e ∈ ends rn)
  then Ret (set_maps rn (ends rn ∖ {[e]}) (delete e (enabled rn)) (servers rn) (delete e (connections rn)))
  else Fatal "doesn't exist".
Definition AddServer (sn : string) (sid : nat) (rn : Network) : Network :=
  set_maps rn (ends rn) (enabled rn) (<[sn := Some sid]> (servers rn)) (connections rn).
Definition DeleteServer (sn : string) (rn : Network) : Network :=
  set_maps rn (ends rn) (enabled rn) (<[sn := None]> (servers rn)) (connections rn).
Definition Connect (e sn : string) (rn : Network) : Network :=
  set_maps rn (ends rn) (enabled rn) (servers rn) (<[e := Some sn]> (connections rn)).
Definition Enable (e : string) (yes : bool) (rn : Network) : Network :=
  set_maps rn (ends rn) (<[e := yes]> (enabled rn)) (servers rn) (connections rn).

(** The tester's calls. *)
Inductive admin :=
  | AReliable (yes : bool) | ALongDelays (yes : bool) | ALongReordering (yes : bool)
  | AMakeEnd (e : string) | ADeleteEnd (e : string)
  | AAddServer (sn : string) (sid : nat) | ADeleteServer (sn : string)
  | AConnect (e sn : string) | AEnable (e : string) (yes : bool).

Definition admin_exec (a : admin) (rn : Network) : outcome Network :=
  match a with
  | AReliable b => Ret (Reliable b rn)
  | ALongDelays b => Ret (LongDelays b rn)
  | ALongReordering b => Ret (LongReordering b rn)
  | AMakeEnd e => MakeEnd e rn
  | ADeleteEnd e => DeleteEnd e rn
  | AAddServer sn sid => Ret (AddServer sn sid rn)
  | ADeleteServer sn => Ret (DeleteServer sn rn)
  | AConnect e sn => Ret (Connect e sn rn)
  | AEnable e b => Ret (Enable e b rn)
  end.

Definition add_stats (rn : Network) (n b : Z) : Network :=
  mkNet (reliable rn) (longDelays rn) (longReordering rn) (ends rn) (enabled rn) (servers rn)
    (connections rn) (rpc_count rn + n) (rpc_bytes rn + b).

(** Reading a missing or nil entry gives the zero value. *)
Definition is_enabled (rn : Network) (e : string) : bool := default false (enabled rn !! e).
Definition connected (rn : Network) (e : string) : option string := mjoin (connections rn !! e).
Definition server_at (rn : Network) (sn : string) : option nat := mjoin (servers rn !! sn).

(** [readEndnameInfo]: the server name and object when [enabled] and both
    are non-nil, which is the only case the caller uses them in. *)
Definition readEndnameInfo (rn : Network) (e : string) : option (string * nat) :=
  if is_enabled rn e then
    sn ← connected rn e; sid ← server_at rn sn; Some (sn, sid)
  else None.

Definition isServerDead (rn : Network) (e sn : string) (sid : nat) : bool :=
  negb (is_enabled rn e) || negb (bool_decide (server_at rn sn = Some sid)).

(** ** Requests under way *)

(** The goroutine running the handler. *)
Inductive handler :=
  | NotStarted
  | Started (sid : nat)                  (* on this server object *)
  | Executed (sid : nat) (r : replyMsg).

(** [processReq] and the client waiting for the reply. *)
Inductive phase :=
  | Queued                                            (* sent on [endCh] *)
  | Processing                                        (* [processReq] started *)
  | Pausing (sn : string) (sid : nat) (lr : bool)     (* short delay, unreliable *)
  | Waiting (sn : string) (sid : nat) (rel lr : bool) (* for the handler *)
  | Delayed (r : replyMsg)                            (* long reordering *)
  | Unanswered                                        (* no server: delay, then false *)
  | Replied (r : replyMsg).

Record rpc := mkRpc { rq : reqMsg; ph : phase; hd : handler }.

Record sys := mkSys {
  net : Network;
  objs : gmap nat Server;
  rpcs : list rpc;
  halted : bool }.                                    (* [log.Fatalf] or a panic *)

Inductive event :=
  | EvAdmin (a : admin)                               (* a tester call *)
  | EvNewServer (sid : nat) (svcs : gmap string Service) (st : St)  (* MakeServer, AddService *)
  | EvCall (r : reqMsg)
  | EvAccept (i : nat)
  | EvRead (i : nat)
  | EvPause (i : nat) (draw : Z)
  | EvDispatch (i : nat)
  | EvTick (i : nat)
  | EvFinish (i : nat) (draw draw2 : Z)
  | EvFire (i : nat).

Definition set_rpc (s : sys) (i : nat) (r : rpc) : sys :=
  mkSys (net s) (objs s) (<[i := r]> (rpcs s)) (halted s).
Definition set_net (s : sys) (rn : Network) : sys := mkSys rn (objs s) (rpcs s) (halted s).
Definition set_objs (s : sys) (o : gmap nat Server) : sys := mkSys (net s) o (rpcs s) (halted s).

(** The network's goroutine takes a request off [endCh]. *)
Definition accept (s : sys) (i : nat) (r : rpc) : option sys :=
  match ph r with
  | Queued =>
      Some (set_net (set_rpc s i (mkRpc (rq r) Processing (hd r)))
             (add_stats (net s) 1 (Z.of_nat (String.length (args (rq r))))))
  | _ => None
  end.

(** [processReq] up to the short delay or the start of the handler. *)
Definition read (s : sys) (i : nat) (r : rpc) : option sys :=
  match ph r with
  | Processing =>
      Some (set_rpc s i
        match readEndnameInfo (net s) (endname (rq r)) with
        | Some (sn, sid) =>
            if reliable (net s)
            then mkRpc (rq r) (Waiting sn sid true (longReordering (net s))) (Started sid)
            else mkRpc (rq r) (Pausing sn sid (longReordering (net s))) (hd r)
        | None => mkRpc (rq r) Unanswered (hd r)
        end)
  | _ => None
  end.

Definition pause (s : sys) (i : nat) (r : rpc) (draw : Z) : option sys :=
  match ph r with
  | Pausing sn sid lr =>
      Some (set_rpc s i
        (if (draw mod 1000 <? 100)%Z then mkRpc (rq r) (Replied no_reply) (hd r)
         else mkRpc (rq r) (Waiting sn sid false lr) (Started sid)))
  | _ => None
  end.

(** The handler's goroutine; it runs on the server object it was given,
    whatever became of the network in the meantime. *)
Definition dispatch (s : sys) (i : nat) (r : rpc) : option sys :=
  match hd r with
  | Started sid =>
      rs ← objs s !! sid;
      match Server_dispatch rs (rq r) with
      | Ret (rs', rep) => Some (set_objs (set_rpc s i (mkRpc (rq r) (ph r) (Executed sid rep))) (<[sid := rs']> (objs s)))
      | _ => Some (mkSys (net s) (objs s) (rpcs s) true)
      end
  | _ => None
  end.

(** 100 ms without the handler returning. *)
Definition tick (s : sys) (i : nat) (r : rpc) : option sys :=
  match ph r with
  | Waiting sn sid _ _ =>
      if isServerDead (net s) (endname (rq r)) sn sid
      then Some (set_rpc s i (mkRpc (rq r) (Replied no_reply) (hd r))) else Some s
  | _ => None
  end.

Definition send_reply (s : sys) (i : nat) (r : rpc) (rep : replyMsg) : sys :=
  set_net (set_rpc s i (mkRpc (rq r) (Replied rep) (hd r)))
    (add_stats (net s) 0 (Z.of_nat (String.length (rep_reply rep)))).

(** The handler has returned: the code after the waiting loop. *)
Definition finish (s : sys) (i : nat) (r : rpc) (draw draw2 : Z) : option sys :=
  match ph r, hd r with
  | Waiting sn sid rel lr, Executed _ rep =>
      Some
        (if isServerDead (net s) (endname (rq r)) sn sid
         then set_rpc s i (mkRpc (rq r) (Replied no_reply) (hd r))
         else if negb rel && (draw mod 1000 <? 100)%Z
         then set_rpc s i (mkRpc (rq r) (Replied no_reply) (hd r))
         else if lr && (draw2 mod 900 <? 600)%Z
         then set_rpc s i (mkRpc (rq r) (Delayed rep) (hd r))
         else send_reply s i r rep)
  | _, _ => None
  end.

Definition fire (s : sys) (i : nat) (r : rpc) : option sys :=
  match ph r with
  | Delayed rep => Some (send_reply s i r rep)
  | Unanswered => Some (set_rpc s i (mkRpc (rq r) (Replied no_reply) (hd r)))
  | _ => None
  end.

Definition exec (e : event) (s : sys) : option sys :=
  if halted s then None else
  match e with
  | EvAdmin a =>
      match admin_exec a (net s) with
      | Ret rn => Some (set_net s rn)
      | _ => Some (mkSys (net s) (objs s) (rpcs s) true)
      end
  | EvNewServer sid svcs st =>
      match objs s !! sid with
      | None => Some (set_objs s (<[sid := mkServer svcs 0 None st]> (objs s)))
      | Some _ => None
      end
  | EvCall r => Some (mkSys (net s) (objs s) (rpcs s ++ [mkRpc r Queued NotStarted]) (halted s))
  | EvAccept i => r ← rpcs s !! i; accept s i r
  | EvRead i => r ← rpcs s !! i; read s i r
  | EvPause i d => r ← rpcs s !! i; pause s i r d
  | EvDispatch i => r ← rpcs s !! i; dispatch s i r
  | EvTick i => r ← rpcs s !! i; tick s i r
  | EvFinish i d d2 => r ← rpcs s !! i; finish s i r d d2
  | EvFire i => r ← rpcs s !! i; fire s i r
  end.

Definition init (rn : Network) : sys := mkSys rn ∅ [] false.

(** ** How one event moves one request *)

Inductive rpc_step (rn : Network) : rpc -> rpc -> Prop :=
  | StAccept q h : rpc_step rn (mkRpc q Queued h) (mkRpc q Processing h)
  | StReadNone q h :
      readEndnameInfo rn (endname q) = None ->
      rpc_step rn (mkRpc q Processing h) (mkRpc q Unanswered h)
  | StReadReliable q h sn sid :
      readEndnameInfo rn (endname q) = Some (sn, sid) -> reliable rn = true ->
      rpc_step rn (mkRpc q Processing h) (mkRpc q (Waiting sn sid true (longReordering rn)) (Started sid))
  | StReadUnreliable q h sn sid :
      readEndnameInfo rn (endname q) = Some (sn, sid) -> reliable rn = false ->
      rpc_step rn (mkRpc q Processing h) (mkRpc q (Pausing sn sid (longReordering rn)) h)
  | StDrop q h sn sid lr : rpc_step rn (mkRpc q (Pausing sn sid lr) h) (mkRpc q (Replied no_reply) h)
  | StStart q h sn sid lr :
      rpc_step rn (mkRpc q (Pausing sn sid lr) h) (mkRpc q (Waiting sn sid false lr) (Started sid))
  | StDispatch q p sid rep : rpc_step rn (mkRpc q p (Started sid)) (mkRpc q p (Executed sid rep))
  | StDead q h sn sid rel lr :
      isServerDead rn (endname q) sn sid = true ->
      rpc_step rn (mkRpc q (Waiting sn sid rel lr) h) (mkRpc q (Replied no_reply) h)
  | StDropReply q sid' rep sn sid lr :
      rpc_step rn (mkRpc q (Waiting sn sid false lr) (Executed sid' rep))
                  (mkRpc q (Replied no_reply) (Executed sid' rep))
  | StDelay q sid' rep sn sid rel :
      isServerDead rn (endname q) sn sid = false ->
      rpc_step rn (mkRpc q (Waiting sn sid rel true) (Executed sid' rep))
                  (mkRpc q (Delayed rep) (Executed sid' rep))
  | StReply q sid' rep sn sid rel lr :
      isServerDead rn (endname q) sn sid = false ->
      rpc_step rn (mkRpc q (Waiting sn sid rel lr) (Executed sid' rep))
                  (mkRpc q (Replied rep) (Executed sid' rep))
  | StFire q h rep : rpc_step rn (mkRpc q (Delayed rep) h) (mkRpc q (Replied rep) h)
  | StUnanswered q h : rpc_step rn (mkRpc q Unanswered h) (mkRpc q (Replied no_reply) h).

(** The tester's calls are the only ones that change the configuration. *)
Definition quiet (e : event) : Prop := match e with EvAdmin _ => False | _ => True end.

Record same_config (rn rn' : Network) : Prop := {
  sc_reliable : reliable rn' = reliable rn;
  sc_reorder : longReordering rn' = longReordering rn;
  sc_enabled : enabled rn' = enabled rn;
  sc_servers : servers rn' = servers rn;
  sc_connections : connections rn' = connections rn }.

#[export] Instance same_config_preorder : PreOrder same_config.
Proof.
  split; [by split|]. intros n1 n2 n3 [] []. split; congruence.
Qed.

Lemma same_config_read rn rn' e :
  same_config rn rn' -> readEndnameInfo rn' e = readEndnameInfo rn e.
Proof.
  intros [H1 H2 H3 H4 H5]. unfold readEndnameInfo, is_enabled, connected, server_at.
  by rewrite H3, H4, H5.
Qed.

(** What a move of request [r] to [r'] does to the server objects. *)
Definition obj_effect (s s' : sys) (r r' : rpc) : Prop :=
  (objs s' = objs s /\ (hd r' = hd r \/ exists sid, hd r' = Started sid)) \/
  (exists sid rep rs rs', hd r = Started sid /\ hd r' = Executed sid rep /\ objs s !! sid = Some rs /\
     Server_dispatch rs (rq r) = Ret (rs', rep) /\ objs s' = <[sid := rs']> (objs s)).

Inductive effect (s s' : sys) : event -> Prop :=
  | EffNone e : rpcs s' = rpcs s -> objs s' = objs s -> effect s s' e
  | EffServer sid svcs st :
      rpcs s' = rpcs s -> objs s !! sid = None -> objs s' = <[sid := mkServer svcs 0 None st]> (objs s) ->
      effect s s' (EvNewServer sid svcs st)
  | EffCall q : rpcs s' = rpcs s ++ [mkRpc q Queued NotStarted] -> objs s' = objs s -> effect s s' (EvCall q)
  | EffMove e i r r' :
      rpcs s !! i = Some r -> rpcs s' = <[i := r']> (rpcs s) -> rpc_step (net s) r r' ->
      obj_effect s s' r r' -> effect s s' e.

(** The effect of an event: at most one request moves, or one is added. *)
Lemma exec_effect e s s' :
  exec e s = Some s' -> (quiet e -> same_config (net s) (net s')) /\ effect s s' e.
Proof.
  unfold exec. destruct (halted s); [done|]. destruct e; simpl.
  - destruct (admin_exec a (net s)); intros [= <-]; (split; [done|]); by apply EffNone.
  - destruct (objs s !! sid) eqn:Ho; [done|]. intros [= <-]. split; [done|]. by apply EffServer.
  - intros [= <-]. split; [done|]. by apply EffCall.
  - destruct (rpcs s !! i) as [[q p h]|] eqn:Hi; simpl; [|done]. destruct p; try done.
    intros [= <-]. split; [done|]. eapply EffMove; [exact Hi|done|constructor|]. left; simpl; eauto.
  - destruct (rpcs s !! i) as [[q p h]|] eqn:Hi; simpl; [|done]. unfold read. simpl. destruct p; try done.
    intros [= <-]. split; [done|]. eapply EffMove; [exact Hi|done| |].
    + destruct (readEndnameInfo (net s) (endname q)) as [[sn sid]|] eqn:Hr; [|by constructor].
      destruct (reliable (net s)) eqn:Hrel; by constructor.
    + left. split; [done|]. destruct (readEndnameInfo _ _) as [[sn sid]|]; [|by left].
      case_match; simpl; eauto.
  - destruct (rpcs s !! i) as [[q p h]|] eqn:Hi; simpl; [|done]. unfold pause. simpl. destruct p; try done.
    intros [= <-]. split; [done|]. eapply EffMove; [exact Hi|done| |].
    + case_match; constructor.
    + left. split; [done|]. case_match; simpl; eauto.
  - destruct (rpcs s !! i) as [[q p h]|] eqn:Hi; simpl; [|done]. unfold dispatch. simpl.
    destruct h; try done. destruct (objs s !! sid) as [rs|] eqn:Ho; simpl; [|done].
    destruct (Server_dispatch rs q) as [[rs' rep]| |] eqn:Hd; intros [= <-]; (split; [done|]); [|by apply EffNone..].
    eapply EffMove; [exact Hi|done|constructor|]. right. do 4 eexists. done.
  - destruct (rpcs s !! i) as [[q p h]|] eqn:Hi; simpl; [|done]. unfold tick. simpl. destruct p; try done.
    destruct (isServerDead _ _ _ _) eqn:Hd; intros [= <-]; (split; [done|]); [|by apply EffNone].
    eapply EffMove; [exact Hi|done|by constructor|]. left; simpl; eauto.
  - destruct (rpcs s !! i) as [[q p h]|] eqn:Hi; simpl; [|done]. unfold finish. simpl.
    destruct p; try done. destruct h; try done. intros [= <-].
    destruct (isServerDead _ _ _ _) eqn:Hd; [|destruct (negb rel && _) eqn:Hn; [|destruct (lr && _) eqn:Hlr]];
      (split; [done|]); (eapply EffMove; [exact Hi|done| |left; simpl; by eauto]).
    + by apply StDead.
    + apply andb_true_iff in Hn as [Hn _]. destruct rel; [done|]. apply StDropReply.
    + apply andb_true_iff in Hlr as [-> _]. by apply StDelay.
    + by apply StReply.
  - destruct (rpcs s !! i) as [[q p h]|] eqn:Hi; simpl; [|done]. unfold fire. simpl.
    destruct p; try done; intros [= <-]; (split; [done|]);
      (eapply EffMove; [exact Hi|done|constructor|left; simpl; by eauto]).
Qed.

(** Rule induction over the requests: a property of single requests kept
    by every step under a condition [C] on the network. *)
Lemma rpcs_invariant (P : event -> Prop) (C : Network -> Prop) (I : rpc -> Prop) :
  (forall e s s', P e -> C (net s) -> exec e s = Some s' -> C (net s')) ->
  (forall q, I (mkRpc q Queued NotStarted)) ->
  (forall rn r r', C rn -> I r -> rpc_step rn r r' -> I r') ->
  forall es s s', Forall P es -> C (net s) -> Forall I (rpcs s) -> run exec es s = Some s' ->
    C (net s') /\ Forall I (rpcs s').
Proof.
  intros HC Hnew Hstep es. induction es as [|e es IH]; intros s s' HP Hs HI Hrun.
  - injection Hrun as <-. done.
  - apply Forall_cons in HP as [He HP]. simpl in Hrun.
    destruct (exec e s) as [s1|] eqn:Hs1; simpl in Hrun; [|done].
    apply (IH s1 s'); [done|by eapply HC| |done].
    destruct (exec_effect _ _ _ Hs1) as [_ [? Hr _ | ? ? ? Hr _ _ | q Hr _ | ? i r r' Hi Hr Hst _]];
      rewrite Hr; [done..| |].
    + apply Forall_app. by split; [|constructor].
    + apply Forall_insert; [done|]. eapply Hstep; [exact Hs| |exact Hst].
      by eapply Forall_lookup_1.
Qed.

(** The same for one request. *)
Lemma rpc_track (P : event -> Prop) (C : Network -> Prop) (I : rpc -> Prop) i :
  (forall e s s', P e -> C (net s) -> exec e s = Some s' -> C (net s')) ->
  (forall rn r r', C rn -> I r -> rpc_step rn r r' -> I r') ->
  forall es s s' r, Forall P es -> C (net s) -> rpcs s !! i = Some r -> I r -> run exec es s = Some s' ->
    exists r', rpcs s' !! i = Some r' /\ I r'.
Proof.
  intros HC Hstep es. induction es as [|e es IH]; intros s s' r HP Hs Hi HI Hrun.
  - injection Hrun as <-. eauto.
  - apply Forall_cons in HP as [He HP]. simpl in Hrun.
    destruct (exec e s) as [s1|] eqn:Hs1; simpl in Hrun; [|done].
    assert (exists r1, rpcs s1 !! i = Some r1 /\ I r1) as (r1 & Hi1 & HI1).
    { destruct (exec_effect _ _ _ Hs1) as [_ [? Hr _ | ? ? ? Hr _ _ | q Hr _ | ? j r2 r' Hj Hr Hst _]]; rewrite Hr.
      - eauto.
      - eauto.
      - exists r. by rewrite lookup_app_l by (by eapply lookup_lt_Some).
      - destruct (decide (i = j)) as [->|].
        + exists r'. rewrite list_lookup_insert_eq by (by eapply lookup_lt_Some).
          rewrite Hi in Hj. injection Hj as ->. eauto.
        + exists r. by rewrite list_lookup_insert_ne. }
    by apply (IH s1 s' r1); [|eapply HC| | |].
Qed.

Lemma quiet_same_config rn0 e s s' :
  quiet e -> same_config rn0 (net s) -> exec e s = Some s' -> same_config rn0 (net s').
Proof. intros He H0 Hs. etransitivity; [exact H0|]. by apply (exec_effect _ _ _ Hs). Qed.

(** ** Properties *)

(** Places of the two goroutines that go together. *)
Definition rpc_ok (r : rpc) : Prop :=
  match ph r with
  | Queued | Processing | Pausing _ _ _ | Unanswered => hd r = NotStarted
  | Waiting _ sid _ _ => hd r = Started sid \/ exists rep, hd r = Executed sid rep
  | Delayed rep => exists sid, hd r = Executed sid rep
  | Replied rep => rep_ok rep = true -> exists sid, hd r = Executed sid rep
  end.

Lemma rpc_ok_step rn r r' : rpc_ok r -> rpc_step rn r r' -> rpc_ok r'.
Proof.
  unfold rpc_ok. intros Hr Hs. destruct Hs; simpl in *; try done; eauto.
  destruct p; naive_solver.
Qed.

Definition executed_on (sid : nat) (r : rpc) : bool :=
  match hd r with Executed sid' _ => sid' =? sid | _ => false end.

Definition executions (sid : nat) (l : list rpc) : nat := lcount (fun r => executed_on sid r = true) l.

Definition counts_ok (s : sys) : Prop :=
  (forall sid rs, objs s !! sid = Some rs -> count rs = Z.of_nat (executions sid (rpcs s))) /\
  (forall sid, objs s !! sid = None -> executions sid (rpcs s) = 0).

Lemma executions_insert sid l i r r' :
  l !! i = Some r -> executed_on sid r = executed_on sid r' ->
  executions sid (<[i:=r']> l) = executions sid l.
Proof.
  intros Hi He. unfold executions.
  pose proof (lcount_insert (fun r => executed_on sid r = true) l i r r' Hi) as H.
  cbv beta in H. rewrite He in H. lia.
Qed.

Lemma Server_dispatch_count rs q rs' rep :
  Server_dispatch rs q = Ret (rs', rep) -> count rs' = (count rs + 1)%Z.
Proof.
  unfold Server_dispatch. destruct (split_svcMeth (svcMeth q)) as [[svc m]| |]; simpl; try done.
  destruct (dispatchf rs) as [f|].
  - destruct (f _ _ _) as [st [rp ok]]. by intros [= <- _].
  - destruct (services rs !! svc); [|done].
    destruct (Service_dispatch _ _ _ _) as [[? ?]| |]; simpl; try done. by intros [= <- _].
Qed.

Lemma executed_step sid rn r r' :
  rpc_ok r -> rpc_step rn r r' -> (hd r' = hd r \/ exists sid, hd r' = Started sid) ->
  executed_on sid r' = executed_on sid r.
Proof.
  intros Hok Hst [Heq | [sid' Heq]]; unfold executed_on; [by rewrite Heq|].
  destruct Hst; simpl in *; simplify_eq; unfold rpc_ok in Hok; simpl in Hok; by rewrite ?Hok.
Qed.

Lemma executed_on_fresh sid q p : executed_on sid (mkRpc q p NotStarted) = false.
Proof. done. Qed.

Lemma counts_ok_exec e s s' :
  Forall rpc_ok (rpcs s) -> counts_ok s -> exec e s = Some s' -> counts_ok s'.
Proof.
  intros Hok [H1 H2] Hs. unfold counts_ok.
  destruct (exec_effect _ _ _ Hs) as
    [_ [? Hr Ho | sid svcs st Hr Hn Ho | q Hr Ho | ? i r r' Hi Hr Hst Hobj]]; rewrite Hr; try rewrite Ho.
  - done.
  - split; intros sid'.
    + intros rs [[<- <-]|[_ Hl]]%lookup_insert_Some; [by rewrite (H2 sid Hn)|by apply H1].
    + intros [Hl _]%lookup_insert_None. by apply H2.
  - unfold executions in *. setoid_rewrite lcount_app. setoid_rewrite lcount_cons. simpl.
    setoid_rewrite lcount_nil. split; [intros sid rs|intros sid]; rewrite Nat.add_0_r; auto.
  - pose proof (Forall_lookup_1 _ _ _ _ Hok Hi) as Hrok.
    destruct Hobj as [[Ho Hh] | (sid & rep & rs & rs' & Hh & Hh' & Hsid & Hd & Ho)]; rewrite Ho.
    + assert (forall sid, executions sid (<[i:=r']> (rpcs s)) = executions sid (rpcs s)) as He.
      { intros sid. eapply executions_insert; [done|]. symmetry. by eapply executed_step. }
      split; [intros sid rs|intros sid]; rewrite He; auto.
    + assert (forall sid', executions sid' (<[i:=r']> (rpcs s)) =
        executions sid' (rpcs s) + if decide (sid' = sid) then 1 else 0) as He.
      { intros sid'. unfold executions.
        pose proof (lcount_insert (fun r => executed_on sid' r = true) (rpcs s) i r r' Hi) as Hl.
        cbv beta in Hl. assert (executed_on sid' r = false) as E1 by (unfold executed_on; by rewrite Hh).
        assert (executed_on sid' r' = (sid =? sid')) as E2 by (unfold executed_on; by rewrite Hh').
        rewrite E1, E2 in Hl.
        destruct (decide (sid' = sid)) as [->|Hne].
        - rewrite Nat.eqb_refl in Hl. rewrite decide_False, decide_True in Hl by done. lia.
        - destruct (Nat.eqb_spec sid sid'); [congruence|]. rewrite !decide_False in Hl by done. lia. }
      split; intros sid'; [intros rs1|]; rewrite He.
      * intros [[<- <-]|[Hne Hl]]%lookup_insert_Some.
        -- rewrite decide_True by done. rewrite (Server_dispatch_count _ _ _ _ Hd), (H1 _ _ Hsid). lia.
        -- rewrite decide_False by done. rewrite Nat.add_0_r. by apply H1.
      * intros [Hl Hne]%lookup_insert_None. rewrite decide_False by done. rewrite Nat.add_0_r. by apply H2.
Qed.

Lemma run_counts es rn s :
  run exec es (init rn) = Some s -> Forall rpc_ok (rpcs s) /\ counts_ok s.
Proof.
  apply (run_invariant exec (fun s => Forall rpc_ok (rpcs s) /\ counts_ok s)).
  - intros e s1 s2 [Hok Hc] Hs. split; [|by eapply counts_ok_exec].
    refine (proj2 (rpcs_invariant (fun _ => True) (fun _ => True) rpc_ok _ _ _ [e] s1 s2 _ _ _ _));
      [done|done| |by constructor|done|done|simpl; by rewrite Hs].
    intros rn' r r' _. apply rpc_ok_step.
  - split; [constructor|]. split; [|done]. intros sid rs Hl. simpl in Hl. by rewrite lookup_empty in Hl.
Qed.


(** no positive reply from a deleted server: once the server object a
    request waits for is no longer the one installed under its name, the
    request can only end in a failure, whatever the handler goroutine
    still does, unless that very object is installed again. *)
Theorem deleted_server_no_reply es s s' i r sn sid rel lr :
  rpcs s !! i = Some r -> ph r = Waiting sn sid rel lr -> server_at (net s) sn <> Some sid ->
  Forall (fun e => e <> EvAdmin (AAddServer sn sid)) es ->
  run exec es s = Some s' ->
  exists r', rpcs s' !! i = Some r' /\ (ph r' = Waiting sn sid rel lr \/ ph r' = Replied no_reply).
Proof.
  intros Hi Hp Hsrv Hes Hrun.
  apply (rpc_track _ (fun rn => server_at rn sn <> Some sid)
    (fun r => ph r = Waiting sn sid rel lr \/ ph r = Replied no_reply) i) with (7 := Hrun) (3 := Hes) (r := r);
    [| |done|done|by left].
  - intros e s1 s2 He Hne Hs. destruct e; try (by
      destruct (proj1 (exec_effect _ _ _ Hs) I) as [_ _ _ Hsv _]; unfold server_at in *; rewrite Hsv).
    unfold exec in Hs. destruct (halted s1); [done|].
    destruct (admin_exec a (net s1)) as [rn| |] eqn:Ha; injection Hs as <-; [|done..].
    simpl. destruct a as [| | |e|e|sn' sid'|sn'|e sn'|e b]; simpl in Ha; unfold MakeEnd, DeleteEnd in Ha;
      repeat case_match; simplify_eq; try done; unfold server_at in *; simpl.
    + destruct (decide (sn = sn')) as [->|]; [|by rewrite lookup_insert_ne].
      rewrite lookup_insert_eq. simpl. intros [= ->]. by apply He.
    + destruct (decide (sn = sn')) as [->|]; [|by rewrite lookup_insert_ne]. by rewrite lookup_insert_eq.
  - intros rn r1 r2 Hne [Hph|Hph] Hst; destruct Hst; simpl in *; simplify_eq; auto.
    all: unfold isServerDead in *; rewrite bool_decide_eq_false_2 in * by done;
      rewrite orb_true_r in *; done.
Qed.

(** on a reliable network a call through an enabled end to an
    installed server does not fail: while the tester changes nothing, a
    request sent through it ends only in the reply of its handler, and
    that reply is a success unless a forwarding dispatcher says no. *)
Theorem reliable_never_fails rn objs0 e sn sid es s i r rep :
  reliable rn = true -> readEndnameInfo rn e = Some (sn, sid) ->
  Forall quiet es -> run exec es (mkSys rn objs0 [] false) = Some s ->
  rpcs s !! i = Some r -> endname (rq r) = e -> ph r = Replied rep ->
  hd r = Executed sid rep.
Proof.
  intros Hrel Hread Hes Hrun Hi He Hp.
  pose (C := fun rn' => same_config rn rn').
  pose (I := fun r : rpc => endname (rq r) = e ->
    match ph r with
    | Queued | Processing => True
    | Waiting sn' sid' rel _ => sn' = sn /\ sid' = sid /\ rel = true /\
        (hd r = Started sid \/ exists rep, hd r = Executed sid rep)
    | Delayed rep | Replied rep => hd r = Executed sid rep
    | _ => False
    end).
  destruct (rpcs_invariant quiet C I) with (es := es) (s := mkSys rn objs0 [] false) (s' := s) as [_ Hall];
    try done.
  - intros ev s1 s2 Hq. by apply quiet_same_config.
  - intros rn' r1 r2 HC HI Hst. unfold C in HC. unfold I in *.
    pose proof (same_config_read rn rn' e HC) as Hrd. rewrite Hread in Hrd.
    assert (isServerDead rn' e sn sid = false) as Halive.
    { unfold isServerDead. unfold readEndnameInfo in Hrd. destruct (is_enabled rn' e); [|done].
      destruct (connected rn' e) as [sn'|]; simpl in Hrd; [|done].
      destruct (server_at rn' sn') eqn:Hsv; simpl in Hrd; [|done]. injection Hrd as -> ->.
      rewrite Hsv. by rewrite bool_decide_eq_true_2. }
    pose proof (sc_reliable _ _ HC) as Hrel'.
    destruct Hst; simpl in *; intros He'; specialize (HI He'); rewrite ?He' in *; simplify_eq; try done; try congruence.
    + eauto 10.
    + destruct p; naive_solver.
    + destruct HI as (-> & -> & _). congruence.
    + naive_solver.
    + naive_solver.
    + naive_solver.
  - pose proof (Forall_lookup_1 _ _ _ _ Hall Hi) as HI. unfold I in HI. specialize (HI He).
    by rewrite Hp in HI.
Qed.

(** What became of a call, in the terms of the clerk's model. *)
Definition delivery_of (r : rpc) : option delivery :=
  match ph r, hd r with
  | Replied rep, Executed _ _ => Some (if rep_ok rep then Delivered else ReplyLost)
  | Replied _, NotStarted => Some ReqLost
  | _, _ => None
  end.

(** the clerks' three-way view of an RPC is right.  As long as the
    tester does not reconfigure the network, a call that has returned
    either never ran and never will, or ran once before it returned; there
    is no late execution after a failure was reported. *)
Theorem quiet_call_delivery rn objs0 es s i r rep :
  Forall quiet es -> run exec es (mkSys rn objs0 [] false) = Some s ->
  rpcs s !! i = Some r -> ph r = Replied rep ->
  exists d, delivery_of r = Some d /\ (d = Delivered <-> rep_ok rep = true) /\
    (d = ReqLost <-> hd r = NotStarted).
Proof.
  intros Hes Hrun Hi Hp.
  pose (I := fun r : rpc => rpc_ok r /\
    match ph r with
    | Pausing sn sid _ => readEndnameInfo rn (endname (rq r)) = Some (sn, sid)
    | Waiting sn sid _ _ => readEndnameInfo rn (endname (rq r)) = Some (sn, sid)
    | Replied _ => forall sid, hd r <> Started sid
    | _ => True
    end).
  destruct (rpcs_invariant quiet (same_config rn) I) with (es := es) (s := mkSys rn objs0 [] false) (s' := s)
    as [_ Hall]; try done.
  - intros ev s1 s2 Hq. by apply quiet_same_config.
  - intros rn' r1 r2 HC [Hok HI] Hst. split; [by eapply rpc_ok_step|].
    assert (forall e sn sid, readEndnameInfo rn e = Some (sn, sid) -> isServerDead rn' e sn sid = false) as Halive.
    { intros e sn sid Hrd. rewrite <-(same_config_read rn rn' e HC) in Hrd.
      unfold isServerDead. unfold readEndnameInfo in Hrd. destruct (is_enabled rn' e); [|done].
      destruct (connected rn' e) as [sn'|]; simpl in Hrd; [|done].
      destruct (server_at rn' sn') eqn:Hsv; simpl in Hrd; [|done]. injection Hrd as -> ->.
      rewrite Hsv. by rewrite bool_decide_eq_true_2. }
    destruct Hst; simpl in *; unfold rpc_ok in Hok; simpl in Hok; try done.
    + by rewrite <-(same_config_read rn rn' _ HC).
    + by rewrite <-(same_config_read rn rn' _ HC).
    + by rewrite Hok.
    + by destruct p.
    + rewrite (Halive _ _ _ HI) in *. done.
    + by destruct Hok as [? ->].
    + by rewrite Hok.
  - pose proof (Forall_lookup_1 _ _ _ _ Hall Hi) as [Hok HI]. unfold rpc_ok in Hok. rewrite Hp in *.
    unfold delivery_of. rewrite Hp. destruct (hd r) as [|sid|sid rep'] eqn:Hh.
    + exists ReqLost. split_and!; [done| |done]. split; [done|]. intros H. by destruct (Hok H).
    + by destruct (HI sid).
    + destruct (rep_ok rep); eexists; (split_and!; [done|..]); split; done.
Qed.

(** a request read while its end is disabled, unconnected or its
    server missing is never executed and answered with a failure. *)
Theorem unreachable_never_executes es s s' i r :
  rpcs s !! i = Some r -> ph r = Processing -> hd r = NotStarted ->
  readEndnameInfo (net s) (endname (rq r)) = None ->
  run exec (EvRead i :: es) s = Some s' ->
  exists r', rpcs s' !! i = Some r' /\ hd r' = NotStarted /\
    (ph r' = Unanswered \/ ph r' = Replied no_reply).
Proof.
  intros Hi Hp Hh Hrd Hrun. cbn [run] in Hrun.
  destruct (exec (EvRead i) s) as [s1|] eqn:He; simpl in Hrun; [|done].
  assert (s1 = set_rpc s i (mkRpc (rq r) Unanswered (hd r))) as ->.
  { unfold exec in He. destruct (halted s); [done|]. rewrite Hi in He. simpl in He.
    unfold read in He. rewrite Hp, Hrd in He. by injection He. }
  apply (rpc_track (fun _ => True) (fun _ => True)
    (fun r => hd r = NotStarted /\ (ph r = Unanswered \/ ph r = Replied no_reply)) i) with (7 := Hrun)
    (r := mkRpc (rq r) Unanswered (hd r)); try done.
  - intros rn r1 r2 _ [Hh1 Hp1] Hst. destruct Hst; simpl in *; naive_solver.
  - by apply Forall_forall.
  - simpl. apply list_lookup_insert_eq. by eapply lookup_lt_Some.
  - auto.
Qed.
End Network.

(** *** Method names *)

Lemma last_dot_none s : has_char "."%char s = false -> last_dot s = None.
Proof.
  induction s as [|c s IH]; simpl; [done|]. intros [Hc Hs]%orb_false_iff.
  rewrite IH by done. rewrite decide_False; [done|]. apply bool_decide_eq_false in Hc. congruence.
Qed.

Lemma last_dot_app s m : has_char "."%char m = false -> last_dot (s +:+ "." +:+ m) = Some (String.length s).
Proof.
  intros Hm. induction s as [|c s IH]; simpl in *.
  - by rewrite last_dot_none.
  - by rewrite IH.
Qed.

Lemma substring_prefix s t : String.substring 0 (String.length s) (s +:+ t) = s.
Proof. induction s as [|c s IH]; simpl; [by destruct t|]. by rewrite IH. Qed.

Lemma substring_all s n : String.length s <= n -> String.substring 0 n s = s.
Proof.
  revert n. induction s as [|c s IH]; intros [|n] H; simpl in *; try done; [lia|].
  by rewrite IH by lia.
Qed.

Lemma substring_suffix s c t n :
  String.length t <= n -> String.substring (String.length s + 1) n (s +:+ String c t) = t.
Proof. intros H. induction s as [|c' s IH]; simpl; [by apply substring_all|done]. Qed.

(** the dispatcher splits a method name at its last dot: for a method
    name without dots, joining and splitting is the identity, service names
    with dots included; a name without a dot panics. *)
Theorem split_svcMeth_join svc m :
  has_char "."%char m = false ->
  split_svcMeth (svc +:+ "." +:+ m) = Ret (svc, m) /\ split_svcMeth m = Panic "slice bounds out of range".
Proof.
  intros Hm. unfold split_svcMeth. rewrite last_dot_app, last_dot_none by done. split; [|done].
  assert (String.length m <= String.length (svc +:+ "." +:+ m)) as Hl by (rewrite !length_append; lia).
  f_equal. f_equal; [exact (substring_prefix svc ("." +:+ m))|exact (substring_suffix svc "." m _ Hl)].
Qed.

(** ** Witnesses: a counter behind one service *)

Definition inc : Method (St := nat) := fun _ st => Ret (S st, itoa st).
Definition demo_svcs : gmap string (Service (St := nat)) := {[ "Counter" := {[ "Inc" := inc ]} ]}.

Definition demo_admin : list (event (St := nat)) :=
  [EvNewServer 7 demo_svcs 40; EvAdmin (AMakeEnd "e"); EvAdmin (AAddServer "s" 7);
   EvAdmin (AConnect "e" "s"); EvAdmin (AEnable "e" true)].
Definition demo_req : reqMsg := mkReq "e" "Counter.Inc" "".
Definition demo_call : list (event (St := nat)) :=
  [EvCall demo_req; EvAccept 0; EvRead 0; EvDispatch 0].

Definition demo_sys (es : list (event (St := nat))) : option (sys (St := nat)) :=
  run exec es (init MakeNetwork).


(** The server is deleted while the handler runs. *)
Lemma deleted_server_no_reply_witness :
  exists s s', demo_sys (demo_admin ++ demo_call ++ [EvAdmin (ADeleteServer "s")]) = Some s /\
    run exec [EvAdmin (AAddServer "s" 8); EvFinish 0 0 0] s = Some s' /\
    exists r', rpcs s' !! 0 = Some r' /\ (ph r' = Waiting "s" 7 true false \/ ph r' = Replied no_reply).
Proof.
  destruct (demo_sys (demo_admin ++ demo_call ++ [EvAdmin (ADeleteServer "s")]) ≫=
    run exec [EvAdmin (AAddServer "s" 8); EvFinish 0 0 0]) as [s'|] eqn:E; [|by vm_compute in E].
  apply bind_Some in E as (s & H & Hs'). exists s, s'. split_and!; [done|done|].
  set (r := mkRpc demo_req (Waiting "s" 7 true false) (Executed 7 (mkReplyMsg true "40"))).
  refine (deleted_server_no_reply _ s s' 0 r "s" 7 true false _ eq_refl _ _ Hs').
  - refine (demo_read (fun s => rpcs s !! 0) _ _ _ H _). by vm_compute.
  - assert (server_at (net s) "s" = None) as ->; [|done].
    refine (demo_read (fun s => server_at (net s) "s") _ _ _ H _). by vm_compute.
  - by repeat constructor.
Defined.

Definition demo_net : Network :=
  mkNet true false false {["e"]} {["e" := true]} {["s" := Some 7]} {["e" := Some "s"]} 0 0.
Definition demo_objs : gmap nat (Server (St := nat)) := {[7 := mkServer demo_svcs 0 None 40]}.

Lemma reliable_never_fails_witness :
  exists s r, run exec (demo_call ++ [EvTick 0; EvFinish 0 0 0]) (mkSys demo_net demo_objs [] false) = Some s /\
    rpcs s !! 0 = Some r /\ hd r = Executed 7 (mkReplyMsg true "40").
Proof.
  destruct (run exec (demo_call ++ [EvTick 0; EvFinish 0 0 0]) (mkSys demo_net demo_objs [] false))
    as [s|] eqn:H; [|by vm_compute in H].
  set (r := mkRpc demo_req (Replied (mkReplyMsg true "40")) (Executed 7 (mkReplyMsg true "40"))).
  assert (Hr : rpcs s !! 0 = Some r).
  { refine (demo_read (fun s => rpcs s !! 0) _ _ _ H _). by vm_compute. }
  exists s, r. split_and!; [done|done|].
  apply (reliable_never_fails demo_net demo_objs "e" "s" 7
    (demo_call ++ [EvTick 0; EvFinish 0 0 0]) s 0 r (mkReplyMsg true "40")); try done.
  by repeat constructor.
Defined.

(** An unreliable network loses the reply. *)
Lemma quiet_call_delivery_witness :
  exists s r, run exec [EvCall demo_req; EvAccept 0; EvRead 0; EvPause 0 500; EvDispatch 0; EvFinish 0 1042 0]
      (mkSys (Reliable false demo_net) demo_objs [] false) = Some s /\
    rpcs s !! 0 = Some r /\
    exists d, delivery_of r = Some d /\ (d = Delivered <-> false = true) /\ (d = ReqLost <-> hd r = NotStarted).
Proof.
  set (es := [EvCall demo_req; EvAccept 0; EvRead 0; EvPause 0 500; EvDispatch 0; EvFinish 0 1042 0]).
  destruct (run exec es (mkSys (Reliable false demo_net) demo_objs [] false)) as [s|] eqn:H;
    [|by vm_compute in H].
  set (r := mkRpc demo_req (Replied no_reply) (Executed 7 (mkReplyMsg true "40"))).
  assert (Hr : rpcs s !! 0 = Some r).
  { refine (demo_read (fun s => rpcs s !! 0) _ _ _ H _). by vm_compute. }
  exists s, r. split_and!; [done|done|].
  apply (quiet_call_delivery (Reliable false demo_net) demo_objs es s 0 r no_reply); try done.
  by repeat constructor.
Defined.

Lemma unreachable_never_executes_witness :
  exists s s', demo_sys (demo_admin ++ [EvAdmin (AEnable "e" false); EvCall demo_req; EvAccept 0]) = Some s /\
    run exec [EvRead 0; EvAdmin (AEnable "e" true); EvFire 0] s = Some s' /\
    exists r', rpcs s' !! 0 = Some r' /\ hd r' = NotStarted /\ (ph r' = Unanswered \/ ph r' = Replied no_reply).
Proof.
  destruct (demo_sys (demo_admin ++ [EvAdmin (AEnable "e" false); EvCall demo_req; EvAccept 0]) ≫=
    run exec [EvRead 0; EvAdmin (AEnable "e" true); EvFire 0]) as [s'|] eqn:E; [|by vm_compute in E].
  apply bind_Some in E as (s & H & Hs'). exists s, s'. split_and!; [done|done|].
  refine (unreachable_never_executes [EvAdmin (AEnable "e" true); EvFire 0] s s' 0
    (mkRpc demo_req Processing NotStarted) _ eq_refl eq_refl _ Hs').
  - refine (demo_read (fun s => rpcs s !! 0) _ _ _ H _). by vm_compute.
  - simpl. refine (demo_read (fun s => readEndnameInfo (net s) "e") _ _ _ H _). by vm_compute.
Defined.

Lemma split_svcMeth_join_witness :
  has_char "."%char "Get" = false /\ split_svcMeth "kv.Server.Get" = Ret ("kv.Server", "Get").
Proof. split; [done|]. exact (proj1 (split_svcMeth_join "kv.Server" "Get" eq_refl)). Defined.
End LabRpc.
