(* ===== verification/Demux.v ===== *)
(** * Demux: calls multiplexed over one connection

    [src/src/tester1/demux/] ([transport.go], [callmap.go], [dmxclnt.go],
    [dmxsrv.go]) and the socket RPC layer on top of it
    ([src/src/tester1/sockrpc/]).  Byte slices are strings of bytes.  The
    first part is the framing: a 32-bit little-endian length and the encoded
    message.  The second is the client and server around a connection, as a
    transition system over the callers, the two directions of the connection
    and the reader goroutine. *)

From S2P Require Import Prelude LabRpc.
From stdpp Require Import base gmap list strings countable.
From Stdlib Require Import ZArith Lia Ascii.
From stdpp Require Import list.

Module Demux.

(** ** Framing *)

Record msg := mkMsg { Tag : Z; Data : string; Ok : bool }.

(** [labgob] on the [msg] struct. *)
Class MsgCodec := {
  marshal : msg -> string;
  unmarshal : string -> option msg;
  unmarshal_marshal m : unmarshal (marshal m) = Some m }.

Definition byte_of (x : Z) : ascii := ascii_of_N (Z.to_N (x mod 256)).
Definition byte_val (c : ascii) : Z := Z.of_N (N_of_ascii c).

(** [binary.Write(.., binary.LittleEndian, uint32(n))] *)
Definition le32 (n : Z) : string :=
  let x := u32 n in
  String (byte_of x) (String (byte_of (x / 2 ^ 8)) (String (byte_of (x / 2 ^ 16)) (String (byte_of (x / 2 ^ 24)) ""))).

(** What a read finds: a value and the rest, the end of the stream before
    the first byte ([io.EOF]), or a short read. *)
Inductive read_res (A : Type) :=
  | RVal (a : A) (rest : string)
  | REOF
  | RShort.
Arguments RVal {A} a rest.
Arguments REOF {A}.
Arguments RShort {A}.

Definition read_le32 (s : string) : read_res Z :=
  match s with
  | EmptyString => REOF
  | String a (String b (String c (String d rest))) =>
      RVal (byte_val a + byte_val b * 2 ^ 8 + byte_val c * 2 ^ 16 + byte_val d * 2 ^ 24)%Z rest
  | _ => RShort
  end.

(** [io.ReadFull] of [n] bytes; with [n = 0] nothing is read. *)
Fixpoint take_bytes (n : nat) (s : string) : option (string * string) :=
  match n, s with
  | 0, _ => Some ("", s)
  | S n, String c s' => '(a, b) ← take_bytes n s'; Some (String c a, b)
  | S _, EmptyString => None
  end.

Section Framing.
Context `{MsgCodec}.

(** [WriteCall], the bytes flushed. *)
Definition WriteCall (m : msg) : string :=
  let b := marshal m in le32 (Z.of_nat (String.length b)) +:+ b.

(** [ReadCall]; an undecodable message is fatal. *)
Definition ReadCall (s : string) : outcome (read_res msg) :=
  match read_le32 s with
  | RVal nbyte rest =>
      match take_bytes (Z.to_nat nbyte) rest with
      | Some (b, rest') =>
          match unmarshal b with
          | Some m => Ret (RVal m rest')
          | None => Fatal "Unmarshall fatal"
          end
      | None => Ret (if (nbyte =? 0)%Z then RShort else match rest with EmptyString => REOF | _ => RShort end)
      end
  | REOF => Ret REOF
  | RShort => Ret RShort
  end.

(** A reader goroutine: the messages read until an error, which it
    returns ([true] for [io.EOF]).  The fuel is the number of bytes: each
    message takes at least four. *)
Fixpoint ReadCalls (fuel : nat) (s : string) : outcome (list msg * bool) :=
  match fuel with
  | 0 => Ret ([], true)
  | S fuel =>
      r ← ReadCall s;
      match r with
      | RVal m rest => ms ← ReadCalls fuel rest; Ret (m :: ms.1, ms.2)
      | REOF => Ret ([], true)
      | RShort => Ret ([], false)
      end
  end.

Definition stream (ms : list msg) : string := foldr (fun m acc => WriteCall m +:+ acc) "" ms.

Definition fits (m : msg) : Prop := (Z.of_nat (String.length (marshal m)) < 2 ^ 32)%Z.

Lemma byte_val_of x : byte_val (byte_of x) = (x mod 256)%Z.
Proof.
  unfold byte_val, byte_of. pose proof (Z.mod_pos_bound x 256 ltac:(lia)).
  rewrite N_ascii_embedding by lia. lia.
Qed.

Lemma read_le32_app n t : (0 <= n < 2 ^ 32)%Z -> read_le32 (le32 n +:+ t) = RVal n t.
Proof.
  intros Hn. unfold le32. simpl. rewrite !byte_val_of, wrap_small by lia. f_equal.
  change (2 ^ 8)%Z with 256%Z. change (2 ^ 16)%Z with 65536%Z. change (2 ^ 24)%Z with 16777216%Z.
  change (2 ^ 32)%Z with 4294967296%Z in Hn. Z.to_euclidean_division_equations. lia.
Qed.

Lemma take_bytes_app b t : take_bytes (String.length b) (b +:+ t) = Some (b, t).
Proof. induction b as [|c b IH]; simpl; [done|]. by rewrite IH. Qed.

Lemma ReadCall_app m t : fits m -> ReadCall (WriteCall m +:+ t) = Ret (RVal m t).
Proof.
  intros Hm. unfold ReadCall, WriteCall. rewrite append_assoc.
  rewrite read_le32_app by (unfold fits in Hm; lia).
  by rewrite Nat2Z.id, take_bytes_app, unmarshal_marshal.
Qed.

Lemma take_bytes_length n s a b : take_bytes n s = Some (a, b) -> String.length b <= String.length s.
Proof.
  revert s a b. induction n as [|n IH]; intros s a b; simpl; [by intros [= <- <-]|].
  destruct s as [|c s]; [done|]. destruct (take_bytes n s) as [[a' b']|] eqn:Ht; simpl; [|done].
  intros [= <- <-]. specialize (IH _ _ _ Ht). simpl. lia.
Qed.

Lemma ReadCall_shrinks s m rest : ReadCall s = Ret (RVal m rest) -> String.length rest < String.length s.
Proof.
  unfold ReadCall. destruct (read_le32 s) as [nbyte r1| |] eqn:Hr; [|done..].
  destruct (take_bytes (Z.to_nat nbyte) r1) as [[b r2]|] eqn:Ht; [|by repeat case_match].
  destruct (unmarshal b); [|done]. intros [= <- <-]. apply take_bytes_length in Ht.
  unfold read_le32 in Hr. repeat case_match; try done. simplify_eq. simpl. lia.
Qed.

Lemma ReadCalls_fuel f1 f2 s :
  String.length s < f1 -> String.length s < f2 -> ReadCalls f1 s = ReadCalls f2 s.
Proof.
  revert f2 s. induction f1 as [|f1 IH]; intros [|f2] s H1 H2; try lia. cbn [ReadCalls].
  destruct (ReadCall s) as [[m rest| |]| |] eqn:Hr; simpl; try done.
  apply ReadCall_shrinks in Hr. rewrite (IH f2) by lia. done.
Qed.

Lemma length_stream_cons m ms :
  String.length (stream (m :: ms)) = String.length (WriteCall m) + String.length (stream ms).
Proof. apply length_append. Qed.

(** Cutting a frame anywhere gives an error, not a message. *)
Lemma take_bytes_short n s : String.length s < n -> take_bytes n s = None.
Proof.
  revert n. induction s as [|c s IH]; intros [|n] Hl; simpl in *; try lia; [done|].
  rewrite IH by lia. done.
Qed.

Fixpoint take_str (n : nat) (s : string) : string :=
  match n, s with
  | S n, String c s' => String c (take_str n s')
  | _, _ => ""
  end.

Lemma take_str_app_ge n a b :
  String.length a <= n -> take_str n (a +:+ b) = a +:+ take_str (n - String.length a) b.
Proof.
  revert n. induction a as [|c a IH]; intros n Hn; simpl in *; [by rewrite Nat.sub_0_r|].
  destruct n as [|n]; [lia|]. simpl. rewrite IH by lia. done.
Qed.

Lemma take_str_app_le n a b : n <= String.length a -> take_str n (a +:+ b) = take_str n a.
Proof.
  revert n. induction a as [|c a IH]; intros n Hn; simpl in *.
  - assert (n = 0) as -> by lia. by destruct b.
  - destruct n as [|n]; [done|]. simpl. by rewrite IH by lia.
Qed.

Lemma length_take_str n s : n <= String.length s -> String.length (take_str n s) = n.
Proof.
  revert s. induction n as [|n IH]; intros [|c s] Hn; simpl in *; try lia. by rewrite IH by lia.
Qed.

Lemma ReadCall_cut m n :
  fits m -> n < String.length (WriteCall m) ->
  ReadCall (take_str n (WriteCall m)) = Ret REOF \/ ReadCall (take_str n (WriteCall m)) = Ret RShort.
Proof.
  intros Hm Hn. unfold WriteCall in *. unfold ReadCall.
  destruct (decide (n < 4)) as [Hlt|Hge].
  - rewrite take_str_app_le by (unfold le32; simpl; lia). unfold le32.
    destruct n as [|[|[|[|n]]]]; [..|lia]; simpl; auto.
  - rewrite length_append in Hn. change (String.length (le32 _)) with 4 in Hn.
    rewrite take_str_app_ge by (unfold le32; simpl; lia). change (String.length (le32 _)) with 4.
    rewrite read_le32_app by (unfold fits in Hm; lia). rewrite Nat2Z.id.
    rewrite take_bytes_short by (rewrite length_take_str; lia).
    case_match; [auto|]. case_match; auto.
Qed.

(** C29: the framing is lossless and safe.  A reader of any prefix of the
    stream of messages written (each encoding shorter than 2^32 bytes)
    reads exactly the messages whose frames are complete, in order, and
    then an error; of the whole stream, all of them and then [io.EOF].
    A cut connection never yields a message that was not sent. *)
Theorem frames_roundtrip ms n :
  Forall fits ms -> n <= String.length (stream ms) ->
  exists k eof, ReadCalls (S n) (take_str n (stream ms)) = Ret (take k ms, eof) /\
    String.length (stream (take k ms)) <= n /\
    (n = String.length (stream ms) -> k = length ms /\ eof = true) /\
    (k < length ms -> n < String.length (stream (take (S k) ms))).
Proof.
  intros Hf. revert n. induction ms as [|m ms IH]; intros n Hn.
  - simpl in Hn. assert (n = 0) as -> by lia. exists 0, true. simpl. split_and!; [done|lia|done|lia].
  - apply Forall_cons in Hf as [Hm Hf]. specialize (IH Hf).
    assert (4 <= String.length (WriteCall m)) as H4.
    { unfold WriteCall. rewrite length_append. simpl. lia. }
    change (stream (m :: ms)) with (WriteCall m +:+ stream ms) in *. rewrite length_append in Hn.
    destruct (decide (n < String.length (WriteCall m))) as [Hlt|Hge].
    + rewrite take_str_app_le by lia. exists 0.
      destruct (ReadCall_cut m n Hm Hlt) as [Hr|Hr]; [exists true|exists false];
        cbn [ReadCalls]; rewrite Hr;
        (split_and!; [done|apply Nat.le_0_l|rewrite length_append; intros; exfalso; lia|
          intros _; change (take 1 (m :: ms)) with [m]; rewrite length_stream_cons; lia]).
    + rewrite take_str_app_ge by lia. set (n' := n - String.length (WriteCall m)).
      destruct (IH n') as (k & eof & Hr & Hl & Hall & Hcut); [lia|].
      pose proof (length_take_str n' (stream ms) ltac:(lia)) as Hlen.
      exists (S k), eof. cbn [ReadCalls]. rewrite ReadCall_app by done. cbn [mbind outcome_bind].
      rewrite (ReadCalls_fuel n (S n')), Hr by lia.
      change (take (S k) (m :: ms)) with (m :: take k ms). rewrite length_stream_cons.
      split_and!; [done|lia| |].
      * rewrite length_append. intros Hnn. destruct Hall as [-> ->]; [lia|done].
      * intros Hk. change (take (S (S k)) (m :: ms)) with (m :: take (S k) ms).
        rewrite length_stream_cons. simpl in Hk. specialize (Hcut ltac:(lia)). lia.
Qed.
End Framing.

(** ** The client and the server around a connection *)

(** [callMap]: the caller's number stands for its reply channel. *)
Record callMap := mkCallMap { closed : bool; calls : gmap Z nat }.

Definition newCallMap : callMap := mkCallMap false ∅.
Definition close (cm : callMap) : callMap := mkCallMap true (calls cm).
Definition isClosed (cm : callMap) : bool := closed cm.
Definition put (cm : callMap) (tag : Z) (ch : nat) : option callMap :=
  if closed cm then None else Some (mkCallMap (closed cm) (<[tag := ch]> (calls cm))).
Definition remove (cm : callMap) (tag : Z) : option (nat * callMap) :=
  match calls cm !! tag with
  | Some ch => Some (ch, mkCallMap (closed cm) (delete tag (calls cm)))
  | None => None
  end.
(** In some order: a permutation of the map's keys. *)
Definition outstanding (cm : callMap) (ts : list Z) : Prop := ts ≡ₚ (map_to_list (calls cm)).*1.

(** One [SendReceive] and how far it got. *)
Inductive caller_st :=
  | Start
  | Tagged (t : Z)
  | Registered (t : Z)
  | Sent (t : Z)                               (* waiting on its channel *)
  | Returned (rep : string) (ok err : bool).

Record caller := mkCaller { payload : string; cst : caller_st }.

(** Messages under way.  [f_who], for the proofs, is the caller of the
    request. *)
Record frame := mkFrame { f_tag : Z; f_data : string; f_who : nat }.
Record rframe := mkRFrame { r_tag : Z; r_data : string; r_ok : bool; r_who : nat }.

(** [DemuxClnt.reader]: in its loop, failing the outstanding calls, done. *)
Inductive reader_pc :=
  | Reading
  | Failing (ts : list Z)
  | Exited.

Record dmx := mkDmx {
  callmap : callMap;
  nextTag : Z;
  callers : list caller;
  to_srv : list frame;
  serving : list frame;                        (* ServeRequest goroutines *)
  to_clnt : list rframe;
  reader : reader_pc;
  fatal : bool;                                (* "no matching req" *)
  issued : Z;                                  (* tags issued, for the proofs *)
  answers : list (nat * string * bool) }.      (* replies of the server, likewise *)

(** After [NewDemuxClnt], whose [InitMsg] took tag 0. *)
Definition NewDemux : dmx := mkDmx newCallMap 1 [] [] [] [] Reading false 1 [].

Inductive dmx_event :=
  | EvCall (b : string)
  | EvTag (c : nat)
  | EvPut (c : nat)
  | EvWrite (c : nat) (ok : bool)
  | EvServe
  | EvAnswer (i : nat) (rep : string) (ok : bool)
  | EvRead
  | EvReadErr (ts : list Z)
  | EvFail
  | EvClose.

Definition set_caller (d : dmx) (c : nat) (cl : caller) : dmx :=
  mkDmx (callmap d) (nextTag d) (<[c := cl]> (callers d)) (to_srv d) (serving d) (to_clnt d)
    (reader d) (fatal d) (issued d) (answers d).
Definition set_callmap (d : dmx) (cm : callMap) : dmx :=
  mkDmx cm (nextTag d) (callers d) (to_srv d) (serving d) (to_clnt d) (reader d) (fatal d) (issued d) (answers d).
Definition set_wires (d : dmx) (ts sv : list frame) (tc : list rframe) : dmx :=
  mkDmx (callmap d) (nextTag d) (callers d) ts sv tc (reader d) (fatal d) (issued d) (answers d).
Definition set_reader (d : dmx) (r : reader_pc) : dmx :=
  mkDmx (callmap d) (nextTag d) (callers d) (to_srv d) (serving d) (to_clnt d) r (fatal d) (issued d) (answers d).

(** [dmx.reply]: the send on the caller's unbuffered channel completes once
    the caller waits on it; without a caller the process dies. *)
Definition reply (d : dmx) (t : Z) (b : string) (oks err : bool) : option dmx :=
  match remove (callmap d) t with
  | Some (c, cm) =>
      cl ← callers d !! c;
      match cst cl with
      | Sent _ => Some (set_caller (set_callmap d cm) c (mkCaller (payload cl) (Returned b oks err)))
      | _ => None
      end
  | None =>
      Some (mkDmx (callmap d) (nextTag d) (callers d) (to_srv d) (serving d) (to_clnt d) (reader d) true
              (issued d) (answers d))
  end.

Definition dmx_exec (e : dmx_event) (d : dmx) : option dmx :=
  if fatal d then None else
  match e with
  | EvCall b => Some (mkDmx (callmap d) (nextTag d) (callers d ++ [mkCaller b Start]) (to_srv d) (serving d)
      (to_clnt d) (reader d) (fatal d) (issued d) (answers d))
  | EvTag c =>
      cl ← callers d !! c;
      match cst cl with
      | Start =>
          let d := set_caller d c (mkCaller (payload cl) (Tagged (nextTag d))) in
          Some (mkDmx (callmap d) (u32 (nextTag d + 1)) (callers d) (to_srv d) (serving d) (to_clnt d)
            (reader d) (fatal d) (issued d + 1) (answers d))
      | _ => None
      end
  | EvPut c =>
      cl ← callers d !! c;
      match cst cl with
      | Tagged t =>
          Some match put (callmap d) t c with
               | Some cm => set_caller (set_callmap d cm) c (mkCaller (payload cl) (Registered t))
               | None => set_caller d c (mkCaller (payload cl) (Returned "" false true))
               end
      | _ => None
      end
  | EvWrite c ok =>
      cl ← callers d !! c;
      match cst cl with
      | Registered t =>
          let d := set_caller d c (mkCaller (payload cl) (Sent t)) in
          Some (if ok then set_wires d (to_srv d ++ [mkFrame t (payload cl) c]) (serving d) (to_clnt d) else d)
      | _ => None
      end
  | EvServe =>
      match to_srv d with
      | [] => None
      | f :: rest => Some (set_wires d rest (serving d ++ [f]) (to_clnt d))
      end
  | EvAnswer i rep ok =>
      f ← serving d !! i;
      let d := set_wires d (to_srv d) (delete i (serving d)) (to_clnt d ++ [mkRFrame (f_tag f) rep ok (f_who f)]) in
      Some (mkDmx (callmap d) (nextTag d) (callers d) (to_srv d) (serving d) (to_clnt d) (reader d) (fatal d)
        (issued d) (answers d ++ [(f_who f, rep, ok)]))
  | EvRead =>
      match reader d, to_clnt d with
      | Reading, r :: rest => reply (set_wires d (to_srv d) (serving d) rest) (r_tag r) (r_data r) (r_ok r) false
      | _, _ => None
      end
  | EvReadErr ts =>
      match reader d with
      | Reading =>
          if decide (ts ≡ₚ (map_to_list (calls (callmap d))).*1)
          then Some (set_reader (set_callmap d (close (callmap d))) (Failing ts)) else None
      | _ => None
      end
  | EvFail =>
      match reader d with
      | Failing (t :: ts) => reply (set_reader d (Failing ts)) t "" false true
      | Failing [] => Some (set_reader d Exited)
      | _ => None
      end
  | EvClose => Some (if isClosed (callmap d) then d else set_callmap d (close (callmap d)))
  end.

(** ** Invariant *)

(** The tag a caller holds, and the one its channel is registered under. *)
Definition held (cl : caller) : option Z :=
  match cst cl with Tagged t | Registered t | Sent t => Some t | _ => None end.
Definition registered (cl : caller) : option Z :=
  match cst cl with Registered t | Sent t => Some t | _ => None end.

(** Who a message belongs to, and its tag. *)
Definition in_pipe (d : dmx) : list (Z * nat) :=
  ((fun f => (f_tag f, f_who f)) <$> to_srv d) ++ ((fun f => (f_tag f, f_who f)) <$> serving d) ++
  ((fun r => (r_tag r, r_who r)) <$> to_clnt d).

Record dinv (d : dmx) : Prop := {
  di_next : nextTag d = u32 (issued d) /\ (1 <= issued d)%Z;
  di_held : forall c cl t, callers d !! c = Some cl -> held cl = Some t -> (0 <= t < issued d)%Z;
  di_unique : forall c c' cl cl' t, callers d !! c = Some cl -> callers d !! c' = Some cl' ->
    held cl = Some t -> held cl' = Some t -> c = c';
  di_calls : forall t c, calls (callmap d) !! t = Some c <->
    exists cl, callers d !! c = Some cl /\ registered cl = Some t;
  di_pipe : reader d = Reading -> NoDup (in_pipe d).*2 /\
    forall t c, (t, c) ∈ in_pipe d -> exists cl, callers d !! c = Some cl /\ cst cl = Sent t;
  di_answers : forall r, r ∈ to_clnt d -> (r_who r, r_data r, r_ok r) ∈ answers d;
  di_returned : forall c cl rep ok, callers d !! c = Some cl -> cst cl = Returned rep ok false ->
    (c, rep, ok) ∈ answers d;
  di_reader : match reader d with
    | Reading => True
    | Failing ts => closed (callmap d) = true /\ NoDup ts /\ forall t, is_Some (calls (callmap d) !! t) <-> t ∈ ts
    | Exited => closed (callmap d) = true /\ calls (callmap d) = ∅
    end;
  di_fatal : fatal d = false }.

Lemma registered_held cl t : registered cl = Some t -> held cl = Some t.
Proof. unfold registered, held. by destruct (cst cl). Qed.

Lemma dinv_init : dinv NewDemux.
Proof.
  split; simpl.
  - done.
  - intros c cl t Hc. by rewrite lookup_nil in Hc.
  - intros c c' cl cl' t Hc. by rewrite lookup_nil in Hc.
  - intros t c. rewrite lookup_empty. split; [done|]. intros (cl & Hc & _). by rewrite lookup_nil in Hc.
  - intros _. split; [constructor|]. intros t c Hin. by apply elem_of_nil in Hin.
  - intros r Hr. by apply elem_of_nil in Hr.
  - intros c cl rep ok Hc. by rewrite lookup_nil in Hc.
  - done.
  - done.
Qed.

(** Replacing a caller by one that holds no new tag. *)
Lemma held_insert d c cl cl0 :
  dinv d -> callers d !! c = Some cl0 -> (forall t, held cl = Some t -> held cl0 = Some t) ->
  (forall c' cl' t, <[c := cl]> (callers d) !! c' = Some cl' -> held cl' = Some t -> (0 <= t < issued d)%Z) /\
  (forall c1 c2 cl1 cl2 t, <[c := cl]> (callers d) !! c1 = Some cl1 -> <[c := cl]> (callers d) !! c2 = Some cl2 ->
    held cl1 = Some t -> held cl2 = Some t -> c1 = c2).
Proof.
  intros Hd Hc Hh. split.
  - intros c' cl' t [(<- & <- & _)|(_ & Hl)]%list_lookup_insert_Some Ht; [|by eapply di_held].
    eapply (di_held d); [done|exact Hc|by apply Hh].
  - intros c1 c2 cl1 cl2 t [(<- & <- & _)|(Hn1 & H1)]%list_lookup_insert_Some
      [(<- & <- & _)|(Hn2 & H2)]%list_lookup_insert_Some Ht1 Ht2; try done.
    + by eapply (di_unique d Hd); [exact Hc|exact H2|apply Hh|].
    + by eapply (di_unique d Hd); [exact H1|exact Hc| |apply Hh].
    + by eapply (di_unique d Hd); [exact H1|exact H2|..].
Qed.

Lemma dinv_call d b : dinv d -> dinv (mkDmx (callmap d) (nextTag d) (callers d ++ [mkCaller b Start])
  (to_srv d) (serving d) (to_clnt d) (reader d) (fatal d) (issued d) (answers d)).
Proof.
  intros Hd.
  assert (forall c cl, (callers d ++ [mkCaller b Start]) !! c = Some cl ->
    callers d !! c = Some cl \/ cst cl = Start) as Hl.
  { intros c cl [H|[_ H]]%lookup_app_Some; [by left|right]. apply list_lookup_singleton_Some in H as [_ <-]. done. }
  assert (forall c cl, callers d !! c = Some cl -> (callers d ++ [mkCaller b Start]) !! c = Some cl) as Hm.
  { intros c cl H. by rewrite lookup_app_l by (by eapply lookup_lt_Some). }
  split; simpl; try apply Hd.
  - intros c cl t [H|H]%Hl Ht; [by eapply di_held|]. unfold held in Ht. by rewrite H in Ht.
  - intros c c' cl cl' t [H|H]%Hl [H'|H']%Hl Ht Ht'; [by eapply di_unique|..];
      unfold held in *; rewrite ?H, ?H' in *; done.
  - intros t c. rewrite (di_calls d Hd). split; intros (cl & H & Ht); exists cl.
    + split; [by apply Hm|done].
    + apply Hl in H as [H|H]; [done|]. unfold registered in Ht. by rewrite H in Ht.
  - intros Hr. destruct (di_pipe d Hd Hr) as [H1 H2]. split; [done|].
    intros t c (cl & H & Hs)%H2. exists cl. split; [by apply Hm|done].
  - intros c cl rep ok [H|H]%Hl Hc; [by eapply di_returned|congruence].
Qed.

Lemma dinv_tag d c cl :
  dinv d -> callers d !! c = Some cl -> cst cl = Start -> (issued d < 2 ^ 32)%Z ->
  dinv (mkDmx (callmap d) (u32 (nextTag d + 1)) (<[c := mkCaller (payload cl) (Tagged (nextTag d))]> (callers d))
    (to_srv d) (serving d) (to_clnt d) (reader d) (fatal d) (issued d + 1) (answers d)).
Proof.
  intros Hd Hc Hs Hi. destruct (di_next d Hd) as [Hn H1].
  rewrite wrap_small in Hn by lia.
  split; simpl; try apply Hd.
  - split; [|lia]. by rewrite Hn.
  - intros c' cl' t [(<- & <- & _)|(_ & Hl)]%list_lookup_insert_Some Ht.
    + injection Ht as <-. lia.
    + pose proof (di_held d Hd _ _ _ Hl Ht). lia.
  - assert (forall c' cl', callers d !! c' = Some cl' -> held cl' = Some (nextTag d) -> False) as Hfresh.
    { intros c' cl' Hl Ht. pose proof (di_held d Hd _ _ _ Hl Ht). lia. }
    intros c1 c2 cl1 cl2 t [(<- & <- & _)|(Hn1 & L1)]%list_lookup_insert_Some
      [(<- & <- & _)|(Hn2 & L2)]%list_lookup_insert_Some Ht1 Ht2; try done.
    + injection Ht1 as <-. by destruct (Hfresh _ _ L2).
    + injection Ht2 as <-. by destruct (Hfresh _ _ L1).
    + by eapply (di_unique d Hd).
  - intros t c'. rewrite (di_calls d Hd). split; intros (cl' & L & Ht).
    + exists cl'. split; [|done]. destruct (decide (c = c')) as [<-|]; [|by rewrite list_lookup_insert_ne].
      rewrite Hc in L. injection L as <-. unfold registered in Ht. by rewrite Hs in Ht.
    + apply list_lookup_insert_Some in L as [(<- & <- & _)|(_ & L)]; [done|]. by exists cl'.
  - intros Hr. destruct (di_pipe d Hd Hr) as [P1 P2]. split; [done|].
    intros t c' Hin. destruct (P2 t c' Hin) as (cl' & L & Hcs). exists cl'. split; [|done].
    rewrite list_lookup_insert_ne; [done|]. intros <-. congruence.
  - intros c' cl' rep ok [(<- & <- & _)|(_ & L)]%list_lookup_insert_Some Hcs; [done|]. by eapply di_returned.
Qed.

(** A caller that holds a tag is not in the pipe unless it is [Sent]. *)
Lemma pipe_lookup_ne d c cl cl0 t c' :
  dinv d -> reader d = Reading -> callers d !! c = Some cl0 -> (forall t, cst cl0 <> Sent t) ->
  (t, c') ∈ in_pipe d -> exists cl', <[c := cl]> (callers d) !! c' = Some cl' /\ cst cl' = Sent t.
Proof.
  intros Hd Hr Hc Hns Hin. destruct (di_pipe d Hd Hr) as [_ P2].
  destruct (P2 t c' Hin) as (cl' & L & Hs). exists cl'. split; [|done].
  rewrite list_lookup_insert_ne; [done|]. intros <-. rewrite Hc in L. injection L as ->. by apply (Hns t).
Qed.

Lemma dinv_put d c cl t :
  dinv d -> callers d !! c = Some cl -> cst cl = Tagged t -> closed (callmap d) = false ->
  dinv (set_caller (set_callmap d (mkCallMap (closed (callmap d)) (<[t := c]> (calls (callmap d)))))
    c (mkCaller (payload cl) (Registered t))).
Proof.
  intros Hd Hc Hs Hcl.
  assert (held cl = Some t) as Hh by (unfold held; by rewrite Hs).
  destruct (held_insert d c (mkCaller (payload cl) (Registered t)) cl Hd Hc) as [G1 G2]; [by intros ? [= <-]|].
  assert (reader d = Reading) as Hrd.
  { pose proof (di_reader d Hd) as Hr. destruct (reader d); [done|destruct Hr; congruence..]. }
  split; simpl; try apply Hd; try done.
  - intros t' c'. destruct (decide (t = t')) as [<-|Hne].
    + rewrite lookup_insert_eq. split.
      * intros [= <-]. eexists. split; [apply list_lookup_insert_eq; by eapply lookup_lt_Some|done].
      * intros (cl' & [(<- & _)|(_ & L)]%list_lookup_insert_Some & Ht); [done|].
        f_equal. by eapply (di_unique d Hd c c' cl cl'); [..|by apply registered_held].
    + rewrite lookup_insert_ne by done. rewrite (di_calls d Hd). split; intros (cl' & L & Ht).
      * exists cl'. split; [|done]. rewrite list_lookup_insert_ne; [done|]. intros <-.
        rewrite Hc in L. injection L as <-. unfold registered in Ht. by rewrite Hs in Ht.
      * apply list_lookup_insert_Some in L as [(_ & <- & _)|(_ & L)]; [by injection Ht|]. by exists cl'.
  - intros Hr. destruct (di_pipe d Hd Hr) as [P1 P2]. split; [done|].
    intros t' c' Hin. eapply (pipe_lookup_ne d); [done|done|exact Hc| |exact Hin]. intros ?. congruence.
  - intros c' cl' rep ok [(<- & <- & _)|(_ & L)]%list_lookup_insert_Some Hcs; [done|]. by eapply di_returned.
  - by rewrite Hrd.
Qed.

Lemma dinv_put_closed d c cl t :
  dinv d -> callers d !! c = Some cl -> cst cl = Tagged t ->
  dinv (set_caller d c (mkCaller (payload cl) (Returned "" false true))).
Proof.
  intros Hd Hc Hs.
  destruct (held_insert d c (mkCaller (payload cl) (Returned "" false true)) cl Hd Hc) as [G1 G2]; [done|].
  split; simpl; try apply Hd; try done.
  - intros t' c'. rewrite (di_calls d Hd). split; intros (cl' & L & Ht).
    + exists cl'. split; [|done]. rewrite list_lookup_insert_ne; [done|]. intros <-.
      rewrite Hc in L. injection L as <-. unfold registered in Ht. by rewrite Hs in Ht.
    + apply list_lookup_insert_Some in L as [(_ & <- & _)|(_ & L)]; [done|]. by exists cl'.
  - intros Hr. destruct (di_pipe d Hd Hr) as [P1 P2]. split; [done|].
    intros t' c' Hin. eapply (pipe_lookup_ne d); [done|done|exact Hc| |exact Hin]. intros ?. congruence.
  - intros c' cl' rep ok [(<- & <- & _)|(_ & L)]%list_lookup_insert_Some Hcs; [done|]. by eapply di_returned.
Qed.

Lemma dinv_sent d c cl t :
  dinv d -> callers d !! c = Some cl -> cst cl = Registered t ->
  dinv (set_caller d c (mkCaller (payload cl) (Sent t))).
Proof.
  intros Hd Hc Hs.
  destruct (held_insert d c (mkCaller (payload cl) (Sent t)) cl Hd Hc) as [G1 G2].
  { intros t' [= <-]. unfold held. by rewrite Hs. }
  split; simpl; try apply Hd; try done.
  - intros t' c'. rewrite (di_calls d Hd). split; intros (cl' & L & Ht).
    + destruct (decide (c = c')) as [<-|]; [|exists cl'; by rewrite list_lookup_insert_ne].
      eexists. split; [apply list_lookup_insert_eq; by eapply lookup_lt_Some|].
      rewrite Hc in L. injection L as <-. unfold registered in *. by rewrite Hs in Ht.
    + apply list_lookup_insert_Some in L as [(<- & <- & _)|(_ & L)]; [|by exists cl'].
      exists cl. split; [done|]. unfold registered. by rewrite Hs.
  - intros Hr. destruct (di_pipe d Hd Hr) as [P1 P2]. split; [done|].
    intros t' c' Hin. eapply (pipe_lookup_ne d); [done|done|exact Hc| |exact Hin]. intros ?. congruence.
  - intros c' cl' rep ok [(<- & <- & _)|(_ & L)]%list_lookup_insert_Some Hcs; [done|]. by eapply di_returned.
Qed.

(** Moving messages along. *)
Lemma dinv_wires d ts sv tc ans :
  dinv d -> (forall a, a ∈ answers d -> a ∈ ans) ->
  (forall r, r ∈ tc -> (r_who r, r_data r, r_ok r) ∈ ans) ->
  (reader d = Reading -> NoDup (in_pipe (set_wires d ts sv tc)).*2 /\
    forall t c, (t, c) ∈ in_pipe (set_wires d ts sv tc) ->
      exists cl, callers d !! c = Some cl /\ cst cl = Sent t) ->
  dinv (mkDmx (callmap d) (nextTag d) (callers d) ts sv tc (reader d) (fatal d) (issued d) ans).
Proof.
  intros Hd Ha Htc Hp. split; simpl; try apply Hd; try done.
  intros c cl rep ok L Hcs. apply Ha. by eapply di_returned.
Qed.

Lemma dinv_wires_perm d ts sv tc ans :
  dinv d -> (forall a, a ∈ answers d -> a ∈ ans) ->
  (forall r, r ∈ tc -> (r_who r, r_data r, r_ok r) ∈ ans) ->
  in_pipe (set_wires d ts sv tc) ≡ₚ in_pipe d ->
  dinv (mkDmx (callmap d) (nextTag d) (callers d) ts sv tc (reader d) (fatal d) (issued d) ans).
Proof.
  intros Hd Ha Htc Hp. apply dinv_wires; [done..|]. intros Hr. destruct (di_pipe d Hd Hr) as [P1 P2].
  split; [by rewrite Hp|]. intros t c Hin. apply P2. by rewrite <-Hp.
Qed.

(** A waiting caller gets its answer, and the reader moves to [rd]. *)
Lemma dinv_answered d c cl t rep ok err rd :
  dinv d -> callers d !! c = Some cl -> cst cl = Sent t ->
  (rd = Reading -> reader d = Reading /\ forall t', (t', c) ∉ in_pipe d) ->
  (err = false -> (c, rep, ok) ∈ answers d) ->
  match rd with
  | Reading => True
  | Failing ts => closed (callmap d) = true /\ NoDup ts /\
      forall t', is_Some (delete t (calls (callmap d)) !! t') <-> t' ∈ ts
  | Exited => False
  end ->
  dinv (set_reader (set_caller (set_callmap d (mkCallMap (closed (callmap d)) (delete t (calls (callmap d)))))
    c (mkCaller (payload cl) (Returned rep ok err))) rd).
Proof.
  intros Hd Hc Hs Hpipe Hans Hrd.
  destruct (held_insert d c (mkCaller (payload cl) (Returned rep ok err)) cl Hd Hc) as [G1 G2]; [done|].
  split; simpl; try apply Hd; try done.
  - intros t' c'. rewrite lookup_delete_Some, (di_calls d Hd). split.
    + intros (Hne & cl' & L & Ht). exists cl'. split; [|done]. rewrite list_lookup_insert_ne; [done|].
      intros <-. rewrite Hc in L. injection L as <-. unfold registered in Ht. rewrite Hs in Ht. by injection Ht.
    + intros (cl' & [(_ & <- & _)|(Hne & L)]%list_lookup_insert_Some & Ht); [done|]. split; [|by exists cl'].
      intros <-. apply Hne. eapply (di_unique d Hd c c' cl cl' t); [done|done| |by apply registered_held].
      unfold held. by rewrite Hs.
  - intros Hr. destruct (Hpipe Hr) as [Hr' Hnot]. destruct (di_pipe d Hd Hr') as [P1 P2]. split; [done|].
    intros t' c' Hin. destruct (P2 t' c' Hin) as (cl' & L & Hcs). exists cl'. split; [|done].
    rewrite list_lookup_insert_ne; [done|]. intros <-. by apply (Hnot t').
  - intros c' cl' rep' ok' [(<- & <- & _)|(_ & L)]%list_lookup_insert_Some Hcs; [|by eapply di_returned].
    simpl in Hcs. injection Hcs as -> -> ->. by apply Hans.
  - by destruct rd.
Qed.

(** What a [reply] that finds its caller does. *)
Lemma reply_Some d t b ok err d' c cl :
  reply d t b ok err = Some d' -> calls (callmap d) !! t = Some c -> callers d !! c = Some cl ->
  registered cl = Some t ->
  cst cl = Sent t /\
  d' = set_caller (set_callmap d (mkCallMap (closed (callmap d)) (delete t (calls (callmap d)))))
    c (mkCaller (payload cl) (Returned b ok err)).
Proof.
  intros Hrep Ht Hc Hreg. unfold reply, remove in Hrep. rewrite Ht in Hrep. simpl in Hrep.
  rewrite Hc in Hrep. simpl in Hrep. unfold registered in Hreg. destruct (cst cl) eqn:Hs; try done.
  injection Hreg as ->. injection Hrep as <-. done.
Qed.

Lemma dinv_reader d r :
  dinv d ->
  (r = Reading -> reader d = Reading) ->
  match r with
  | Reading => True
  | Failing ts => closed (callmap d) = true /\ NoDup ts /\ forall t, is_Some (calls (callmap d) !! t) <-> t ∈ ts
  | Exited => closed (callmap d) = true /\ calls (callmap d) = ∅
  end ->
  dinv (set_reader d r).
Proof. intros Hd Hr Hm. split; simpl; try apply Hd; try done. intros H. by apply (di_pipe d Hd), Hr. Qed.

Lemma dinv_close d : dinv d -> dinv (set_callmap d (close (callmap d))).
Proof.
  intros Hd. split; simpl; try apply Hd. pose proof (di_reader d Hd) as Hr.
  destruct (reader d); [done|destruct Hr as (_ & ?); by split..].
Qed.

Lemma in_pipe_read d r rest :
  to_clnt d = r :: rest ->
  in_pipe d ≡ₚ (r_tag r, r_who r) :: in_pipe (set_wires d (to_srv d) (serving d) rest).
Proof. intros H. unfold in_pipe. rewrite H. simpl. by rewrite <-!Permutation_middle. Qed.

Lemma dinv_read d r rest d' :
  dinv d -> reader d = Reading -> to_clnt d = r :: rest ->
  reply (set_wires d (to_srv d) (serving d) rest) (r_tag r) (r_data r) (r_ok r) false = Some d' -> dinv d'.
Proof.
  intros Hd Hrd Htc Hrep. pose proof (in_pipe_read d r rest Htc) as Hperm.
  destruct (di_pipe d Hd Hrd) as [P1 P2].
  destruct (P2 (r_tag r) (r_who r)) as (cl & Hc & Hs); [rewrite Hperm; apply list_elem_of_here|].
  set (d1 := set_wires d (to_srv d) (serving d) rest) in *.
  assert (dinv d1) as Hd1.
  { apply dinv_wires; [done|done| |].
    - intros r' Hr'. apply (di_answers d Hd). rewrite Htc. by apply list_elem_of_further.
    - intros _. rewrite Hperm in P1. apply NoDup_cons in P1 as [_ P1]. split; [done|].
      intros t c Hin. apply P2. rewrite Hperm. by apply list_elem_of_further. }
  assert (registered cl = Some (r_tag r)) as Hreg by (unfold registered; by rewrite Hs).
  destruct (reply_Some _ _ _ _ _ _ (r_who r) cl Hrep) as [_ ->];
    [by apply (di_calls d1 Hd1); exists cl|done|done|].
  assert (reader d1 = Reading) as Hrd1 by done.
  pose proof (dinv_answered d1 (r_who r) cl (r_tag r) (r_data r) (r_ok r) false Reading Hd1 Hc Hs) as Hans.
  unfold set_reader in Hans. simpl in Hans. rewrite <-Hrd in Hans. apply Hans.
  - intros _. split; [done|]. intros t' Hin. rewrite Hperm in P1. cbn [fmap list_fmap] in P1.
    apply NoDup_cons in P1 as [P1 _]. apply P1. apply list_elem_of_fmap. exists (t', r_who r). by split.
  - intros _. apply (di_answers d Hd). rewrite Htc. apply list_elem_of_here.
  - done.
Qed.

Lemma dinv_fail d t ts d' :
  dinv d -> reader d = Failing (t :: ts) -> reply (set_reader d (Failing ts)) t "" false true = Some d' -> dinv d'.
Proof.
  intros Hd Hrd Hrep. pose proof (di_reader d Hd) as Hr. rewrite Hrd in Hr. destruct Hr as (Hcl & Hnd & Hts).
  destruct (proj2 (Hts t)) as [c Hc]; [apply list_elem_of_here|].
  pose proof (proj1 (di_calls d Hd t c) Hc) as (cl & Hl & Hreg).
  destruct (reply_Some _ _ _ _ _ _ c cl Hrep) as [Hs ->]; [done..|].
  apply NoDup_cons in Hnd as [Hnot Hnd].
  apply (dinv_answered d c cl t "" false true (Failing ts)); try done. split_and!; [done|done|].
  intros t'. rewrite lookup_delete_is_Some, Hts, elem_of_cons.
  split; [by intros (? & [|])|]. intros Hin. split; [by intros ->|by right].
Qed.

Lemma dinv_write d c cl t ok :
  dinv d -> callers d !! c = Some cl -> cst cl = Registered t ->
  let d1 := set_caller d c (mkCaller (payload cl) (Sent t)) in
  dinv (if ok : bool then set_wires d1 (to_srv d1 ++ [mkFrame t (payload cl) c]) (serving d1) (to_clnt d1) else d1).
Proof.
  intros Hd Hc Hs d1. pose proof (dinv_sent d c cl t Hd Hc Hs) as Hd1. destruct ok; [|done].
  apply (dinv_wires d1); [done|done|apply (di_answers _ Hd1)|].
  intros Hr. destruct (di_pipe _ Hd1 Hr) as [P1 P2].
  assert (in_pipe (set_wires d1 (to_srv d1 ++ [mkFrame t (payload cl) c]) (serving d1) (to_clnt d1)) ≡ₚ (t, c) :: in_pipe d) as Hperm.
  { unfold in_pipe. simpl. rewrite fmap_app. simpl. rewrite <-app_assoc. simpl. by rewrite <-Permutation_middle. }
  change (in_pipe d1) with (in_pipe d) in *. rewrite Hperm. split.
  - cbn [fmap list_fmap]. apply NoDup_cons. split; [|done].
    intros ([t' c'] & Hcc & Hin)%list_elem_of_fmap. simpl in Hcc. subst c'.
    destruct (di_pipe d Hd Hr) as [_ P2']. destruct (P2' _ _ Hin) as (cl' & L & Hs').
    rewrite Hc in L. injection L as <-. congruence.
  - intros t' c' Hin. rewrite Hperm in Hin. apply elem_of_cons in Hin as [[= -> ->]|Hin]; [|by apply P2].
    exists (mkCaller (payload cl) (Sent t)). split; [|done]. simpl. apply list_lookup_insert_eq.
    by eapply lookup_lt_Some.
Qed.

Lemma dinv_read_err d ts :
  dinv d -> ts ≡ₚ (map_to_list (calls (callmap d))).*1 -> dinv (set_reader (set_callmap d (close (callmap d))) (Failing ts)).
Proof.
  intros Hd Hp. apply (dinv_reader _ (Failing ts) (dinv_close d Hd)); [done|]. simpl. split_and!.
  - done.
  - rewrite Hp. apply NoDup_fst_map_to_list.
  - intros t. rewrite Hp. rewrite list_elem_of_fmap. split.
    + intros [c Hc]. exists (t, c). split; [done|]. by apply elem_of_map_to_list.
    + intros ([t' c] & -> & Hc%elem_of_map_to_list). simpl. eauto.
Qed.

(** A reply issues no tag. *)
Lemma reply_issued d t b ok err d' : reply d t b ok err = Some d' -> issued d' = issued d.
Proof.
  unfold reply. destruct (remove _ _) as [[c cm]|]; simpl; [|by intros [= <-]].
  destruct (callers d !! c) as [cl|]; simpl; [|done]. destruct (cst cl); try done. by intros [= <-].
Qed.

Lemma dinv_exec e d d' :
  dinv d -> (issued d < 2 ^ 32)%Z -> dmx_exec e d = Some d' -> dinv d' /\ (issued d' <= issued d + 1)%Z.
Proof.
  intros Hd Hi. unfold dmx_exec. rewrite (di_fatal d Hd) at 1. destruct e; simpl.
  - intros [= <-]. split; [by apply dinv_call|simpl; lia].
  - destruct (callers d !! c) as [cl|] eqn:Hc; simpl; [|done]. destruct (cst cl) eqn:Hs; try done.
    intros [= <-]. split; [by apply dinv_tag|simpl; lia].
  - destruct (callers d !! c) as [cl|] eqn:Hc; simpl; [|done]. destruct (cst cl) eqn:Hs; try done.
    unfold put. destruct (closed (callmap d)) eqn:Hcl; intros [= <-]; (split; [|simpl; lia]).
    + by eapply dinv_put_closed.
    + pose proof (dinv_put d c cl t Hd Hc Hs Hcl) as H. by rewrite Hcl in H.
  - destruct (callers d !! c) as [cl|] eqn:Hc; simpl; [|done]. destruct (cst cl) eqn:Hs; try done.
    intros [= <-]. split; [by apply dinv_write|by destruct ok; simpl; lia].
  - destruct (to_srv d) as [|f rest] eqn:Hts; [done|]. intros [= <-]. split; [|simpl; lia].
    apply (dinv_wires_perm d rest (serving d ++ [f]) (to_clnt d) (answers d)); [done|done|apply (di_answers d Hd)|].
    unfold in_pipe. simpl. rewrite Hts, fmap_app. simpl. rewrite <-app_assoc. simpl.
    by rewrite <-!Permutation_middle.
  - destruct (serving d !! i) as [f|] eqn:Hf; simpl; [|done]. intros [= <-]. split; [|simpl; lia].
    apply (dinv_wires_perm d (to_srv d) (delete i (serving d))); [done|set_solver| |].
    + intros r [Hr| ->%list_elem_of_singleton]%elem_of_app; [|set_solver].
      apply elem_of_app. left. by apply (di_answers d Hd).
    + unfold in_pipe. simpl. rewrite (delete_Permutation (serving d) i f Hf) at 2. rewrite fmap_app. simpl.
      apply Permutation_app_head. rewrite app_assoc, <-Permutation_cons_append. done.
  - destruct (reader d) eqn:Hr; try done. destruct (to_clnt d) as [|r rest] eqn:Htc; [done|].
    intros Hrep. split; [by eapply dinv_read|]. apply reply_issued in Hrep. rewrite Hrep. simpl. lia.
  - destruct (reader d) eqn:Hr; try done. case_decide as Hp; [|done]. intros [= <-]. split; [by apply dinv_read_err|simpl; lia].
  - destruct (reader d) as [|[|t ts]|] eqn:Hr; try done.
    + intros [= <-]. split; [|simpl; lia]. apply (dinv_reader d Exited Hd); [done|].
      pose proof (di_reader d Hd) as H8. rewrite Hr in H8. destruct H8 as (Hcl & _ & Hts). split; [done|].
      apply map_empty. intros t. apply eq_None_not_Some. rewrite Hts. apply not_elem_of_nil.
    + intros Hrep. split; [by eapply dinv_fail|]. apply reply_issued in Hrep. rewrite Hrep. simpl. lia.
  - intros [= <-]. case_match; (split; [|simpl; lia]); [done|by apply dinv_close].
Qed.

Lemma dinv_run es d :
  (Z.of_nat (length es) < 2 ^ 32)%Z -> run dmx_exec es NewDemux = Some d ->
  dinv d /\ (issued d <= 1 + Z.of_nat (length es))%Z.
Proof.
  revert d. induction es as [|e es IH] using rev_ind; intros d Hn Hrun.
  - injection Hrun as <-. split; [apply dinv_init|done].
  - rewrite length_app in Hn. simpl in Hn. apply run_snoc in Hrun as (d1 & H1 & H2).
    destruct (IH d1) as [Hd1 Hi1]; [lia|done|].
    destruct (dinv_exec e d1 d Hd1) as [Hd Hi]; [lia|done|]. split; [done|].
    rewrite length_app. simpl. lia.
Qed.

(** C16: replies go to the calls they answer.  However the server's request
    goroutines reorder their answers, and however calls of many goroutines
    interleave, a [SendReceive] that returns without an error returns what
    the server answered to that very request, and the reader never meets a
    reply without a request, as long as fewer than 2^32 tags are used. *)
Theorem demux_reply_matches es d c cl rep ok :
  (Z.of_nat (length es) < 2 ^ 32)%Z -> run dmx_exec es NewDemux = Some d ->
  callers d !! c = Some cl -> cst cl = Returned rep ok false ->
  (c, rep, ok) ∈ answers d /\ fatal d = false.
Proof.
  intros Hn Hrun Hc Hs. destruct (dinv_run es d Hn Hrun) as [Hd _].
  split; [by eapply di_returned|by apply di_fatal].
Qed.

(** no call is left waiting: once the reader has met an error and
    failed the calls it found, no [SendReceive] waits on its channel, and
    none will: later calls fail at once. *)
Theorem demux_no_stuck_call es d c cl :
  (Z.of_nat (length es) < 2 ^ 32)%Z -> run dmx_exec es NewDemux = Some d ->
  reader d = Exited -> callers d !! c = Some cl ->
  registered cl = None /\ (forall t, cst cl = Tagged t ->
    dmx_exec (EvPut c) d = Some (set_caller d c (mkCaller (payload cl) (Returned "" false true)))).
Proof.
  intros Hn Hrun Hr Hc. destruct (dinv_run es d Hn Hrun) as [Hd _].
  pose proof (di_reader d Hd) as H8. rewrite Hr in H8. destruct H8 as [Hcl Hcalls]. split.
  - destruct (registered cl) as [t|] eqn:Hreg; [|done]. exfalso.
    assert (calls (callmap d) !! t = Some c) as Hl by (apply (di_calls d Hd); by exists cl).
    by rewrite Hcalls, lookup_empty in Hl.
  - intros t Hs. unfold dmx_exec. rewrite (di_fatal d Hd) at 1. rewrite Hc. simpl. rewrite Hs.
    unfold put. by rewrite Hcl.
Qed.

(** ** Socket RPC *)

Definition SockName (endName : string) : string := "/tmp/6.5840-" +:+ endName.

Definition MAXRETRY : nat := 100.

(** [dial]: [connect i] is the result of the i-th [net.Dial]. *)
Fixpoint dial_loop {A} (fuel i : nat) (connect : nat -> option A) : option A :=
  match fuel with
  | 0 => None
  | S fuel => match connect i with Some c => Some c | None => dial_loop fuel (S i) connect end
  end.
Definition dial {A} (connect : nat -> option A) : option A := dial_loop MAXRETRY 0 connect.

Record RPCArgs := mkRPCArgs { ra_Method : string; ra_Args : string }.

(** [labgob] on [RPCArgs]. *)
Class ArgsCodec := {
  marshal_args : RPCArgs -> string;
  unmarshal_args : string -> option RPCArgs;
  unmarshal_marshal_args a : unmarshal_args (marshal_args a) = Some a }.

Section SockRPC.
Context `{ArgsCodec} {St : Type}.

(** [RPCClnt.RPC]: the request it sends and what it makes of the result
    of [SendReceive]. *)
Definition RPC_request (method args : string) : string := marshal_args (mkRPCArgs method args).
Definition RPC_result (rep : string) (ok err : bool) : string * bool :=
  if err then ("", false) else (rep, ok).

(** [RPCSrv.ServeRequest] *)
Definition ServeRequest (rs : LabRpc.Server (St := St)) (clntEnd b : string)
    : outcome (LabRpc.Server (St := St) * (string * bool)) :=
  match unmarshal_args b with
  | None => Fatal "Unmarshall fatal"
  | Some req =>
      r ← LabRpc.Server_dispatch rs (LabRpc.mkReq clntEnd (ra_Method req) (ra_Args req));
      Ret (r.1, (LabRpc.rep_reply r.2, LabRpc.rep_ok r.2))
  end.

(** A request sent over a socket is dispatched as over the simulated
    network: same method, same arguments, the client's end name. *)
Lemma ServeRequest_dispatch rs clntEnd method args :
  ServeRequest rs clntEnd (RPC_request method args) =
  (r ← LabRpc.Server_dispatch rs (LabRpc.mkReq clntEnd method args);
   Ret (r.1, (LabRpc.rep_reply r.2, LabRpc.rep_ok r.2))).
Proof. unfold ServeRequest, RPC_request. by rewrite unmarshal_marshal_args. Qed.
End SockRPC.

(** [dial] retries exactly [MAXRETRY] times. *)
Lemma dial_loop_spec {A} fuel i (connect : nat -> option A) c :
  dial_loop fuel i connect = Some c <->
  exists k, k < fuel /\ connect (i + k) = Some c /\ forall j, j < k -> connect (i + j) = None.
Proof.
  revert i. induction fuel as [|fuel IH]; intros i; simpl.
  - split; [done|]. intros (k & ? & _). lia.
  - destruct (connect i) as [c0|] eqn:Hc.
    + split.
      * intros [= ->]. exists 0. rewrite Nat.add_0_r. split_and!; [lia|done|lia].
      * intros ([|k] & Hk & Hck & Hj); [by rewrite Nat.add_0_r, Hc in Hck|].
        specialize (Hj 0 ltac:(lia)). rewrite Nat.add_0_r in Hj. congruence.
    + rewrite IH. split.
      * intros (k & Hk & Hck & Hj). exists (S k). rewrite Nat.add_succ_r. split_and!; [lia|done|].
        intros [|j] Hlt; [by rewrite Nat.add_0_r|]. rewrite Nat.add_succ_r. apply Hj. lia.
      * intros ([|k] & Hk & Hck & Hj); [rewrite Nat.add_0_r in Hck; congruence|].
        exists k. rewrite Nat.add_succ_r in Hck. split_and!; [lia|done|].
        intros j Hlt. specialize (Hj (S j) ltac:(lia)). by rewrite Nat.add_succ_r in Hj.
Qed.

(** ** Witnesses *)

#[export] Instance msg_eq_dec : EqDecision msg.
Proof. solve_decision. Defined.

Program Definition bit_codec : MsgCodec := {|
  marshal m := pos_bits (encode (Tag m, Data m, Ok m));
  unmarshal s := (fun x : Z * string * bool => mkMsg x.1.1 x.1.2 x.2) <$> (bits_pos s ≫= decode) |}.
Next Obligation. intros [t d o]. simpl. rewrite bits_pos_bits. simpl. by rewrite decode_encode. Qed.

Program Definition str_args_codec : ArgsCodec := {|
  marshal_args a := enc_str (ra_Method a, ra_Args a);
  unmarshal_args s := (fun x => mkRPCArgs x.1 x.2) <$> dec_str s |}.
Next Obligation. intros [m a]. simpl. by rewrite dec_enc_str. Qed.

Definition demo_msgs : list msg := [mkMsg 1 "ab" true; mkMsg 2 "" false].

(** A cut inside the second frame. *)
Lemma frames_roundtrip_witness :
  exists k eof, ReadCalls (H := bit_codec) 51 (take_str 50 (stream (H := bit_codec) demo_msgs)) =
      Ret (take k demo_msgs, eof) /\
    String.length (stream (H := bit_codec) (take k demo_msgs)) <= 50 /\
    (50 = String.length (stream (H := bit_codec) demo_msgs) -> k = length demo_msgs /\ eof = true) /\
    (k < length demo_msgs -> 50 < String.length (stream (H := bit_codec) (take (S k) demo_msgs))).
Proof.
  apply (frames_roundtrip (H := bit_codec) demo_msgs 50).
  - repeat constructor; by vm_compute.
  - apply Nat.leb_le. by vm_compute.
Defined.

(** Two calls; the server answers the second first. *)
Definition demo_calls : list dmx_event :=
  [EvCall "a"; EvCall "b"; EvTag 1; EvTag 0; EvPut 0; EvPut 1; EvWrite 0 true; EvWrite 1 true;
   EvServe; EvServe; EvAnswer 1 "B" true; EvAnswer 0 "A" true; EvRead; EvRead].

Lemma demux_reply_matches_witness :
  exists d cl, run dmx_exec demo_calls NewDemux = Some d /\ callers d !! 0 = Some cl /\
    cst cl = Returned "A" true false /\ (0, "A", true) ∈ answers d /\ fatal d = false.
Proof.
  destruct (run dmx_exec demo_calls NewDemux) as [d|] eqn:H; [|by vm_compute in H].
  set (cl := mkCaller "a" (Returned "A" true false)).
  assert (Hc : callers d !! 0 = Some cl).
  { refine (demo_read (fun d => callers d !! 0) _ _ _ H _). by vm_compute. }
  exists d, cl. split_and!; [done|done|done|..];
    apply (demux_reply_matches demo_calls d 0 cl "A" true); done.
Defined.

(** The connection breaks while one call waits and another is about to
    register. *)
Definition demo_break : list dmx_event :=
  [EvCall "a"; EvCall "b"; EvTag 0; EvPut 0; EvTag 1; EvWrite 0 true; EvReadErr [1%Z]; EvFail; EvFail].

Lemma demux_no_stuck_call_witness :
  exists d cl0, run dmx_exec demo_break NewDemux = Some d /\ callers d !! 0 = Some cl0 /\
    registered cl0 = None.
Proof.
  destruct (run dmx_exec demo_break NewDemux) as [d|] eqn:H; [|by vm_compute in H].
  set (cl := mkCaller "a" (Returned "" false true)).
  assert (Hc : callers d !! 0 = Some cl).
  { refine (demo_read (fun d => callers d !! 0) _ _ _ H _). by vm_compute. }
  assert (Hr : reader d = Exited) by (refine (demo_read reader _ _ _ H _); by vm_compute).
  exists d, cl. split_and!; [done|done|].
  exact (proj1 (demux_no_stuck_call demo_break d 0 cl eq_refl H Hr Hc)).
Defined.
End Demux.
