(* ===== verification/SockRpc.v ===== *)
(** * SockRpc: RPC over sockets, client to handler

    [src/src/tester1/sockrpc/rpcsrv.go] and [src/src/tester1/demux/dmxsrv.go]: a
    server that listens on a socket, makes a demultiplexer for each connection
    it accepts, and serves every request in a goroutine of its own, put together
    with the clients of [Demux].  [Demux] lets a server answer as it likes; here
    the answers are those of [ServeRequest] on the server's state. *)

From S2P Require Import Prelude LabRpc Demux.
From stdpp Require Import base gmap list strings.
From Stdlib Require Import ZArith Lia.
From stdpp Require Import list.

Module SockRpc.
Import LabRpc Demux.

(** ** The server *)

(** [RPCSrv.l]: nil until [net.Listen] has returned. *)
Inductive listener := LNil | LOpen | LClosed.

(** [RPCSrv.listen]: before [net.Listen], in [Accept], in [NewDemuxSrv] for a
    connection, returned. *)
Inductive listen_pc := PListen | PAccept | PInit (k : nat) | PReturned.

(** [NewDemuxClnt]'s [InitMsg]: not yet written, written, or the client closed
    the connection (or died) without writing it. *)
Inductive init_msg := IPending | IWritten | IGone.

(** The server's end of a connection. *)
Inductive srv_end := InBacklog | Accepted | Serving.

#[export] Instance srv_end_eq_dec : EqDecision srv_end.
Proof. solve_decision. Defined.

(** [cn_results] goes with the demultiplexer's [serving]: what [ServeRequest]
    returned to each request's goroutine, which then writes it. *)
Record conn := mkConn {
  cn_clnt : string;
  cn_init : init_msg;
  cn_end : srv_end;
  cn_dmx : dmx;
  cn_results : list (option (string * bool)) }.

(** A request served, for the proofs: of which connection and caller. *)
Record served := mkServed {
  sv_conn : nat; sv_clnt : string; sv_caller : nat; sv_req : string; sv_rep : string; sv_ok : bool }.

Section Sock.
Context `{ArgsCodec} {St : Type}.

Record sock := mkSock {
  sk_l : listener;
  sk_pc : listen_pc;
  sk_srv : Server (St := St);
  sk_conns : list conn;
  sk_died : option string;            (** the server's process: a panic or [log.Fatalf] *)
  sk_log : list served }.

Definition set_listen (s : sock) (l : listener) (pc : listen_pc) : sock :=
  mkSock l pc (sk_srv s) (sk_conns s) (sk_died s) (sk_log s).
Definition set_conns (s : sock) (cs : list conn) : sock :=
  mkSock (sk_l s) (sk_pc s) (sk_srv s) cs (sk_died s) (sk_log s).
Definition die (s : sock) (msg : string) : sock :=
  mkSock (sk_l s) (sk_pc s) (sk_srv s) (sk_conns s) (Some msg) (sk_log s).
Definition set_init (cn : conn) (i : init_msg) : conn := mkConn (cn_clnt cn) i (cn_end cn) (cn_dmx cn) (cn_results cn).
Definition set_end (cn : conn) (e : srv_end) : conn := mkConn (cn_clnt cn) (cn_init cn) e (cn_dmx cn) (cn_results cn).
Definition set_dmx (cn : conn) (d : dmx) (rs : list (option (string * bool))) : conn :=
  mkConn (cn_clnt cn) (cn_init cn) (cn_end cn) d rs.

(** [NewRPCSrv]; the services are added to it before requests come. *)
Definition NewRPCSrv (srv : Server (St := St)) : sock := mkSock LNil PListen srv [] None [].

Inductive sock_event :=
  | SListen (ok : bool)             (** [net.Listen] returns *)
  | SDial (clnt : string)           (** a client's [net.Dial] *)
  | SInit (k : nat) (ok : bool)     (** ... its [InitMsg], or it goes away *)
  | SAccept                         (** [Accept] returns *)
  | SReadInit                       (** [NewDemuxSrv]'s [ReadCall] returns *)
  | SClnt (k : nat) (e : dmx_event) (** a step on the client's side *)
  | SRead (k : nat)                 (** [DemuxSrv.reader] reads a request *)
  | SExec (k i : nat)               (** its goroutine calls [ServeRequest] *)
  | SWrite (k i : nat)              (** ... and writes the answer *)
  | SClose.                         (** [RPCSrv.Close] *)

(** The demultiplexer's steps that are the client's. *)
Definition client_side (e : dmx_event) : bool :=
  match e with EvServe | EvAnswer _ _ _ => false | _ => true end.

(** [Accept] takes the connections in the order they were made. *)
Definition backlog (cs : list conn) : option nat :=
  fst <$> list_find (fun cn => cn_end cn = InBacklog) cs.

(** One goroutine's [ServeRequest]. *)
Definition serve_one (s : sock) (k i : nat) (cn : conn) (f : frame) : sock :=
  match ServeRequest (sk_srv s) (cn_clnt cn) (f_data f) with
  | Ret (srv, (rep, ok)) =>
      mkSock (sk_l s) (sk_pc s) srv
        (<[k := set_dmx cn (cn_dmx cn) (<[i := Some (rep, ok)]> (cn_results cn))]> (sk_conns s)) (sk_died s)
        (sk_log s ++ [mkServed k (cn_clnt cn) (f_who f) (f_data f) rep ok])
  | Panic msg | Fatal msg => die s msg
  end.

Definition srv_exec (e : sock_event) (s : sock) : option sock :=
  match e with
  | SListen ok =>
      match sk_pc s with
      | PListen => Some (if ok then set_listen s LOpen PAccept else die s "tester listen error:")
      | _ => None
      end
  | SAccept =>
      match sk_pc s with
      | PAccept =>
          match sk_l s with
          | LOpen => k ← backlog (sk_conns s); cn ← sk_conns s !! k;
              Some (set_listen (set_conns s (<[k := set_end cn Accepted]> (sk_conns s))) (sk_l s) (PInit k))
          | _ => Some (set_listen s (sk_l s) PReturned)
          end
      | _ => None
      end
  | SReadInit =>
      match sk_pc s with
      | PInit k =>
          cn ← sk_conns s !! k;
          match cn_init cn with
          | IPending => None
          | IWritten => Some (set_listen (set_conns s (<[k := set_end cn Serving]> (sk_conns s))) (sk_l s) PAccept)
          | IGone => Some (die s "NewDemuxSrv: ReadCall err")
          end
      | _ => None
      end
  | SRead k =>
      cn ← sk_conns s !! k;
      if decide (cn_end cn = Serving) then
        d ← dmx_exec EvServe (cn_dmx cn);
        Some (set_conns s (<[k := set_dmx cn d (cn_results cn ++ [None])]> (sk_conns s)))
      else None
  | SExec k i =>
      cn ← sk_conns s !! k; f ← serving (cn_dmx cn) !! i; r ← cn_results cn !! i;
      match r with None => Some (serve_one s k i cn f) | Some _ => None end
  | SWrite k i =>
      cn ← sk_conns s !! k; r ← cn_results cn !! i;
      match r with
      | Some (rep, ok) =>
          d ← dmx_exec (EvAnswer i rep ok) (cn_dmx cn);
          Some (set_conns s (<[k := set_dmx cn d (delete i (cn_results cn))]> (sk_conns s)))
      | None => None
      end
  | SClose =>
      match sk_l s with
      | LNil => Some (die s "nil pointer dereference")
      | _ => Some (set_listen s LClosed (sk_pc s))
      end
  | _ => None
  end.

Definition clnt_exec (e : sock_event) (s : sock) : option sock :=
  match e with
  | SDial clnt =>
      match sk_l s, sk_died s with
      | LOpen, None => Some (set_conns s (sk_conns s ++ [mkConn clnt IPending InBacklog NewDemux []]))
      | _, _ => None
      end
  | SInit k ok =>
      cn ← sk_conns s !! k;
      match cn_init cn with
      | IPending => Some (set_conns s (<[k := set_init cn (if ok then IWritten else IGone)]> (sk_conns s)))
      | _ => None
      end
  | SClnt k e =>
      cn ← sk_conns s !! k;
      match cn_init cn with
      | IWritten =>
          if client_side e then
            d ← dmx_exec e (cn_dmx cn);
            Some (set_conns s (<[k := set_dmx cn d (cn_results cn)]> (sk_conns s)))
          else None
      | _ => None
      end
  | _ => None
  end.

(** A server that died does nothing more. *)
Definition sock_exec (e : sock_event) (s : sock) : option sock :=
  match e with
  | SDial _ | SInit _ _ | SClnt _ _ => clnt_exec e s
  | _ => match sk_died s with Some _ => None | None => srv_exec e s end
  end.

(** ** The abstract server: requests served one at a time *)

Definition replay_one (srv : Server (St := St)) (x : served) : option (Server (St := St)) :=
  match ServeRequest srv (sv_clnt x) (sv_req x) with
  | Ret (srv', (rep, ok)) => if decide (rep = sv_rep x /\ ok = sv_ok x) then Some srv' else None
  | _ => None
  end.
Definition replay (srv : Server (St := St)) (log : list served) : option (Server (St := St)) :=
  foldl (fun o x => srv ← o; replay_one srv x) (Some srv) log.
#[local] Arguments replay : simpl never.

Lemma replay_snoc srv log x : replay srv (log ++ [x]) = replay srv log ≫= fun srv => replay_one srv x.
Proof. unfold replay. by rewrite foldl_app. Qed.

(** ** Invariant *)

(** The request of this caller has been handed to the transport. *)
Definition sent (cl : caller) : Prop :=
  match cst cl with Sent _ | Returned _ _ _ => True | _ => False end.

(** The requests read whose goroutine has not called [ServeRequest] yet. *)
Fixpoint unserved (fs : list frame) (rs : list (option (string * bool))) : list frame :=
  match fs, rs with
  | f :: fs, None :: rs => f :: unserved fs rs
  | _ :: fs, Some _ :: rs => unserved fs rs
  | _, _ => []
  end.

Lemma unserved_read fs rs f :
  length rs = length fs -> unserved (fs ++ [f]) (rs ++ [None]) = unserved fs rs ++ [f].
Proof. revert rs. induction fs as [|g fs IH]; intros [|[r|] rs] [=]; simpl; rewrite ?IH by done; done. Qed.

Lemma unserved_exec fs rs i f r :
  fs !! i = Some f -> rs !! i = Some None -> unserved fs rs ≡ₚ f :: unserved fs (<[i := Some r]> rs).
Proof.
  revert rs i. induction fs as [|g fs IH]; intros [|[r'|] rs] [|i] Hf Hr; simplify_eq/=; try done.
  - by apply IH.
  - rewrite (IH rs i) by done. apply perm_swap.
Qed.

Lemma unserved_write fs rs i r : rs !! i = Some (Some r) -> unserved (delete i fs) (delete i rs) = unserved fs rs.
Proof.
  revert rs i. induction fs as [|g fs IH]; intros [|[r'|] rs] [|i] Hr; simplify_eq/=; rewrite ?IH by done; try done.
Qed.

(** The requests of a connection nobody has served, in any stage. *)
Definition pending (cn : conn) : list frame := to_srv (cn_dmx cn) ++ unserved (serving (cn_dmx cn)) (cn_results cn).

Definition of_conn (k : nat) (log : list served) : list served := filter (fun x => sv_conn x = k) log.

Definition caller_with (d : dmx) (c : nat) (b : string) : Prop :=
  exists cl, callers d !! c = Some cl /\ payload cl = b /\ sent cl.

Record conn_ok (n : Z) (k : nat) (cn : conn) (log : list served) : Prop := {
  co_dmx : dinv (cn_dmx cn);
  co_issued : (issued (cn_dmx cn) <= 1 + n)%Z;
  co_results : length (cn_results cn) = length (serving (cn_dmx cn));
  co_once : NoDup ((f_who <$> pending cn) ++ (sv_caller <$> of_conn k log));
  co_pending f : f ∈ pending cn -> caller_with (cn_dmx cn) (f_who f) (f_data f);
  co_log x : x ∈ of_conn k log -> sv_clnt x = cn_clnt cn /\ caller_with (cn_dmx cn) (sv_caller x) (sv_req x);
  co_executed i f rep ok : serving (cn_dmx cn) !! i = Some f -> cn_results cn !! i = Some (Some (rep, ok)) ->
    exists b, mkServed k (cn_clnt cn) (f_who f) b rep ok ∈ log;
  co_answers c rep ok : (c, rep, ok) ∈ answers (cn_dmx cn) -> exists b, mkServed k (cn_clnt cn) c b rep ok ∈ log }.

Record sock_ok (n : Z) (srv : Server (St := St)) (s : sock) : Prop := {
  so_replay : replay srv (sk_log s) = Some (sk_srv s);
  so_conns k cn : sk_conns s !! k = Some cn -> conn_ok n k cn (sk_log s);
  so_log x : x ∈ sk_log s -> is_Some (sk_conns s !! sv_conn x) }.

(** What a client's step does to its callers and to the requests sent. *)
Definition client_effect (d d' : dmx) : Prop :=
  (forall c b, caller_with d c b -> caller_with d' c b) /\
  serving d' = serving d /\ answers d' = answers d /\
  (to_srv d' = to_srv d \/
   exists f, to_srv d' = to_srv d ++ [f] /\ caller_with d' (f_who f) (f_data f) /\
     forall b, ~ caller_with d (f_who f) b).

Lemma callers_insert d d' c cl cl' :
  callers d' = <[c := cl']> (callers d) -> callers d !! c = Some cl -> payload cl' = payload cl -> (sent cl -> sent cl') ->
  forall c b, caller_with d c b -> caller_with d' c b.
Proof.
  intros He Hc Hp Hs c' b (cl0 & Hl & Hb & Hs0). unfold caller_with. rewrite He.
  destruct (decide (c = c')) as [<-|]; [|rewrite list_lookup_insert_ne by done; by exists cl0].
  rewrite list_lookup_insert_eq by (by eapply lookup_lt_Some). rewrite Hc in Hl. injection Hl as <-.
  exists cl'. split; [done|]. split; [congruence|by apply Hs].
Qed.

(** Replying only moves a waiting caller on. *)
Lemma reply_effect d t b ok err d' : reply d t b ok err = Some d' -> client_effect d d'.
Proof.
  unfold reply. destruct (remove _ _) as [[c cm]|].
  - destruct (callers d !! c) as [cl|] eqn:Hc; simpl; [|done]. destruct (cst cl) eqn:Hs; try done. intros [= <-].
    split_and!; [|done..|by left]. eapply callers_insert; [done|exact Hc|done|done].
  - intros [= <-]. split_and!; [done..|by left].
Qed.

Lemma client_step_effect e d d' : client_side e = true -> dmx_exec e d = Some d' -> client_effect d d'.
Proof.
  intros He. unfold dmx_exec. destruct (fatal d); [done|]. destruct e; try done; simpl.
  - intros [= <-]. split_and!; [|done..|by left]. intros c b' (cl & Hc & Hb). exists cl. simpl.
    split; [|done]. by rewrite lookup_app_l by (by eapply lookup_lt_Some).
  - destruct (callers d !! c) as [cl|] eqn:Hc; simpl; [|done]. destruct (cst cl) eqn:Hs; try done. intros [= <-].
    split_and!; [|done..|by left]. eapply callers_insert; [done|exact Hc|done|]. unfold sent. by rewrite Hs.
  - destruct (callers d !! c) as [cl|] eqn:Hc; simpl; [|done]. destruct (cst cl) eqn:Hs; try done. intros [= <-].
    destruct (put _ _ _); (split_and!; [|done..|by left]); (eapply callers_insert; [done|exact Hc|done|];
      unfold sent; by rewrite Hs).
  - destruct (callers d !! c) as [cl|] eqn:Hc; simpl; [|done]. destruct (cst cl) eqn:Hs; try done. intros [= <-].
    assert (Hm : forall c' b, caller_with d c' b -> caller_with (set_caller d c (mkCaller (payload cl) (Sent t))) c' b).
    { eapply callers_insert; [done|exact Hc|done|]. done. }
    destruct ok; (split_and!; [exact Hm|done..|]); [right|by left].
    eexists. split; [done|]. split; simpl.
    + eexists. split; [by apply list_lookup_insert_eq, (lookup_lt_Some _ _ cl)|done].
    + intros b (cl0 & Hl & _ & Hse). rewrite Hc in Hl. injection Hl as <-. unfold sent in Hse. by rewrite Hs in Hse.
  - destruct (reader d); try done. destruct (to_clnt d); [done|]. intros Hr%reply_effect. exact Hr.
  - destruct (reader d); try done. case_decide; [|done]. intros [= <-]. split_and!; [done..|by left].
  - destruct (reader d) as [|[|t ts]|]; try done.
    + intros [= <-]. split_and!; [done..|by left].
    + intros Hr%reply_effect. exact Hr.
  - intros [= <-]. by destruct (isClosed _); (split_and!; [done..|by left]).
Qed.

(** The invariant of a connection under a longer log of other connections. *)
Lemma conn_ok_log n n' k cn log log' :
  (n <= n')%Z -> of_conn k log' = of_conn k log -> (forall x, x ∈ log -> x ∈ log') ->
  conn_ok n k cn log -> conn_ok n' k cn log'.
Proof.
  intros Hn Ho Hi []. split; rewrite ?Ho; try done; [lia| |].
  - intros i f rep ok Hf Hr. destruct (co_executed0 i f rep ok Hf Hr) as [b Hb]. eauto.
  - intros c rep ok Ha. destruct (co_answers0 c rep ok Ha) as [b Hb]. eauto.
Qed.

Lemma conn_ok_ends n k cn log i e : conn_ok n k cn log -> conn_ok n k (mkConn (cn_clnt cn) i e (cn_dmx cn) (cn_results cn)) log.
Proof. by intros []. Qed.

Lemma snoc_app_perm {A} (l1 l2 : list A) x : (l1 ++ [x]) ++ l2 ≡ₚ x :: l1 ++ l2.
Proof. rewrite <-app_assoc. symmetry. apply Permutation_middle. Qed.

(** A client's step. *)
Lemma conn_ok_client n k cn log e d :
  conn_ok n k cn log -> (n + 1 < 2 ^ 32)%Z -> client_side e = true -> dmx_exec e (cn_dmx cn) = Some d ->
  conn_ok (n + 1) k (set_dmx cn d (cn_results cn)) log.
Proof.
  intros [K1 K2 K3 K4 K5 K6 K7 K8] Hn He Hd.
  destruct (client_step_effect e _ d He Hd) as (Hc & Hs & Ha & Ht).
  destruct (dinv_exec e _ d K1) as [D1 D2]; [lia|done|].
  split; cbn [cn_dmx cn_results cn_clnt set_dmx]; rewrite ?Hs, ?Ha; try done; [lia|..].
  - unfold pending in *. cbn [cn_dmx cn_results set_dmx]. rewrite Hs. destruct Ht as [-> |(f & -> & _ & Hf)]; [done|].
    rewrite snoc_app_perm, fmap_cons. fold (pending cn). rewrite <-app_comm_cons. apply NoDup_cons. split; [|done].
    rewrite elem_of_app, !list_elem_of_fmap. intros [(g & Hg & Hin)|(x & Hx & Hin)].
    + apply (Hf (f_data g)). rewrite Hg. by apply K5.
    + apply (Hf (sv_req x)). rewrite Hx. by apply K6.
  - intros f. unfold pending. cbn [cn_dmx cn_results set_dmx]. rewrite Hs. destruct Ht as [-> |(g & -> & Hg & _)].
    + intros Hf. by apply Hc, K5.
    + rewrite snoc_app_perm, elem_of_cons. intros [-> |Hf]; [done|by apply Hc, K5].
  - intros x Hx. destruct (K6 x Hx). split; [done|by apply Hc].
Qed.

(** The reader takes a request. *)
Lemma conn_ok_read n k cn log d :
  conn_ok n k cn log -> (n + 1 < 2 ^ 32)%Z -> dmx_exec EvServe (cn_dmx cn) = Some d ->
  conn_ok (n + 1) k (set_dmx cn d (cn_results cn ++ [None])) log.
Proof.
  intros [K1 K2 K3 K4 K5 K6 K7 K8] Hn Hd. destruct (dinv_exec _ _ d K1 ltac:(lia) Hd) as [D1 D2].
  unfold dmx_exec in Hd. destruct (fatal (cn_dmx cn)); [done|]. destruct (to_srv (cn_dmx cn)) as [|f rest] eqn:Ht; [done|].
  injection Hd as <-.
  assert (Hp : pending (set_dmx cn (set_wires (cn_dmx cn) rest (serving (cn_dmx cn) ++ [f]) (to_clnt (cn_dmx cn)))
      (cn_results cn ++ [None])) ≡ₚ pending cn).
  { unfold pending. cbn. rewrite unserved_read, Ht, app_assoc by done. rewrite Permutation_app_comm. done. }
  split; cbn [cn_dmx cn_results cn_clnt set_dmx]; try done; [lia| | | |].
  - cbn. rewrite !length_app. cbn. lia.
  - by rewrite Hp.
  - intros g. rewrite Hp. apply K5.
  - intros i g rep ok. cbn. intros Hf Hr. apply (K7 i g); rewrite ?lookup_app_Some in *.
    + destruct Hf as [Hf|[Hle Hf]]; [done|]. exfalso.
      destruct Hr as [Hr%lookup_lt_Some|[_ Hr]]; [lia|]. apply list_lookup_singleton_Some in Hr as [_ Hr]. done.
    + destruct Hr as [Hr|[Hle Hr]]; [done|]. apply list_lookup_singleton_Some in Hr as [_ Hr]. done.
Qed.

(** A goroutine serves its request. *)
Lemma conn_ok_exec n k cn log i f rep ok :
  conn_ok n k cn log -> serving (cn_dmx cn) !! i = Some f -> cn_results cn !! i = Some None ->
  conn_ok (n + 1) k (set_dmx cn (cn_dmx cn) (<[i := Some (rep, ok)]> (cn_results cn)))
    (log ++ [mkServed k (cn_clnt cn) (f_who f) (f_data f) rep ok]).
Proof.
  intros [K1 K2 K3 K4 K5 K6 K7 K8] Hf Hr. set (x := mkServed _ _ _ _ _ _).
  assert (Ho : of_conn k (log ++ [x]) = of_conn k log ++ [x]).
  { unfold of_conn. rewrite filter_app. f_equal. by rewrite filter_cons_True. }
  assert (Hp : pending cn ≡ₚ f :: pending (set_dmx cn (cn_dmx cn) (<[i := Some (rep, ok)]> (cn_results cn)))).
  { unfold pending. cbn. rewrite (unserved_exec _ _ i f (rep, ok)) by done. symmetry. apply Permutation_middle. }
  split; cbn [cn_dmx cn_results cn_clnt set_dmx]; rewrite ?Ho; try done; [lia|by rewrite length_insert|..].
  - rewrite Hp in K4. cbn in K4. rewrite fmap_app, app_assoc, Permutation_app_comm. exact K4.
  - intros g Hg. apply K5. rewrite Hp. by right.
  - intros y. rewrite elem_of_app, list_elem_of_singleton. intros [Hy| ->]; [by apply K6|].
    split; [done|]. apply (K5 f). rewrite Hp. by left.
  - intros j g rep' ok' Hg. rewrite list_lookup_insert_Some. intros [(<- & [= <- <-] & _)|[_ Hj]].
    + rewrite Hf in Hg. injection Hg as <-. exists (f_data f). apply elem_of_app. right. by apply list_elem_of_singleton.
    + destruct (K7 j g rep' ok' Hg Hj) as [b Hb]. exists b. apply elem_of_app. by left.
  - intros c rep' ok' Ha. destruct (K8 c rep' ok' Ha) as [b Hb]. exists b. apply elem_of_app. by left.
Qed.

(** ... and writes the answer. *)
Lemma conn_ok_write n k cn log i rep ok d :
  conn_ok n k cn log -> (n + 1 < 2 ^ 32)%Z -> cn_results cn !! i = Some (Some (rep, ok)) ->
  dmx_exec (EvAnswer i rep ok) (cn_dmx cn) = Some d ->
  conn_ok (n + 1) k (set_dmx cn d (delete i (cn_results cn))) log.
Proof.
  intros [K1 K2 K3 K4 K5 K6 K7 K8] Hn Hr Hd. destruct (dinv_exec _ _ d K1 ltac:(lia) Hd) as [D1 D2].
  unfold dmx_exec in Hd. destruct (fatal (cn_dmx cn)); [done|].
  destruct (serving (cn_dmx cn) !! i) as [f|] eqn:Hf; [|done]. injection Hd as <-.
  match type of D1 with dinv ?d0 => set (d := d0) in * end.
  assert (Hp : pending (set_dmx cn d (delete i (cn_results cn))) = pending cn) by (unfold pending; cbn; by rewrite (unserved_write _ _ _ _ Hr)).
  split; rewrite ?Hp; cbn [cn_dmx cn_results cn_clnt set_dmx]; try done; [lia| | |].
  - cbn. apply lookup_lt_Some in Hf. rewrite !length_delete by (by apply lookup_lt_is_Some; lia). lia.
  - intros j g rep' ok' Hg Hj. cbn in Hg, Hj. rewrite list_lookup_delete in Hg; rewrite list_lookup_delete in Hj. case_decide; [apply (K7 j)|apply (K7 (S j))]; done.
  - intros c rep' ok'. cbn. rewrite elem_of_app, list_elem_of_singleton. intros [Ha|[= -> -> ->]]; [by apply K8|].
    by apply (K7 i).
Qed.

(** Only the server, the connections and the log matter. *)
Lemma sock_ok_ext n srv s l pc died :
  sock_ok n srv s -> sock_ok n srv (mkSock l pc (sk_srv s) (sk_conns s) died (sk_log s)).
Proof. by intros []. Qed.

Lemma sock_ok_conn n srv s k cn cn' :
  sock_ok n srv s -> sk_conns s !! k = Some cn -> conn_ok (n + 1) k cn' (sk_log s) ->
  sock_ok (n + 1) srv (set_conns s (<[k := cn']> (sk_conns s))).
Proof.
  intros [S1 S2 S3] Hk Hcn. split; cbn; [done| |].
  - intros k' cn0. rewrite list_lookup_insert_Some. intros [(<- & <- & _)|[_ Hk']]; [done|].
    eapply conn_ok_log; [|done..|by apply S2]. lia.
  - intros x Hx. apply S3, lookup_lt_is_Some in Hx. apply lookup_lt_is_Some. by rewrite length_insert.
Qed.

Lemma of_conn_other k x log : sv_conn x <> k -> of_conn k (log ++ [x]) = of_conn k log.
Proof. intros Hk. unfold of_conn. rewrite filter_app, filter_cons_False by done. by rewrite app_nil_r. Qed.

Lemma sock_ok_exec n srv s k i cn f :
  sock_ok n srv s -> sk_conns s !! k = Some cn -> serving (cn_dmx cn) !! i = Some f ->
  cn_results cn !! i = Some None -> sock_ok (n + 1) srv (serve_one s k i cn f) /\
  exists l, sk_log (serve_one s k i cn f) = sk_log s ++ l.
Proof.
  intros Hok Hk Hf Hr. pose proof Hok as [S1 S2 S3]. unfold serve_one.
  assert (Hm : sock_ok (n + 1) srv s).
  { split; [done| |done]. intros k' cn' Hk'. eapply conn_ok_log; [|done..|by apply S2]. lia. }
  destruct (ServeRequest _ _ _) as [[srv' [rep ok]]| |] eqn:Hs; cbn; [|split; [by apply sock_ok_ext|by exists []; rewrite app_nil_r]..].
  split; [|by eexists]. split; cbn.
  - rewrite replay_snoc, S1. cbn. unfold replay_one. cbn. by rewrite Hs, decide_True.
  - intros k' cn'. rewrite list_lookup_insert_Some. intros [(<- & <- & _)|[Hne Hk']].
    + by apply conn_ok_exec; [apply S2|..].
    + eapply conn_ok_log; [|by apply of_conn_other| |by apply S2]; [lia|]. intros x Hx. apply elem_of_app. by left.
  - intros x. rewrite elem_of_app, list_elem_of_singleton, lookup_lt_is_Some, length_insert, <-lookup_lt_is_Some.
    intros [Hx| ->]; [by apply S3|by exists cn].
Qed.

Lemma sock_ok_weaken n srv s : sock_ok n srv s -> sock_ok (n + 1) srv s.
Proof.
  intros [S1 S2 S3]. split; [done| |done]. intros k cn Hk. eapply conn_ok_log; [|done..|by apply S2]. lia.
Qed.

Lemma conn_ok_new n k clnt log : (0 <= n)%Z -> (forall x, x ∈ log -> sv_conn x <> k) -> conn_ok n k (mkConn clnt IPending InBacklog NewDemux []) log.
Proof.
  intros Hn Hlog. assert (Ho : of_conn k log = []).
  { unfold of_conn. induction log as [|x log IH]; [done|]. rewrite filter_cons_False by (apply Hlog; by left).
    apply IH. intros y Hy. apply Hlog. by right. }
  split; rewrite ?Ho; cbn; try done.
  - apply dinv_init.
  - lia.
  - constructor.
  - intros f Hf. by apply elem_of_nil in Hf.
  - intros x Hx. by apply elem_of_nil in Hx.
  - intros c rep ok Hx. by apply elem_of_nil in Hx.
Qed.

Lemma sock_ok_step n srv e s s' :
  sock_ok n srv s -> (0 <= n)%Z -> (n + 1 < 2 ^ 32)%Z -> sock_exec e s = Some s' ->
  sock_ok (n + 1) srv s' /\ exists l, sk_log s' = sk_log s ++ l.
Proof.
  intros Hok H0 Hn He. pose proof (sock_ok_weaken _ _ _ Hok) as Hw. pose proof Hok as [S1 S2 S3].
  assert (Hnil : exists l, sk_log s = sk_log s ++ l) by (exists []; by rewrite app_nil_r).
  assert (Hconn : forall k cn cn', sk_conns s !! k = Some cn -> conn_ok (n + 1) k cn' (sk_log s) ->
    forall l pc, sock_ok (n + 1) srv (set_listen (set_conns s (<[k := cn']> (sk_conns s))) l pc)).
  { intros k cn cn' Hk Hcn l pc. by apply (sock_ok_ext _ _ (set_conns s _)), (sock_ok_conn n srv s k cn). }
  assert (Hend : forall k cn i e, sk_conns s !! k = Some cn ->
    conn_ok (n + 1) k (mkConn (cn_clnt cn) i e (cn_dmx cn) (cn_results cn)) (sk_log s)).
  { intros k cn i e' Hk. apply conn_ok_ends. by apply (so_conns _ _ _ Hw). }
  destruct e as [ok|clnt|k ok| | |k e|k|k i|k i|]; unfold sock_exec in He; cbn [clnt_exec] in He;
    try (destruct (sk_died s); [done|]; cbn [srv_exec] in He).
  - destruct (sk_pc s); try done. injection He as <-. destruct ok; (split; [by apply sock_ok_ext|exact Hnil]).
  - destruct (sk_l s), (sk_died s); try done. injection He as <-. split; [|exact Hnil]. split; cbn.
    + done.
    + intros k cn. rewrite lookup_app_Some. intros [Hk|[Hle Hk]]; [by apply (so_conns _ _ _ Hw)|].
      apply list_lookup_singleton_Some in Hk as [Hk <-]. apply conn_ok_new; [lia|].
      intros x Hx%S3%lookup_lt_is_Some. lia.
    + intros x Hx%S3. rewrite lookup_lt_is_Some, length_app in *. lia.
  - apply bind_Some in He as (cn & Hk & He). destruct (cn_init cn); try done. injection He as <-.
    split; [|exact Hnil]. apply (sock_ok_conn n srv s k cn); [done..|]. by apply Hend.
  - destruct (sk_pc s); try done. destruct (sk_l s); try (injection He as <-; split; [by apply sock_ok_ext|exact Hnil]).
    apply bind_Some in He as (k & _ & He). apply bind_Some in He as (cn & Hk & He). injection He as <-.
    split; [|exact Hnil]. apply (Hconn k cn); [done|]. by apply Hend.
  - destruct (sk_pc s) as [| |k|]; try done. apply bind_Some in He as (cn & Hk & He).
    destruct (cn_init cn); try done; injection He as <-; (split; [|exact Hnil]); [|by apply sock_ok_ext].
    apply (Hconn k cn); [done|]. by apply Hend.
  - apply bind_Some in He as (cn & Hk & He). destruct (cn_init cn); try done. destruct (client_side e) eqn:Hc; [|done].
    apply bind_Some in He as (d & Hd & He). injection He as <-. split; [|exact Hnil].
    apply (sock_ok_conn n srv s k cn); [done..|]. apply (conn_ok_client n k cn _ e d); [by apply S2|done..].
  - apply bind_Some in He as (cn & Hk & He). case_decide; [|done].
    apply bind_Some in He as (d & Hd & He). injection He as <-. split; [|exact Hnil].
    apply (sock_ok_conn n srv s k cn); [done..|]. apply conn_ok_read; [by apply S2|done..].
  - apply bind_Some in He as (cn & Hk & He). apply bind_Some in He as (f & Hf & He).
    apply bind_Some in He as ([r|] & Hr & He); [done|]. injection He as <-. by apply sock_ok_exec.
  - apply bind_Some in He as (cn & Hk & He). apply bind_Some in He as ([[rep ok]|] & Hr & He); [|done].
    apply bind_Some in He as (d & Hd & He). injection He as <-. split; [|exact Hnil].
    apply (sock_ok_conn n srv s k cn); [done..|]. by apply (conn_ok_write n k cn _ i rep ok d); [apply S2|..].
  - destruct (sk_l s); injection He as <-; (split; [by apply sock_ok_ext|exact Hnil]).
Qed.

Lemma sock_ok_init srv : sock_ok 0 srv (NewRPCSrv srv).
Proof. split; cbn; [done|by intros k cn Hk; rewrite lookup_nil in Hk|]. intros x Hx. by apply elem_of_nil in Hx. Qed.

Lemma sock_ok_run n srv es s s' :
  sock_ok n srv s -> (0 <= n)%Z -> (n + Z.of_nat (length es) < 2 ^ 32)%Z -> run sock_exec es s = Some s' ->
  sock_ok (n + Z.of_nat (length es)) srv s' /\ exists l, sk_log s' = sk_log s ++ l.
Proof.
  revert n s. induction es as [|e es IH]; intros n s Hok H0 Hn Hr; cbn [length] in *.
  - injection Hr as <-. rewrite Z.add_0_r. split; [done|]. exists []. by rewrite app_nil_r.
  - apply bind_Some in Hr as (s1 & He & Hr). destruct (sock_ok_step n srv e s s1) as [H1 (l1 & L1)]; [done|done|lia|done|].
    destruct (IH (n + 1)%Z s1 H1) as [H2 (l2 & L2)]; [lia|lia|exact Hr|].
    split; [by replace (n + Z.of_nat (S (length es)))%Z with (n + 1 + Z.of_nat (length es))%Z by lia|].
    exists (l1 ++ l2). by rewrite L2, L1, app_assoc.
Qed.

Lemma log_once log :
  (forall k, NoDup (sv_caller <$> of_conn k log)) -> NoDup ((fun x => (sv_conn x, sv_caller x)) <$> log).
Proof.
  induction log as [|x log IH]; intros Hnd; [constructor|]. rewrite fmap_cons. apply NoDup_cons. split.
  - intros (y & Heq & Hy)%list_elem_of_fmap. injection Heq as Hk Hc. specialize (Hnd (sv_conn x)).
    unfold of_conn in Hnd. rewrite filter_cons_True in Hnd by done. rewrite fmap_cons in Hnd.
    apply NoDup_cons in Hnd as [Hnd _]. apply Hnd. apply list_elem_of_fmap. exists y. split; [done|].
    by apply list_elem_of_filter.
  - apply IH. intros k. specialize (Hnd k). unfold of_conn in *. rewrite filter_cons in Hnd. case_decide; [|done].
    rewrite fmap_cons in Hnd. by apply NoDup_cons in Hnd as [_ Hnd].
Qed.

(** A call that returned an answer; a call that has been made. *)
Definition answered (s : sock) (x : served) : Prop :=
  exists cn cl, sk_conns s !! sv_conn x = Some cn /\ cn_clnt cn = sv_clnt x /\
    callers (cn_dmx cn) !! sv_caller x = Some cl /\ payload cl = sv_req x /\
    cst cl = Returned (sv_rep x) (sv_ok x) false.
Definition called (s : sock) (x : served) : Prop :=
  exists cn cl, sk_conns s !! sv_conn x = Some cn /\ cn_clnt cn = sv_clnt x /\
    callers (cn_dmx cn) !! sv_caller x = Some cl /\ payload cl = sv_req x.

Lemma log_called n srv s x : sock_ok n srv s -> x ∈ sk_log s -> called s x.
Proof.
  intros [_ S2 S3] Hx. destruct (S3 x Hx) as [cn Hk]. pose proof (S2 _ _ Hk) as Hcn.
  destruct (co_log _ _ _ _ Hcn x) as (Hc & cl & Hl & Hp & _); [by apply list_elem_of_filter|]. by exists cn, cl.
Qed.

Lemma answered_log n srv s x : sock_ok n srv s -> answered s x -> x ∈ sk_log s.
Proof.
  intros [_ S2 _] (cn & cl & Hk & Hn & Hl & Hp & Hr). pose proof (S2 _ _ Hk) as Hcn.
  destruct (co_answers _ _ _ _ Hcn (sv_caller x) (sv_rep x) (sv_ok x)) as [b Hb].
  { apply (di_returned _ (co_dmx _ _ _ _ Hcn) _ cl); [done|]. by rewrite Hr. }
  destruct (co_log _ _ _ _ Hcn _ (proj2 (list_elem_of_filter _ _ _) (conj eq_refl Hb))) as (_ & cl' & Hl' & Hp' & _).
  cbn in Hl', Hp'. rewrite Hl in Hl'. injection Hl' as <-. destruct x. cbn in *. congruence.
Qed.

Lemma sock_ok_once n srv s : sock_ok n srv s -> NoDup ((fun x => (sv_conn x, sv_caller x)) <$> sk_log s).
Proof.
  intros [_ S2 S3]. apply log_once. intros k. destruct (sk_conns s !! k) as [cn|] eqn:Hk.
  - pose proof (co_once _ _ _ _ (S2 _ _ Hk)) as Hnd. by apply NoDup_app in Hnd as (_ & _ & ?).
  - enough (of_conn k (sk_log s) = []) as -> by constructor. apply elem_of_nil_inv. intros x.
    unfold of_conn. rewrite list_elem_of_filter. intros [<- Hx]. apply S3 in Hx as [cn Hx]. congruence.
Qed.


(** A client that connects and goes away before its first message kills the
    server's process: [NewDemuxSrv] calls [log.Fatalf], in the goroutine that
    accepts connections. *)
Lemma silent_client_kills s k cn :
  sk_died s = None -> sk_pc s = PInit k -> sk_conns s !! k = Some cn -> cn_init cn = IPending ->
  exists s', run sock_exec [SInit k false; SReadInit] s = Some s' /\ sk_died s' = Some "NewDemuxSrv: ReadCall err".
Proof.
  intros Hd Hp Hk Hi. eexists. cbn [run sock_exec clnt_exec]. rewrite Hk. cbn. rewrite Hi. cbn. rewrite Hd, Hp.
  rewrite list_lookup_insert_eq by (by eapply lookup_lt_Some). by cbn.
Qed.

(** ... and one that connects and stays silent keeps every other one out. *)
Lemma silent_client_blocks s k cn :
  sk_pc s = PInit k -> sk_conns s !! k = Some cn -> cn_init cn = IPending ->
  sock_exec SAccept s = None /\ sock_exec SReadInit s = None.
Proof.
  intros Hp Hk Hi. unfold sock_exec. cbn. destruct (sk_died s); [done|]. rewrite Hp. split; [done|].
  rewrite Hk. cbn. by rewrite Hi.
Qed.

(** [Close] right after [NewRPCSrv], before the goroutine listens, panics. *)
Lemma early_close_panics srv :
  sk_died <$> sock_exec SClose (NewRPCSrv srv) = Some (Some "nil pointer dereference").
Proof. done. Qed.

End Sock.

(** ** Two clients of a counter *)

#[local] Existing Instance str_args_codec.

Definition tally : Method (St := nat) := fun _ n => Ret (S n, itoa n).
Definition demo_counter : Server (St := nat) := mkServer {[ "Tally" := {[ "Add" := tally ]} ]} 0 None 40.

(** Connection [k]'s [c]-th call, up to its request's goroutine. *)
Definition demo_call (k c : nat) : list sock_event :=
  [SClnt k (EvCall (RPC_request "Tally.Add" "")); SClnt k (EvTag c); SClnt k (EvPut c); SClnt k (EvWrite c true); SRead k].
Definition demo_before : list sock_event :=
  [SListen true; SDial "a"; SDial "b"; SInit 1 true; SInit 0 true; SAccept; SReadInit; SAccept; SReadInit] ++
  demo_call 0 0 ++ [SExec 0 0; SWrite 0 0; SClnt 0 EvRead].
(** The second request of connection 1 is served and answered first. *)
Definition demo_after : list sock_event :=
  demo_call 1 0 ++ demo_call 1 1 ++ [SExec 1 1; SExec 1 0; SWrite 1 1; SClnt 1 EvRead; SWrite 1 0; SClnt 1 EvRead].


End SockRpc.
