(* ===== verification/Tester.v ===== *)
(** * Tester: server groups, clients and persisters of the test harness

    [src/src/tester1/group.go], [srv.go], [persister.go], [clnts.go] and
    [random_handles] of [config.go].  A group of servers is a full mesh of
    client ends on the simulated network ([LabRpc.Network]); connecting,
    partitioning and shutting down servers is enabling and disabling ends.
    The random names of [Randstring] are a supply of fresh names. *)

From S2P Require Import Prelude LabRpc.
From stdpp Require Import base gmap list strings pretty.
From Stdlib Require Import ZArith Lia.
From stdpp Require Import list.

Module Tester.
Import LabRpc.

(** ** Persister *)

Record Persister := mkPersister { raftstate : string; snapshot : string }.

Definition MakePersister : Persister := mkPersister "" "".
Definition Checkpoint (ps : Persister) : Persister := mkPersister (raftstate ps) (snapshot ps).
Definition ReadRaftState (ps : Persister) : string := raftstate ps.
Definition RaftStateSize (ps : Persister) : nat := String.length (raftstate ps).
Definition Save (rs sn : string) (ps : Persister) : Persister := mkPersister rs sn.
Definition ReadSnapshot (ps : Persister) : string := snapshot ps.
Definition SnapshotSize (ps : Persister) : nat := String.length (snapshot ps).

(** ** Servers and groups *)

Definition ServerName (gid : Z) (i : nat) : string := "server-" +:+ pretty gid +:+ "-" +:+ itoa i.

(** [dc]: the persister held by the server's daemon, while it runs. *)
Record Srv := mkSrv { endNames : list string; saved : option Persister; dc : option Persister }.

Record ServerGrp := mkGrp {
  gid : Z;
  srvs : list Srv;
  connected : list bool }.

Definition N (sg : ServerGrp) : nat := length (srvs sg).
Definition all (sg : ServerGrp) : list nat := seq 0 (N sg).

Definition set_srvs (sg : ServerGrp) (l : list Srv) : ServerGrp := mkGrp (gid sg) l (connected sg).
Definition set_connected (sg : ServerGrp) (i : nat) (b : bool) : ServerGrp :=
  mkGrp (gid sg) (srvs sg) (<[i := b]> (connected sg)).

(** The network and the group, threaded through the operations. *)
Definition state : Type := Network * ServerGrp.

(** [makeServer]: one end to each server of the group, itself included. *)
Definition makeServer (gid : Z) (names : list string) (net : Network) : outcome (Network * Srv) :=
  net' ← foldo (fun net jn => net' ← MakeEnd jn.2 net; Ret (Connect jn.2 (ServerName gid jn.1) net'))
    net (imap (fun j n => (j, n)) names);
  Ret (net', mkSrv names None None).

(** [makeSrvGrp]: [names i] are the names server [i]'s ends get. *)
Definition makeSrvGrp (g : Z) (names : list (list string)) (net : Network) : outcome state :=
  r ← foldo (fun (r : Network * list Srv) ns => s ← makeServer g ns r.1; Ret (s.1, r.2 ++ [s.2])) (net, []) names;
  Ret (r.1, mkGrp g r.2 (replicate (length names) false)).

Definition IsConnected (sg : ServerGrp) (i : nat) : outcome bool := idx (connected sg) i.

(** [Server.connect]: outgoing ends to the connected servers of [to]. *)
Definition Server_connect (s : Srv) (sg : ServerGrp) (to : list nat) (net : Network) : outcome Network :=
  foldo (fun net j =>
    b ← IsConnected sg j;
    if (b : bool) then e ← idx (endNames s) j; Ret (Enable e true net) else Ret net) net to.

Definition Server_disconnect (s : Srv) (from : list nat) (net : Network) : outcome Network :=
  foldo (fun net j => e ← idx (endNames s) j; Ret (Enable e false net)) net from.

(** [ServerGrp.connect] *)
Definition connect (i : nat) (to : list nat) (st : state) : outcome state :=
  let '(net, sg) := st in
  _ ← idx (connected sg) i;
  let sg := set_connected sg i true in
  s ← idx (srvs sg) i;
  net ← Server_connect s sg to net;
  net ← foldo (fun net j =>
      b ← IsConnected sg j;
      if (b : bool) then t ← idx (srvs sg) j; e ← idx (endNames t) i; Ret (Enable e true net) else Ret net)
    net to;
  Ret (net, sg).

(** [ServerGrp.disconnect]; [endNames] is never nil once made. *)
Definition disconnect (i : nat) (from : list nat) (st : state) : outcome state :=
  let '(net, sg) := st in
  _ ← idx (connected sg) i;
  let sg := set_connected sg i false in
  s ← idx (srvs sg) i;
  net ← Server_disconnect s from net;
  net ← foldo (fun net j => t ← idx (srvs sg) j; e ← idx (endNames t) i; Ret (Enable e false net)) net from;
  Ret (net, sg).

Definition ConnectOne (i : nat) (st : state) : outcome state := connect i (all st.2) st.
Definition ConnectAll (st : state) : outcome state := foldo (fun st i => ConnectOne i st) st (all st.2).
Definition DisconnectAll (i : nat) (st : state) : outcome state := disconnect i (all st.2) st.

Definition shutdownServer (s : Srv) : Srv :=
  match dc s with
  | Some p => mkSrv (endNames s) (Some (Checkpoint p)) None
  | None => s
  end.

Definition ShutdownServer (i : nat) (st : state) : outcome state :=
  st ← disconnect i (all st.2) st;
  let '(net, sg) := st in
  s ← idx (srvs sg) i;
  Ret (DeleteServer (ServerName (gid sg) i) net, set_srvs sg (<[i := shutdownServer s]> (srvs sg))).

Definition Kill (l : list nat) (st : state) : outcome state := foldo (fun st i => ShutdownServer i st) st l.
Definition Shutdown (st : state) : outcome state := Kill (all st.2) st.

(** [StartServer], for a daemon that starts: fresh ends, the saved persister
    (or a new one) handed to the daemon, then the server joins the network
    as object [sid]. *)
Definition startServer (g : Z) (names : list string) (s : Srv) (net : Network) : outcome (Network * Srv) :=
  r ← makeServer g names net;
  Ret (r.1, mkSrv (endNames r.2) (Some (default MakePersister (saved s))) None).

Definition StartServer (i : nat) (names : list string) (sid : nat) (st : state) : outcome state :=
  let '(net, sg) := st in
  s ← idx (srvs sg) i;
  r ← startServer (gid sg) names s net;
  let s' := mkSrv (endNames r.2) (saved r.2) (saved r.2) in
  Ret (AddServer (ServerName (gid sg) i) sid r.1, set_srvs sg (<[i := s']> (srvs sg))).

(** The daemon saves to its persister while it runs. *)
Definition daemon_save (i : nat) (rs sn : string) (sg : ServerGrp) : ServerGrp :=
  set_srvs sg (alter (fun s => mkSrv (endNames s) (saved s) (Save rs sn <$> dc s)) i (srvs sg)).

(** Maxima over the servers, as [RaftSize] and [SnapshotSize]; a server that
    never ran has neither daemon nor persister and panics. *)
Definition server_size (f : Persister -> nat) (s : Srv) : outcome nat :=
  match dc s, saved s with
  | Some p, _ => Ret (f p)
  | None, Some p => Ret (f p)
  | None, None => Panic "nil pointer dereference"
  end.
Definition max_size (f : Persister -> nat) (sg : ServerGrp) : outcome nat :=
  foldo (fun m s => n ← server_size f s; Ret (if m <? n then n else m)) 0 (srvs sg).
Definition RaftSize := max_size RaftStateSize.
Definition SnapshotSizeMax := max_size SnapshotSize.

(** ** Partitions *)

(** The body of [MakePartition]'s loop, for leader [l]; [j] counts the servers
    placed so far. *)
Definition place (l : nat) (r : list nat * list nat * nat) (i : nat) : outcome (list nat * list nat * nat) :=
  let '(p1, p2, j) := r in
  if decide (i = l) then Ret (p1, p2, j)
  else if j <? length p1 then Ret (<[j := i]> p1, p2, S j)
  else _ ← idx p2 (j - length p1); Ret (p1, <[j - length p1 := i]> p2, S j).

(** [MakePartition]: the slices start zeroed. *)
Definition MakePartition (n l : nat) : outcome (list nat * list nat) :=
  r ← foldo (place l) (replicate (n / 2 + 1) 0, replicate (n / 2) 0, 0) (seq 0 n);
  let '(p1, p2, _) := r in
  match length p2 with
  | 0 => Panic "index out of range"
  | S k => Ret (p1, <[k := l]> p2)
  end.

Definition partition_side (ps others : list nat) (st : state) : outcome state :=
  foldo (fun st i => st ← disconnect i others st; connect i ps st) st ps.

Definition Partition (p1 p2 : list nat) (st : state) : outcome state :=
  st ← partition_side p1 p2 st; partition_side p2 p1 st.

(** ** Clients *)

(** [cends]: server name to end name; [allowed]: [None] is a nil slice. *)
Record Clnt := mkClnt { cends : gmap string string; allowed : option (list string) }.

Definition makeClntTo (srvs : option (list string)) : Clnt := mkClnt ∅ srvs.

Definition allowedL (c : Clnt) (server : string) : bool :=
  match allowed c with
  | None => true
  | Some l => existsb (fun n => bool_decide (n = server)) l
  end.

Definition makeEnd (name server : string) (st : Network * Clnt) : outcome (Network * Clnt * string) :=
  let '(net, c) := st in
  match cends c !! server with
  | Some e => Ret (net, c, e)
  | None =>
      net ← MakeEnd name net;
      let net := Enable name (allowedL c server) (Connect name server net) in
      Ret (net, mkClnt (<[server := name]> (cends c)) (allowed c), name)
  end.

(** The loops over [clnt.ends], in the order [order] of its entries. *)
Definition enable_ends (b : bool) (order : list (string * string)) (net : Network) : Network :=
  foldl (fun net e => Enable e.2 b net) net order.

Definition Clnt_ConnectAll (order : list (string * string)) (st : Network * Clnt) : Network * Clnt :=
  (enable_ends true order st.1, mkClnt (cends st.2) None).
Definition Clnt_ConnectTo (order : list (string * string)) (l : list string) (st : Network * Clnt) : Network * Clnt :=
  let c := mkClnt (cends st.2) (Some l) in
  (enable_ends true (filter (fun e => allowedL c e.1 = true) order) st.1, c).
Definition Clnt_Disconnect (order : list (string * string)) (srv : string) (st : Network * Clnt) : Network * Clnt :=
  (enable_ends false (filter (fun e => e.1 = srv) order) st.1, st.2).
Definition Clnt_DisconnectAll (order : list (string * string)) (st : Network * Clnt) : Network * Clnt :=
  (enable_ends false order st.1, mkClnt (cends st.2) (Some [])).

(** [Clnt.remove], over the ends in the order [order]. *)
Definition remove (order : list (string * string)) (net : Network) : outcome Network :=
  foldo (fun net e => DeleteEnd e.2 net) net order.

(** ** Random permutations *)

(** [random_handles]: [draws i] is the value of [rand.Intn(i + 1)]. *)
Definition swap {A} (i j : nat) (l : list A) : list A :=
  match l !! i, l !! j with
  | Some x, Some y => <[j := x]> (<[i := y]> l)
  | _, _ => l
  end.
Definition random_handles {A} (draws : nat -> nat) (kvh : list A) : list A :=
  foldl (fun sa i => swap i (draws i mod (i + 1)) sa) kvh (seq 0 (length kvh)).

(** ** The mesh: which end of which server is enabled *)

Definition name (sg : ServerGrp) (a b : nat) : option string := s ← srvs sg !! a; endNames s !! b.

Definition en (st : state) (a b : nat) : bool :=
  match name st.2 a b with Some e => is_enabled st.1 e | None => false end.

Definition conn (sg : ServerGrp) (i : nat) : bool := default false (connected sg !! i).

(** A group as [makeSrvGrp] and [StartServer] leave it: a full mesh of
    distinct ends. *)
Record grp_wf (sg : ServerGrp) : Prop := {
  wf_conn : length (connected sg) = N sg;
  wf_name : forall a b, a < N sg -> b < N sg -> is_Some (name sg a b);
  wf_inj : forall a b a' b' e, name sg a b = Some e -> name sg a' b' = Some e -> a = a' /\ b = b' }.

Lemma name_set_connected sg i v a b : name (set_connected sg i v) a b = name sg a b.
Proof. done. Qed.

Lemma wf_set_connected sg i v : grp_wf sg -> grp_wf (set_connected sg i v).
Proof. intros [H1 H2 H3]. split; [simpl; by rewrite length_insert|exact H2|exact H3]. Qed.

Lemma is_enabled_Enable e e' b net :
  is_enabled (Enable e b net) e' = if decide (e = e') then b else is_enabled net e'.
Proof.
  unfold is_enabled, Enable. simpl. case_decide; [subst; by rewrite lookup_insert_eq|by rewrite lookup_insert_ne].
Qed.

(** A loop enabling or disabling the ends [nm j] for the [j] of [l] that
    satisfy [cond]. *)
Lemma enable_loop (f : Network -> nat -> outcome Network) (cond : nat -> bool) (nm : nat -> string) v l net :
  (forall net j, j ∈ l -> f net j = Ret (if cond j then Enable (nm j) v net else net)) ->
  exists net', foldo f net l = Ret net' /\
    (forall e, is_enabled net' e =
      if decide (Exists (fun j => cond j = true /\ nm j = e) l) then v else is_enabled net e) /\
    ends net' = ends net.
Proof.
  revert net. induction l as [|j l IH]; intros net Hf.
  - exists net. split; [done|]. split; [|done]. intros e. rewrite decide_False; [done|]. intros Hx. inversion Hx.
  - cbn [foldo]. rewrite Hf by apply list_elem_of_here. cbn.
    destruct (IH (if cond j then Enable (nm j) v net else net)) as (net' & E & He & Hends).
    { intros net0 j0 Hj0. apply Hf. by apply list_elem_of_further. }
    exists net'. split; [exact E|]. split; [|rewrite Hends; by destruct (cond j)]. intros e. rewrite He.
    set (P := fun j => cond j = true /\ nm j = e).
    destruct (decide (Exists P l)) as [Hex|Hex].
    { by rewrite decide_True; [|apply Exists_cons_tl]. }
    destruct (decide (Exists P (j :: l))) as [[[Hc Hn]|?]%Exists_cons|Hne]; [|done|].
    + rewrite Hc, is_enabled_Enable. by rewrite decide_True.
    + destruct (cond j) eqn:Hc; [|done]. rewrite is_enabled_Enable, decide_False; [done|].
      intros Hn. apply Hne. by apply Exists_cons_hd.
Qed.

Lemma wf_lookup sg i : grp_wf sg -> i < N sg ->
  exists s, srvs sg !! i = Some s /\ forall b, b < N sg -> exists e, endNames s !! b = Some e /\ name sg i b = Some e.
Proof.
  intros Hwf Hi. destruct (lookup_lt_is_Some_2 (srvs sg) i Hi) as [s Hs]. exists s. split; [done|].
  intros b Hb. destruct (wf_name sg Hwf i b Hi Hb) as [e He]. exists e. split; [|done].
  unfold name in He. by rewrite Hs in He.
Qed.

Definition nm (sg : ServerGrp) (a b : nat) : string := default "" (name sg a b).

Lemma nm_Some sg a b e : name sg a b = Some e -> nm sg a b = e.
Proof. unfold nm. by intros ->. Qed.

(** Outgoing then incoming ends of server [i], over [l]. *)
Lemma mesh_loops sg i v l net net1 net2 (c : nat -> bool) a b :
  grp_wf sg -> i < N sg -> (forall j, j ∈ l -> j < N sg) -> a < N sg -> b < N sg ->
  (forall e, is_enabled net1 e =
     if decide (Exists (fun j => c j = true /\ nm sg i j = e) l) then v else is_enabled net e) ->
  (forall e, is_enabled net2 e =
     if decide (Exists (fun j => c j = true /\ nm sg j i = e) l) then v else is_enabled net1 e) ->
  en (net2, sg) a b =
  if decide ((a = i /\ b ∈ l /\ c b = true) \/ (b = i /\ a ∈ l /\ c a = true)) then v else en (net, sg) a b.
Proof.
  intros Hwf Hi Hl Ha Hb H1 H2. destruct (wf_name sg Hwf a b Ha Hb) as [e He].
  unfold en. simpl. rewrite He, H2, H1.
  assert (forall j, j ∈ l -> nm sg j i = e -> a = j /\ b = i) as I2.
  { intros j Hj Hn. destruct (wf_name sg Hwf j i (Hl j Hj) Hi) as [e' He'].
    rewrite (nm_Some _ _ _ _ He') in Hn. subst e'. by eapply (wf_inj sg Hwf). }
  assert (forall j, j ∈ l -> nm sg i j = e -> a = i /\ b = j) as I1.
  { intros j Hj Hn. destruct (wf_name sg Hwf i j Hi (Hl j Hj)) as [e' He'].
    rewrite (nm_Some _ _ _ _ He') in Hn. subst e'. by eapply (wf_inj sg Hwf). }
  destruct (decide (Exists (fun j => c j = true /\ nm sg j i = e) l)) as [Hex|Hex].
  { rewrite decide_True; [done|]. apply Exists_exists in Hex as (j & Hj & Hc & Hn).
    destruct (I2 j Hj Hn) as [-> ->]. by right. }
  destruct (decide (Exists (fun j => c j = true /\ nm sg i j = e) l)) as [Hex'|Hex'].
  { rewrite decide_True; [done|]. apply Exists_exists in Hex' as (j & Hj & Hc & Hn).
    destruct (I1 j Hj Hn) as [-> ->]. by left. }
  rewrite decide_False; [done|]. intros [(-> & Hb' & Hc)|(-> & Ha' & Hc)].
  - apply Hex'. apply Exists_exists. exists b. split_and!; [done|done|by apply nm_Some].
  - apply Hex. apply Exists_exists. exists a. split_and!; [done|done|by apply nm_Some].
Qed.

Lemma connect_spec i to net sg :
  grp_wf sg -> i < N sg -> (forall j, j ∈ to -> j < N sg) ->
  exists net', connect i to (net, sg) = Ret (net', set_connected sg i true) /\
    forall a b, a < N sg -> b < N sg ->
      en (net', set_connected sg i true) a b =
      if decide ((a = i /\ b ∈ to /\ conn (set_connected sg i true) b = true) \/
                 (b = i /\ a ∈ to /\ conn (set_connected sg i true) a = true)) then true
      else en (net, sg) a b.
Proof.
  intros Hwf Hi Hto. set (sg' := set_connected sg i true).
  pose proof (wf_set_connected sg i true Hwf) as Hwf'. fold sg' in Hwf'.
  destruct (wf_lookup sg i Hwf Hi) as (s & Hs & Hnames).
  destruct (lookup_lt_is_Some_2 (connected sg) i) as [c Hc]; [by rewrite (wf_conn sg Hwf)|].
  assert (forall j, j ∈ to -> exists bj, connected sg' !! j = Some bj /\ conn sg' j = bj) as Hcj.
  { intros j Hj. destruct (lookup_lt_is_Some_2 (connected sg') j) as [bj Hbj].
    - rewrite (wf_conn sg' Hwf'). by apply Hto.
    - exists bj. split; [done|]. unfold conn. by rewrite Hbj. }
  destruct (enable_loop (fun net j => b ← IsConnected sg' j;
      if (b : bool) then e ← idx (endNames s) j; Ret (Enable e true net) else Ret net)
    (conn sg') (nm sg i) true to net) as (net1 & E1 & H1 & D1).
  { intros net0 j Hj. destruct (Hcj j Hj) as (bj & Hbj & ->). unfold IsConnected. rewrite (idx_Some _ _ _ Hbj). simpl.
    destruct bj; [|done]. destruct (Hnames j (Hto j Hj)) as (e & He & Hn). rewrite (idx_Some _ _ _ He). simpl.
    by rewrite (nm_Some _ _ _ _ Hn). }
  destruct (enable_loop (fun net j => b ← IsConnected sg' j;
      if (b : bool) then t ← idx (srvs sg') j; e ← idx (endNames t) i; Ret (Enable e true net) else Ret net)
    (conn sg') (fun j => nm sg j i) true to net1) as (net2 & E2 & H2 & D2).
  { intros net0 j Hj. destruct (Hcj j Hj) as (bj & Hbj & ->). unfold IsConnected. rewrite (idx_Some _ _ _ Hbj). simpl.
    destruct bj; [|done]. destruct (wf_lookup sg j Hwf (Hto j Hj)) as (t & Ht & Htn).
    rewrite (idx_Some _ _ _ Ht). simpl. destruct (Htn i Hi) as (e & He & Hn). rewrite (idx_Some _ _ _ He). simpl.
    by rewrite (nm_Some _ _ _ _ Hn). }
  exists net2. split.
  - unfold connect. rewrite (idx_Some _ _ _ Hc). simpl. rewrite (idx_Some _ _ _ Hs). simpl.
    unfold Server_connect. fold sg'. rewrite E1. simpl. simpl in E2. rewrite E2. done.
  - intros a b Ha Hb. exact (mesh_loops sg i true to net net1 net2 (conn sg') a b Hwf Hi Hto Ha Hb H1 H2).
Qed.

Lemma disconnect_spec i from net sg :
  grp_wf sg -> i < N sg -> (forall j, j ∈ from -> j < N sg) ->
  exists net', disconnect i from (net, sg) = Ret (net', set_connected sg i false) /\ ends net' = ends net /\
    forall a b, a < N sg -> b < N sg ->
      en (net', set_connected sg i false) a b =
      if decide ((a = i /\ b ∈ from) \/ (b = i /\ a ∈ from)) then false else en (net, sg) a b.
Proof.
  intros Hwf Hi Hfrom. destruct (wf_lookup sg i Hwf Hi) as (s & Hs & Hnames).
  destruct (lookup_lt_is_Some_2 (connected sg) i) as [c Hc]; [by rewrite (wf_conn sg Hwf)|].
  destruct (enable_loop (fun net j => e ← idx (endNames s) j; Ret (Enable e false net))
    (fun _ => true) (nm sg i) false from net) as (net1 & E1 & H1 & D1).
  { intros net0 j Hj. destruct (Hnames j (Hfrom j Hj)) as (e & He & Hn). rewrite (idx_Some _ _ _ He). simpl.
    by rewrite (nm_Some _ _ _ _ Hn). }
  destruct (enable_loop (fun net j => t ← idx (srvs sg) j; e ← idx (endNames t) i; Ret (Enable e false net))
    (fun _ => true) (fun j => nm sg j i) false from net1) as (net2 & E2 & H2 & D2).
  { intros net0 j Hj. destruct (wf_lookup sg j Hwf (Hfrom j Hj)) as (t & Ht & Htn).
    rewrite (idx_Some _ _ _ Ht). simpl. destruct (Htn i Hi) as (e & He & Hn). rewrite (idx_Some _ _ _ He). simpl.
    by rewrite (nm_Some _ _ _ _ Hn). }
  exists net2. split; [|split; [by rewrite D2, D1|]].
  - unfold disconnect. rewrite (idx_Some _ _ _ Hc). simpl. rewrite (idx_Some _ _ _ Hs). simpl.
    unfold Server_disconnect. rewrite E1. simpl. rewrite E2. done.
  - intros a b Ha Hb. change (en (net2, set_connected sg i false) a b) with (en (net2, sg) a b).
    rewrite (mesh_loops sg i false from net net1 net2 (fun _ => true) a b Hwf Hi Hfrom Ha Hb H1 H2).
    apply decide_ext. naive_solver.
Qed.

(** ** Partitioning the group *)

#[local] Arguments connect : simpl never.
#[local] Arguments disconnect : simpl never.

(** Where the loop over one side stands once [done] is processed. *)
Record side_inv (others : list nat) (st0 : state) (done : list nat) (st : state) : Prop := {
  si_srvs : srvs st.2 = srvs st0.2;
  si_len : length (connected st.2) = length (connected st0.2);
  si_conn : forall k, k ∈ done -> conn st.2 k = true;
  si_conn' : forall k, k ∉ done -> conn st.2 k = conn st0.2 k;
  si_in : forall a b, a ∈ done -> b ∈ done -> en st a b = true;
  si_cross : forall a b, a ∈ done -> b ∈ others -> en st a b = false /\ en st b a = false;
  si_out : forall a b, a < N st0.2 -> b < N st0.2 -> a ∉ done -> b ∉ done -> en st a b = en st0 a b }.

Lemma name_srvs sg sg' : srvs sg' = srvs sg -> forall a b, name sg' a b = name sg a b.
Proof. unfold name. by intros ->. Qed.

Lemma wf_srvs sg sg' :
  srvs sg' = srvs sg -> length (connected sg') = length (connected sg) -> grp_wf sg -> grp_wf sg'.
Proof.
  intros Hs Hl [H1 H2 H3]. pose proof (name_srvs _ _ Hs) as Hn.
  assert (N sg' = N sg) as HN by (unfold N; by rewrite Hs).
  split; [by rewrite Hl, HN|intros a b; rewrite HN, Hn; apply H2|].
  intros a b a' b' e. rewrite !Hn. apply H3.
Qed.

Lemma conn_set sg i v k : grp_wf sg -> i < N sg ->
  conn (set_connected sg i v) k = if decide (k = i) then v else conn sg k.
Proof.
  intros Hwf Hi. unfold conn. simpl. case_decide as Hk.
  - subst. rewrite list_lookup_insert_eq; [done|]. by rewrite (wf_conn sg Hwf).
  - by rewrite list_lookup_insert_ne.
Qed.

Lemma side_step ps others st0 done i st :
  grp_wf st0.2 -> (forall j, j ∈ ps ++ others -> j < N st0.2) -> (forall j, j ∈ ps -> j ∉ others) ->
  i ∈ ps -> (forall j, j ∈ done -> j ∈ ps) -> side_inv others st0 done st ->
  exists st', (st ← disconnect i others st; connect i ps st) = Ret st' /\ side_inv others st0 (done ++ [i]) st'.
Proof.
  intros Hwf0 Hlt Hdis Hi Hdone [Hs Hl Hc Hc' Hin Hx Hout]. destruct st as [net sg], st0 as [net0 sg0]. simpl in *.
  assert (N sg = N sg0) as HN by (unfold N; by rewrite Hs).
  pose proof (wf_srvs _ _ Hs Hl Hwf0) as Hwf.
  assert (forall j, j ∈ ps -> j < N sg) as Hps by (intros j Hj; rewrite HN; apply Hlt, elem_of_app; by left).
  assert (forall j, j ∈ others -> j < N sg) as Hot by (intros j Hj; rewrite HN; apply Hlt, elem_of_app; by right).
  destruct (disconnect_spec i others net sg Hwf (Hps i Hi) Hot) as (net1 & -> & _ & H1). simpl.
  destruct (connect_spec i ps net1 (set_connected sg i false) (wf_set_connected _ _ _ Hwf) (Hps i Hi) Hps)
    as (net2 & -> & H2).
  eexists. split; [done|]. set (sg2 := set_connected (set_connected sg i false) i true) in *.
  assert (forall k, k ∈ done ++ [i] -> conn sg2 k = true) as Hc2.
  { intros k Hk. unfold sg2. rewrite conn_set; [|by apply wf_set_connected|by apply Hps].
    case_decide as Hki; [done|]. rewrite conn_set; [|done|by apply Hps]. rewrite decide_False by done.
    apply Hc. apply elem_of_app in Hk as [?|?%list_elem_of_singleton]; done. }
  assert (forall k, k ∈ done ++ [i] -> k ∈ ps) as Hd2.
  { intros k [?| ->%list_elem_of_singleton]%elem_of_app; auto. }
  split; simpl.
  - done.
  - by rewrite !length_insert.
  - exact Hc2.
  - intros k Hk. rewrite elem_of_app, list_elem_of_singleton in Hk. unfold sg2.
    rewrite !conn_set by (try apply wf_set_connected; auto). rewrite !decide_False by tauto. apply Hc'. tauto.
  - intros a b Ha Hb. rewrite H2 by (apply Hps; auto). case_decide as Hcd; [done|].
    rewrite H1 by (apply Hps; auto).
    assert (a <> i) as Hai by (intros ->; apply Hcd; left; auto).
    assert (b <> i) as Hbi by (intros ->; apply Hcd; right; auto).
    rewrite decide_False by naive_solver.
    apply elem_of_app in Ha as [?|?%list_elem_of_singleton]; [|done].
    apply elem_of_app in Hb as [?|?%list_elem_of_singleton]; [|done]. by apply Hin.
  - intros a b Ha Hb. assert (b ∉ ps) as Hbp by (intros ?; by eapply Hdis).
    assert (a < N sg) as Hal by (apply Hps; auto). pose proof (Hot b Hb) as Hbl.
    assert (b <> i) as Hbi by congruence.
    rewrite !H2, !H1 by done. rewrite (decide_False (P := (a = i /\ b ∈ ps /\ _) \/ _)) by naive_solver.
    rewrite (decide_False (P := (b = i /\ a ∈ ps /\ _) \/ _)) by naive_solver.
    destruct (decide (a = i)) as [->|Hai]; [rewrite !decide_True by naive_solver; done|].
    rewrite !decide_False by naive_solver.
    apply elem_of_app in Ha as [?|?%list_elem_of_singleton]; [|done]. by apply Hx.
  - intros a b Ha Hb Hna Hnb.
    assert (a <> i /\ b <> i) as [Hai Hbi].
    { split; intros ->; [apply Hna|apply Hnb]; apply elem_of_app; right; by apply list_elem_of_singleton. }
    rewrite <- HN in Ha, Hb. rewrite H2, H1 by done. rewrite !decide_False by naive_solver.
    rewrite HN in Ha, Hb.
    apply Hout; [done|done|intros ?; apply Hna|intros ?; apply Hnb]; apply elem_of_app; by left.
Qed.

Lemma partition_side_spec ps others st0 :
  grp_wf st0.2 -> (forall j, j ∈ ps ++ others -> j < N st0.2) -> (forall j, j ∈ ps -> j ∉ others) ->
  exists st, partition_side ps others st0 = Ret st /\ side_inv others st0 ps st.
Proof.
  intros Hwf Hlt Hdis.
  assert (forall l, (forall j, j ∈ l -> j ∈ ps) ->
    exists st, foldo (fun st i => st ← disconnect i others st; connect i ps st) st0 l = Ret st /\
      side_inv others st0 l st) as H; [|by apply H].
  induction l as [|i l IH] using rev_ind; intros Hl.
  - exists st0. split; [done|]. split; try done; intros *; inversion 1.
  - destruct IH as (st & E & Hinv). { intros j Hj. apply Hl, elem_of_app. by left. }
    destruct (side_step ps others st0 l i st Hwf Hlt Hdis) as (st' & E' & Hinv'); [| |done|].
    + apply Hl, elem_of_app. right. by apply list_elem_of_singleton.
    + intros j Hj. apply Hl, elem_of_app. by left.
    + exists st'. split; [|done]. rewrite foldo_app, E. simpl. rewrite E'. done.
Qed.

(** *** A freshly made group is well formed and fully disconnected *)

Lemma MakeEnd_fresh e net : e ∉ ends net ->
  exists net', MakeEnd e net = Ret net' /\ ends net' = {[e]} ∪ ends net /\
    forall e', is_enabled net' e' = if decide (e = e') then false else is_enabled net e'.
Proof.
  intros He. unfold MakeEnd. rewrite bool_decide_false by done. eexists. split; [done|]. split; [done|].
  intros e'. unfold is_enabled. simpl. case_decide; [subst; by rewrite lookup_insert_eq|by rewrite lookup_insert_ne].
Qed.

Lemma makeServer_spec g names net :
  NoDup names -> (forall e, e ∈ names -> e ∉ ends net) ->
  exists net', makeServer g names net = Ret (net', mkSrv names None None) /\
    ends net' = list_to_set names ∪ ends net /\
    forall e, is_enabled net' e = if decide (e ∈ names) then false else is_enabled net e.
Proof.
  unfold makeServer. intros Hnd Hf.
  assert (forall k, exists net', foldo (fun net jn => net' ← MakeEnd jn.2 net; Ret (Connect jn.2 (ServerName g jn.1) net'))
      net (imap (fun j n => (k + j, n)) names) = Ret net' /\ ends net' = list_to_set names ∪ ends net /\
    forall e, is_enabled net' e = if decide (e ∈ names) then false else is_enabled net e) as H.
  { revert net Hnd Hf. induction names as [|n names IH]; intros net Hnd Hf k.
    - exists net. split_and!; [done|simpl; set_solver|done].
    - apply NoDup_cons in Hnd as [Hn Hnd]. cbn [imap foldo].
      destruct (MakeEnd_fresh n net) as (net1 & E1 & He1 & H1); [apply Hf, list_elem_of_here|].
      cbn [snd]. rewrite E1. cbn.
      destruct (IH (Connect n (ServerName g (k + 0)) net1) Hnd) with (k := S k) as (net2 & E2 & He2 & H2).
      { intros e He. simpl. rewrite He1. pose proof (Hf e (list_elem_of_further _ _ _ He)). set_solver. }
      exists net2. split_and!.
      + rewrite <- E2. f_equal. apply imap_ext. intros j x _. unfold compose. simpl. f_equal. lia.
      + rewrite He2. simpl. rewrite He1. set_solver.
      + intros e. rewrite H2. change (is_enabled (Connect n (ServerName g (k + 0)) net1) e) with (is_enabled net1 e).
        rewrite H1. destruct (decide (e ∈ n :: names)) as [Hin|Hin]; rewrite elem_of_cons in Hin;
          destruct (decide (e ∈ names)); destruct (decide (n = e)); try done; naive_solver. }
  destruct (H 0) as (net' & E & He & Hen). exists net'. cbn in E. by rewrite E.
Qed.

Lemma NoDup_concat_inj {A} (ls : list (list A)) a b a' b' l l' x :
  NoDup (mjoin ls) -> ls !! a = Some l -> l !! b = Some x -> ls !! a' = Some l' -> l' !! b' = Some x ->
  a = a' /\ b = b'.
Proof.
  revert a a'. induction ls as [|l0 ls IH]; intros a a' Hnd; [done|]. cbn in Hnd.
  apply NoDup_app in Hnd as (H0 & Hd & Hnd). intros Ha Hb Ha' Hb'.
  assert (forall k m, ls !! k = Some m -> x ∈ m -> x ∈ mjoin ls) as Hj.
  { intros k m Hm Hx. apply list_elem_of_join. exists m. split; [done|]. by apply list_elem_of_lookup_2 in Hm. }
  destruct a as [|a], a' as [|a']; simpl in Ha, Ha'; simplify_eq.
  - split; [done|]. exact (NoDup_lookup _ _ _ _ H0 Hb Hb').
  - exfalso. eapply (Hd x), Hj; [by apply list_elem_of_lookup_2 in Hb|done|by apply list_elem_of_lookup_2 in Hb'].
  - exfalso. eapply (Hd x), Hj; [by apply list_elem_of_lookup_2 in Hb'|done|by apply list_elem_of_lookup_2 in Hb].
  - destruct (IH a a' Hnd Ha Hb Ha' Hb'). by subst.
Qed.

(** The ends of a group, row by row, are distinct and form a square. *)
Lemma grp_wf_intro sg :
  length (connected sg) = N sg -> Forall (fun s => length (endNames s) = N sg) (srvs sg) ->
  NoDup (mjoin (endNames <$> srvs sg)) -> grp_wf sg.
Proof.
  intros Hc Hl Hnd. split; [done| |].
  - intros a b Ha Hb. destruct (lookup_lt_is_Some_2 (srvs sg) a Ha) as [s Hs]. unfold name. rewrite Hs. cbn.
    apply lookup_lt_is_Some_2. by rewrite (Forall_lookup_1 _ _ _ _ Hl Hs).
  - intros a b a' b' e. unfold name. intros (s & Hs & Hb)%bind_Some (s' & Hs' & Hb')%bind_Some.
    apply (NoDup_concat_inj (endNames <$> srvs sg) a b a' b' (endNames s) (endNames s') e Hnd);
      [by rewrite list_lookup_fmap, Hs|done|by rewrite list_lookup_fmap, Hs'|done].
Qed.

Lemma makeSrvGrp_spec g names net :
  NoDup (mjoin names) -> (forall e, e ∈ mjoin names -> e ∉ ends net) ->
  (forall ns, ns ∈ names -> length ns = length names) ->
  exists net' sg, makeSrvGrp g names net = Ret (net', sg) /\ grp_wf sg /\ N sg = length names /\
    forall a b, en (net', sg) a b = false.
Proof.
  intros Hnd Hf Hlen.
  assert (forall net acc, NoDup (mjoin names) -> (forall e, e ∈ mjoin names -> e ∉ ends net) ->
    exists net', foldo (fun (r : Network * list Srv) ns => s ← makeServer g ns r.1; Ret (s.1, r.2 ++ [s.2])) (net, acc) names
      = Ret (net', acc ++ ((fun ns => mkSrv ns None None) <$> names)) /\
      forall e, is_enabled net' e = if decide (e ∈ mjoin names) then false else is_enabled net e) as Hloop.
  { clear. induction names as [|ns names IH]; intros net acc Hnd Hf.
    - exists net. simpl. split; [by rewrite app_nil_r|done].
    - cbn in Hnd, Hf. apply NoDup_app in Hnd as (H0 & Hd & Hnd).
      destruct (makeServer_spec g ns net H0) as (net1 & E1 & He1 & H1).
      { intros e He. apply Hf, elem_of_app. by left. }
      cbn [foldo fst snd]. rewrite E1. cbn [mbind outcome_bind fst snd].
      destruct (IH net1 (acc ++ [mkSrv ns None None]) Hnd) as (net2 & E2 & H2).
      { intros e He. rewrite He1. assert (e ∉ ends net) by (apply Hf, elem_of_app; by right).
        assert (e ∉ ns) by (intros ?; by eapply Hd). set_solver. }
      exists net2. split; [rewrite E2, <- app_assoc; done|]. intros e. rewrite H2, H1. cbn.
      destruct (decide (e ∈ ns ++ mjoin names)) as [Hin|Hin]; rewrite elem_of_app in Hin;
        destruct (decide (e ∈ mjoin names)); destruct (decide (e ∈ ns)); try done; naive_solver. }
  destruct (Hloop net [] Hnd Hf) as (net' & E & Hen).
  exists net', (mkGrp g ((fun ns => mkSrv ns None None) <$> names) (replicate (length names) false)).
  split_and!.
  - unfold makeSrvGrp. rewrite E. done.
  - apply grp_wf_intro; unfold N; cbn; rewrite ?length_fmap, ?length_replicate; [done| |].
    + apply Forall_fmap, Forall_forall. exact Hlen.
    + rewrite <- list_fmap_compose. by rewrite (list_fmap_ext (endNames ∘ (fun ns => mkSrv ns None None)) id), list_fmap_id.
  - unfold N. cbn. by rewrite length_fmap.
  - intros a b. unfold en, name. cbn [fst snd srvs]. rewrite list_lookup_fmap.
    destruct (names !! a) as [ns|] eqn:Hns; [|done]. cbn. destruct (ns !! b) as [e|] eqn:Hb; [|done].
    rewrite Hen, decide_True; [done|]. apply list_elem_of_join. exists ns.
    split; by eapply list_elem_of_lookup_2.
Qed.

Lemma Partition_mesh p1 p2 net sg :
  grp_wf sg -> (forall j, j ∈ p1 ++ p2 <-> j < N sg) -> (forall j, j ∈ p1 -> j ∉ p2) ->
  exists net' sg', Partition p1 p2 (net, sg) = Ret (net', sg') /\ srvs sg' = srvs sg /\ grp_wf sg' /\
    (forall k, k < N sg -> conn sg' k = true) /\
    (forall a b, a < N sg -> b < N sg -> en (net', sg') a b = bool_decide (a ∈ p1 <-> b ∈ p1)).
Proof.
  intros Hwf Hcov Hdis.
  destruct (partition_side_spec p1 p2 (net, sg) Hwf) as (st1 & E1 & I1); [by intros j; rewrite Hcov|done|].
  pose proof (wf_srvs _ _ (si_srvs _ _ _ _ I1) (si_len _ _ _ _ I1) Hwf) as Hwf1.
  assert (N st1.2 = N sg) as HN by (unfold N; by rewrite (si_srvs _ _ _ _ I1)).
  destruct (partition_side_spec p2 p1 st1 Hwf1) as ([net' sg'] & E2 & I2).
  { intros j Hj. rewrite HN. apply Hcov. rewrite elem_of_app in *. tauto. }
  { intros j H2 H1. by apply (Hdis j). }
  assert (forall k, k < N sg -> k ∈ p1 \/ k ∈ p2) as Hside by (intros k Hk; by apply elem_of_app, Hcov).
  exists net', sg'. split; [|split; [|split; [|split]]].
  - unfold Partition. rewrite E1. exact E2.
  - by rewrite (si_srvs _ _ _ _ I2 : srvs sg' = _), (si_srvs _ _ _ _ I1).
  - exact (wf_srvs _ _ (si_srvs _ _ _ _ I2) (si_len _ _ _ _ I2) Hwf1).
  - intros k Hk. destruct (Hside k Hk) as [H|H]; [|by apply (si_conn _ _ _ _ I2)].
    destruct (decide (k ∈ p2)) as [H2|H2]; [by apply (si_conn _ _ _ _ I2)|].
    rewrite (si_conn' _ _ _ _ I2) by done. by apply (si_conn _ _ _ _ I1).
  - intros a b Ha Hb.
    destruct (Hside a Ha) as [H1|H2], (Hside b Hb) as [H3|H4].
    + rewrite bool_decide_true by tauto.
      rewrite (si_out _ _ _ _ I2) by (rewrite ?HN; auto). by apply (si_in _ _ _ _ I1).
    + assert (b ∉ p1) by (intros ?; by apply (Hdis b)). rewrite bool_decide_false by tauto.
      by apply (si_cross _ _ _ _ I2 b a).
    + assert (a ∉ p1) by (intros ?; by apply (Hdis a)). rewrite bool_decide_false by tauto.
      by apply (si_cross _ _ _ _ I2 a b).
    + assert (a ∉ p1) by (intros ?; by apply (Hdis a)). assert (b ∉ p1) by (intros ?; by apply (Hdis b)).
      rewrite bool_decide_true by tauto. by apply (si_in _ _ _ _ I2).
Qed.

(** C33: partitioning a group into two disjoint sides that cover it leaves every
    server marked connected and the end from server [a] to server [b] enabled
    exactly when [a] and [b] are on the same side, whatever was enabled before;
    no index goes out of range. *)
Theorem Partition_isolates p1 p2 net sg :
  grp_wf sg -> (forall j, j ∈ p1 ++ p2 <-> j < N sg) -> (forall j, j ∈ p1 -> j ∉ p2) ->
  exists net' sg', Partition p1 p2 (net, sg) = Ret (net', sg') /\ srvs sg' = srvs sg /\
    (forall k, k < N sg -> conn sg' k = true) /\
    (forall a b, a < N sg -> b < N sg -> en (net', sg') a b = bool_decide (a ∈ p1 <-> b ∈ p1)).
Proof.
  intros Hwf Hcov Hdis. destruct (Partition_mesh p1 p2 net sg Hwf Hcov Hdis) as (net' & sg' & ? & ? & _ & ?).
  by exists net', sg'.
Qed.

(** A group of three servers. *)
Definition demo_names : list (list string) := [["a0"; "a1"; "a2"]; ["b0"; "b1"; "b2"]; ["c0"; "c1"; "c2"]].
Definition demo_state : state :=
  match makeSrvGrp 0 demo_names MakeNetwork with Ret st => st | _ => (MakeNetwork, mkGrp 0 [] []) end.

Lemma demo_wf : grp_wf demo_state.2.
Proof.
  destruct (makeSrvGrp_spec 0 demo_names MakeNetwork) as (net & sg & E & Hwf & _).
  - by apply (bool_decide_unpack _); vm_compute.
  - intros e _. simpl. set_solver.
  - intros ns Hns. repeat (apply elem_of_cons in Hns as [->|Hns]; [done|]). inversion Hns.
  - unfold demo_state. by rewrite E.
Qed.

Lemma Partition_isolates_witness : exists net' sg',
  Partition [0; 1] [2] demo_state = Ret (net', sg') /\ en (net', sg') 0 1 = true /\ en (net', sg') 1 2 = false.
Proof.
  destruct (Partition_isolates [0; 1] [2] demo_state.1 demo_state.2 demo_wf) as (net' & sg' & E & _ & _ & Hen).
  - intros j. assert (N demo_state.2 = 3) as -> by by vm_compute.
    rewrite elem_of_app, !elem_of_cons, !elem_of_nil. lia.
  - intros j Hj. rewrite !elem_of_cons, !elem_of_nil in *. lia.
  - exists net', sg'. rewrite <- surjective_pairing in E. split; [exact E|].
    split; (rewrite Hen; [by vm_compute|vm_compute; lia|vm_compute; lia]).
Defined.

(** *** Choosing the sides *)

(** The servers other than the leader; [place] puts them in the two zeroed
    slices seen as one. *)
Definition others (l : nat) (s : list nat) : list nat := filter (fun i => i <> l) s.

Lemma insert_flat (p1 p2 : list nat) j x : j < length (p1 ++ p2) ->
  <[j := x]> (p1 ++ p2) = if j <? length p1 then <[j := x]> p1 ++ p2 else p1 ++ <[j - length p1 := x]> p2.
Proof.
  intros _. destruct (Nat.ltb_spec j (length p1)); [by rewrite insert_app_l|].
  replace j with (length p1 + (j - length p1)) at 1 by lia. by rewrite insert_app_r.
Qed.

Lemma insert_first_zero (xs : list nat) k x : 0 < k ->
  <[length xs := x]> (xs ++ replicate k 0) = (xs ++ [x]) ++ replicate (k - 1) 0.
Proof.
  intros Hk. destruct k as [|k]; [lia|]. replace (S k - 1) with k by lia.
  rewrite <- (Nat.add_0_r (length xs)), insert_app_r, <- app_assoc. done.
Qed.

Lemma others_cons l i s : others l (i :: s) = if decide (i = l) then others l s else i :: others l s.
Proof. unfold others. rewrite filter_cons. repeat case_decide; tauto. Qed.

Lemma place_eq l p1 p2 j i : place l (p1, p2, j) i =
  if decide (i = l) then Ret (p1, p2, j)
  else if j <? length p1 then Ret (<[j := i]> p1, p2, S j)
  else _ ← idx p2 (j - length p1); Ret (p1, <[j - length p1 := i]> p2, S j).
Proof. done. Qed.

Lemma place_loop l a b s xs k p1 p2 :
  p1 ++ p2 = xs ++ replicate k 0 -> length p1 = a -> length p2 = b -> length (others l s) <= k ->
  exists p1' p2', foldo (place l) (p1, p2, length xs) s = Ret (p1', p2', length xs + length (others l s)) /\
    p1' ++ p2' = xs ++ others l s ++ replicate (k - length (others l s)) 0 /\ length p1' = a /\ length p2' = b.
Proof.
  revert xs k p1 p2. induction s as [|i s IH]; intros xs k p1 p2 Hf Ha Hb Hk.
  { exists p1, p2. simpl. rewrite Nat.add_0_r, Nat.sub_0_r. done. }
  cbn [foldo]. rewrite others_cons in *. rewrite place_eq. destruct (decide (i = l)) as [->|Hi].
  { cbn [mbind outcome_bind]. by apply IH. }
  cbn [length] in *.
  assert (length (p1 ++ p2) = length xs + k) as Hl by (rewrite Hf, length_app, length_replicate; done).
  pose proof (insert_flat p1 p2 (length xs) i ltac:(lia)) as Hins.
  rewrite Hf, insert_first_zero in Hins by lia. rewrite length_app in Hl.
  destruct (Nat.ltb_spec (length xs) (length p1)) as [Hlt|Hge]; [|
    destruct (lookup_lt_is_Some_2 p2 (length xs - length p1)) as [y Hy]; [lia|rewrite (idx_Some _ _ _ Hy)]];
  cbn [mbind outcome_bind].
  - edestruct (IH (xs ++ [i]) (k - 1) (<[length xs := i]> p1) p2) as (p1' & p2' & E & Hp & H1 & H2);
      [done|by rewrite length_insert|done|lia|].
    exists p1', p2'. rewrite length_app, Nat.add_1_r in E. rewrite E. split; [f_equal; f_equal; lia|].
    rewrite Hp, <- app_assoc. split; [|done]. simpl. do 4 f_equal. lia.
  - edestruct (IH (xs ++ [i]) (k - 1) p1 (<[length xs - length p1 := i]> p2)) as (p1' & p2' & E & Hp & H1 & H2);
      [done|done|by rewrite length_insert|lia|].
    exists p1', p2'. rewrite length_app, Nat.add_1_r in E. rewrite E. split; [f_equal; f_equal; lia|].
    rewrite Hp, <- app_assoc. split; [|done]. simpl. do 4 f_equal. lia.
Qed.

Lemma length_others l n s : l < n -> s <= l -> length (others l (seq s (n - s))) = n - s - 1.
Proof.
  intros Hl Hs. assert (exists d, l = s + d /\ d < n - s) as (d & -> & Hd) by (exists (l - s); lia). clear Hl Hs.
  remember (n - s) as m eqn:Em. clear Em n. revert d s Hd. induction m as [|m IH]; intros d s Hd; [lia|].
  cbn [seq]. rewrite others_cons. destruct d as [|d].
  - rewrite decide_True by lia. assert (others (s + 0) (seq (S s) m) = seq (S s) m) as ->.
    { clear. assert (forall t, s < t -> others (s + 0) (seq t m) = seq t m) as H; [|apply H; lia].
      induction m as [|m IH]; intros t Ht; [done|]. cbn [seq]. rewrite others_cons, decide_False by lia.
      by rewrite IH by lia. }
    rewrite length_seq. lia.
  - rewrite decide_False by lia. cbn [length]. replace (s + S d) with (S s + d) by lia. rewrite IH by lia. lia.
Qed.

Lemma insert_last {A} (p2 : list A) k x : length p2 = S k -> exists p y, p2 = p ++ [y] /\ <[k := x]> p2 = p ++ [x].
Proof.
  intros Hl. destruct p2 as [|y p _] using rev_ind; [done|]. exists p, y. split; [done|].
  rewrite length_app in Hl. cbn in Hl. replace k with (length p + 0) by lia. by rewrite insert_app_r.
Qed.

(** [MakePartition] puts the [n/2 + 1] first servers other than the leader in
    the first slice and the leader last in the second, of length [n/2]: for an
    odd [n] the two slices are a partition of the servers; for an even [n] the
    second slice has server 0 in the place before the leader, which no server
    was written to, so that server 0 is on both sides or twice on one; and for
    [n = 1] the store of the leader is out of range. *)
Theorem MakePartition_spec n l : l < n ->
  if decide (n = 1) then is_ret (MakePartition n l) = false
  else exists p1 p2, MakePartition n l = Ret (p1, p2) /\ length p1 = n / 2 + 1 /\ length p2 = n / 2 /\
    last p2 = Some l /\
    p1 ++ p2 = filter (fun i => i <> l) (seq 0 n) ++ (if Nat.even n then [0] else []) ++ [l].
Proof.
  intros Hl. case_decide as Hn1; [subst; replace l with 0 by lia; done|].
  pose proof (Nat.div_mod_eq n 2) as Hdm. pose proof (Nat.mod_upper_bound n 2 ltac:(lia)) as Hm.
  pose proof (length_others l n 0 Hl ltac:(lia)) as Hlen. rewrite Nat.sub_0_r in Hlen.
  destruct (place_loop l (n / 2 + 1) (n / 2) (seq 0 n) [] (n / 2 + 1 + n / 2)
    (replicate (n / 2 + 1) 0) (replicate (n / 2) 0)) as (p1 & p2 & E & Hp & H1 & H2);
    [symmetry; apply replicate_add|by rewrite length_replicate|by rewrite length_replicate|lia|].
  unfold MakePartition. cbn [length] in E. rewrite E. cbn [mbind outcome_bind]. rewrite H2.
  destruct (n / 2) as [|k] eqn:Hk; [lia|].
  destruct (insert_last p2 k l H2) as (p & y & -> & Hins). rewrite Hins.
  exists p1, (p ++ [l]). split_and!; [done|done|by rewrite length_app in *|by rewrite last_snoc|].
  rewrite app_nil_l, Hlen, app_assoc in Hp. rewrite !app_assoc. f_equal. fold (others l (seq 0 n)).
  destruct (Nat.even n) eqn:He.
  - apply Nat.even_spec in He as [m Hm'].
    replace (S k + 1 + S k - (n - 1)) with 2 in Hp by lia. cbn in Hp.
    change (others l (seq 0 n) ++ [0; 0]) with (others l (seq 0 n) ++ [0] ++ [0]) in Hp. rewrite app_assoc in Hp.
    by apply app_inj_tail in Hp as [-> _].
  - assert (Nat.odd n = true) as [m Hm']%Nat.odd_spec by by rewrite <- Nat.negb_even, He.
    replace (S k + 1 + S k - (n - 1)) with 1 in Hp by lia. cbn in Hp.
    apply app_inj_tail in Hp as [-> _]. by rewrite app_nil_r.
Qed.

Lemma MakePartition_spec_witness :
  (exists p1 p2, MakePartition 5 1 = Ret (p1, p2) /\ length p1 = 3 /\ last p2 = Some 1 /\
     p1 ++ p2 = [0; 2; 3; 4; 1]) /\
  MakePartition 4 0 = Ret ([1; 2; 3], [0; 0]).
Proof.
  split; [|by vm_compute]. destruct (MakePartition_spec 5 1) as (p1 & p2 & H & H1 & _ & H3 & H4); [lia|].
  exists p1, p2. by rewrite H4.
Defined.

(** *** Shuffling handles *)

Lemma swap_Permutation {A} i j (l : list A) : swap i j l ≡ₚ l.
Proof.
  unfold swap. destruct (l !! i) as [x|] eqn:Hx; [|done]. destruct (l !! j) as [y|] eqn:Hy; [|done].
  assert ((<[i:=y]> l) !! j = Some y) as Hy'.
  { destruct (decide (i = j)) as [->|]; [|by rewrite list_lookup_insert_ne].
    apply list_lookup_insert_eq. by eapply lookup_lt_Some. }
  assert (forall (l : list A) i x y, l !! i = Some x -> <[i:=y]> l ≡ₚ y :: delete i l) as Hi.
  { clear. intros l i x y Hx. pose proof (lookup_lt_Some _ _ _ Hx).
    rewrite (delete_Permutation (<[i:=y]> l) i y) by by apply list_lookup_insert_eq.
    f_equiv. rewrite !delete_take_drop, take_insert_ge, drop_insert_lt by lia. done. }
  etrans; [apply (Hi _ j y x Hy')|]. etrans; [|symmetry; apply (delete_Permutation l i x Hx)].
  apply Permutation_skip, (Permutation_cons_inv (a := y)).
  rewrite <- (delete_Permutation _ j y Hy'). by apply (Hi l i x y).
Qed.

(** shuffling the handles a clerk gets keeps them all, each as often as it
    was given, whatever the draws. *)
Theorem random_handles_Permutation {A} (draws : nat -> nat) (kvh : list A) : random_handles draws kvh ≡ₚ kvh.
Proof.
  unfold random_handles. generalize (seq 0 (length kvh)). intros l. revert kvh.
  induction l as [|i l IH]; intros kvh; [done|]. cbn. by rewrite IH, swap_Permutation.
Qed.

(** *** Crash and restart *)

Lemma ShutdownServer_spec i net sg s :
  grp_wf sg -> srvs sg !! i = Some s ->
  exists net', ShutdownServer i (net, sg) =
      Ret (DeleteServer (ServerName (gid sg) i) net', set_srvs (set_connected sg i false) (<[i := shutdownServer s]> (srvs sg))) /\
    ends net' = ends net /\
    forall a b, a < N sg -> b < N sg -> en (net', sg) a b = if decide (a = i \/ b = i) then false else en (net, sg) a b.
Proof.
  intros Hwf Hs. pose proof (lookup_lt_Some _ _ _ Hs) as Hi. fold (N sg) in Hi.
  assert (forall j, j ∈ all sg <-> j < N sg) as Hall by (intros j; unfold all; rewrite elem_of_seq; lia).
  destruct (disconnect_spec i (all sg) net sg Hwf Hi) as (net' & E & He & H); [by intros j ?%Hall|].
  exists net'. split; [|split; [done|]].
  - unfold ShutdownServer. cbn [snd]. rewrite E. cbn [mbind outcome_bind].
    rewrite (idx_Some _ _ _ (Hs : srvs (set_connected sg i false) !! i = Some s)). done.
  - intros a b Ha Hb. change (en (net', sg) a b) with (en (net', set_connected sg i false) a b).
    rewrite H by done. apply decide_ext. rewrite !Hall. naive_solver.
Qed.

(** Replacing a server and its ends; [name_upd] gives the mesh's new names. *)
Lemma name_upd sg i s' c a b : i < N sg ->
  name (mkGrp (gid sg) (<[i := s']> (srvs sg)) c) a b = if decide (a = i) then endNames s' !! b else name sg a b.
Proof.
  intros Hi. unfold name. cbn. case_decide as Ha.
  - subst. by rewrite list_lookup_insert_eq.
  - by rewrite list_lookup_insert_ne.
Qed.

(** Two groups with the same names in the same network. *)
Lemma en_name net sg sg' a b : name sg' a b = name sg a b -> en (net, sg') a b = en (net, sg) a b.
Proof. unfold en. cbn. by intros ->. Qed.

Lemma daemon_save_name i rs sn sg a b : name (daemon_save i rs sn sg) a b = name sg a b.
Proof.
  unfold name, daemon_save. cbn. destruct (decide (a = i)) as [->|Ha].
  - rewrite list_lookup_alter_eq. by destruct (srvs sg !! i).
  - by rewrite list_lookup_alter_ne by done.
Qed.

Lemma daemon_save_wf i rs sn sg : grp_wf sg -> grp_wf (daemon_save i rs sn sg).
Proof.
  intros [H1 H2 H3]. assert (N (daemon_save i rs sn sg) = N sg) as HN by (unfold N; cbn; by rewrite length_alter).
  split; [by rewrite HN|intros a b; rewrite HN, daemon_save_name; apply H2|].
  intros *. rewrite !daemon_save_name. apply H3.
Qed.

Lemma StartServer_spec i names sid net sg s :
  srvs sg !! i = Some s -> NoDup names -> (forall e, e ∈ names -> e ∉ ends net) ->
  exists net', StartServer i names sid (net, sg) =
      Ret (AddServer (ServerName (gid sg) i) sid net',
           set_srvs sg (<[i := mkSrv names (Some (default MakePersister (saved s))) (Some (default MakePersister (saved s)))]> (srvs sg))) /\
    forall e, is_enabled net' e = if decide (e ∈ names) then false else is_enabled net e.
Proof.
  intros Hs Hnd Hf. destruct (makeServer_spec (gid sg) names net Hnd Hf) as (net' & E & _ & H).
  exists net'. split; [|done]. unfold StartServer, startServer. rewrite (idx_Some _ _ _ Hs).
  cbn [mbind outcome_bind]. rewrite E. done.
Qed.

(** a server that saved its state, crashed and was started again with fresh
    ends has the state it last saved, is registered as the new server object,
    and is cut off from every server, in both directions, until it is
    connected; while it is down its name leads nowhere, and the ends between
    the other servers do not change. *)
Theorem crash_restart net sg i s p rs sn names sid :
  grp_wf sg -> srvs sg !! i = Some s -> dc s = Some p ->
  NoDup names -> (forall e, e ∈ names -> e ∉ ends net /\ forall a b, name sg a b <> Some e) ->
  exists net1 sg1 net2 sg2 s2,
    ShutdownServer i (net, daemon_save i rs sn sg) = Ret (net1, sg1) /\
    server_at net1 (ServerName (gid sg) i) = None /\
    StartServer i names sid (net1, sg1) = Ret (net2, sg2) /\
    srvs sg2 !! i = Some s2 /\ dc s2 = Some (mkPersister rs sn) /\
    server_at net2 (ServerName (gid sg) i) = Some sid /\
    (forall j, j < N sg -> en (net2, sg2) i j = false /\ en (net2, sg2) j i = false) /\
    (forall a b, a < N sg -> b < N sg -> a <> i -> b <> i -> en (net2, sg2) a b = en (net, sg) a b).
Proof.
  intros Hwf Hs Hp Hnd Hfresh.
  pose proof (lookup_lt_Some _ _ _ Hs) as Hi. fold (N sg) in Hi.
  set (sg0 := daemon_save i rs sn sg). pose proof (daemon_save_wf i rs sn sg Hwf) as Hwf0. fold sg0 in Hwf0.
  assert (srvs sg0 !! i = Some (mkSrv (endNames s) (saved s) (Some (mkPersister rs sn)))) as Hs0.
  { unfold sg0, daemon_save. cbn. rewrite list_lookup_alter_eq, Hs. cbn. by rewrite Hp. }
  assert (N sg0 = N sg) as HN by (unfold N, sg0; cbn; by rewrite length_alter).
  destruct (ShutdownServer_spec i net sg0 _ Hwf0 Hs0) as (net1 & E1 & D1 & H1).
  set (sg1 := set_srvs _ _) in E1. set (net1' := DeleteServer _ _) in E1.
  set (s1 := shutdownServer (mkSrv (endNames s) (saved s) (Some (mkPersister rs sn)))) in *.
  assert (srvs sg1 !! i = Some s1) as Hs1.
  { cbn. apply list_lookup_insert_eq. by rewrite length_alter. }
  destruct (StartServer_spec i names sid net1' sg1 s1 Hs1 Hnd) as (net2 & E2 & H2).
  { intros e He. change (ends net1') with (ends net1). rewrite D1. by apply Hfresh. }
  set (sg2 := set_srvs _ _) in E2.
  assert (forall a b, name sg2 a b = if decide (a = i) then names !! b else name sg a b) as Hn2.
  { intros a b. unfold sg2. change (gid sg1) with (gid sg0). unfold set_srvs.
    rewrite (name_upd sg1) by (unfold N in *; cbn; rewrite length_insert, length_alter; done).
    case_decide; [done|]. unfold sg1, set_srvs. change (gid sg0) with (gid sg).
    rewrite (name_upd sg0) by by rewrite HN. rewrite decide_False by done. apply daemon_save_name. }
  assert (forall a b, a <> i -> en (net2, sg2) a b = en (net1, sg0) a b) as Hen2.
  { intros a b Ha. unfold en. cbn [fst snd]. rewrite Hn2, decide_False, <- (daemon_save_name i rs sn sg) by done. fold sg0.
    destruct (name sg0 a b) as [e|] eqn:He; [|done]. rewrite H2, decide_False; [done|].
    intros Hin. unfold sg0 in He. rewrite daemon_save_name in He. by eapply Hfresh. }
  exists net1', sg1, (AddServer (ServerName (gid sg1) i) sid net2), sg2. eexists. split_and!.
  - exact E1.
  - unfold server_at. cbn. by rewrite lookup_insert_eq.
  - exact E2.
  - cbn. apply list_lookup_insert_eq. by rewrite length_insert, length_alter.
  - done.
  - unfold server_at. cbn. by rewrite lookup_insert_eq.
  - intros j Hj.
    assert (forall b, en (net2, sg2) i b = false) as Hiout.
    { intros b. unfold en. cbn [fst snd]. rewrite Hn2, decide_True by done.
      destruct (names !! b) as [e|] eqn:He; [|done]. rewrite H2, decide_True; [done|].
      by eapply list_elem_of_lookup_2. }
    split; [apply Hiout|]. destruct (decide (j = i)) as [->|Hji]; [apply Hiout|].
    change (en (net2, sg2) j i = false). rewrite Hen2, H1 by (rewrite ?HN; done). by rewrite decide_True by by right.
  - intros a b Ha Hb Hai Hbi. change (en (net2, sg2) a b = en (net, sg) a b).
    rewrite Hen2, H1 by (rewrite ?HN; done). rewrite decide_False by tauto. apply en_name, daemon_save_name.
Qed.

(** The group of [demo_state], started and with two servers connected. *)
Definition demo_started : state :=
  let st := foldo (fun st i => StartServer i ["x" +:+ itoa i; "y" +:+ itoa i; "z" +:+ itoa i] i st) demo_state [0; 1; 2] in
  match st ← st; st ← ConnectOne 0 st; ConnectOne 2 st with Ret st => st | _ => demo_state end.

Lemma demo_started_wf : grp_wf demo_started.2.
Proof.
  apply grp_wf_intro; [by vm_compute|by vm_compute; repeat constructor|by apply (bool_decide_unpack _); vm_compute].
Qed.

Lemma crash_restart_witness : exists net1 sg1 net2 sg2 s2,
  ShutdownServer 0 (demo_started.1, daemon_save 0 "term 5" "snap" demo_started.2) = Ret (net1, sg1) /\
  StartServer 0 ["n0"; "n1"; "n2"] 7 (net1, sg1) = Ret (net2, sg2) /\
  srvs sg2 !! 0 = Some s2 /\ dc s2 = Some (mkPersister "term 5" "snap") /\
  en demo_started 2 0 = true /\ en (net2, sg2) 2 0 = false.
Proof.
  destruct (crash_restart demo_started.1 demo_started.2 0 (mkSrv ["x0"; "y0"; "z0"] (Some MakePersister) (Some MakePersister))
    MakePersister "term 5" "snap" ["n0"; "n1"; "n2"] 7 demo_started_wf)
    as (net1 & sg1 & net2 & sg2 & s2 & H1 & _ & H2 & H3 & H4 & _ & H5 & _).
  - by vm_compute.
  - done.
  - by apply (bool_decide_unpack _); vm_compute.
  - assert (forall a b e, name demo_started.2 a b = Some e -> e ∈ mjoin (endNames <$> srvs demo_started.2)) as Hn.
    { intros a b e (s & Hs & Hb)%bind_Some. apply list_elem_of_join. exists (endNames s).
      split; [by eapply list_elem_of_lookup_2|]. apply list_elem_of_fmap. exists s. split; [done|].
      by eapply list_elem_of_lookup_2. }
    intros e He. split.
    + revert e He. rewrite <- Forall_forall. apply (bool_decide_unpack _). by vm_compute.
    + intros a b Hab%Hn. revert e He Hab. change (forall e, e ∈ ["n0"; "n1"; "n2"] -> e ∉ mjoin (endNames <$> srvs demo_started.2)).
      rewrite <- Forall_forall. apply (bool_decide_unpack _). by vm_compute.
  - exists net1, sg1, net2, sg2, s2. split_and!; [done..|by vm_compute|]. apply H5. vm_compute. lia.
Defined.

(** *** A client's ends *)

Lemma is_enabled_ends b order net e :
  is_enabled (enable_ends b order net) e = if decide (e ∈ order.*2) then b else is_enabled net e.
Proof.
  unfold enable_ends. revert net. induction order as [|[s n] order IH]; intros net; [done|].
  cbn [foldl snd]. rewrite IH, is_enabled_Enable, fmap_cons. cbn [snd].
  destruct (decide (e ∈ n :: order.*2)) as [Hin|Hin]; rewrite elem_of_cons in Hin;
    destruct (decide (e ∈ order.*2)); destruct (decide (n = e)); try done; naive_solver.
Qed.

(** [order] is an order of the entries of the client's map, and the names in
    the map are distinct. *)
Definition clnt_order (order : list (string * string)) (c : Clnt) : Prop :=
  order ≡ₚ map_to_list (cends c) /\ forall s s' e, cends c !! s = Some e -> cends c !! s' = Some e -> s = s'.

Lemma order_elem order c (P : string * string -> Prop) `{!forall x, Decision (P x)} s e :
  clnt_order order c -> cends c !! s = Some e -> e ∈ (filter P order).*2 <-> P (s, e).
Proof.
  intros [Ho Hinj] Hs. rewrite list_elem_of_fmap. split.
  - intros ([s' e'] & -> & [HP Hin]%list_elem_of_filter). rewrite Ho in Hin. apply elem_of_map_to_list in Hin.
    cbn in Hs. by rewrite (Hinj _ _ _ Hs Hin).
  - intros HP. exists (s, e). split; [done|]. apply list_elem_of_filter. split; [done|].
    rewrite Ho. by apply elem_of_map_to_list.
Qed.

Lemma order_elem_all order c s e : clnt_order order c -> cends c !! s = Some e -> e ∈ order.*2.
Proof.
  intros Ho Hs. apply list_elem_of_fmap. exists (s, e). split; [done|]. destruct Ho as [-> _].
  by apply elem_of_map_to_list.
Qed.

Lemma allowedL_true c server : allowedL c server = true <-> match allowed c with None => True | Some l => server ∈ l end.
Proof.
  unfold allowedL. destruct (allowed c) as [l|]; [|done]. rewrite existsb_exists. split.
  - intros (n & Hn & ->%bool_decide_eq_true_1). by apply list_elem_of_In.
  - intros Hl. exists server. split; [by apply list_elem_of_In|by apply bool_decide_eq_true_2].
Qed.

(** the effect of a client's connection calls on an end it has, in whatever
    order the map's entries are visited: [ConnectAll] enables it,
    [DisconnectAll] disables it and keeps the ends made later disabled,
    [Disconnect] disables it if it leads to that server, and [ConnectTo l]
    enables it if it leads to a server of [l] but never disables one that led
    elsewhere. *)
Theorem Clnt_ends_enabled order c net s e l srv fresh :
  clnt_order order c -> cends c !! s = Some e ->
  is_enabled (Clnt_ConnectAll order (net, c)).1 e = true /\
  is_enabled (Clnt_DisconnectAll order (net, c)).1 e = false /\
  is_enabled (Clnt_Disconnect order srv (net, c)).1 e = (if decide (s = srv) then false else is_enabled net e) /\
  is_enabled (Clnt_ConnectTo order l (net, c)).1 e = (if decide (s ∈ l) then true else is_enabled net e) /\
  (forall s' net2 c2 e2, cends c !! s' = None ->
     makeEnd fresh s' (Clnt_DisconnectAll order (net, c)) = Ret (net2, c2, e2) -> is_enabled net2 e2 = false).
Proof.
  intros Ho Hs. cbn [Clnt_ConnectAll Clnt_DisconnectAll Clnt_Disconnect Clnt_ConnectTo fst snd].
  rewrite !is_enabled_ends. split_and!.
  - rewrite decide_True; [done|by eapply order_elem_all].
  - rewrite decide_True; [done|by eapply order_elem_all].
  - apply decide_ext. by rewrite (order_elem order c (fun x => x.1 = srv) s e Ho Hs).
  - apply decide_ext. rewrite (order_elem order c _ s e Ho Hs). cbn [fst]. by rewrite allowedL_true.
  - intros s' net2 c2 e2 Hn. unfold makeEnd, Clnt_DisconnectAll. cbn [cends fst snd]. rewrite Hn.
    unfold MakeEnd. case_bool_decide; [done|]. cbn. intros [= <- <- <-].
    unfold is_enabled. cbn. by rewrite lookup_insert_eq.
Qed.

Lemma Clnt_ends_enabled_witness :
  let c := mkClnt {["s0" := "e0"; "s1" := "e1"]} None in
  let net := Enable "e0" true (Enable "e1" true MakeNetwork) in
  is_enabled (Clnt_ConnectTo [("s1", "e1"); ("s0", "e0")] ["s1"] (net, c)).1 "e0" = true.
Proof.
  intros c net.
  destruct (Clnt_ends_enabled [("s1", "e1"); ("s0", "e0")] c net "s0" "e0" ["s1"] "s0" "f") as (_ & _ & _ & H & _).
  - split; [by apply (bool_decide_unpack _); vm_compute|].
    intros s s' e Hs Hs'. unfold c in Hs, Hs'. cbn [cends] in Hs, Hs'.
    rewrite lookup_insert_Some, lookup_singleton_Some in Hs, Hs'. naive_solver.
  - by vm_compute.
  - rewrite H. by vm_compute.
Defined.

End Tester.
