(* ===== verification/Config.v ===== *)
(** * Config: what a test holds

    [src/src/tester1/config.go] with the registries it embeds, [Groups] of
    [group.go] and [Clnts] of [clnts.go], and the goroutine that repartitions a
    group, [Partitioner] of [src/src/kvtest1/kvtest.go].  The groups and clients
    are objects the registries point to: an operation on a group of the registry
    changes the registry's group.  Clients live in a heap, so that a deleted
    client is still an object; the names of ends are arguments, and a name is
    used once ([Randstring]).  Daemons start successfully, as in [Tester]. *)

From S2P Require Import Prelude LabRpc Tester.
From stdpp Require Import base gmap list strings.
From Stdlib Require Import ZArith Lia.
From stdpp Require Import list.

Module Config.
Import LabRpc Tester.

(** ** Groups *)

Notation Groups := (gmap Z ServerGrp).
Definition newGroups : Groups := ∅.

Definition MakeGroup (gid : Z) (names : list (list string)) (st : Network * Groups) : outcome (Network * Groups) :=
  r ← makeSrvGrp gid names st.1; Ret (r.1, <[gid := r.2]> st.2).
Definition lookupGroup (gid : Z) (gs : Groups) : option ServerGrp := gs !! gid.
Definition delete_group (gid : Z) (gs : Groups) : Groups := delete gid gs.

(** [cfg.Group(gid).f()]: a nil pointer when there is no such group. *)
Definition on_group (gid : Z) (f : state -> outcome state) (st : Network * Groups) : outcome (Network * Groups) :=
  match lookupGroup gid st.2 with
  | Some sg => r ← f (st.1, sg); Ret (r.1, <[gid := r.2]> st.2)
  | None => Panic "nil pointer dereference"
  end.

(** [StartSrvs] and [StartServers]: [starts] gives each server its fresh end
    names and the object it joins the network as. *)
Definition StartSrvs (starts : nat -> list string * nat) (l : list nat) (st : state) : outcome state :=
  foldo (fun st i => StartServer i (starts i).1 (starts i).2 st) st l.
Definition StartServers (starts : nat -> list string * nat) (st : state) : outcome state :=
  st ← StartSrvs starts (all st.2) st; ConnectAll st.

Definition MakeGroupStart (gid : Z) (names : list (list string)) (starts : nat -> list string * nat)
    (st : Network * Groups) : outcome (Network * Groups) :=
  st ← MakeGroup gid names st; on_group gid (StartServers starts) st.

Definition ExitGroup (gid : Z) (st : Network * Groups) : outcome (Network * Groups) :=
  st ← on_group gid Shutdown st; Ret (st.1, delete_group gid st.2).

(** [order]: the order of the registry's keys. *)
Definition Groups_cleanup (order : list Z) (st : Network * Groups) : outcome (Network * Groups) :=
  foldo (fun st gid => on_group gid Shutdown st) st order.

(** ** Partitioner *)

(** The servers drawn for side [i]. *)
Definition side (a : list nat) (n i : nat) : list nat := filter (fun j => a !! j = Some i) (seq 0 n).

(** One turn, with the draws of [rand.Int()] for the servers. *)
Definition Partitioner_turn (draws : list nat) (st : state) : outcome state :=
  let n := N st.2 in
  let a := (fun d => d mod 2) <$> take n draws in
  Partition (side a n 0) (side a n 1) st.

(** The loop until it is told to stop. *)
Definition Partitioner (turns : list (list nat)) (st : state) : outcome state :=
  foldo (fun st draws => Partitioner_turn draws st) st turns.

Lemma elem_of_side a n i j : j ∈ side a n i <-> j < n /\ a !! j = Some i.
Proof. unfold side. rewrite list_elem_of_filter, elem_of_seq. naive_solver lia. Qed.

Lemma Partitioner_turn_spec draws net sg :
  grp_wf sg -> N sg <= length draws ->
  exists net' sg', Partitioner_turn draws (net, sg) = Ret (net', sg') /\ grp_wf sg' /\ N sg' = N sg /\
    (forall a b, a < N sg -> b < N sg ->
      en (net', sg') a b = bool_decide (nth a draws 0 mod 2 = nth b draws 0 mod 2)).
Proof.
  intros Hwf Hlen. set (a := (fun d => d mod 2) <$> take (N sg) draws).
  assert (Hat : forall j, j < N sg -> a !! j = Some (nth j draws 0 mod 2)).
  { intros j Hj. unfold a. rewrite list_lookup_fmap, lookup_take_lt by done.
    destruct (lookup_lt_is_Some_2 draws j ltac:(lia)) as [d Hd]. rewrite Hd. simpl. f_equal.
    by rewrite (nth_lookup_Some _ _ 0 _ Hd). }
  assert (Hmod : forall d, d mod 2 = 0 \/ d mod 2 = 1).
  { intros d. pose proof (Nat.mod_upper_bound d 2 ltac:(lia)). lia. }
  destruct (Partition_mesh (side a (N sg) 0) (side a (N sg) 1) net sg Hwf) as (net' & sg' & E & Hs & Hwf' & _ & Hen).
  - intros j. rewrite elem_of_app, !elem_of_side. split; [naive_solver|]. intros Hj. rewrite Hat by done.
    destruct (Hmod (nth j draws 0)) as [-> | ->]; auto.
  - intros j [_ H0]%elem_of_side [_ H1]%elem_of_side. rewrite H0 in H1. done.
  - exists net', sg'. split; [exact E|].
    split; [done|split; [unfold N; by rewrite Hs|]].
    intros x y Hx Hy. rewrite Hen by done. apply bool_decide_ext. rewrite !elem_of_side, !Hat by done.
    destruct (Hmod (nth x draws 0)) as [-> | ->], (Hmod (nth y draws 0)) as [-> | ->]; naive_solver.
Qed.

Lemma Partitioner_runs turns net sg :
  grp_wf sg -> Forall (fun draws => N sg <= length draws) turns ->
  exists net' sg', Partitioner turns (net, sg) = Ret (net', sg') /\ grp_wf sg' /\ N sg' = N sg.
Proof.
  revert net sg. induction turns as [|draws turns IH]; intros net sg Hwf Hall; [by exists net, sg|].
  apply Forall_cons_1 in Hall as [Hd Hall]. destruct (Partitioner_turn_spec draws net sg Hwf Hd) as (n1 & g1 & E & Hwf1 & HN & _).
  unfold Partitioner in *. cbn [foldo]. rewrite E. cbn. destruct (IH n1 g1 Hwf1) as (n2 & g2 & E2 & ? & HN2).
  - by rewrite HN.
  - exists n2, g2. rewrite HN2, HN. done.
Qed.

(** the partitioner splits the group in two.  However often it has
    repartitioned the servers before, after a turn two servers can reach each
    other exactly when the turn drew the same side for both; no draw makes it
    fail. *)
Theorem Partitioner_splits turns draws net sg :
  grp_wf sg -> Forall (fun draws => N sg <= length draws) (turns ++ [draws]) ->
  exists net' sg', Partitioner (turns ++ [draws]) (net, sg) = Ret (net', sg') /\
    (forall a b, a < N sg -> b < N sg ->
      en (net', sg') a b = bool_decide (nth a draws 0 mod 2 = nth b draws 0 mod 2)).
Proof.
  intros Hwf [Hall Hd]%Forall_app. apply Forall_cons_1 in Hd as [Hd _].
  destruct (Partitioner_runs turns net sg Hwf Hall) as (n1 & g1 & E1 & Hwf1 & HN).
  rewrite <-HN in Hd. destruct (Partitioner_turn_spec draws n1 g1 Hwf1 Hd) as (n2 & g2 & E2 & _ & _ & Hen).
  exists n2, g2. split; [|by rewrite <-HN]. unfold Partitioner in *. rewrite foldo_app, E1. cbn. by rewrite E2.
Qed.

Lemma Partitioner_splits_witness : exists net' sg',
  Partitioner ([[1; 1; 1]] ++ [[4; 7; 9]]) demo_state = Ret (net', sg') /\
  en (net', sg') 0 1 = false /\ en (net', sg') 1 2 = true.
Proof.
  destruct (Partitioner_splits [[1; 1; 1]] [4; 7; 9] demo_state.1 demo_state.2 demo_wf) as (net' & sg' & E & Hen).
  - by apply (bool_decide_unpack _); vm_compute.
  - exists net', sg'. rewrite <-surjective_pairing in E. split; [exact E|].
    split; (rewrite Hen; [by vm_compute|vm_compute; lia|vm_compute; lia]).
Defined.

(** ** Starting and stopping a group *)

Lemma bind_Ret {A B} (o : outcome A) (k : A -> outcome B) r :
  (a ← o; k a) = Ret r -> exists a, o = Ret a /\ k a = Ret r.
Proof. destruct o as [a| |]; [|done..]. by exists a. Qed.

(** Connecting changes neither the ends nor the servers. *)
Definition same_names (n1 n2 : Network) : Prop := ends n2 = ends n1 /\ servers n2 = servers n1.

Lemma connect_names i to net sg net' sg' : connect i to (net, sg) = Ret (net', sg') -> same_names net net'.
Proof.
  unfold connect. intros (c & _ & H)%bind_Ret. cbn zeta in H. apply bind_Ret in H as (s & _ & H).
  apply bind_Ret in H as (n1 & H1 & H). apply bind_Ret in H as (n2 & H2 & H). injection H as <- _.
  assert (Hs1 : same_names net n1).
  { refine (foldo_inv (same_names net) _ to net n1 _ _ H1); [|done].
    intros n j n' Hn (b & _ & Hb)%bind_Ret. destruct b; [apply bind_Ret in Hb as (e & _ & Hb)|]; by injection Hb as <-. }
  refine (foldo_inv (same_names net) _ to n1 n2 _ Hs1 H2).
  intros n j n' Hn (b & _ & Hb)%bind_Ret. destruct b; [|by injection Hb as <-].
  apply bind_Ret in Hb as (t & _ & Hb). apply bind_Ret in Hb as (e & _ & Hb). by injection Hb as <-.
Qed.

Lemma makeServer_servers g names net net' s : makeServer g names net = Ret (net', s) -> servers net' = servers net.
Proof.
  unfold makeServer. intros (n & H & [= <- _])%bind_Ret.
  refine (foldo_inv (fun n => servers n = servers net) _ _ net n _ eq_refl H).
  intros n0 [j e] n1 Hn (n2 & He & [= <-])%bind_Ret. unfold MakeEnd in He. cbn in He. case_match; [done|]. by injection He as <-.
Qed.

#[export] Instance ServerName_inj g : Inj (=) (=) (ServerName g).
Proof.
  intros i j H. unfold ServerName in H.
  assert (Hs : forall s t1 t2, s +:+ t1 = s +:+ t2 -> t1 = t2).
  { induction s as [|c s IH]; intros t1 t2; simpl; [done|]. intros [= ?]. by apply IH. }
  by apply Hs, Hs, Hs, itoa_inj in H.
Qed.

(** The servers of a group after [StartSrvs]. *)
Definition started_srv (starts : nat -> list string * nat) (i : nat) (s : Srv) : Srv :=
  let p := Some (default MakePersister (saved s)) in mkSrv (starts i).1 p p.
Definition start_names (starts : nat -> list string * nat) (l : list nat) : list string :=
  mjoin ((fun i => (starts i).1) <$> l).

Lemma StartSrvs_spec starts l net sg :
  NoDup l -> (forall i, i ∈ l -> i < N sg) -> NoDup (start_names starts l) ->
  (forall e, e ∈ start_names starts l -> e ∉ ends net) ->
  exists net' sg', StartSrvs starts l (net, sg) = Ret (net', sg') /\ gid sg' = gid sg /\ connected sg' = connected sg /\
    (forall i, srvs sg' !! i = if decide (i ∈ l) then started_srv starts i <$> srvs sg !! i else srvs sg !! i) /\
    ends net' = list_to_set (start_names starts l) ∪ ends net /\
    (forall i, server_at net' (ServerName (gid sg) i) =
       if decide (i ∈ l) then Some (starts i).2 else server_at net (ServerName (gid sg) i)) /\
    (forall sn, (forall i, i ∈ l -> sn <> ServerName (gid sg) i) -> server_at net' sn = server_at net sn).
Proof.
  revert net sg. induction l as [|i l IH]; intros net sg Hl Hlt Hnd Hf.
  - exists net, sg. do 3 (split; [done|]). split; [|split; [unfold start_names; simpl; set_solver|]];
      [|split; [|done]]; intros i; by rewrite decide_False by set_solver.
  - apply NoDup_cons in Hl as [Hi Hl]. unfold start_names in Hnd, Hf. cbn in Hnd, Hf. fold (start_names starts l) in Hnd, Hf.
    apply NoDup_app in Hnd as (Hn1 & Hdis & Hn2).
    destruct (lookup_lt_is_Some_2 (srvs sg) i) as [s Hs]; [apply Hlt; by left|].
    destruct (makeServer_spec (gid sg) (starts i).1 net Hn1) as (n1 & E1 & He1 & _); [set_solver|].
    pose proof (makeServer_servers _ _ _ _ _ E1) as Hsv.
    set (n1' := AddServer (ServerName (gid sg) i) (starts i).2 n1).
    set (sg1 := set_srvs sg (<[i := started_srv starts i s]> (srvs sg))).
    assert (E : StartServer i (starts i).1 (starts i).2 (net, sg) = Ret (n1', sg1)).
    { unfold StartServer, startServer. rewrite (idx_Some _ _ _ Hs). cbn [mbind outcome_bind]. by rewrite E1. }
    assert (Hi1 : i < length (srvs sg)) by (apply Hlt; by left).
    destruct (IH n1' sg1) as (net' & sg' & E' & Hg & Hc & Hsrv & He & Ha & Ho); [done| |done| |].
    { intros j Hj. unfold N, sg1. cbn. rewrite length_insert. apply Hlt. by right. }
    { intros e Hin. change (ends n1') with (ends n1). rewrite He1. set_solver. }
    exists net', sg'. split; [|split; [done|split; [done|split; [|split; [|split]]]]].
    + unfold StartSrvs in *. cbn [foldo]. rewrite E. exact E'.
    + intros j. rewrite Hsrv. cbn. destruct (decide (j = i)) as [->|Hji].
      * rewrite decide_False by done. rewrite decide_True by by left. by rewrite list_lookup_insert_eq, Hs.
      * rewrite list_lookup_insert_ne by done. apply decide_ext. set_solver.
    + rewrite He. change (ends n1') with (ends n1). rewrite He1. unfold start_names. cbn. set_solver.
    + intros j. change (gid sg) with (gid sg1). rewrite Ha. destruct (decide (j = i)) as [->|Hji].
      * rewrite decide_False by done. rewrite decide_True by by left. unfold server_at, n1'. cbn. by rewrite lookup_insert_eq.
      * assert (Hne : ServerName (gid sg) i <> ServerName (gid sg) j) by (by intros ?%(inj _)).
        unfold server_at at 1, n1'. cbn. rewrite lookup_insert_ne, Hsv by done. apply decide_ext. set_solver.
    + intros sn Hsn. rewrite Ho by (intros j Hj; apply Hsn; by right). unfold server_at, n1'. cbn.
      rewrite lookup_insert_ne, Hsv; [done|]. intros <-. by apply (Hsn i); [left|].
Qed.

Lemma makeSrvGrp_eq g names net :
  NoDup (mjoin names) -> (forall e, e ∈ mjoin names -> e ∉ ends net) ->
  exists net', makeSrvGrp g names net =
      Ret (net', mkGrp g ((fun ns => mkSrv ns None None) <$> names) (replicate (length names) false)) /\
    ends net' = list_to_set (mjoin names) ∪ ends net /\ servers net' = servers net.
Proof.
  intros Hnd Hf. unfold makeSrvGrp.
  assert (H : forall acc, exists net', foldo (fun (r : Network * list Srv) ns => s ← makeServer g ns r.1; Ret (s.1, r.2 ++ [s.2]))
      (net, acc) names = Ret (net', acc ++ ((fun ns => mkSrv ns None None) <$> names)) /\
    ends net' = list_to_set (mjoin names) ∪ ends net /\ servers net' = servers net).
  { revert net Hnd Hf. induction names as [|ns names IH]; intros net Hnd Hf acc.
    - exists net. simpl. rewrite app_nil_r. split; [done|]. split; [set_solver|done].
    - cbn in Hnd, Hf. apply NoDup_app in Hnd as (H1 & Hd & H2).
      destruct (makeServer_spec g ns net H1) as (n1 & E1 & He1 & _); [set_solver|].
      destruct (IH n1 H2 ltac:(rewrite He1; set_solver) (acc ++ [mkSrv ns None None])) as (n2 & E2 & He2 & Hs2).
      exists n2. cbn [foldo fst snd]. rewrite E1. cbn [mbind outcome_bind fst snd]. rewrite E2, <-app_assoc.
      split; [done|]. split; [rewrite He2, He1; cbn; set_solver|]. by rewrite Hs2, (makeServer_servers _ _ _ _ _ E1). }
  destruct (H []) as (net' & E & He). exists net'. rewrite E. by split.
Qed.

(** Connecting servers one after the other connects all pairs of them. *)
Lemma connect_loop l done net sg :
  grp_wf sg -> (forall i, i ∈ l -> i < N sg) -> (forall i, i ∈ done -> i < N sg) ->
  (forall i, i ∈ done -> conn sg i = true) -> (forall a b, a ∈ done -> b ∈ done -> a <> b -> en (net, sg) a b = true) ->
  (forall a, a ∈ done -> en (net, sg) a a = true) ->
  exists net' sg', foldo (fun st i => ConnectOne i st) (net, sg) l = Ret (net', sg') /\ srvs sg' = srvs sg /\ gid sg' = gid sg /\
    grp_wf sg' /\ same_names net net' /\
    (forall i, i ∈ done ++ l -> conn sg' i = true) /\ (forall a b, a ∈ done ++ l -> b ∈ done ++ l -> en (net', sg') a b = true).
Proof.
  revert done net sg. induction l as [|i l IH]; intros done net sg Hwf Hl Hd Hc Hen Hself.
  - exists net, sg. rewrite app_nil_r. split_and!; [done..|]. intros a b Ha Hb.
    destruct (decide (a = b)) as [->|]; [by apply Hself|by apply Hen].
  - assert (Hi : i < N sg) by (apply Hl; by left).
    assert (Hall : forall j, j ∈ all sg <-> j < N sg) by (intros j; unfold all; rewrite elem_of_seq; lia).
    destruct (connect_spec i (all sg) net sg Hwf Hi) as (n1 & E & H); [by intros j ?%Hall|].
    set (sg1 := set_connected sg i true) in *.
    assert (Hc1 : forall k, conn sg1 k = if decide (k = i) then true else conn sg k) by (intros k; by apply conn_set).
    assert (Hd1 : forall j, j ∈ done ++ [i] -> j < N sg /\ conn sg1 j = true).
    { intros j. rewrite elem_of_app, list_elem_of_singleton. intros [Hj| ->]; rewrite Hc1; case_decide; auto. }
    assert (Hen1 : forall a b, a ∈ done ++ [i] -> b ∈ done ++ [i] -> en (n1, sg1) a b = true).
    { intros a b Ha Hb. destruct (Hd1 a Ha) as [Hla Hca], (Hd1 b Hb) as [Hlb Hcb]. rewrite H by done. case_decide as Hx; [done|].
      apply elem_of_app in Ha as [Ha|Ha%list_elem_of_singleton], Hb as [Hb|Hb%list_elem_of_singleton].
      - destruct (decide (a = b)) as [->|]; [by apply Hself|by apply Hen].
      - destruct Hx. right. rewrite Hall. auto.
      - destruct Hx. left. rewrite Hall. auto.
      - destruct Hx. left. rewrite Hall. auto. }
    destruct (IH (done ++ [i]) n1 sg1) as (n2 & sg2 & E2 & Hs & Hg & Hwf2 & Hn2 & Hc2 & He2).
    + by apply wf_set_connected.
    + intros j Hj. apply Hl. by right.
    + intros j Hj. by apply Hd1.
    + intros j Hj. by apply Hd1.
    + intros a b Ha Hb _. by apply Hen1.
    + intros a Ha. by apply Hen1.
    + exists n2, sg2. rewrite <-app_assoc in Hc2, He2. cbn [foldo].
      assert (E1 : ConnectOne i (net, sg) = Ret (n1, sg1)) by exact E. rewrite E1. cbn [mbind outcome_bind].
      do 4 (split; [done|]). split; [|done].
      pose proof (connect_names _ _ _ _ _ _ E) as [He1 Hs1]. destruct Hn2 as [He3 Hs3]. split; congruence.
Qed.

(** The ends a group has once it runs: those of its servers' first objects and
    those they were started with. *)
Definition group_names (names : list (list string)) (starts : nat -> list string * nat) : list string :=
  mjoin names ++ start_names starts (seq 0 (length names)).

(** A group as the code makes it. *)
Definition group_ok (g : Z) (n : nat) (sg : ServerGrp) : Prop := grp_wf sg /\ N sg = n /\ gid sg = g.

(** Starting all servers of a group and connecting them. *)
Lemma StartServers_spec starts net sg :
  length (connected sg) = N sg -> NoDup (start_names starts (all sg)) ->
  (forall e, e ∈ start_names starts (all sg) -> e ∉ ends net) -> (forall i, i < N sg -> length (starts i).1 = N sg) ->
  exists net' sg', StartServers starts (net, sg) = Ret (net', sg') /\ group_ok (gid sg) (N sg) sg' /\
    (forall a b, a < N sg -> b < N sg -> en (net', sg') a b = true) /\
    ends net' = list_to_set (start_names starts (all sg)) ∪ ends net /\
    (forall i, i < N sg -> server_at net' (ServerName (gid sg) i) = Some (starts i).2) /\
    (forall sn, (forall i, i < N sg -> sn <> ServerName (gid sg) i) -> server_at net' sn = server_at net sn) /\
    (forall i, i < N sg -> conn sg' i = true /\ srvs sg' !! i = started_srv starts i <$> srvs sg !! i).
Proof.
  intros Hlen Hnd Hf Hns. assert (Hin : forall j, j ∈ all sg <-> j < N sg) by (intros j; unfold all; rewrite elem_of_seq; lia).
  destruct (StartSrvs_spec starts (all sg) net sg) as (n2 & sg2 & E2 & Hg2 & Hc2 & Hs2 & He2 & Ha2 & Ho2);
    [apply NoDup_seq|by intros i; rewrite Hin|done..|].
  assert (Hs : srvs sg2 = zip_with (started_srv starts) (all sg) (srvs sg)).
  { apply list_eq. intros i. rewrite Hs2, lookup_zip_with. destruct (decide (i ∈ all sg)) as [Hi|Hi]; unfold all.
    - apply Hin in Hi. rewrite lookup_seq_lt by done. cbn. by destruct (lookup_lt_is_Some_2 (srvs sg) i Hi) as [s ->].
    - rewrite Hin in Hi. rewrite lookup_seq_ge by lia. apply lookup_ge_None_2. unfold N in Hi. lia. }
  assert (HN2 : N sg2 = N sg) by (unfold N; rewrite Hs, length_zip_with; unfold all; rewrite length_seq; unfold N; lia).
  assert (Hend : endNames <$> srvs sg2 = (fun i => (starts i).1) <$> all sg).
  { rewrite Hs. apply list_eq. intros i. rewrite !list_lookup_fmap, lookup_zip_with. unfold all.
    destruct (decide (i < N sg)) as [Hi|Hi]; [|by rewrite lookup_seq_ge by lia]. rewrite lookup_seq_lt by done.
    by destruct (lookup_lt_is_Some_2 (srvs sg) i Hi) as [s ->]. }
  assert (Hwf2 : grp_wf sg2).
  { apply grp_wf_intro; [by rewrite Hc2, HN2| |by rewrite Hend].
    apply Forall_forall. intros s Hx%(list_elem_of_fmap_2 endNames). rewrite Hend in Hx.
    apply list_elem_of_fmap in Hx as (i & -> & Hi). rewrite HN2. by apply Hns, Hin. }
  destruct (connect_loop (all sg2) [] n2 sg2 Hwf2) as (n3 & sg3 & E3 & Hs3 & Hg3 & Hwf3 & [He3 Hsv3] & Hc3 & Hen3);
    [unfold all; intros i; rewrite elem_of_seq; lia|set_solver..|].
  assert (Hall : all sg2 = all sg) by (unfold all; by rewrite HN2). rewrite Hall in *. exists n3, sg3.
  split; [unfold StartServers; cbn [snd]; rewrite E2; cbn [mbind outcome_bind]; unfold ConnectAll; cbn [snd]; by rewrite Hall|].
  split; [split; [done|]; split; [unfold N; by rewrite Hs3|by rewrite Hg3]|].
  split; [intros a b Ha Hb; apply Hen3; by apply Hin|]. split; [by rewrite He3|]. split; [|split].
  - intros i Hi. unfold server_at. rewrite Hsv3. fold (server_at n2 (ServerName (gid sg) i)). by rewrite Ha2, decide_True by by apply Hin.
  - intros sn Hsn. unfold server_at in *. rewrite Hsv3. apply Ho2. intros i Hi%Hin. by apply Hsn.
  - intros i Hi. split; [by apply Hc3, Hin|]. by rewrite Hs3, Hs2, decide_True by by apply Hin.
Qed.

Lemma MakeGroupStart_full g names starts net gs :
  NoDup (group_names names starts) -> (forall e, e ∈ group_names names starts -> e ∉ ends net) ->
  (forall i, i < length names -> length (starts i).1 = length names) ->
  exists net' sg, MakeGroupStart g names starts (net, gs) = Ret (net', <[g := sg]> gs) /\
    group_ok g (length names) sg /\ (forall a b, a < length names -> b < length names -> en (net', sg) a b = true) /\
    ends net' = list_to_set (group_names names starts) ∪ ends net /\
    (forall i, i < length names -> server_at net' (ServerName g i) = Some (starts i).2) /\
    (forall sn, (forall i, i < length names -> sn <> ServerName g i) -> server_at net' sn = server_at net sn) /\
    (forall a b e, name sg a b = Some e -> e ∈ group_names names starts) /\
    (forall i, i < length names -> conn sg i = true /\ srvs sg !! i = Some (started_srv starts i (mkSrv [] None None))).
Proof.
  unfold group_names. set (n := length names). intros (Hn1 & Hd & Hn2)%NoDup_app Hf Hlen.
  destruct (makeSrvGrp_eq g names net Hn1) as (n1 & E1 & He1 & Hsv1); [set_solver|]. fold n in E1.
  set (sg1 := mkGrp g _ _) in E1.
  assert (HN1 : N sg1 = n) by (unfold N, sg1, n; simpl; by rewrite length_fmap).
  assert (Hall : all sg1 = seq 0 n) by (unfold all; by rewrite HN1).
  destruct (StartServers_spec starts n1 sg1) as (n3 & sg3 & E3 & Hok & Hen & He3 & Ha3 & Ho3 & Hs3);
    [rewrite HN1; unfold sg1; cbn; by rewrite length_replicate|by rewrite Hall|rewrite Hall; intros e He; rewrite He1; set_solver|by rewrite HN1|].
  rewrite HN1, Hall in *. assert (Hs : forall i, i < n -> srvs sg3 !! i = Some (started_srv starts i (mkSrv [] None None))).
  { intros i Hi. destruct (Hs3 i Hi) as [_ ->]. unfold sg1. cbn. destruct (lookup_lt_is_Some_2 names i Hi) as [ns Hns].
    by rewrite list_lookup_fmap, Hns. }
  exists n3, sg3. split_and!; try done.
  - unfold MakeGroupStart, MakeGroup. cbn [fst snd]. rewrite E1. cbn [mbind outcome_bind fst snd].
    unfold on_group, lookupGroup. cbn [fst snd]. rewrite lookup_insert_eq, E3. cbn. by rewrite insert_insert_eq.
  - rewrite He3, He1, list_to_set_app_L. set_solver.
  - intros sn Hsn. rewrite Ho3 by done. unfold server_at. by rewrite Hsv1.
  - intros a b e. unfold name. intros (s & Hsa & He)%bind_Some. apply elem_of_app. right.
    assert (Ha : a < n) by (destruct Hok as (_ & <- & _); by apply lookup_lt_Some in Hsa).
    rewrite Hs in Hsa by done. injection Hsa as <-. unfold start_names. apply list_elem_of_join. exists (starts a).1.
    split; [by eapply list_elem_of_lookup_2|]. apply list_elem_of_fmap. exists a. split; [done|]. by apply elem_of_seq; lia.
  - intros i Hi. split; [by apply Hs3|by apply Hs].
Qed.

Lemma MakeGroupStart_spec g names starts net gs :
  NoDup (group_names names starts) -> (forall e, e ∈ group_names names starts -> e ∉ ends net) ->
  (forall i, i < length names -> length (starts i).1 = length names) ->
  exists net' sg, MakeGroupStart g names starts (net, gs) = Ret (net', <[g := sg]> gs) /\
    group_ok g (length names) sg /\ (forall a b, a < length names -> b < length names -> en (net', sg) a b = true) /\
    ends net' = list_to_set (group_names names starts) ∪ ends net /\
    (forall i, i < length names -> server_at net' (ServerName g i) = Some (starts i).2) /\
    (forall sn, (forall i, i < length names -> sn <> ServerName g i) -> server_at net' sn = server_at net sn).
Proof.
  intros Hn Hf Hl. destruct (MakeGroupStart_full g names starts net gs Hn Hf Hl) as (net' & sg & H). exists net', sg. tauto.
Qed.

Lemma disconnect_servers i from net sg net' sg' : disconnect i from (net, sg) = Ret (net', sg') -> servers net' = servers net.
Proof.
  unfold disconnect. intros (c & _ & H)%bind_Ret. cbn zeta in H. apply bind_Ret in H as (s & _ & H).
  apply bind_Ret in H as (n1 & H1 & H). apply bind_Ret in H as (n2 & H2 & H). injection H as <- _.
  assert (Hs1 : servers n1 = servers net).
  { refine (foldo_inv (fun n => servers n = servers net) _ from net n1 _ eq_refl H1).
    intros n j n' Hn (e & _ & Hb)%bind_Ret. by injection Hb as <-. }
  refine (foldo_inv (fun n => servers n = servers net) _ from n1 n2 _ Hs1 H2).
  intros n j n' Hn (t & _ & Hb)%bind_Ret. apply bind_Ret in Hb as (e & _ & Hb). by injection Hb as <-.
Qed.

Lemma ShutdownServer_ok i net sg :
  grp_wf sg -> i < N sg ->
  exists net' sg', ShutdownServer i (net, sg) = Ret (net', sg') /\ group_ok (gid sg) (N sg) sg' /\ ends net' = ends net /\
    forall sn, server_at net' sn = if decide (sn = ServerName (gid sg) i) then None else server_at net sn.
Proof.
  intros Hwf Hi. destruct (lookup_lt_is_Some_2 (srvs sg) i Hi) as [s Hs].
  destruct (disconnect_spec i (all sg) net sg Hwf Hi) as (n1 & E & He & _); [intros j; unfold all; rewrite elem_of_seq; lia|].
  pose proof (disconnect_servers _ _ _ _ _ _ E) as Hsv.
  eexists _, _. split; [unfold ShutdownServer; cbn [snd]; rewrite E; cbn [mbind outcome_bind];
    rewrite (idx_Some _ _ _ (Hs : srvs (set_connected sg i false) !! i = Some s)); done|].
  split; [|split; [done|]].
  - change (srvs (set_connected sg i false)) with (srvs sg).
    assert (Hnames : endNames (shutdownServer s) = endNames s) by (unfold shutdownServer; by destruct (dc s)).
    assert (Hn : forall a b, name (set_srvs (set_connected sg i false) (<[i := shutdownServer s]> (srvs sg))) a b = name sg a b).
    { intros a b. unfold set_srvs. change (gid (set_connected sg i false)) with (gid sg). rewrite name_upd by done.
      case_decide; [subst|done]. rewrite Hnames. unfold name. by rewrite Hs. }
    assert (HN : N (set_srvs (set_connected sg i false) (<[i := shutdownServer s]> (srvs sg))) = N sg)
      by (unfold N; cbn; by rewrite length_insert).
    split; [|by split]. destruct Hwf as [H1 H2 H3]. split.
    + cbn. rewrite !length_insert. exact H1.
    + intros a b. rewrite HN, Hn. apply H2.
    + intros a b a' b' e. rewrite !Hn. apply H3.
  - intros sn. unfold server_at. cbn. rewrite Hsv. case_decide as Hsn; [subst; by rewrite lookup_insert_eq|].
    by rewrite lookup_insert_ne by (intros <-; by apply Hsn).
Qed.

(** Killing the servers [l] of a group. *)
Lemma Kill_spec l net sg :
  grp_wf sg -> (forall i, i ∈ l -> i < N sg) ->
  exists net' sg', Kill l (net, sg) = Ret (net', sg') /\ group_ok (gid sg) (N sg) sg' /\ ends net' = ends net /\
    forall sn, server_at net' sn = if decide (sn ∈ ServerName (gid sg) <$> l) then None else server_at net sn.
Proof.
  revert net sg. induction l as [|i l IH]; intros net sg Hwf Hl; [by exists net, sg|].
  destruct (ShutdownServer_ok i net sg Hwf) as (n1 & sg1 & E1 & (Hwf1 & HN1 & Hg1) & He1 & Hs1); [apply Hl; by left|].
  destruct (IH n1 sg1 Hwf1) as (n2 & sg2 & E2 & Hok2 & He2 & Hs2); [intros j Hj; rewrite HN1; apply Hl; by right|].
  exists n2, sg2. rewrite HN1, Hg1 in *. split; [|split; [done|split; [congruence|]]].
  - unfold Kill in *. cbn [foldo]. by rewrite E1.
  - intros sn. rewrite Hs2, Hs1. cbn. repeat case_decide; set_solver.
Qed.

Lemma ExitGroup_spec g net (gs : gmap Z ServerGrp) sg :
  gs !! g = Some sg -> group_ok g (N sg) sg ->
  exists net', ExitGroup g (net, gs) = Ret (net', delete g gs) /\ ends net' = ends net /\
    forall sn, server_at net' sn = if decide (sn ∈ ServerName g <$> seq 0 (N sg)) then None else server_at net sn.
Proof.
  intros Hg (Hwf & _ & Hgid). destruct (Kill_spec (all sg) net sg Hwf) as (n1 & sg1 & E & _ & He & Hs);
    [intros i; unfold all; rewrite elem_of_seq; lia|].
  exists n1. rewrite Hgid in Hs. split; [|split; [done|exact Hs]].
  unfold ExitGroup, on_group, lookupGroup. cbn [fst snd]. rewrite Hg. unfold Shutdown. cbn [snd]. rewrite E. cbn [mbind outcome_bind fst snd].
  unfold delete_group. by rewrite delete_insert_eq.
Qed.

(** ** Clients *)

(** The clients allocated, and the registry [clerks]: [None] is a nil map. *)
Record Clnts := mkClnts { heap : gmap nat Clnt; clerks : option (gset nat) }.
Definition makeClnts : Clnts := mkClnts ∅ (Some ∅).

Definition cstate : Type := Network * Clnts.

(** [MakeClientTo], for a new object [id]; storing into a nil map panics. *)
Definition MakeClientTo (id : nat) (srvs : option (list string)) (st : cstate) : outcome cstate :=
  match clerks st.2 with
  | Some cs => Ret (st.1, mkClnts (<[id := makeClntTo srvs]> (heap st.2)) (Some ({[id]} ∪ cs)))
  | None => Panic "assignment to entry in nil map"
  end.
Definition MakeClient (id : nat) : cstate -> outcome cstate := MakeClientTo id None.

(** The end [Clnt.Call] uses. *)
Definition client_end (id : nat) (name server : string) (st : cstate) : outcome cstate :=
  match heap st.2 !! id with
  | Some c => r ← makeEnd name server (st.1, c); Ret (r.1.1, mkClnts (<[id := r.1.2]> (heap st.2)) (clerks st.2))
  | None => Panic "nil pointer dereference"
  end.

Definition client_remove (id : nat) (order : list (string * string)) (st : cstate) : outcome cstate :=
  net ← remove order st.1; Ret (net, st.2).

(** [order]: the client's ends in the order they are deleted in. *)
Definition DeleteClient (id : nat) (order : list (string * string)) (st : cstate) : outcome cstate :=
  match clerks st.2 with
  | Some cs =>
      if decide (id ∈ cs) then
        st ← client_remove id order st; Ret (st.1, mkClnts (heap st.2) (Some (cs ∖ {[id]})))
      else Ret st
  | None => Ret st
  end.

Definition Clnts_cleanup (orders : list (nat * list (string * string))) (st : cstate) : outcome cstate :=
  st ← foldo (fun st x => client_remove x.1 x.2 st) st orders; Ret (st.1, mkClnts (heap st.2) None).

(** The ends of a client, as its map holds them. *)
Definition ends_of (id : nat) (cs : Clnts) : list (string * string) :=
  match heap cs !! id with Some c => map_to_list (cends c) | None => [] end.

Inductive client_event :=
  | CMake (id : nat) (srvs : option (list string))
  | CEnd (id : nat) (name server : string)
  | CDelete (id : nat) (order : list (string * string)).

Definition client_exec (e : client_event) (st : cstate) : outcome cstate :=
  match e with
  | CMake id srvs => MakeClientTo id srvs st
  | CEnd id name server => client_end id name server st
  | CDelete id order => DeleteClient id order st
  end.

(** A name no end has had, an object that is new, the client's own ends; a
    deleted client is not used. *)
Definition name_fresh (name : string) (st : cstate) : Prop :=
  name ∉ ends st.1 /\ forall id c srv, heap st.2 !! id = Some c -> cends c !! srv <> Some name.
Definition event_ok (e : client_event) (st : cstate) : Prop :=
  match e with
  | CMake id _ => heap st.2 !! id = None
  | CEnd id name _ => (exists cs, clerks st.2 = Some cs /\ id ∈ cs) /\ name_fresh name st
  | CDelete id order => order ≡ₚ ends_of id st.2
  end.

Inductive client_reach (st0 : cstate) : cstate -> Prop :=
  | CR_init : client_reach st0 st0
  | CR_step e st st' :
      client_reach st0 st -> event_ok e st -> client_exec e st = Ret st' -> client_reach st0 st'.

(** Registered clients hold ends of the network, no two the same; the ends that
    were there before the test are still there, and nobody's. *)
Record clients_ok (net0 : Network) (st : cstate) : Prop := {
  co_clerks : is_Some (clerks st.2);
  co_heap cs id : clerks st.2 = Some cs -> id ∈ cs -> is_Some (heap st.2 !! id);
  co_ends cs id c srv e : clerks st.2 = Some cs -> id ∈ cs ->
    heap st.2 !! id = Some c -> cends c !! srv = Some e -> e ∈ ends st.1;
  co_inj id c srv id' c' srv' e : heap st.2 !! id = Some c -> cends c !! srv = Some e ->
    heap st.2 !! id' = Some c' -> cends c' !! srv' = Some e -> id = id' /\ srv = srv';
  co_other id c srv e : heap st.2 !! id = Some c -> cends c !! srv = Some e -> e ∉ ends net0;
  co_base : ends net0 ⊆ ends st.1;
  co_all cs e : clerks st.2 = Some cs -> e ∈ ends st.1 -> e ∈ ends net0 \/
    exists id c srv, id ∈ cs /\ heap st.2 !! id = Some c /\ cends c !! srv = Some e }.

Lemma DeleteEnd_ok e net : e ∈ ends net -> exists net', DeleteEnd e net = Ret net' /\ ends net' = ends net ∖ {[e]}.
Proof. intros He. unfold DeleteEnd. rewrite bool_decide_true by done. by eexists. Qed.

(** Deleting ends that exist, each once. *)
Lemma remove_ok order net :
  NoDup order.*2 -> (forall e, e ∈ order.*2 -> e ∈ ends net) ->
  exists net', remove order net = Ret net' /\ forall e, e ∈ ends net' <-> e ∈ ends net /\ e ∉ order.*2.
Proof.
  revert net. induction order as [|[srv e] order IH]; intros net Hnd Hin; [exists net; set_solver|].
  apply NoDup_cons in Hnd as [He Hnd]. destruct (DeleteEnd_ok e net) as (net1 & E & H1); [apply Hin; left|].
  destruct (IH net1 Hnd) as (net' & E' & H').
  - intros e' He'. rewrite H1. assert (e' <> e) by (by intros ->). assert (e' ∈ ends net) by (apply Hin; by right). set_solver.
  - exists net'. split; [unfold remove in *; cbn; by rewrite E|]. intros e'. rewrite H', H1. set_solver.
Qed.

Lemma ends_of_elem id cs e : e ∈ (ends_of id cs).*2 <-> exists c srv, heap cs !! id = Some c /\ cends c !! srv = Some e.
Proof.
  unfold ends_of. rewrite list_elem_of_fmap. destruct (heap cs !! id) as [c|].
  - split.
    + intros ([srv e'] & -> & Hin%elem_of_map_to_list). by exists c, srv.
    + intros (c' & srv & [= <-] & Hs). exists (srv, e). split; [done|]. by apply elem_of_map_to_list.
  - split; [intros (? & _ & ?%not_elem_of_nil); done|by intros (? & ? & ? & _)].
Qed.

Lemma ends_of_NoDup net0 st id : clients_ok net0 st -> NoDup (ends_of id st.2).*2.
Proof.
  intros Hok. unfold ends_of. destruct (heap st.2 !! id) as [c|] eqn:Hc; [|constructor].
  apply NoDup_fmap_2_strong; [|apply NoDup_map_to_list].
  intros [s1 e1] [s2 e2] H1%elem_of_map_to_list H2%elem_of_map_to_list Heq. simpl in *. subst e2.
  destruct (co_inj _ _ Hok id c s1 id c s2 e1 Hc H1 Hc H2) as [_ ->]. done.
Qed.

(** Deleting the ends of registered client [id]. *)
Lemma delete_ok net0 st id order cs :
  clients_ok net0 st -> clerks st.2 = Some cs -> id ∈ cs -> order ≡ₚ ends_of id st.2 ->
  exists net', remove order st.1 = Ret net' /\ clients_ok net0 (net', mkClnts (heap st.2) (Some (cs ∖ {[id]}))).
Proof.
  intros Hok Hcs Hid Hord. assert (Hperm : order.*2 ≡ₚ (ends_of id st.2).*2) by (by rewrite Hord).
  assert (Hmem : forall e, e ∈ order.*2 <-> exists c srv, heap st.2 !! id = Some c /\ cends c !! srv = Some e).
  { intros e. by rewrite Hperm, ends_of_elem. }
  destruct (remove_ok order st.1) as (net' & E & He).
  - rewrite Hperm. by eapply ends_of_NoDup.
  - intros e (c & srv & Hc & Hs)%Hmem. by eapply (co_ends _ _ Hok).
  - exists net'. split; [done|]. destruct Hok as [H1 H2 H3 H4 H5 H6 H7]. split; simpl.
    + by eexists.
    + intros cs' id' [= <-] Hin. apply (H2 cs); [done|set_solver].
    + intros cs' id' c srv e [= <-] Hin Hc Hs. apply He. split; [apply (H3 cs id' c srv); set_solver|].
      intros (c' & srv' & Hc' & Hs')%Hmem. destruct (H4 _ _ _ _ _ _ _ Hc Hs Hc' Hs') as [-> _]. set_solver.
    + exact H4.
    + exact H5.
    + intros e Hb. apply He. split; [by apply H6|]. intros (c' & srv' & Hc' & Hs')%Hmem. by destruct (H5 _ _ _ _ Hc' Hs').
    + intros cs' e [= <-] [Hin Hno]%He. destruct (H7 cs e Hcs Hin) as [?|(id' & c & srv & Hid' & Hc & Hs)]; [by left|right].
      exists id', c, srv. split; [|done]. assert (id' <> id); [|set_solver]. intros ->. apply Hno, Hmem. by exists c, srv.
Qed.

Lemma client_end_ok net0 st id name server :
  clients_ok net0 st -> event_ok (CEnd id name server) st ->
  exists st', client_end id name server st = Ret st' /\ clients_ok net0 st'.
Proof.
  intros Hok [(cs & Hcs & Hid) [Hn1 Hn2]]. destruct (co_heap _ _ Hok cs id Hcs Hid) as [c Hc].
  unfold client_end. rewrite Hc. unfold makeEnd. destruct (cends c !! server) as [e|] eqn:Hs.
  { cbn. eexists. split; [done|]. rewrite insert_id by done. destruct Hok as [? ? ? ? ? ? ?]. by split. }
  destruct (MakeEnd_fresh name st.1 Hn1) as (net' & -> & He & _). cbn. eexists. split; [done|].
  destruct Hok as [H1 H2 H3 H4 H5 H6 H7].
  assert (Hl : forall id' c' srv e, <[id := mkClnt (<[server := name]> (cends c)) (allowed c)]> (heap st.2) !! id' = Some c' ->
    cends c' !! srv = Some e -> (e = name /\ id' = id /\ srv = server) \/
      (e <> name /\ exists c0, heap st.2 !! id' = Some c0 /\ cends c0 !! srv = Some e)).
  { intros id' c' srv e Hh Hc'. destruct (decide (id = id')) as [<-|Hne].
    - rewrite lookup_insert_eq in Hh. injection Hh as <-. simpl in Hc'. destruct (decide (server = srv)) as [<-|Hns].
      + rewrite lookup_insert_eq in Hc'. injection Hc' as <-. by left.
      + rewrite lookup_insert_ne in Hc' by done. right. split; [|by exists c]. intros ->. by apply (Hn2 id c srv).
    - rewrite lookup_insert_ne in Hh by done. right. split; [|by exists c']. intros ->. by apply (Hn2 id' c' srv). }
  split; simpl; [done|..].
  - intros cs' id' Hcs' Hid'. destruct (decide (id = id')) as [<-|Hne]; [rewrite lookup_insert_eq; by eexists|].
    rewrite lookup_insert_ne by done. by apply (H2 cs').
  - intros cs' id' c' srv e Hcs' Hid' Hh Hc'. rewrite He.
    destruct (Hl _ _ _ _ Hh Hc') as [(-> & _)|(_ & c0 & Hc0 & Hs0)]; [set_solver|]. apply elem_of_union_r. by eapply H3.
  - intros i1 c1 s1 i2 c2 s2 e Hh1 Hs1 Hh2 Hs2.
    destruct (Hl _ _ _ _ Hh1 Hs1) as [(-> & -> & ->)|(Hne1 & c0 & Hc0 & Hs0)],
      (Hl _ _ _ _ Hh2 Hs2) as [(E2 & -> & ->)|(Hne2 & c0' & Hc0' & Hs0')]; try done.
    by eapply H4.
  - intros id' c' srv e Hh Hc'. destruct (Hl _ _ _ _ Hh Hc') as [(-> & _)|(_ & c0 & Hc0 & Hs0)]; [set_solver|by eapply H5].
  - rewrite He. set_solver.
  - intros cs' e Hcs'. rewrite He. intros [->%elem_of_singleton|Hin]%elem_of_union.
    + right. exists id, (mkClnt (<[server := name]> (cends c)) (allowed c)), server.
      split; [congruence|]. rewrite lookup_insert_eq. split; [done|]. simpl. by rewrite lookup_insert_eq.
    + destruct (H7 cs' e Hcs' Hin) as [?|(id' & c' & srv & Hid' & Hc' & Hs')]; [by left|right].
      destruct (decide (id = id')) as [<-|Hne].
      * rewrite Hc in Hc'. injection Hc' as <-. exists id, (mkClnt (<[server := name]> (cends c)) (allowed c)), srv.
        split; [done|]. rewrite lookup_insert_eq. split; [done|]. simpl. rewrite lookup_insert_ne; [exact Hs'|]. intros ->. by rewrite Hs in Hs'.
      * exists id', c', srv. rewrite lookup_insert_ne by done. done.
Qed.

Lemma client_event_step net0 st e :
  clients_ok net0 st -> event_ok e st -> exists st', client_exec e st = Ret st' /\ clients_ok net0 st'.
Proof.
  intros Hok Hev. destruct e as [id srvs|id name server|id order]; simpl.
  - unfold MakeClientTo. destruct (co_clerks _ _ Hok) as [cs Hcs]. rewrite Hcs. eexists. split; [done|].
    simpl in Hev. destruct Hok as [H1 H2 H3 H4 H5 H6 H7].
    assert (Hl : forall id' c srv e, <[id := makeClntTo srvs]> (heap st.2) !! id' = Some c -> cends c !! srv = Some e ->
      heap st.2 !! id' = Some c).
    { intros id' c srv e Hh Hs. destruct (decide (id = id')) as [<-|Hne]; [|by rewrite lookup_insert_ne in Hh].
      rewrite lookup_insert_eq in Hh. injection Hh as <-. simpl in Hs. by rewrite lookup_empty in Hs. }
    split; simpl; [by eexists|..].
    + intros cs' id' [= <-] Hin. destruct (decide (id = id')) as [<-|Hne]; [rewrite lookup_insert_eq; by eexists|].
      rewrite lookup_insert_ne by done. apply (H2 cs); [done|set_solver].
    + intros cs' id' c srv e [= <-] Hin Hh Hs. pose proof (Hl _ _ _ _ Hh Hs) as Hh'. apply (H3 cs id' c srv); [done| |done|done].
      assert (id' <> id) by (intros ->; by rewrite Hev in Hh'). set_solver.
    + intros i1 c1 s1 i2 c2 s2 e Hh1 Hs1 Hh2 Hs2. by eapply H4; eauto.
    + intros id' c srv e Hh Hs. by eapply H5; eauto.
    + done.
    + intros cs' e [= <-] Hin. destruct (H7 cs e Hcs Hin) as [?|(id' & c & srv & Hid & Hh & Hs)]; [by left|right].
      exists id', c, srv. split; [set_solver|]. rewrite lookup_insert_ne by (intros <-; by rewrite Hev in Hh). done.
  - by apply client_end_ok.
  - unfold DeleteClient. destruct (co_clerks _ _ Hok) as [cs Hcs]. rewrite Hcs.
    case_decide as Hin; [|by exists st]. simpl in Hev.
    destruct (delete_ok net0 st id order cs Hok Hcs Hin Hev) as (net' & E & Hok').
    unfold client_remove. rewrite E. cbn. by eexists.
Qed.

Lemma clients_ok_init net0 : clients_ok net0 (net0, makeClnts).
Proof.
  split; simpl; try done.
  - intros cs id [= <-] ?. set_solver.
  - intros cs e [= <-] ?. by left.
Qed.

Lemma client_reach_ok net0 st : client_reach (net0, makeClnts) st -> clients_ok net0 st.
Proof.
  induction 1 as [|e st st' _ IH Hev He]; [apply clients_ok_init|].
  destruct (client_event_step _ _ _ IH Hev) as (st2 & E & Hok). rewrite He in E. by injection E as <-.
Qed.

(** The loop of [cleanup] over the registered clients [ids]. *)
Lemma cleanup_loop net0 cs0 orders st cs :
  clients_ok net0 (st.1, mkClnts (heap st.2) (Some cs)) -> NoDup orders.*1 -> (forall id, id ∈ orders.*1 <-> id ∈ cs) ->
  Forall (fun x => x.2 ≡ₚ ends_of x.1 st.2) orders -> clerks st.2 = cs0 ->
  exists net', foldo (fun st x => client_remove x.1 x.2 st) st orders = Ret (net', st.2) /\ ends net' = ends net0.
Proof.
  revert st cs. induction orders as [|[id order] orders IH]; intros st cs Hok Hnd Hids Hall Hcl.
  - exists st.1. split; [by destruct st|]. apply set_eq. intros e. split; [|by apply (co_base _ _ Hok)].
    intros He. destruct (co_all _ _ Hok cs e eq_refl He) as [?|(id & c & srv & Hid & _)]; [done|].
    apply Hids in Hid. by apply not_elem_of_nil in Hid.
  - apply NoDup_cons in Hnd as [Hni Hnd]. apply Forall_cons_1 in Hall as [Ho Hall]. cbn [fst snd] in *.
    destruct (delete_ok net0 (st.1, mkClnts (heap st.2) (Some cs)) id order cs Hok eq_refl) as (net1 & E & Hok1).
    + apply Hids. by left.
    + exact Ho.
    + cbn [foldo fst snd]. cbn [fst snd] in E.
      assert (Er : client_remove id order st = Ret (net1, st.2)) by (unfold client_remove; by rewrite E).
      rewrite Er. cbn.
      destruct (IH (net1, st.2) (cs ∖ {[id]})) as (net' & E' & He); [exact Hok1|done| |exact Hall|exact Hcl|].
      * intros id'. rewrite elem_of_difference, <-Hids, not_elem_of_singleton, fmap_cons, elem_of_cons. simpl.
        split; [|naive_solver]. intros Hin. split; [by right|]. by intros ->.
      * by exists net'.
Qed.

(** the clients' cleanup.  However clients were made, used and deleted, with
    fresh names for their ends: no further use fails; and cleaning up, in any
    order, deletes every end without finding one missing (which would end the
    test with a fatal error) and leaves the network with exactly the ends it
    had before the first client. *)
Theorem clients_cleanup net0 st :
  client_reach (net0, makeClnts) st ->
  (forall e, event_ok e st -> exists st', client_exec e st = Ret st') /\
  exists cs, clerks st.2 = Some cs /\
  forall orders, NoDup orders.*1 -> (forall id, id ∈ orders.*1 <-> id ∈ cs) ->
    Forall (fun x => x.2 ≡ₚ ends_of x.1 st.2) orders ->
  exists st', Clnts_cleanup orders st = Ret st' /\ clerks st'.2 = None /\ ends st'.1 = ends net0.
Proof.
  intros Hr. pose proof (client_reach_ok _ _ Hr) as Hok. split.
  - intros e Hev. destruct (client_event_step _ _ _ Hok Hev) as (st' & ? & _). by exists st'.
  - destruct (co_clerks _ _ Hok) as [cs Hcs]. exists cs. split; [done|]. intros orders Hnd Hids Hall.
    assert (Hok' : clients_ok net0 (st.1, mkClnts (heap st.2) (Some cs))) by (destruct st as [n [h c]]; simpl in *; by subst c).
    destruct (cleanup_loop net0 _ orders st cs Hok' Hnd Hids Hall eq_refl) as (net' & E & He).
    unfold Clnts_cleanup. rewrite E. cbn. eexists. split; [done|]. done.
Qed.

(** A decidable form of [event_ok], for concrete runs. *)
Definition event_okb (e : client_event) (st : cstate) : bool :=
  match e with
  | CMake id _ => bool_decide (heap st.2 !! id = None)
  | CEnd id name _ =>
      from_option (fun cs => bool_decide (id ∈ cs)) false (clerks st.2) && bool_decide (name ∉ ends st.1) &&
      bool_decide (map_Forall (fun _ c => map_Forall (fun _ e => e <> name) (cends c)) (heap st.2))
  | CDelete id order => bool_decide (order = ends_of id st.2)
  end.
Fixpoint client_run (es : list client_event) (st : cstate) : option cstate :=
  match es with
  | [] => Some st
  | e :: es =>
      if event_okb e st then match client_exec e st with Ret st' => client_run es st' | _ => None end else None
  end.

Lemma event_okb_ok e st : event_okb e st = true -> event_ok e st.
Proof.
  destruct e as [id srvs|id name server|id order]; simpl.
  - by intros H%bool_decide_eq_true_1.
  - intros [[H1 H2%bool_decide_eq_true_1]%andb_true_iff H3%bool_decide_eq_true_1]%andb_true_iff.
    destruct (clerks st.2) as [cs|]; [|done]. apply bool_decide_eq_true_1 in H1.
    split; [by exists cs|]. split; [done|]. intros id' c srv Hc He.
    by apply (H3 id' c Hc srv name He).
  - by intros ->%bool_decide_eq_true_1.
Qed.

Lemma client_run_reach es st0 st st' : client_reach st0 st -> client_run es st = Some st' -> client_reach st0 st'.
Proof.
  revert st. induction es as [|e es IH]; intros st Hr; simpl; [by intros [= <-]|].
  destruct (event_okb e st) eqn:Hok; [|done]. destruct (client_exec e st) as [st1| |] eqn:He; try done.
  apply IH. eapply CR_step; eauto using event_okb_ok.
Qed.

(** Two clients, the first with ends to two servers. *)
Definition demo_client_events : list client_event :=
  [CMake 0 None; CEnd 0 "e1" "s0"; CEnd 0 "e2" "s1"; CMake 1 (Some [])].
Definition demo_clnts : cstate :=
  default (MakeNetwork, makeClnts) (client_run demo_client_events (MakeNetwork, makeClnts)).

Lemma clients_cleanup_witness :
  size (ends demo_clnts.1) = 2 /\ exists st', Clnts_cleanup [(1, []); (0, ends_of 0 demo_clnts.2)] demo_clnts = Ret st' /\ ends st'.1 = ∅.
Proof.
  assert (Hr : client_reach (MakeNetwork, makeClnts) demo_clnts).
  { apply (client_run_reach demo_client_events _ (MakeNetwork, makeClnts)); [constructor|by vm_compute]. }
  split; [by vm_compute|]. destruct (clients_cleanup _ _ Hr) as (_ & cs & Hcs & Hall).
  assert (Hc : cs = {[0; 1]}) by (revert Hcs; vm_compute; by intros [= <-]).
  destruct (Hall [(1, []); (0, ends_of 0 demo_clnts.2)]) as (st' & E & _ & He).
  - by apply (bool_decide_unpack _); vm_compute.
  - intros id. rewrite Hc, elem_of_union, !elem_of_singleton. change (id ∈ [1; 0] <-> id = 0 \/ id = 1).
    rewrite !elem_of_cons, elem_of_nil. clear. tauto.
  - apply Forall_cons_2; [|apply Forall_singleton; reflexivity].
    assert (Hnil : ends_of 1 demo_clnts.2 = []) by by vm_compute. cbn [fst snd]. by rewrite Hnil.
  - exists st'. split; [exact E|]. by rewrite He.
Defined.

End Config.
