(* ===== verification/Harness.v ===== *)
(** * Harness: a test from [MakeConfig] to [Cleanup]

    [src/src/tester1/config.go] as a whole, on top of the registries of
    [Config]: the test's configuration with its network, server groups and
    clients, the statistics between [Begin] and [End], the time limit and the
    cleanup, with the network's goroutine and [Network.Cleanup] of
    [src/src/labrpc/labrpc.go].  A test is any sequence of these operations and
    of requests its processes send.  The tester's own RPC server is [SockRpc]'s;
    the annotations are [Annotation]'s, of which [Cleanup] keeps the verdict.
    Time is in nanoseconds. *)

From S2P Require Import Prelude LabRpc Tester Config.
From stdpp Require Import base gmap list strings.
From Stdlib Require Import ZArith Lia Ascii.
From stdpp Require Import list.

Module Harness.
Import LabRpc Tester Config.

Definition GRP0 : Z := 0.
Definition seconds (n : Z) : Z := n * 1000000000.

(** A 32-bit and a 64-bit integer holding [x]. *)
Definition int32 (x : Z) : Z := wrap 32 (x + 2 ^ 31) - 2 ^ 31.
Definition int64 (x : Z) : Z := wrap 64 (x + 2 ^ 63) - 2 ^ 63.

(** [LabRpc]'s counters are the numbers of requests and bytes; these are what
    the code's counters of 32 and 64 bits hold. *)
Definition GetTotalCount (rn : Network) : Z := int32 (rpc_count rn).
Definition GetTotalBytes (rn : Network) : Z := int64 (rpc_bytes rn).

(** [b]: the bytes of [crand.Read]. *)
Definition Randstring (n : nat) (b : string) : outcome string :=
  let s := base64url b in
  if decide (n <= String.length s) then Ret (String.substring 0 n s) else Panic "slice bounds out of range".

(** What [End] prints. *)
Record report := mkReport { r_time : Z; r_npeers : nat; r_nrpc : Z; r_ops : Z }.

(** [h_done]: the network's [done] is closed; [h_serving]: its goroutine runs;
    [h_failed]: [t.Failed()]; [h_report], [h_verdict]: what [End] and
    [Cleanup] said last. *)
Record config := mkConfig {
  h_net : Network; h_done : bool; h_serving : bool;
  h_groups : Groups; h_clnts : Clnts;
  h_start : Z; h_t0 : Z; h_rpcs0 : Z; h_ops : Z;
  h_failed : bool; h_report : option report; h_verdict : option string }.

Definition set_hnet (c : config) (rn : Network) : config :=
  mkConfig rn (h_done c) (h_serving c) (h_groups c) (h_clnts c) (h_start c) (h_t0 c) (h_rpcs0 c) (h_ops c)
    (h_failed c) (h_report c) (h_verdict c).
Definition set_groups (c : config) (st : Network * Groups) : config :=
  mkConfig st.1 (h_done c) (h_serving c) st.2 (h_clnts c) (h_start c) (h_t0 c) (h_rpcs0 c) (h_ops c)
    (h_failed c) (h_report c) (h_verdict c).
Definition set_clnts (c : config) (st : cstate) : config :=
  mkConfig st.1 (h_done c) (h_serving c) (h_groups c) st.2 (h_start c) (h_t0 c) (h_rpcs0 c) (h_ops c)
    (h_failed c) (h_report c) (h_verdict c).
Definition set_stats (c : config) (t0 rpcs0 ops : Z) (r : option report) : config :=
  mkConfig (h_net c) (h_done c) (h_serving c) (h_groups c) (h_clnts c) (h_start c) t0 rpcs0 ops
    (h_failed c) r (h_verdict c).
Definition set_serving (c : config) (d s : bool) : config :=
  mkConfig (h_net c) d s (h_groups c) (h_clnts c) (h_start c) (h_t0 c) (h_rpcs0 c) (h_ops c)
    (h_failed c) (h_report c) (h_verdict c).
Definition set_verdict (c : config) (failed : bool) (v : option string) : config :=
  mkConfig (h_net c) (h_done c) (h_serving c) (h_groups c) (h_clnts c) (h_start c) (h_t0 c) (h_rpcs0 c) (h_ops c)
    failed (h_report c) v.

(** The names of the group's ends and its servers' objects as in [Config]. *)
Definition MakeConfig (names : list (list string)) (starts : nat -> list string * nat) (rel : bool) (now : Z)
    : outcome config :=
  st ← MakeGroupStart GRP0 names starts (MakeNetwork, newGroups);
  Ret (mkConfig (Reliable rel st.1) false true st.2 makeClnts now 0 0 0 false None None).

Definition SetReliable (rel : bool) (c : config) : config := set_hnet c (Reliable rel (h_net c)).
Definition IsReliable (c : config) : bool := reliable (h_net c).
Definition SetLongReordering (b : bool) (c : config) : config := set_hnet c (LongReordering b (h_net c)).
Definition SetLongDelays (b : bool) (c : config) : config := set_hnet c (LongDelays b (h_net c)).
Definition RpcTotal (c : config) : Z := GetTotalCount (h_net c).
Definition BytesTotal (c : config) : Z := GetTotalBytes (h_net c).

Definition Begin (now : Z) (c : config) : config := set_stats c now (RpcTotal c) 0 (h_report c).
Definition OpInc (c : config) : config := set_stats c (h_t0 c) (h_rpcs0 c) (int32 (h_ops c + 1)) (h_report c).

(** [t.Fatal] ends the test. *)
Definition CheckTimeout (now : Z) (c : config) : outcome config :=
  if negb (h_failed c) && (seconds 120 <? now - h_start c)%Z then Fatal "test took longer than 120 seconds" else Ret c.

Definition End (now : Z) (c : config) : outcome config :=
  c ← CheckTimeout now c;
  if h_failed c then Ret c
  else match lookupGroup GRP0 (h_groups c) with
  | None => Panic "nil pointer dereference"
  | Some sg => Ret (set_stats c (h_t0 c) (h_rpcs0 c) (h_ops c)
      (Some (mkReport (now - h_t0 c) (N sg) (RpcTotal c - h_rpcs0 c) (h_ops c))))
  end.

(** A request taken off [endCh], and a reply of [b] bytes counted. *)
Definition net_request (b : Z) (c : config) : config := set_hnet c (add_stats (h_net c) 1 b).
Definition net_reply (b : Z) (c : config) : config := set_hnet c (add_stats (h_net c) 0 b).

Definition Network_Cleanup (c : config) : outcome config :=
  if h_done c then Panic "close of closed channel" else Ret (set_serving c true (h_serving c)).

(** The orders in which [range] meets the clients and the groups. *)
Definition Cleanup (corders : list (nat * list (string * string))) (gorder : list Z) (c : config) : outcome config :=
  cs ← Clnts_cleanup corders (h_net c, h_clnts c);
  gs ← Groups_cleanup gorder (cs.1, h_groups c);
  c' ← Network_Cleanup (set_groups (set_clnts c cs) gs);
  Ret (set_verdict c' (h_failed c) (Some (if h_failed c then "test failed" else "test passed"))).

Definition RpcCount (objs : gmap nat Z) (g : Z) (i : nat) (c : config) : outcome Z :=
  match server_at (h_net c) (ServerName g i) with
  | Some sid => Ret (default 0 (objs !! sid))%Z
  | None => Panic "nil pointer dereference"
  end.

(** ** What happens in a test *)

Inductive h_event :=
  | HBegin (now : Z) | HEnd (now : Z) | HCheckTimeout (now : Z) | HOpInc
  | HRequest (b : Z) | HReply (b : Z) | HRefuse | HStop
  | HReliable (b : bool) | HLongReordering (b : bool) | HLongDelays (b : bool)
  | HMakeGroup (g : Z) (names : list (list string)) (starts : nat -> list string * nat)
  | HExitGroup (g : Z)
  | HKill (g : Z) (l : list nat)
  | HStart (g : Z) (i : nat) (names : list string) (sid : nat)
  | HPartition (g : Z) (p1 p2 : list nat)
  | HClient (e : client_event).

(** [HRequest]: the goroutine takes a request; [HRefuse]: a caller sees [done]
    closed and gives up; [HStop]: the goroutine does. *)
Definition h_enabled (e : h_event) (c : config) : bool :=
  match e with
  | HRequest _ => h_serving c
  | HRefuse => h_done c
  | HStop => h_done c && h_serving c
  | _ => true
  end.

Definition on_groups (f : Network * Groups -> outcome (Network * Groups)) (c : config) : outcome config :=
  st ← f (h_net c, h_groups c); Ret (set_groups c st).

Definition h_exec (e : h_event) (c : config) : outcome config :=
  match e with
  | HBegin now => Ret (Begin now c)
  | HEnd now => End now c
  | HCheckTimeout now => CheckTimeout now c
  | HOpInc => Ret (OpInc c)
  | HRequest b => Ret (net_request b c)
  | HReply b => Ret (net_reply b c)
  | HRefuse => Ret c
  | HStop => Ret (set_serving c (h_done c) false)
  | HReliable b => Ret (SetReliable b c)
  | HLongReordering b => Ret (SetLongReordering b c)
  | HLongDelays b => Ret (SetLongDelays b c)
  | HMakeGroup g names starts => on_groups (MakeGroupStart g names starts) c
  | HExitGroup g => on_groups (ExitGroup g) c
  | HKill g l => on_groups (on_group g (Kill l)) c
  | HStart g i names sid => on_groups (on_group g (StartServer i names sid)) c
  | HPartition g p1 p2 => on_groups (on_group g (Partition p1 p2)) c
  | HClient e => st ← client_exec e (h_net c, h_clnts c); Ret (set_clnts c st)
  end.

Definition h_run (es : list h_event) (c : config) : outcome config := foldo (fun c e => h_exec e c) c es.

(** ** What an operation leaves alone

    [post Q o]: if [o] returns, [Q] holds of what it returns. *)

Definition post {A} (Q : A -> Prop) (o : outcome A) : Prop := match o with Ret a => Q a | _ => True end.

Lemma post_Ret {A} (Q : A -> Prop) a : Q a -> post Q (Ret a).
Proof. done. Qed.
Lemma post_bind {A B} (Q : B -> Prop) (o : outcome A) (k : A -> outcome B) :
  post (fun a => post Q (k a)) o -> post Q (a ← o; k a).
Proof. by destruct o. Qed.
Lemma post_any {A B} (Q : B -> Prop) (o : outcome A) (k : A -> outcome B) :
  (forall a, post Q (k a)) -> post Q (a ← o; k a).
Proof. destruct o; cbn; auto. Qed.
Lemma post_mono {A} (P Q : A -> Prop) o : (forall a, P a -> Q a) -> post P o -> post Q o.
Proof. destruct o; cbn; auto. Qed.
Lemma post_foldo {A S} (I : S -> Prop) (f : S -> A -> outcome S) l s :
  (forall s x, I s -> post I (f s x)) -> I s -> post I (foldo f s l).
Proof.
  intros Hf. revert s. induction l as [|x l IH]; intros s Hs; [done|]. cbn [foldo]. apply post_bind.
  eapply post_mono; [exact IH|by apply Hf].
Qed.

(** Connecting and disconnecting only enable and disable ends. *)
Section Enabling.
Context (P : Network -> Prop) (HP : forall e b rn, P rn -> P (Enable e b rn)) (g : Z) (l : list Srv).

Definition keeps (st : state) : Prop := P st.1 /\ gid st.2 = g /\ srvs st.2 = l.

Lemma keep_loop (f : Network -> nat -> outcome Network) js rn :
  (forall rn j, post (fun rn' => rn' = rn \/ exists e b, rn' = Enable e b rn) (f rn j)) -> P rn -> post P (foldo f rn js).
Proof.
  intros Hf. apply post_foldo. intros n j Hn. eapply post_mono; [|apply Hf]. intros n' [->|(e & b & ->)]; auto.
Qed.

Lemma keep_connect i to st : keeps st -> post keeps (connect i to st).
Proof.
  destruct st as [rn sg]. intros (Hv & Hg & Hl). apply post_any. intros _. apply post_any. intros s. apply post_bind.
  eapply post_mono; [|apply keep_loop; [|exact Hv]].
  - intros n Hn. apply post_bind. eapply post_mono; [|apply keep_loop; [|exact Hn]]; [by intros a Ha; split|].
    intros n' j. apply post_any. intros [|]; [|by left]. apply post_any. intros t. apply post_any. intros e. right. by eexists _, _.
  - intros n' j. apply post_any. intros [|]; [|by left]. apply post_any. intros e. right. by eexists _, _.
Qed.

Lemma keep_disconnect i from st : keeps st -> post keeps (disconnect i from st).
Proof.
  destruct st as [rn sg]. intros (Hv & Hg & Hl). apply post_any. intros _. apply post_any. intros s. apply post_bind.
  eapply post_mono; [|apply keep_loop; [|exact Hv]].
  - intros n Hn. apply post_bind. eapply post_mono; [|apply keep_loop; [|exact Hn]]; [by intros a Ha; split|].
    intros n' j. apply post_any. intros t. apply post_any. intros e. right. by eexists _, _.
  - intros n' j. apply post_any. intros e. right. by eexists _, _.
Qed.

Lemma keep_Partition p1 p2 st : keeps st -> post keeps (Partition p1 p2 st).
Proof.
  assert (Hside : forall ps others st, keeps st -> post keeps (partition_side ps others st)).
  { intros ps others st'. apply post_foldo. intros s i Hs. apply post_bind. eapply post_mono; [|by apply keep_disconnect].
    intros st0. apply keep_connect. }
  intros Hv. apply post_bind. eapply post_mono; [|by apply Hside]. intros st'. apply Hside.
Qed.

End Enabling.

(** The counters and flags of the network. *)
Definition stats (rn : Network) : Z * Z * bool := (rpc_count rn, rpc_bytes rn, reliable rn).

Section Stats.
Context (v : Z * Z * bool).

Definition has (rn : Network) : Prop := stats rn = v.
Definition has1 {B} (st : Network * B) : Prop := has st.1.

Lemma has_MakeEnd e rn : has rn -> post has (MakeEnd e rn).
Proof. intros Hv. unfold MakeEnd. by case_bool_decide. Qed.
Lemma has_DeleteEnd e rn : has rn -> post has (DeleteEnd e rn).
Proof. intros Hv. unfold DeleteEnd. by case_bool_decide. Qed.

Lemma has_makeServer g names rn : has rn -> post has1 (makeServer g names rn).
Proof.
  intros Hv. apply post_bind. eapply post_mono; [|apply (post_foldo has); [|exact Hv]]; [done|].
  intros n [j e] Hn. apply post_bind. eapply post_mono; [|by apply has_MakeEnd]. done.
Qed.

Lemma has_makeSrvGrp g names rn : has rn -> post has1 (makeSrvGrp g names rn).
Proof.
  intros Hv. apply post_bind. eapply post_mono; [|apply (post_foldo has1); [|exact Hv]]; [done|].
  intros [n l] ns Hn. apply post_bind. eapply post_mono; [|by apply has_makeServer]. done.
Qed.

Lemma has_StartServer i names sid st : has1 st -> post has1 (StartServer i names sid st).
Proof.
  destruct st as [rn sg]. intros Hv. apply post_any. intros s. apply post_bind. unfold startServer. apply post_bind.
  eapply post_mono; [|by apply has_makeServer]. done.
Qed.

Lemma has_connect i to st : has1 st -> post has1 (connect i to st).
Proof. intros Hv. eapply post_mono; [|apply (keep_connect has); [done|by split]]. by intros st' [? _]. Qed.
Lemma has_disconnect i from st : has1 st -> post has1 (disconnect i from st).
Proof. intros Hv. eapply post_mono; [|apply (keep_disconnect has); [done|by split]]. by intros st' [? _]. Qed.

Lemma has_ShutdownServer i st : has1 st -> post has1 (ShutdownServer i st).
Proof.
  intros Hv. apply post_bind. eapply post_mono; [|by apply has_disconnect]. intros [rn sg] Hn. by apply post_any.
Qed.

Lemma has_Kill l st : has1 st -> post has1 (Kill l st).
Proof. apply post_foldo. intros s i. apply has_ShutdownServer. Qed.

Lemma has_ConnectAll st : has1 st -> post has1 (ConnectAll st).
Proof. apply post_foldo. intros s i. apply has_connect. Qed.

Lemma has_Partition p1 p2 st : has1 st -> post has1 (Partition p1 p2 st).
Proof. intros Hv. eapply post_mono; [|apply (keep_Partition has); [done|by split]]. by intros st' [? _]. Qed.

Lemma has_on_group g f st : (forall st, has1 st -> post has1 (f st)) -> has1 st -> post has1 (on_group g f st).
Proof.
  intros Hf Hv. unfold on_group. destruct (lookupGroup g st.2) as [sg|]; [|done]. apply post_bind.
  eapply post_mono; [|by apply Hf]. done.
Qed.

Lemma has_StartServers starts st : has1 st -> post has1 (StartServers starts st).
Proof.
  intros Hv. apply post_bind. eapply post_mono; [|apply (post_foldo has1); [|exact Hv]]; [intros s; apply has_ConnectAll|].
  intros s i. apply has_StartServer.
Qed.

Lemma has_MakeGroupStart g names starts st : has1 st -> post has1 (MakeGroupStart g names starts st).
Proof.
  intros Hv. apply post_bind, post_bind. eapply post_mono; [|by apply has_makeSrvGrp].
  intros r Hr. cbn. apply has_on_group; [apply has_StartServers|exact Hr].
Qed.

Lemma has_ExitGroup g st : has1 st -> post has1 (ExitGroup g st).
Proof.
  intros Hv. apply post_bind. eapply post_mono; [|by apply has_on_group; [intros s; apply has_Kill|]]. done.
Qed.

Lemma has_client e st : has1 st -> post has1 (client_exec e st).
Proof.
  intros Hv. destruct e as [id srvs|id name server|id order]; cbn.
  - unfold MakeClientTo. by destruct (clerks st.2).
  - unfold client_end. destruct (heap st.2 !! id) as [c|]; [|done]. apply post_bind. unfold makeEnd.
    destruct (cends c !! server); [done|]. apply post_bind. eapply post_mono; [|by apply has_MakeEnd]. done.
  - unfold DeleteClient. destruct (clerks st.2); [|done]. case_decide; [|done]. apply post_bind. unfold client_remove.
    apply post_bind. eapply post_mono; [|apply (post_foldo has); [|exact Hv]]; [done|]. intros n x. apply has_DeleteEnd.
Qed.

End Stats.

(** ** Between [Begin] and [End] *)

Definition req_of (e : h_event) : Z := match e with HRequest _ => 1 | _ => 0 end.
Definition op_of (e : h_event) : Z := match e with HOpInc => 1 | _ => 0 end.
Definition not_begin (e : h_event) : Prop := match e with HBegin _ => False | _ => True end.

Definition same_test (c c' : config) : Prop :=
  h_t0 c' = h_t0 c /\ h_rpcs0 c' = h_rpcs0 c /\ h_start c' = h_start c /\ h_failed c' = h_failed c.
Definition counted (k j : Z) (c c' : config) : Prop :=
  same_test c c' /\ rpc_count (h_net c') = (rpc_count (h_net c) + k)%Z /\ h_ops c' = int32 (h_ops c + j).

Lemma int32_small x : (- 2 ^ 31 <= x < 2 ^ 31)%Z -> int32 x = x.
Proof. intros Hx. unfold int32. rewrite wrap_small by lia. lia. Qed.

Lemma int32_add x y : int32 (int32 x + y) = int32 (x + y).
Proof.
  unfold int32, wrap. f_equal. replace ((x + 2 ^ 31) mod 2 ^ 32 - 2 ^ 31 + y + 2 ^ 31)%Z with ((x + 2 ^ 31) mod 2 ^ 32 + y)%Z by lia.
  rewrite Z.add_mod_idemp_l by done. f_equal. lia.
Qed.

Lemma int32_idemp x : int32 (int32 x) = int32 x.
Proof. pose proof (int32_add x 0) as H. by rewrite !Z.add_0_r in H. Qed.

Lemma post_Ret_inv {A} (Q : A -> Prop) o a : post Q o -> o = Ret a -> Q a.
Proof. by intros H ->. Qed.

Lemma counted_none c c' :
  same_test c c' -> rpc_count (h_net c') = rpc_count (h_net c) -> h_ops c' = h_ops c -> h_ops c = int32 (h_ops c) -> counted 0 0 c c'.
Proof. intros H1 H2 H3 H4. split; [done|]. rewrite !Z.add_0_r. split; congruence. Qed.

Lemma on_groups_counted f c c' :
  (forall v st, has1 v st -> post (has1 v) (f st)) -> h_ops c = int32 (h_ops c) -> on_groups f c = Ret c' -> counted 0 0 c c'.
Proof.
  intros Hf Ho (st & Hst & [= <-])%bind_Ret. apply counted_none; [done| |done|done].
  pose proof (post_Ret_inv _ _ _ (Hf (stats (h_net c)) (h_net c, h_groups c) eq_refl) Hst) as Hs.
  unfold has1, has, stats in Hs. cbn in Hs |- *. congruence.
Qed.

Lemma h_exec_counted e c c' :
  not_begin e -> h_ops c = int32 (h_ops c) -> h_exec e c = Ret c' -> counted (req_of e) (op_of e) c c'.
Proof.
  intros Hnb Ho He. destruct e; cbn [h_exec req_of op_of] in *; try done;
    try (by injection He as <-; apply counted_none); try (injection He as <-; by split; [|rewrite Z.add_0_r]);
    try (eapply on_groups_counted; [|exact Ho|exact He]; intros v st Hs).
  - unfold End, CheckTimeout in He. case_match; [done|]. cbn [mbind outcome_bind] in He.
    case_match; [by injection He as <-; apply counted_none|]. case_match; [|done]. injection He as <-. by apply counted_none.
  - unfold CheckTimeout in He. case_match; [done|]. injection He as <-. by apply counted_none.
  - injection He as <-. apply counted_none; [done| |done|done]. cbn. lia.
  - by apply has_MakeGroupStart.
  - by apply has_ExitGroup.
  - apply has_on_group; [intros st'; apply has_Kill|done].
  - apply has_on_group; [intros st'; apply has_StartServer|done].
  - apply has_on_group; [intros st'; apply has_Partition|done].
  - apply bind_Ret in He as (st & Hst & [= <-]). apply counted_none; [done| |done|done].
    pose proof (post_Ret_inv _ _ _ (has_client (stats (h_net c)) _ (h_net c, h_clnts c) eq_refl) Hst) as Hs.
    unfold has1, has, stats in Hs. cbn in Hs |- *. congruence.
Qed.

Lemma counted_trans k j k' j' c1 c2 c3 : counted k j c1 c2 -> counted k' j' c2 c3 -> counted (k + k') (j + j') c1 c3.
Proof.
  intros [(T1 & R1 & S1 & F1) [K1 J1]] [(T2 & R2 & S2 & F2) [K2 J2]]. split; [split_and!; congruence|].
  split; [lia|]. rewrite J2, J1, int32_add. f_equal. lia.
Qed.

Lemma h_run_counted es c c' :
  Forall not_begin es -> h_ops c = int32 (h_ops c) -> h_run es c = Ret c' -> counted (zsum req_of es) (zsum op_of es) c c'.
Proof.
  intros Hall. revert c. induction Hall as [|e es He _ IH]; intros c Ho; cbn.
  - intros [= <-]. by apply counted_none.
  - intros (c1 & H1 & H2)%bind_Ret. pose proof (h_exec_counted e c c1 He Ho H1) as Hc. eapply counted_trans; [exact Hc|].
    apply IH; [|exact H2]. destruct Hc as (_ & _ & ->). by rewrite int32_idemp.
Qed.

(** what [End] reports.  Whatever a test does between [Begin] and [End]
    (server groups made, killed, partitioned and removed, clients made and
    deleted, requests from any process): if [End] is reached it reports the
    time since [Begin], the size of group 0, the requests the network has taken
    and the operations counted since [Begin], exactly unless a counter of 32
    bits overflows; and no more than 120 seconds have passed since
    [MakeConfig]. *)
Theorem End_reports es t t' c c' :
  h_failed c = false -> Forall not_begin es -> h_run (HBegin t :: es ++ [HEnd t']) c = Ret c' ->
  exists sg, lookupGroup GRP0 (h_groups c') = Some sg /\ (t' - h_start c <= seconds 120)%Z /\
  h_report c' = Some (mkReport (t' - t) (N sg)
    (int32 (rpc_count (h_net c) + zsum req_of es) - int32 (rpc_count (h_net c))) (int32 (zsum op_of es))) /\
  ((0 <= rpc_count (h_net c))%Z -> (rpc_count (h_net c) + zsum req_of es < 2 ^ 31)%Z -> (zsum op_of es < 2 ^ 31)%Z ->
   h_report c' = Some (mkReport (t' - t) (N sg) (zsum req_of es) (zsum op_of es))).
Proof.
  intros Hf Hall Hr. cbn [h_run foldo h_exec] in Hr. cbn [mbind outcome_bind] in Hr. rewrite foldo_app in Hr.
  apply bind_Ret in Hr as (c1 & H1 & Hr). cbn [foldo h_exec] in Hr. apply bind_Ret in Hr as (c2 & H2 & [= <-]).
  apply (h_run_counted es (Begin t c)) in H1 as [(HT & HR & HS & HF) [HK HJ]]; [|done|done]. cbn in HT, HR, HS, HF, HK, HJ.
  unfold End, CheckTimeout in H2. rewrite HF, Hf, HS in H2. cbn [negb andb] in H2.
  destruct (Z.ltb_spec (seconds 120) (t' - h_start c)) as [|Ht]; [done|]. cbn [mbind outcome_bind] in H2. rewrite HF, Hf in H2.
  destruct (lookupGroup GRP0 (h_groups c1)) as [sg|] eqn:Hg; [|done]. injection H2 as <-. exists sg. split; [exact Hg|]. split; [lia|].
  cbn [h_report set_stats]. unfold RpcTotal, GetTotalCount. rewrite HT, HR, HK, HJ. unfold RpcTotal, GetTotalCount.
  split; [done|]. intros H0 Hk Hj. assert (0 <= zsum req_of es)%Z by (apply zsum_nonneg; by intros []).
  assert (0 <= zsum op_of es)%Z by (apply zsum_nonneg; by intros []). rewrite !Z.add_0_l, !int32_small by lia. do 2 f_equal. lia.
Qed.

(** ** The life of a test *)

(** A name no end has and no client has had. *)
Definition unused (c : config) (e : string) : Prop := name_fresh e (h_net c, h_clnts c).

(** The test uses groups that exist, indices in range, fresh names; [End] is
    called in time. *)
Definition h_ok (e : h_event) (c : config) : Prop :=
  match e with
  | HEnd now => is_Some (h_groups c !! GRP0) /\ (now - h_start c <= seconds 120)%Z
  | HCheckTimeout now => (now - h_start c <= seconds 120)%Z
  | HMakeGroup g names starts =>
      h_groups c !! g = None /\ NoDup (group_names names starts) /\
      (forall e, e ∈ group_names names starts -> unused c e) /\
      (forall i, i < length names -> length (starts i).1 = length names)
  | HExitGroup g => is_Some (h_groups c !! g)
  | HKill g l => exists sg, h_groups c !! g = Some sg /\ forall i, i ∈ l -> i < N sg
  | HStart g i names sid => exists sg, h_groups c !! g = Some sg /\ i < N sg /\ NoDup names /\ length names = N sg /\
      forall e, e ∈ names -> unused c e
  | HPartition g p1 p2 => exists sg, h_groups c !! g = Some sg /\ (forall j, j ∈ p1 ++ p2 <-> j < N sg) /\
      forall j, j ∈ p1 -> j ∉ p2
  | HClient e => event_ok e (h_net c, h_clnts c)
  | _ => h_enabled e c = true
  end.

(** The names given to ends of servers. *)
Definition server_ends (e : h_event) (E : gset string) : gset string :=
  match e with
  | HMakeGroup g names starts => list_to_set (group_names names starts) ∪ E
  | HStart g i names sid => list_to_set names ∪ E
  | _ => E
  end.

Inductive h_reach : gset string -> config -> Prop :=
  | HR_init names starts rel now c :
      NoDup (group_names names starts) -> (forall i, i < length names -> length (starts i).1 = length names) ->
      MakeConfig names starts rel now = Ret c -> h_reach (list_to_set (group_names names starts)) c
  | HR_step E e c c' : h_reach E c -> h_ok e c -> h_exec e c = Ret c' -> h_reach (server_ends e E) c'.

Record h_inv (E : gset string) (c : config) : Prop := {
  hi_groups g sg : h_groups c !! g = Some sg -> group_ok g (N sg) sg;
  hi_names g sg a b e : h_groups c !! g = Some sg -> name sg a b = Some e -> e ∈ E;
  hi_servers sn : is_Some (server_at (h_net c) sn) ->
    exists g sg i, h_groups c !! g = Some sg /\ i < N sg /\ sn = ServerName g i;
  hi_clients : exists net0, ends net0 = E /\ clients_ok net0 (h_net c, h_clnts c);
  hi_open : h_done c = false }.

(** More ends of servers. *)
Lemma clients_ok_more net0 net0' net net' cs (F : gset string) :
  clients_ok net0 (net, cs) -> ends net0' = F ∪ ends net0 -> ends net' = F ∪ ends net ->
  (forall e id c srv, e ∈ F -> heap cs !! id = Some c -> cends c !! srv <> Some e) -> clients_ok net0' (net', cs).
Proof.
  intros [H1 H2 H3 H4 H5 H6 H7] E0 E1 HF. split; cbn in *; try done.
  - intros cs0 id c srv e Hcs Hid Hc Hs. rewrite E1. apply elem_of_union_r. by eapply H3.
  - intros id c srv e Hc Hs. rewrite E0. intros [Hin|Hin]%elem_of_union; [by eapply HF|by eapply H5].
  - set_solver.
  - intros cs0 e Hcs. rewrite E0, E1. intros [Hin|Hin]%elem_of_union; [left; set_solver|].
    destruct (H7 cs0 e Hcs Hin) as [|Hc]; [left; set_solver|by right].
Qed.

Lemma client_servers e st : post (fun st' => servers st'.1 = servers st.1) (client_exec e st).
Proof.
  destruct e as [id srvs|id name server|id order]; cbn.
  - unfold MakeClientTo. by destruct (clerks st.2).
  - unfold client_end. destruct (heap st.2 !! id) as [c|]; [|done]. apply post_bind. unfold makeEnd.
    destruct (cends c !! server); [done|]. apply post_bind. unfold MakeEnd. by case_bool_decide.
  - unfold DeleteClient. destruct (clerks st.2); [|done]. case_decide; [|done]. apply post_bind. unfold client_remove.
    apply post_bind. eapply post_mono; [|apply (post_foldo (fun n => servers n = servers st.1)); [|done]]; [done|].
    intros n x Hn. unfold DeleteEnd. by case_bool_decide.
Qed.

Lemma StartServer_ok i names sid net sg :
  grp_wf sg -> i < N sg -> NoDup names -> length names = N sg -> (forall e, e ∈ names -> e ∉ ends net) ->
  (forall a b e, name sg a b = Some e -> e ∈ ends net) ->
  exists net' sg', StartServer i names sid (net, sg) = Ret (net', sg') /\ group_ok (gid sg) (N sg) sg' /\
    ends net' = list_to_set names ∪ ends net /\
    (forall a b, name sg' a b = if decide (a = i) then names !! b else name sg a b) /\
    forall sn, server_at net' sn = if decide (sn = ServerName (gid sg) i) then Some sid else server_at net sn.
Proof.
  intros Hwf Hi Hnd Hlen Hf Hin. destruct (lookup_lt_is_Some_2 (srvs sg) i Hi) as [s Hs].
  destruct (makeServer_spec (gid sg) names net Hnd Hf) as (n1 & E & He & _). pose proof (makeServer_servers _ _ _ _ _ E) as Hsv.
  eexists _, _. split; [unfold StartServer, startServer; rewrite (idx_Some _ _ _ Hs); cbn [mbind outcome_bind];
    rewrite E; cbn [mbind outcome_bind fst snd endNames saved]; done|].
  set (s' := mkSrv _ _ _). assert (Hname : forall a b, name (set_srvs sg (<[i:=s']> (srvs sg))) a b =
    if decide (a = i) then names !! b else name sg a b) by (intros a b; unfold set_srvs; by rewrite name_upd).
  assert (HN : N (set_srvs sg (<[i:=s']> (srvs sg))) = N sg) by (unfold N; cbn; by rewrite length_insert).
  split; [|split; [done|split; [exact Hname|]]].
  - split; [|by split]. destruct Hwf as [H1 H2 H3]. split.
    + by rewrite HN.
    + intros a b. rewrite HN, Hname. intros Ha Hb. case_decide; [|by apply H2]. apply lookup_lt_is_Some_2. lia.
    + intros a b a' b' e. rewrite !Hname.
      assert (Hnew : forall k, names !! k = Some e -> e ∉ ends net) by (intros k Hk; by eapply Hf, list_elem_of_lookup_2).
      repeat case_decide; subst.
      * intros Hb Hb'. split; [done|]. by eapply NoDup_lookup.
      * intros Hb Hb'. exfalso. by eapply Hnew, Hin.
      * intros Hb Hb'. exfalso. by eapply Hnew, Hin.
      * apply H3.
  - intros sn. unfold server_at. cbn. case_decide; [subst; by rewrite lookup_insert_eq|].
    rewrite lookup_insert_ne by congruence. by rewrite Hsv.
Qed.

(** [on_group] for an operation that keeps the group well formed. *)
Lemma on_group_eq g f net (gs : Groups) sg net' sg' :
  gs !! g = Some sg -> f (net, sg) = Ret (net', sg') -> on_group g f (net, gs) = Ret (net', <[g := sg']> gs).
Proof. intros Hg E. unfold on_group, lookupGroup. cbn [fst snd]. by rewrite Hg, E. Qed.

(** A group changed: its size is the same, its names are known, and the servers
    of the network are still those of groups. *)
Lemma h_inv_group E F g sg c net' sg' :
  h_inv E c -> h_groups c !! g = Some sg -> group_ok g (N sg) sg' -> ends net' = F ∪ ends (h_net c) ->
  (forall e, e ∈ F -> unused c e) -> (forall a b e, name sg' a b = Some e -> e ∈ F ∪ E) ->
  (forall sn, is_Some (server_at net' sn) -> is_Some (server_at (h_net c) sn) \/ exists i, i < N sg /\ sn = ServerName g i) ->
  h_inv (F ∪ E) (set_groups c (net', <[g := sg']> (h_groups c))).
Proof.
  intros [H1 H2 H3 (net0 & H4 & H4') H5] Hg (Hwf & HN & Hgid) He HF Hn Hs. split; cbn.
  - intros g' sg0. rewrite lookup_insert_Some. intros [[<- <-]|[_ Hl]]; [|by apply H1]. by split.
  - intros g' sg0 a b e. rewrite lookup_insert_Some. intros [[_ <-]|[_ Hl]] Hnm; [by eapply Hn|].
    apply elem_of_union_r. by eapply H2.
  - intros sn Hsn. assert (Hback : forall i, i < N sg -> sn = ServerName g i ->
      exists g0 sg0 i0, <[g := sg']> (h_groups c) !! g0 = Some sg0 /\ i0 < N sg0 /\ sn = ServerName g0 i0).
    { intros i Hi ->. exists g, sg', i. rewrite lookup_insert_eq. split; [done|]. split; [by rewrite HN|done]. }
    destruct (Hs sn Hsn) as [Hold|(i & Hi & ->)]; [|by eapply Hback].
    destruct (H3 sn Hold) as (g0 & sg0 & i & Hl & Hi & ->). destruct (decide (g = g0)) as [<-|Hne].
    + rewrite Hg in Hl. injection Hl as <-. by eapply Hback.
    + exists g0, sg0, i. by rewrite lookup_insert_ne.
  - exists (mkNet (reliable net0) (longDelays net0) (longReordering net0) (F ∪ ends net0) (enabled net0) (servers net0)
      (connections net0) (rpc_count net0) (rpc_bytes net0)). split; [cbn; by rewrite H4|].
    eapply clients_ok_more; [exact H4'|done|exact He|]. intros e id c0 srv Hin Hc. by apply (proj2 (HF e Hin) id c0 srv).
  - done.
Qed.

(** Operations that only enable and count. *)
Lemma h_inv_net E c c' :
  h_inv E c -> ends (h_net c') = ends (h_net c) -> servers (h_net c') = servers (h_net c) ->
  h_groups c' = h_groups c -> h_clnts c' = h_clnts c -> h_done c' = h_done c -> h_inv E c'.
Proof.
  intros [H1 H2 H3 (net0 & H4 & H4') H5] He Hs Hg Hc Hd. split; rewrite ?Hg, ?Hd; try done.
  - intros sn. unfold server_at. rewrite Hs. apply H3.
  - exists net0. split; [done|]. rewrite Hc. eapply (clients_ok_more net0 net0 _ _ _ ∅); [exact H4'| | |]; set_solver.
Qed.

Lemma union_empty_E (E : gset string) : ∅ ∪ E = E.
Proof. set_solver. Qed.

Lemma name_in_group sg a b e : grp_wf sg -> name sg a b = Some e -> a < N sg.
Proof. intros Hwf Hn. unfold name in Hn. apply bind_Some in Hn as (s & Hs & _). by eapply lookup_lt_Some. Qed.

Lemma Kill_names l net sg net' sg' a b : Kill l (net, sg) = Ret (net', sg') -> name sg' a b = name sg a b.
Proof.
  assert (H : forall st, post (fun st' => forall a b, name st'.2 a b = name st.2 a b) (Kill l st)).
  { intros st. apply (post_foldo (fun st' => forall a b, name st'.2 a b = name st.2 a b)); [|done].
    intros st1 i Hst. apply post_bind. eapply post_mono; [|apply (keep_disconnect (fun _ => True) ltac:(done) (gid st1.2) (srvs st1.2)); by split].
    intros [rn sg1] (_ & Hg & Hl). unfold idx. destruct (srvs sg1 !! i) as [s|] eqn:Hs; [|done]. cbn. intros a' b'.
    rewrite <-Hst. unfold name. cbn in Hl |- *. rewrite <-Hl. destruct (decide (a' = i)) as [->|Hne].
    - rewrite list_lookup_insert_eq by (by eapply lookup_lt_Some). rewrite Hs. cbn. unfold shutdownServer. by destruct (dc s).
    - by rewrite list_lookup_insert_ne. }
  intros E. by apply (post_Ret_inv _ _ _ (H (net, sg)) E).
Qed.

Definition steps (E : gset string) (e : h_event) (c : config) : Prop := exists c', h_exec e c = Ret c' /\ h_inv (server_ends e E) c'.

Lemma step_make E g names starts c : h_inv E c -> h_ok (HMakeGroup g names starts) c -> steps E (HMakeGroup g names starts) c.
Proof.
  intros Hinv Hok. pose proof Hinv as [H1 H2 H3 (net0 & H4 & H4') H5]. cbn in H4'. unfold steps. cbn [h_exec server_ends].
  destruct Hok as (Hg & Hnd & Hf & Hl).
  destruct (MakeGroupStart_full g names starts (h_net c) (h_groups c) Hnd) as (net' & sg & Hm & (Hwf & HN & Hgid) & _ & He & Hup & Hoth & Hnm);
    [intros e He; by apply (Hf e He)|done|]. exists (set_groups c (net', <[g := sg]> (h_groups c))).
  split; [unfold on_groups; by rewrite Hm|]. split; cbn.
  - intros g' sg0. rewrite lookup_insert_Some. intros [[<- <-]|[_ Hl']]; [by split|by apply H1].
  - intros g' sg0 a b e. rewrite lookup_insert_Some. intros [[_ <-]|[_ Hl']] Hn.
    + apply elem_of_union_l, elem_of_list_to_set. by eapply Hnm.
    + apply elem_of_union_r. by eapply H2.
  - intros sn Hsn. destruct (decide (sn ∈ ServerName g <$> seq 0 (length names))) as [Hin|Hin].
    + apply list_elem_of_fmap in Hin as (i & -> & Hi%elem_of_seq). exists g, sg, i. rewrite lookup_insert_eq. split; [done|]. split; [lia|done].
    + rewrite Hoth in Hsn by (intros i Hi ->; apply Hin, list_elem_of_fmap; exists i; split; [done|apply elem_of_seq; lia]).
      destruct (H3 sn Hsn) as (g0 & sg0 & i & Hl0 & Hi & ->). exists g0, sg0, i. rewrite lookup_insert_ne; [done|]. intros <-. by rewrite Hg in Hl0.
  - exists (mkNet (reliable net0) (longDelays net0) (longReordering net0) (list_to_set (group_names names starts) ∪ ends net0)
      (enabled net0) (servers net0) (connections net0) (rpc_count net0) (rpc_bytes net0)). split; [cbn; by rewrite H4|].
    eapply clients_ok_more; [exact H4'|done|exact He|]. intros e id c0 srv Hin%elem_of_list_to_set Hc. by apply (proj2 (Hf e Hin) id c0 srv).
  - done.
Qed.

Lemma step_exit E g c : h_inv E c -> h_ok (HExitGroup g) c -> steps E (HExitGroup g) c.
Proof.
  intros Hinv Hok. pose proof Hinv as [H1 H2 H3 (net0 & H4 & H4') H5]. cbn in H4'. unfold steps. cbn [h_exec server_ends].
  destruct Hok as [sg Hsg]. destruct (ExitGroup_spec g (h_net c) (h_groups c) sg Hsg (H1 _ _ Hsg)) as (net' & Hx & He & Hs).
  exists (set_groups c (net', delete g (h_groups c))). split; [unfold on_groups; by rewrite Hx|]. split; cbn.
  - intros g' sg0 [_ Hl]%lookup_delete_Some. by apply H1.
  - intros g' sg0 a b e [_ Hl]%lookup_delete_Some. by eapply H2.
  - intros sn. rewrite Hs. case_decide as Hin; [by intros [? [=]]|]. intros (g0 & sg0 & i & Hl & Hi & ->)%H3.
    exists g0, sg0, i. split; [|done]. rewrite lookup_delete_ne; [done|]. intros <-. rewrite Hsg in Hl. injection Hl as <-.
    apply Hin, list_elem_of_fmap. exists i. split; [done|apply elem_of_seq; lia].
  - exists net0. split; [done|]. eapply (clients_ok_more net0 net0 _ _ _ ∅); [exact H4'|set_solver|rewrite He; set_solver|set_solver].
  - done.
Qed.

Lemma step_kill E g l c : h_inv E c -> h_ok (HKill g l) c -> steps E (HKill g l) c.
Proof.
  intros Hinv Hok. pose proof Hinv as [H1 H2 H3 (net0 & H4 & H4') H5]. cbn in H4'. unfold steps. cbn [h_exec server_ends].
  destruct Hok as (sg & Hsg & Hl). destruct (H1 _ _ Hsg) as (Hwf & _ & Hgid).
  destruct (Kill_spec l (h_net c) sg Hwf Hl) as (net' & sg' & Hk & Hgr & He & Hs). rewrite Hgid in *.
  exists (set_groups c (net', <[g := sg']> (h_groups c))). split; [unfold on_groups; by rewrite (on_group_eq _ _ _ _ _ _ _ Hsg Hk)|].
  rewrite <-(union_empty_E E). apply (h_inv_group E ∅ g sg); [done..|rewrite He; set_solver|set_solver| |].
  - intros a b e. rewrite (Kill_names _ _ _ _ _ _ _ Hk). intros Hn. apply elem_of_union_r. by eapply H2.
  - intros sn. rewrite Hs. case_decide; [by intros [? [=]]|by left].
Qed.

Lemma step_start E g i names sid c : h_inv E c -> h_ok (HStart g i names sid) c -> steps E (HStart g i names sid) c.
Proof.
  intros Hinv Hok. pose proof Hinv as [H1 H2 H3 (net0 & H4 & H4') H5]. cbn in H4'. unfold steps. cbn [h_exec server_ends].
  assert (Hsub : forall e, e ∈ E -> e ∈ ends (h_net c)) by (intros x; rewrite <-H4; apply (co_base _ _ H4')).
  destruct Hok as (sg & Hsg & Hi & Hnd & Hlen & Hf). destruct (H1 _ _ Hsg) as (Hwf & _ & Hgid).
  destruct (StartServer_ok i names sid (h_net c) sg) as (net' & sg' & Hst & Hgr & He & Hnm & Hs); try done;
    [intros e Hin; by apply (Hf e Hin)|intros a b e Hn; by eapply Hsub, H2|]. rewrite Hgid in *.
  exists (set_groups c (net', <[g := sg']> (h_groups c))). split; [unfold on_groups; by rewrite (on_group_eq _ _ _ _ _ _ _ Hsg Hst)|].
  apply (h_inv_group E _ g sg); [done..| | |].
  - intros e Hin%elem_of_list_to_set. by apply Hf.
  - intros a b e. rewrite Hnm. case_decide; intros Hn; [|apply elem_of_union_r; by eapply H2].
    apply elem_of_union_l, elem_of_list_to_set. by eapply list_elem_of_lookup_2.
  - intros sn. rewrite Hs. case_decide; [right; by exists i|by left].
Qed.

Lemma step_partition E g p1 p2 c : h_inv E c -> h_ok (HPartition g p1 p2) c -> steps E (HPartition g p1 p2) c.
Proof.
  intros Hinv Hok. pose proof Hinv as [H1 H2 H3 (net0 & H4 & H4') H5]. cbn in H4'. unfold steps. cbn [h_exec server_ends].
  destruct Hok as (sg & Hsg & Hcov & Hdis). destruct (H1 _ _ Hsg) as (Hwf & _ & Hgid).
  destruct (Partition_mesh p1 p2 (h_net c) sg Hwf Hcov Hdis) as (net' & sg' & Hp & Hsr & Hwf' & _).
  set (P := fun n => ends n = ends (h_net c) /\ servers n = servers (h_net c)).
  assert (Hk : post (keeps P (gid sg) (srvs sg)) (Partition p1 p2 (h_net c, sg))) by (apply keep_Partition; [done|by split]).
  apply (post_Ret_inv _ _ _ Hk) in Hp as Hkeep. destruct Hkeep as ([He Hs] & Hg' & _). cbn in He, Hs, Hg'.
  exists (set_groups c (net', <[g := sg']> (h_groups c))). split; [unfold on_groups; by rewrite (on_group_eq _ _ _ _ _ _ _ Hsg Hp)|].
  rewrite <-(union_empty_E E). apply (h_inv_group E ∅ g sg); [done..| | | | |].
  - split; [done|]. split; [unfold N; by rewrite Hsr|congruence].
  - rewrite He. set_solver.
  - set_solver.
  - intros a b e. unfold name. rewrite Hsr. intros Hn. apply elem_of_union_r. by eapply H2.
  - intros sn. unfold server_at. rewrite Hs. by left.
Qed.

Lemma step_client E e c : h_inv E c -> h_ok (HClient e) c -> steps E (HClient e) c.
Proof.
  intros Hinv Hok. pose proof Hinv as [H1 H2 H3 (net0 & H4 & H4') H5]. cbn in H4'. unfold steps. cbn [h_exec server_ends].
  destruct (client_event_step net0 (h_net c, h_clnts c) e H4' Hok) as (st & Hst & Hok').
  exists (set_clnts c st). split; [by rewrite Hst|]. split; cbn; [done|done| | |done].
  - intros sn. unfold server_at. rewrite (post_Ret_inv _ _ _ (client_servers e (h_net c, h_clnts c)) Hst). apply H3.
  - exists net0. split; [done|]. by destruct st.
Qed.

Lemma h_step E e c : h_inv E c -> h_ok e c -> steps E e c.
Proof.
  intros Hinv Hok. destruct e; try (eexists; split; [done|]; by apply (h_inv_net E c)).
  - destruct Hok as [[sg Hsg] Ht]. unfold steps. cbn [h_exec]. unfold End, CheckTimeout. apply Z.ltb_ge in Ht.
    rewrite Ht, andb_false_r. cbn [mbind outcome_bind].
    destruct (h_failed c); [by exists c|]. unfold lookupGroup. rewrite Hsg. eexists. split; [done|]. by apply (h_inv_net E c).
  - exists c. cbn [h_exec]. unfold CheckTimeout. apply Z.ltb_ge in Hok. by rewrite Hok, andb_false_r.
  - by apply step_make.
  - by apply step_exit.
  - by apply step_kill.
  - by apply step_start.
  - by apply step_partition.
  - by apply step_client.
Qed.

Lemma h_inv_init names starts rel now c :
  NoDup (group_names names starts) -> (forall i, i < length names -> length (starts i).1 = length names) ->
  MakeConfig names starts rel now = Ret c -> h_inv (list_to_set (group_names names starts)) c.
Proof.
  intros Hnd Hl Hm.
  destruct (MakeGroupStart_full GRP0 names starts MakeNetwork newGroups Hnd) as (net' & sg & E & (Hwf & HN & Hgid) & _ & He & Hup & Hoth & Hnm);
    [done|done|]. unfold MakeConfig in Hm. rewrite E in Hm. injection Hm as <-. split; cbn.
  - intros g' sg0. rewrite lookup_insert_Some. intros [[<- <-]|[_ Hl']]; [by split|done].
  - intros g' sg0 a b e. rewrite lookup_insert_Some. intros [[_ <-]|[_ Hl']] Hn; [|done]. apply elem_of_list_to_set. by eapply Hnm.
  - intros sn Hsn. destruct (decide (sn ∈ ServerName GRP0 <$> seq 0 (length names))) as [Hin|Hin].
    + apply list_elem_of_fmap in Hin as (i & -> & Hi%elem_of_seq). exists GRP0, sg, i. rewrite lookup_insert_eq. split; [done|]. split; [lia|done].
    + change (is_Some (server_at net' sn)) in Hsn. rewrite Hoth in Hsn by
        (intros i Hi ->; apply Hin, list_elem_of_fmap; exists i; split; [done|apply elem_of_seq; lia]). by destruct Hsn.
  - exists net'. split; [rewrite He; apply set_eq; set_solver|]. eapply (clients_ok_more net' net' net' _ _ ∅); [apply clients_ok_init|set_solver..].
  - done.
Qed.

Lemma h_reach_inv E c : h_reach E c -> h_inv E c.
Proof.
  induction 1 as [names starts rel now c Hnd Hl Hm|E e c c' _ IH Hok He]; [by eapply h_inv_init|].
  destruct (h_step E e c IH Hok) as (c2 & H2 & Hinv). rewrite He in H2. by injection H2 as <-.
Qed.

(** The loop of [Groups.cleanup]. *)
Lemma Groups_cleanup_spec gorder net (gs : Groups) :
  (forall g sg, gs !! g = Some sg -> group_ok g (N sg) sg) -> (forall g, g ∈ gorder -> is_Some (gs !! g)) ->
  exists net' gs', Groups_cleanup gorder (net, gs) = Ret (net', gs') /\ ends net' = ends net /\
    forall sn sid, server_at net' sn = Some sid -> server_at net sn = Some sid /\
      forall g sg i, g ∈ gorder -> gs !! g = Some sg -> i < N sg -> sn <> ServerName g i.
Proof.
  revert net gs. induction gorder as [|g gorder IH]; intros net gs Hgs Hin.
  - exists net, gs. split; [done|]. split; [done|]. intros sn sid Hs. split; [done|]. intros g sg i Hg. by apply elem_of_nil in Hg.
  - destruct (Hin g) as [sg Hg]; [by left|]. destruct (Hgs g sg Hg) as (Hwf & _ & Hgid).
    destruct (Kill_spec (all sg) net sg Hwf) as (n1 & sg1 & Hk & (Hwf1 & HN1 & Hg1) & He1 & Hs1); [intros i; unfold all; rewrite elem_of_seq; lia|].
    rewrite Hgid in *. pose proof (on_group_eq g Shutdown net gs sg n1 sg1 Hg Hk) as Hon.
    destruct (IH n1 (<[g := sg1]> gs)) as (n2 & gs2 & E2 & He2 & Hs2).
    + intros g0 sg0. rewrite lookup_insert_Some. intros [[<- <-]|[_ Hl]]; [by split|by apply Hgs].
    + intros g0 Hg0. destruct (decide (g = g0)) as [<-|]; [rewrite lookup_insert_eq; by eexists|].
      rewrite lookup_insert_ne by done. apply Hin. by right.
    + exists n2, gs2. split; [unfold Groups_cleanup in *; cbn [foldo]; by rewrite Hon|]. split; [congruence|].
      intros sn sid Hsn. apply Hs2 in Hsn as [Hsn Hno]. rewrite Hs1 in Hsn. case_decide as Hd; [done|]. split; [done|].
      intros g0 sg0 i Hg0 Hl Hi ->. destruct (decide (g = g0)) as [<-|Hne].
      * rewrite Hg in Hl. injection Hl as <-. apply Hd, list_elem_of_fmap. exists i. split; [done|]. unfold all. apply elem_of_seq. lia.
      * apply elem_of_cons in Hg0 as [->|Hg0]; [done|]. by apply (Hno g0 sg0 i Hg0); [rewrite lookup_insert_ne|..].
Qed.


(** After [Cleanup] a second one would close a closed channel; and once the
    network's goroutine has stopped it takes no more requests. *)
Lemma Cleanup_once corders gorder c c' : Cleanup corders gorder c = Ret c' -> Network_Cleanup c' = Panic "close of closed channel".
Proof.
  unfold Cleanup. intros (cs & _ & H)%bind_Ret. apply bind_Ret in H as (gs & _ & H). apply bind_Ret in H as (c1 & H1 & [= <-]).
  unfold Network_Cleanup in *. cbn. case_match; [done|]. by injection H1 as <-.
Qed.

(** [RpcCount] of a server that was shut down follows a nil pointer. *)
Lemma RpcCount_shutdown objs g i net sg net' sg' c :
  grp_wf sg -> gid sg = g -> i < N sg -> ShutdownServer i (net, sg) = Ret (net', sg') -> h_net c = net' ->
  RpcCount objs g i c = Panic "nil pointer dereference".
Proof.
  intros Hwf <- Hi E Hc. destruct (ShutdownServer_ok i net sg Hwf Hi) as (n1 & g1 & E1 & _ & _ & Hs).
  rewrite E in E1. injection E1 as <- <-. unfold RpcCount. by rewrite Hc, Hs, decide_True.
Qed.

(** *** Names drawn *)

Lemma Randstring_ok n b : n <= String.length b ->
  exists s, Randstring n b = Ret s /\ String.length s = n /\ forall c, has_char c b64_alphabet = false -> c <> "="%char -> has_char c s = false.
Proof.
  intros Hn. pose proof (base64url_length b). unfold Randstring. rewrite decide_True by lia. eexists. split; [done|].
  split; [apply length_substring; lia|]. intros c Hc Hp. by apply has_char_substring, base64url_chars.
Qed.

(** ** A test *)

Definition demo_h_names : list (list string) := [["a"; "b"]; ["c"; "d"]].
Definition demo_h_starts (i : nat) : list string * nat := ([itoa i +:+ "e"; itoa i +:+ "f"], i).
Definition demo_config : outcome config := MakeConfig demo_h_names demo_h_starts false 0.

(** A server is restarted while a client works. *)
Definition demo_events : list h_event :=
  [HClient (CMake 0 None); HClient (CEnd 0 "x" "server-0-1"); HOpInc; HRequest 12; HReply 3; HKill 0 [1];
   HStart 0 1 ["g"; "h"] 7; HPartition 0 [0] [1]; HOpInc; HRequest 12].
Definition demo_run : outcome config := c ← demo_config; h_run (HBegin (seconds 1) :: demo_events ++ [HEnd (seconds 9)]) c.

Lemma is_ret_inv {A} (o : outcome A) : is_ret o = true -> exists a, o = Ret a.
Proof. destruct o; [|done..]. intros _. by eexists. Qed.

(** What is read of the result of a computation. *)
Lemma outcome_read {A B} (f : A -> B) (o : outcome A) a b : o = Ret a -> (x ← o; Ret (f x)) = Ret b -> f a = b.
Proof. intros ->. by intros [= ?]. Qed.

Lemma groups_keys (gs : Groups) g0 n g : map_to_list (N <$> gs) = [(g0, n)] -> g ∈ [g0] <-> is_Some (gs !! g).
Proof.
  intros Hd. assert (Hm : N <$> gs = {[g0 := n]}) by (rewrite <-(list_to_map_to_list (N <$> gs)), Hd; done).
  rewrite list_elem_of_singleton, <-(fmap_is_Some N), <-lookup_fmap, Hm. destruct (decide (g = g0)) as [->|].
  - rewrite lookup_singleton_eq. split; [by eexists|done].
  - rewrite lookup_singleton_ne by done. split; [done|by intros [? [=]]].
Qed.

Definition demo_groups (c : config) : Clnts * list (Z * nat) := (h_clnts c, map_to_list (N <$> h_groups c)).

Lemma demo_config_ok : NoDup (group_names demo_h_names demo_h_starts) /\
  forall i, i < length demo_h_names -> length (demo_h_starts i).1 = length demo_h_names.
Proof. split; [by apply (bool_decide_unpack _); vm_compute|]. done. Qed.

Lemma demo_run_ok : exists c c', demo_config = Ret c /\ h_failed c = false /\ rpc_count (h_net c) = 0%Z /\
  h_run (HBegin (seconds 1) :: demo_events ++ [HEnd (seconds 9)]) c = Ret c'.
Proof.
  assert (H : is_ret demo_run = true) by by vm_compute. apply is_ret_inv in H as [c' H]. unfold demo_run in H.
  apply bind_Ret in H as (c & Hc & H). exists c, c'. split; [exact Hc|].
  pose proof (outcome_read (fun c => (h_failed c, rpc_count (h_net c))) demo_config c (false, 0%Z) Hc ltac:(by vm_compute)) as H0.
  injection H0 as H1 H2. split; [exact H1|]. split; [exact H2|exact H].
Qed.

Lemma End_reports_witness : exists c c' sg, demo_config = Ret c /\
  h_run (HBegin (seconds 1) :: demo_events ++ [HEnd (seconds 9)]) c = Ret c' /\
  h_report c' = Some (mkReport (seconds 8) (N sg) 2 2).
Proof.
  destruct demo_run_ok as (c & c' & Hc & Hf & H0 & Hr).
  destruct (End_reports demo_events (seconds 1) (seconds 9) c c' Hf) as (sg & _ & _ & _ & Hrep); [by repeat constructor|exact Hr|].
  exists c, c', sg. split; [exact Hc|]. split; [exact Hr|]. rewrite H0 in Hrep. by apply Hrep.
Defined.


End Harness.
