(* ===== verification/Daemon.v ===== *)
(** * Daemon: servers in processes of their own

    [src/src/tester1/daemonclnt.go], [daemonsrv.go], [testsrv.go] and
    [testclnt.go], and [ClientEnd.Call] and [Forward] of
    [src/src/labrpc/labrpc.go].  The tester starts each server as a process and
    talks to it over sockets.  Four parts: the command line [runDaemon] builds
    and [InitDaemon] takes apart; the exchange on the daemon's channel that ends
    with the server running; how a daemon is shut down, so that the state the
    tester keeps covers everything the server told anyone; and the RPCs a server
    sends, which travel through the tester. *)

From S2P Require Import Prelude LabRpc Demux Tester.
From stdpp Require Import base gmap list strings pretty countable.
From Stdlib Require Import ZArith Lia Ascii.
From stdpp Require Import list.

Module Daemon.
Import LabRpc Tester.

(** ** Numbers on a command line *)

(** [strconv.Itoa] and [strconv.Atoi] ([None] is an error). *)
Definition Itoa (z : Z) : string := pretty z.

Definition digit_val (c : ascii) : option Z :=
  let n := Z.of_N (N_of_ascii c) in if decide (48 <= n <= 57)%Z then Some (n - 48)%Z else None.
Fixpoint digits_val (acc : Z) (s : string) : option Z :=
  match s with
  | EmptyString => Some acc
  | String c s => d ← digit_val c; digits_val (acc * 10 + d) s
  end.
Definition Atoi (s : string) : option Z :=
  let '(neg, ds) :=
    match s with
    | String c r => if decide (c = "-"%char) then (true, r) else if decide (c = "+"%char) then (false, r) else (false, s)
    | EmptyString => (false, s)
    end in
  match ds with
  | EmptyString => None
  | _ =>
      n ← digits_val 0 ds;
      let z := if neg : bool then (- n)%Z else n in
      if decide (- 2 ^ 63 <= z < 2 ^ 63)%Z then Some z else None
  end.

Lemma digit_val_char n : (n < 10)%N -> digit_val (pretty_N_char n) = Some (Z.of_N n).
Proof.
  intros Hn. rewrite <-(N2Nat.id n). assert (N.to_nat n < 10) by lia.
  generalize dependent (N.to_nat n). intros k Hk. do 10 (destruct k; [done|]). lia.
Qed.

Lemma digits_val_go x s : digits_val 0 (pretty_N_go x s) = digits_val (Z.of_N x) s.
Proof.
  revert s. induction (N.lt_wf_0 x) as [x _ IH]; intros s.
  destruct (decide (x = 0)%N) as [->|]; [by rewrite pretty_N_go_0|].
  rewrite pretty_N_go_step by lia. rewrite IH by (apply N.div_lt; lia). simpl.
  rewrite digit_val_char by (apply N.mod_lt; lia). simpl. f_equal.
  rewrite N2Z.inj_div, N2Z.inj_mod. pose proof (Z.div_mod (Z.of_N x) 10). lia.
Qed.

Lemma digits_val_pretty x : digits_val 0 (pretty x) = Some (Z.of_N x).
Proof. unfold pretty, pretty_N. case_decide as Hx; [by subst|]. by rewrite digits_val_go. Qed.

Lemma pretty_head (x : BinNums.N) : exists c r, pretty x = String c r /\ c <> "-"%char /\ c <> "+"%char.
Proof.
  assert (Hd : forall c, not_digit c -> has_char c (pretty x) = false).
  { intros c Hc. unfold pretty, pretty_N. case_decide; [|by apply pretty_N_go_no_char].
    simpl. rewrite orb_false_r. apply bool_decide_eq_false. intros Heq. apply (Hc 0%N). by rewrite Heq. }
  assert (not_digit "+"%char) as Hplus by (intros y; unfold pretty_N_char; by repeat case_match).
  pose proof (digits_val_pretty x) as Hv. specialize (Hd _ not_digit_dash) as Hm. specialize (Hd _ Hplus) as Hp.
  destruct (pretty x) as [|c r] eqn:Hx.
  - destruct (decide (x = 0)%N) as [->|]; [done|]. injection Hv as Hv. lia.
  - exists c, r. simpl in Hm, Hp. apply orb_false_iff in Hm as [Hm _], Hp as [Hp _].
    apply bool_decide_eq_false in Hm, Hp. by split_and!; [|intros ->..].
Qed.

Lemma Itoa_nonneg z : (0 <= z)%Z -> Itoa z = pretty (Z.to_N z).
Proof. unfold Itoa, pretty at 1, pretty_Z. by destruct z. Qed.

(** A number that is printed is read back. *)
Lemma Atoi_Itoa z : (0 <= z < 2 ^ 63)%Z -> Atoi (Itoa z) = Some z.
Proof.
  intros Hz. rewrite Itoa_nonneg by lia. destruct (pretty_head (Z.to_N z)) as (c & r & Hs & Hm & Hp).
  pose proof (digits_val_pretty (Z.to_N z)) as Hv. rewrite Hs in *. unfold Atoi. rewrite !decide_False by done.
  rewrite Hv. cbn. rewrite decide_True by lia. f_equal. lia.
Qed.

Lemma Itoa_head z : (0 <= z)%Z -> exists c r, Itoa z = String c r /\ c <> "-"%char.
Proof. intros Hz. rewrite Itoa_nonneg by done. destruct (pretty_head (Z.to_N z)) as (c & r & ? & ? & _). by exists c, r. Qed.

(** ** The command line *)

Definition options (UseRaftStateMachine : bool) : list string :=
  if UseRaftStateMachine then ["--raft-state-machine"] else [].

(** The arguments [runDaemon] starts the program with. *)
Definition daemon_args (pargs : list string) (use : bool) (endName : string) (gid : Z) (srv : nat)
    (endNames : list string) : list string :=
  pargs ++ options use ++ [Itoa gid; itoa srv; itoa (length endNames); endName] ++ endNames.

(** The loop of [InitDaemon] over [os.Args[1:]]: [i] is the index, [s] where the
    options seen so far end; [args[0]] of an empty argument panics. *)
Fixpoint skip_options (i s : nat) (args : list string) : outcome nat :=
  match args with
  | [] => Ret s
  | EmptyString :: _ => Panic "index out of range"
  | String c _ :: args => if decide (c = "-"%char) then skip_options (S i) (S i) args else Ret s
  end.

(** Slices and elements at an [int] that may be out of range. *)
Definition slice {A} (l : list A) (lo hi : Z) : outcome (list A) :=
  if decide (0 <= lo <= hi /\ hi <= Z.of_nat (length l))%Z
  then Ret (take (Z.to_nat hi - Z.to_nat lo) (drop (Z.to_nat lo) l)) else Panic "slice bounds out of range".
Definition idxZ {A} (l : list A) (i : Z) : outcome A :=
  if decide (i < 0)%Z then Panic "index out of range" else idx l (Z.to_nat i).

Record conf := mkConf { c_gid : Z; c_sid : Z; c_tester : string; c_ends : list string; c_own : string }.

(** What [InitDaemon] reads of its arguments; [None]: it returns an error. *)
Definition parse_args (args : list string) : outcome (option conf) :=
  s ← skip_options 0 0 args;
  a ← idx args s;
  match Atoi a with None => Ret None | Some gid =>
  a ← idx args (s + 1);
  match Atoi a with None => Ret None | Some sid =>
  a ← idx args (s + 2);
  match Atoi a with None => Ret None | Some nsrv =>
  tester ← idx args (s + 3);
  ends ← slice args (Z.of_nat s + 4) (Z.of_nat s + 4 + nsrv);
  own ← idxZ ends sid;
  Ret (Some (mkConf gid sid tester ends own))
  end end end.

Definition is_option (a : string) : Prop := exists r, a = String "-" r.

Lemma skip_options_app opts rest i :
  Forall is_option opts -> (exists c r rest', rest = String c r :: rest' /\ c <> "-"%char) ->
  skip_options i i (opts ++ rest) = Ret (i + length opts).
Proof.
  intros Ho (c & r & rest' & -> & Hc). revert i. induction Ho as [|a opts [x ->] _ IH]; intros i; simpl.
  - rewrite decide_False by done. by rewrite Nat.add_0_r.
  - rewrite IH. f_equal. lia.
Qed.

Lemma options_option use : Forall is_option (options use).
Proof. destruct use; repeat constructor. by eexists. Qed.

Lemma lookup_app_from {A} (l1 l2 : list A) i : (l1 ++ l2) !! (length l1 + i) = l2 !! i.
Proof. rewrite lookup_app_r by lia. f_equal. lia. Qed.

Lemma slice_app {A} (l1 l2 : list A) : slice (l1 ++ l2) (Z.of_nat (length l1)) (Z.of_nat (length l1 + length l2)) = Ret l2.
Proof.
  unfold slice. rewrite length_app, decide_True by lia. f_equal. rewrite !Nat2Z.id, drop_app_length. apply take_ge. lia.
Qed.

(** the command line survives the trip.  Whatever options the tester adds
    (each starting with a dash), the daemon [runDaemon] starts reads back its
    group, its number, the tester's name and exactly the ends it was given, and
    takes its own name from them: no parse error, no index out of range. *)
Theorem daemon_args_roundtrip pargs use endName gid srv endNames own :
  Forall is_option pargs -> (0 <= gid < 2 ^ 63)%Z -> (Z.of_nat (length endNames) < 2 ^ 63)%Z ->
  endNames !! srv = Some own ->
  parse_args (daemon_args pargs use endName gid srv endNames) =
  Ret (Some (mkConf gid (Z.of_nat srv) endName endNames own)).
Proof.
  intros Ho Hg Hn Hown. pose proof (lookup_lt_Some _ _ _ Hown) as Hlt.
  unfold daemon_args. rewrite (app_assoc pargs). set (opts := pargs ++ options use).
  assert (Hopts : Forall is_option opts) by (apply Forall_app; split; [done|apply options_option]).
  destruct (Itoa_head gid) as (c & r & Hc & Hd); [lia|].
  assert (Hnat : forall n, itoa n = Itoa (Z.of_nat n)).
  { intros n. rewrite Itoa_nonneg by lia. unfold itoa, pretty at 1, pretty_nat. f_equal. lia. }
  set (tail := [Itoa gid; itoa srv; itoa (length endNames); endName] ++ endNames).
  assert (Htail : exists c r rest, tail = String c r :: rest /\ c <> "-"%char).
  { exists c, r. eexists. unfold tail. rewrite Hc. by split. }
  unfold parse_args. rewrite skip_options_app by done.
  cbn [mbind outcome_bind]. rewrite Nat.add_0_l.
  assert (Hi : forall i x, tail !! i = Some x -> idx (opts ++ tail) (length opts + i) = Ret x).
  { intros i x Hx. apply idx_Some. by rewrite lookup_app_from. }
  rewrite <-(Nat.add_0_r (length opts)), (Hi 0 _ eq_refl). cbn [mbind outcome_bind]. rewrite Atoi_Itoa by done.
  rewrite !Nat.add_0_r, (Hi 1 _ eq_refl). cbn [mbind outcome_bind]. rewrite Hnat, Atoi_Itoa by lia.
  rewrite (Hi 2 _ eq_refl). cbn [mbind outcome_bind]. rewrite Hnat, Atoi_Itoa by lia.
  rewrite (Hi 3 _ eq_refl). cbn [mbind outcome_bind].
  assert (Hs : slice (opts ++ tail) (Z.of_nat (length opts) + 4) (Z.of_nat (length opts) + 4 + Z.of_nat (length endNames))
    = Ret endNames).
  { unfold tail. rewrite app_assoc. set (pre := opts ++ [Itoa gid; itoa srv; itoa (length endNames); endName]).
    assert (Hp : length pre = length opts + 4) by (unfold pre; by rewrite length_app).
    replace (Z.of_nat (length opts) + 4)%Z with (Z.of_nat (length pre)) by lia.
    rewrite <-Nat2Z.inj_add. apply slice_app. }
  rewrite Hs. cbn [mbind outcome_bind]. unfold idxZ. rewrite decide_False, Nat2Z.id by lia.
  by rewrite (idx_Some _ _ _ Hown).
Qed.

Lemma daemon_args_roundtrip_witness :
  parse_args (daemon_args ["--max-raft-state=-1"] true "tester-end" 3 1 ["e0"; "e1"; "e2"]) =
  Ret (Some (mkConf 3 1 "tester-end" ["e0"; "e1"; "e2"] "e1")).
Proof.
  apply (daemon_args_roundtrip ["--max-raft-state=-1"] true "tester-end" 3 1 ["e0"; "e1"; "e2"] "e1"); [|lia|simpl; lia|done].
  repeat constructor. by eexists.
Defined.

(** ** Starting

    The daemon's unbuffered channel [ch] is used three times: [Init] sends the
    persister to the main goroutine, the main goroutine signals with a nil that
    the services run, which [InitWait] receives, and at the end the main
    goroutine waits for a message that never comes. *)

Inductive main_pc :=
  | MRecv                  (** [ds.persister = <-ds.ch] *)
  | MServices              (** start the server, add its services *)
  | MSignal                (** [ds.ch <- nil] *)
  | MWait                  (** [<-ds.ch] *)
  | MExit.

(** The goroutines that serve the tester's RPCs [Init] and [InitWait]. *)
Inductive ctl_thread := TInit (p : Persister) | TWait | TServed.

(** [StartServer] on the tester: before [dc.init], in it (the number of its
    goroutine), before [dc.waitInit], in it, returned. *)
Inductive start_pc := SBegin | SInit (t : nat) | SInited | SWaiting (t : nat) | SStarted.

Record starting := mkStarting {
  st_main : main_pc;
  st_threads : list ctl_thread;
  st_persister : option Persister;
  st_services : bool;
  st_tester : start_pc }.

Inductive start_event :=
  | SEInit                           (** the tester calls [Init] *)
  | SEWait                           (** ... and [InitWait] *)
  | SEReturn                         (** the RPC it waits for returns *)
  | SEServices                       (** the main goroutine's own step *)
  | SEToMain (t : nat)               (** goroutine [t] sends, main receives *)
  | SEFromMain (t : nat)             (** main sends, goroutine [t] receives *)
  | SEThreads (t1 t2 : nat).         (** [t1] sends, [t2] receives *)

(** [Init] makes a new persister of what it is sent. *)
Definition Init_persister (p : Persister) : Persister := Save (ReadRaftState p) (ReadSnapshot p) MakePersister.

(** [saved]: the persister the tester has for the server. *)
Definition start_exec (saved : Persister) (e : start_event) (s : starting) : option starting :=
  let served t l := <[t := TServed]> l in
  match e with
  | SEInit =>
      match st_tester s with
      | SBegin => Some (mkStarting (st_main s) (st_threads s ++ [TInit (Init_persister saved)]) (st_persister s)
          (st_services s) (SInit (length (st_threads s))))
      | _ => None
      end
  | SEWait =>
      match st_tester s with
      | SInited => Some (mkStarting (st_main s) (st_threads s ++ [TWait]) (st_persister s) (st_services s)
          (SWaiting (length (st_threads s))))
      | _ => None
      end
  | SEReturn =>
      match st_tester s with
      | SInit t =>
          match st_threads s !! t with
          | Some TServed => Some (mkStarting (st_main s) (st_threads s) (st_persister s) (st_services s) SInited)
          | _ => None
          end
      | SWaiting t =>
          match st_threads s !! t with
          | Some TServed => Some (mkStarting (st_main s) (st_threads s) (st_persister s) (st_services s) SStarted)
          | _ => None
          end
      | _ => None
      end
  | SEServices =>
      match st_main s with
      | MServices => Some (mkStarting MSignal (st_threads s) (st_persister s) true (st_tester s))
      | _ => None
      end
  | SEToMain t =>
      match st_main s, st_threads s !! t with
      | MRecv, Some (TInit p) => Some (mkStarting MServices (served t (st_threads s)) (Some p) (st_services s) (st_tester s))
      | MWait, Some (TInit _) => Some (mkStarting MExit (served t (st_threads s)) (st_persister s) (st_services s) (st_tester s))
      | _, _ => None
      end
  | SEFromMain t =>
      match st_main s, st_threads s !! t with
      | MSignal, Some TWait => Some (mkStarting MWait (served t (st_threads s)) (st_persister s) (st_services s) (st_tester s))
      | _, _ => None
      end
  | SEThreads t1 t2 =>
      match st_threads s !! t1, st_threads s !! t2 with
      | Some (TInit _), Some TWait =>
          Some (mkStarting (st_main s) (served t1 (served t2 (st_threads s))) (st_persister s) (st_services s) (st_tester s))
      | _, _ => None
      end
  end.

Definition starting_init : starting := mkStarting MRecv [] None false SBegin.

(** The states a start goes through, in order; the services start and the
    tester's two calls overlap. *)
Inductive start_stage (p : Persister) : nat -> starting -> Prop :=
  | SG0 : start_stage p 7 starting_init
  | SG1 : start_stage p 6 (mkStarting MRecv [TInit p] None false (SInit 0))
  | SG2 (m : bool) (t : start_pc) (n : nat) :
      (t, n) ∈ [(SInit 0, 3); (SInited, 2)] ->
      start_stage p (n + if m then 1 else 2) (mkStarting (if m then MSignal else MServices) [TServed] (Some p) m t)
  | SG3 (m : bool) :
      start_stage p (if m then 2 else 3)
        (mkStarting (if m then MSignal else MServices) [TServed; TWait] (Some p) m (SWaiting 1))
  | SG4 : start_stage p 1 (mkStarting MWait [TServed; TServed] (Some p) true (SWaiting 1))
  | SG5 : start_stage p 0 (mkStarting MWait [TServed; TServed] (Some p) true SStarted).

Lemma Init_persister_same p : Init_persister p = p.
Proof. by destruct p. Qed.

Lemma stage_step saved n e s s' :
  start_stage saved n s -> start_exec saved e s = Some s' -> exists n', n' < n /\ start_stage saved n' s'.
Proof.
  assert (H2 : forall m t k, (t, k) ∈ [(SInit 0, 3); (SInited, 2)] ->
    start_stage saved (k + if m : bool then 1 else 2) (mkStarting (if m then MSignal else MServices) [TServed] (Some saved) m t))
    by apply SG2.
  destruct 1 as [| |m t k Ht|m| |]; destruct e as [| | | |i|i|i j]; simpl; intros Hs; try done.
  - injection Hs as <-. rewrite Init_persister_same. eexists. split; [|apply SG1]. lia.
  - destruct i as [|[|]]; simplify_eq/=. eexists. split; [|apply (H2 false (SInit 0) 3); set_solver]. lia.
  - destruct i as [|[|]], j as [|[|]]; simplify_eq/=.
  - apply list_elem_of_In in Ht as [[= <- <-]|[[= <- <-]|[]]]; done.
  - apply list_elem_of_In in Ht as [[= <- <-]|[[= <- <-]|[]]]; simplify_eq/=.
    eexists. split; [|apply (SG3 saved m)]. destruct m; lia.
  - apply list_elem_of_In in Ht as [[= <- <-]|[[= <- <-]|[]]]; simplify_eq/=.
    eexists. split; [|apply (H2 m SInited 2); set_solver]. destruct m; lia.
  - destruct m; [done|]. injection Hs as <-. eexists. split; [|by apply (H2 true t k)]. simpl; lia.
  - by destruct m, i as [|[|]]; simplify_eq/=.
  - by destruct m, i as [|[|]]; simplify_eq/=.
  - by destruct i as [|[|]], j as [|[|]]; simplify_eq/=.
  - destruct m; [done|]. injection Hs as <-. eexists. split; [|apply (SG3 saved true)]. lia.
  - by destruct m, i as [|[|[|]]]; simplify_eq/=.
  - destruct m, i as [|[|[|]]]; simplify_eq/=. eexists. split; [|apply SG4]. lia.
  - by destruct i as [|[|[|]]], j as [|[|[|]]]; simplify_eq/=.
  - injection Hs as <-. eexists. split; [|apply SG5]. lia.
  - by destruct i as [|[|[|]]]; simplify_eq/=.
  - by destruct i as [|[|[|]]], j as [|[|[|]]]; simplify_eq/=.
  - by destruct i as [|[|[|]]]; simplify_eq/=.
  - by destruct i as [|[|[|]]], j as [|[|[|]]]; simplify_eq/=.
Qed.

Lemma stage_progress saved n s :
  start_stage saved n s -> st_tester s = SStarted \/ exists e s', start_exec saved e s = Some s'.
Proof.
  destruct 1 as [| |m t k Ht|m| |]; [right..|by left].
  - by exists SEInit; eexists.
  - by exists (SEToMain 0); eexists.
  - apply list_elem_of_In in Ht as [[= <- <-]|[[= <- <-]|[]]]; [by exists SEReturn; eexists|by exists SEWait; eexists].
  - destruct m; [by exists (SEFromMain 1); eexists|by exists SEServices; eexists].
  - by exists SEReturn; eexists.
Qed.

Lemma stage_run saved es s : run (start_exec saved) es starting_init = Some s ->
  exists n, start_stage saved n s /\ length es + n <= 7.
Proof.
  revert s. induction es as [|e es IH] using rev_ind; intros s.
  - intros [= <-]. exists 7. split; [constructor|simpl; lia].
  - rewrite run_snoc. intros (s1 & (n & Hn & Hl)%IH & He). destruct (stage_step _ _ _ _ _ Hn He) as (n' & Hlt & Hs).
    exists n'. split; [done|]. rewrite length_app. simpl. lia.
Qed.


Definition demo_start : list start_event :=
  [SEInit; SEToMain 0; SEReturn; SEServices; SEWait; SEFromMain 1; SEReturn].

(** ** Shutting down

    [ShutdownServer] takes the server off the network, asks its daemon for a
    copy of the persister and kills it, while the daemon's goroutines go on
    serving, saving and sending.  What must not happen is that somebody has
    heard of state the copy does not hold. *)

(** [CheckpointPersister], after its RPC has arrived. *)
Inductive ckpt_pc :=
  | CClose                          (** [ds.rpcc.Close()] *)
  | CCloseSrv                       (** [ds.rpcs.Close()] *)
  | CCopy                           (** [ds.persister.Checkpoint()] *)
  | CReply (p : Persister).

(** The tester in [ShutdownServer]. *)
Inductive shutdown_pc := SDUp | SDDeleted | SDCheckpoint (c : ckpt_pc) | SDSaved | SDKilled.

(** [hist]: every content the persister has had, the current one last; for the
    proofs, each message carries the length of [hist] when it was written. *)
Record node := mkNode {
  n_net : Network;                          (** the tester's network *)
  n_hist : list Persister;
  n_rpcc : bool;                            (** the connection to the tester is open *)
  n_listen : bool;                          (** the daemon's socket accepts connections *)
  n_serving : list (string * option nat);   (** requests at the daemon: from which end, and when answered *)
  n_sent : list nat;                        (** requests the daemon has sent *)
  n_delivered : list nat;                   (** its replies that reached their callers *)
  n_tester : shutdown_pc;
  n_saved : option Persister }.

Inductive node_event :=
  | NSave (raftstate snapshot : string)     (** the server saves *)
  | NForward                                (** the server sends a request *)
  | NRequest (e : string)                   (** the network dispatches a request from end [e] *)
  | NAnswer (k : nat)                       (** the daemon writes the answer of a request *)
  | NDeliver (k : nat)                      (** the network passes it on *)
  | NAdmin (a : admin)                      (** another call of the tester on the network *)
  | NShutdown                               (** the next step of the tester or of [CheckpointPersister] *).

Section Shutdown.
(** The server's name, and the object it joined the network as. *)
Context (sn : string) (sid : nat).

Definition version (s : node) : nat := length (n_hist s).
Definition persister (s : node) : Persister := default MakePersister (last (n_hist s)).
Definition alive (s : node) : bool := match n_tester s with SDKilled => false | _ => true end.

Definition set_serving (s : node) (l : list (string * option nat)) (del : list nat) : node :=
  mkNode (n_net s) (n_hist s) (n_rpcc s) (n_listen s) l (n_sent s) del (n_tester s) (n_saved s).
Definition set_tester (s : node) (t : shutdown_pc) (saved : option Persister) : node :=
  mkNode (n_net s) (n_hist s) (n_rpcc s) (n_listen s) (n_serving s) (n_sent s) (n_delivered s) t saved.
Definition set_node_net (s : node) (net : Network) : node :=
  mkNode net (n_hist s) (n_rpcc s) (n_listen s) (n_serving s) (n_sent s) (n_delivered s) (n_tester s) (n_saved s).

(** One step of [ShutdownServer]: the deletion from the network, the steps of
    [CheckpointPersister], [checkpointPersister]'s new persister, the kill. *)
Definition shutdown_step (s : node) : option node :=
  match n_tester s with
  | SDUp => Some (set_tester (set_node_net s (DeleteServer sn (n_net s))) SDDeleted (n_saved s))
  | SDDeleted => Some (set_tester s (SDCheckpoint CClose) (n_saved s))
  | SDCheckpoint CClose =>
      Some (mkNode (n_net s) (n_hist s) false (n_listen s) (n_serving s) (n_sent s) (n_delivered s)
              (SDCheckpoint CCloseSrv) (n_saved s))
  | SDCheckpoint CCloseSrv =>
      Some (mkNode (n_net s) (n_hist s) (n_rpcc s) false (n_serving s) (n_sent s) (n_delivered s)
              (SDCheckpoint CCopy) (n_saved s))
  | SDCheckpoint CCopy => Some (set_tester s (SDCheckpoint (CReply (Checkpoint (persister s)))) (n_saved s))
  | SDCheckpoint (CReply p) =>
      Some (set_tester s SDSaved (Some (Save (ReadRaftState p) (ReadSnapshot p) MakePersister)))
  | SDSaved => Some (set_tester s SDKilled (n_saved s))
  | SDKilled => None
  end.

(** The tester makes a new object each time a server joins. *)
Definition readds (a : admin) : bool :=
  match a with AAddServer sn' sid' => bool_decide (sn' = sn /\ sid' = sid) | _ => false end.

Definition node_exec (e : node_event) (s : node) : option node :=
  match e with
  | NSave rs sp =>
      if alive s then
        Some (mkNode (n_net s) (n_hist s ++ [Save rs sp (persister s)]) (n_rpcc s) (n_listen s) (n_serving s)
                (n_sent s) (n_delivered s) (n_tester s) (n_saved s))
      else None
  | NForward =>
      if alive s && n_rpcc s then
        Some (mkNode (n_net s) (n_hist s) (n_rpcc s) (n_listen s) (n_serving s) (n_sent s ++ [version s])
                (n_delivered s) (n_tester s) (n_saved s))
      else None
  | NRequest e =>
      match readEndnameInfo (n_net s) e with
      | Some (sn', sid') =>
          if decide (sn' = sn /\ sid' = sid) then Some (set_serving s (n_serving s ++ [(e, None)]) (n_delivered s)) else None
      | None => None
      end
  | NAnswer k =>
      match n_serving s !! k with
      | Some (e, None) =>
          if alive s then Some (set_serving s (<[k := (e, Some (version s))]> (n_serving s)) (n_delivered s)) else None
      | _ => None
      end
  | NDeliver k =>
      match n_serving s !! k with
      | Some (e, Some v) =>
          Some (set_serving s (delete k (n_serving s))
                  (if isServerDead (n_net s) e sn sid then n_delivered s else n_delivered s ++ [v]))
      | _ => None
      end
  | NAdmin a =>
      if readds a then None
      else match admin_exec a (n_net s) with Ret net => Some (set_node_net s net) | _ => None end
  | NShutdown => shutdown_step s
  end.

(** A server that has just been started with persister [p]. *)
Definition node_init (net : Network) (p : Persister) : node := mkNode net [p] true true [] [] [] SDUp None.

(** Nobody has heard of more than [p] holds. *)
Definition covers (s : node) (p : Persister) : Prop :=
  exists v, n_hist s !! v = Some p /\ Forall (fun n => n <= S v) (n_sent s) /\ Forall (fun n => n <= S v) (n_delivered s).

Definition shutdown_ok (s : node) : Prop :=
  match n_tester s with
  | SDUp | SDDeleted | SDCheckpoint CClose => n_saved s = None
  | SDCheckpoint CCloseSrv | SDCheckpoint CCopy => n_rpcc s = false /\ n_saved s = None
  | SDCheckpoint (CReply p) => n_rpcc s = false /\ n_saved s = None /\ covers s p
  | SDSaved | SDKilled => n_rpcc s = false /\ exists p, n_saved s = Some p /\ covers s p
  end.

Record node_ok (s : node) : Prop := {
  nk_hist : n_hist s <> [];
  nk_sent : Forall (fun n => n <= version s) (n_sent s);
  nk_delivered : Forall (fun n => n <= version s) (n_delivered s);
  nk_serving k e v : n_serving s !! k = Some (e, Some v) -> v <= version s;
  nk_dead : n_tester s <> SDUp -> server_at (n_net s) sn <> Some sid;
  nk_shutdown : shutdown_ok s }.

Lemma Forall_le_mono (l : list nat) a b : a <= b -> Forall (fun n => n <= a) l -> Forall (fun n => n <= b) l.
Proof. intros Hab H. eapply Forall_impl; [exact H|]. simpl. intros n ?. lia. Qed.

(** A step that only adds to the history, or changes what does not matter here. *)
Lemma shutdown_ok_same s s' :
  n_tester s' = n_tester s -> n_saved s' = n_saved s -> n_rpcc s' = n_rpcc s ->
  (forall v p, n_hist s !! v = Some p -> n_hist s' !! v = Some p) ->
  n_sent s' = n_sent s -> n_delivered s' = n_delivered s ->
  shutdown_ok s -> shutdown_ok s'.
Proof.
  intros Ht Hs Hr Hh Hse Hd. assert (Hc : forall p, covers s p -> covers s' p).
  { intros p (v & ? & ? & ?). exists v. rewrite Hse, Hd. auto. }
  unfold shutdown_ok. rewrite Ht, Hs, Hr. destruct (n_tester s) as [| |[| | |p]| |]; try done; naive_solver.
Qed.

Lemma admin_keeps_dead a net net' :
  readds a = false -> admin_exec a net = Ret net' -> server_at net sn <> Some sid -> server_at net' sn <> Some sid.
Proof.
  intros Ha He Hd. destruct a as [| | |e|e|sn' sid'|sn'|e sn'|e b]; simpl in *; unfold MakeEnd, DeleteEnd in He;
    repeat case_match; simplify_eq; try done; unfold server_at in *; simpl.
  - destruct (decide (sn = sn')) as [->|]; [|by rewrite lookup_insert_ne].
    rewrite lookup_insert_eq. simpl. intros [= ->]. apply bool_decide_eq_false in Ha. by apply Ha.
  - destruct (decide (sn = sn')) as [->|]; [|by rewrite lookup_insert_ne]. by rewrite lookup_insert_eq.
Qed.

Lemma dead_node net e : server_at net sn <> Some sid -> isServerDead net e sn sid = true.
Proof. intros Hd. unfold isServerDead. by rewrite (bool_decide_eq_false_2 _ Hd), orb_true_r. Qed.

Lemma persister_last s : n_hist s <> [] -> n_hist s !! (version s - 1) = Some (persister s).
Proof.
  intros Hne. unfold persister, version. rewrite last_lookup. replace (Init.Nat.pred (length (n_hist s))) with (length (n_hist s) - 1) by lia.
  destruct (n_hist s !! (length (n_hist s) - 1)) as [p|] eqn:Hp; [done|].
  apply lookup_ge_None in Hp. destruct (n_hist s); [done|simpl in Hp; lia].
Qed.

Lemma shutdown_step_ok s s' : node_ok s -> shutdown_step s = Some s' -> node_ok s'.
Proof.
  intros [H1 H2 H3 H4 H5 H6] Hs. unfold shutdown_step in Hs. unfold shutdown_ok in H6.
  destruct (n_tester s) as [| |[| | |p]| |] eqn:Ht; simplify_eq; split; simpl; try done; try (intros _; by apply H5).
  - intros _. unfold server_at. simpl. by rewrite lookup_insert_eq.
  - destruct H6 as [Hr Hn]. unfold shutdown_ok. simpl. split; [done|]. split; [done|]. exists (version s - 1).
    assert (0 < version s) by (unfold version; destruct (n_hist s); [done|simpl; lia]).
    replace (S (version s - 1)) with (version s) by lia. split; [|done].
    assert (Hp : Checkpoint (persister s) = persister s) by (by destruct (persister s)). rewrite Hp.
    exact (persister_last s H1).
  - destruct H6 as (Hr & Hn & Hc). unfold shutdown_ok. simpl. split; [done|]. exists p. by destruct p.
Qed.

Lemma node_step e s s' : node_ok s -> node_exec e s = Some s' -> node_ok s'.
Proof.
  intros Hok He. destruct e as [rs sp| |e|k|k|a|]; simpl in He; [..|by eapply shutdown_step_ok].
  - destruct (alive s); [|done]. injection He as <-. destruct Hok as [I1 I2 I3 I4 I5 I6].
    assert (Hv : version s <= length (n_hist s ++ [Save rs sp (persister s)])) by (rewrite length_app; unfold version; lia).
    split; unfold version; simpl; [by intros [_ ?]%app_nil|by eapply Forall_le_mono..| |done|].
    + intros k e v Hk. specialize (I4 _ _ _ Hk). unfold version in *. lia.
    + eapply shutdown_ok_same; [..|exact I6]; try done. intros v p Hp. simpl. by apply lookup_app_l_Some.
  - destruct (alive s); simpl in He; [|done]. destruct (n_rpcc s) eqn:Hr; [|done]. injection He as <-. destruct Hok as [I1 I2 I3 I4 I5 I6].
    split; simpl; try done; [by apply Forall_app; split; [|repeat constructor]|].
    unfold shutdown_ok in *. simpl. destruct (n_tester s) as [| |[| | |p]| |]; try done; destruct I6; congruence.
  - repeat case_match; simplify_eq. destruct Hok as [I1 I2 I3 I4 I5 I6]. split; simpl; try done.
    intros k e' v Hk. apply lookup_app_Some in Hk as [Hk|[_ Hk]]; [by eapply I4|]. by destruct (k - _) as [|[|]].
  - repeat case_match; simplify_eq. destruct Hok as [I1 I2 I3 I4 I5 I6]. split; simpl; try done.
    intros k' e' v. rewrite list_lookup_insert. case_decide; [intros [= <- <-]; done|by apply I4].
  - destruct (n_serving s !! k) as [[e [v|]]|] eqn:Hk; [|done..]. injection He as <-. destruct Hok as [I1 I2 I3 I4 I5 I6].
    assert (Hs : forall k' e' v', delete k (n_serving s) !! k' = Some (e', Some v') -> v' <= version s).
    { intros k' e' v' Hk'. assert ((e', Some v') ∈ delete k (n_serving s)) as Hin by by eapply list_elem_of_lookup_2.
      apply list_elem_of_lookup in Hin as [j Hj]. rewrite list_lookup_delete in Hj. repeat case_match; by eapply I4. }
    split; simpl; try done; case_match eqn:Hd; try done.
    + apply Forall_app. split; [done|]. repeat constructor. by eapply I4.
    + assert (Hup : n_tester s = SDUp \/ n_tester s <> SDUp) by (destruct (n_tester s); auto).
      destruct Hup as [Hup|Hup]; [by unfold shutdown_ok in *; simpl; rewrite Hup in *|].
      by rewrite (dead_node _ _ (I5 Hup)) in Hd.
  - destruct (readds a) eqn:Ha; [done|]. destruct (admin_exec a (n_net s)) as [net| |] eqn:Hn; [|done..]. injection He as <-.
    destruct Hok as [I1 I2 I3 I4 I5 I6]. split; simpl; try done. intros Ht. eapply admin_keeps_dead; eauto.
Qed.

Lemma node_ok_init net p : node_ok (node_init net p).
Proof. by split. Qed.

(** C19: a shutdown loses nothing anybody knows of.  Whatever a server and the
    network do while it is shut down, the copy of its persister that the tester
    keeps is one the server really had, and no request the server ever sent and
    no reply of it that the network ever delivered was written after a later
    save: a server restarted from the copy has not forgotten a promise. *)
Theorem checkpoint_covers net p0 es s p :
  run node_exec es (node_init net p0) = Some s -> n_saved s = Some p ->
  exists v, n_hist s !! v = Some p /\
    Forall (fun n => n <= S v) (n_sent s) /\ Forall (fun n => n <= S v) (n_delivered s).
Proof.
  intros Hrun Hp. assert (Hok : node_ok s) by (exact (run_invariant _ _ node_step _ _ _ (node_ok_init net p0) Hrun)).
  pose proof (nk_shutdown _ Hok) as Hs. unfold shutdown_ok in Hs.
  destruct (n_tester s) as [| |[| | |p']| |]; rewrite ?Hp in Hs; try done; try (by destruct Hs);
    [by destruct Hs as (_ & ? & _)|destruct Hs as (_ & q & [= <-] & Hc); exact Hc..].
Qed.

End Shutdown.

(** A server saves and sends, then saves again while it is shut down. *)
Definition demo_node_net : Network :=
  foldl (fun net a => match admin_exec a net with Ret n => n | _ => net end) MakeNetwork
    [AMakeEnd "e"; AConnect "e" "server-1-0"; AEnable "e" true; AAddServer "server-1-0" 7].
Definition demo_shutdown : list node_event :=
  [NSave "term 1" ""; NForward; NRequest "e"; NRequest "e"; NAnswer 0; NDeliver 0; NShutdown; NShutdown; NShutdown;
   NShutdown; NShutdown; NSave "term 2" ""; NAnswer 0; NDeliver 0; NShutdown; NShutdown].

Lemma checkpoint_covers_witness :
  exists s v, run (node_exec "server-1-0" 7) demo_shutdown (node_init demo_node_net MakePersister) = Some s /\
    n_hist s !! v = Some (mkPersister "term 1" "") /\ Forall (fun n => n <= S v) (n_sent s) /\
    Forall (fun n => n <= S v) (n_delivered s) /\ length (n_sent s) = 1 /\ length (n_delivered s) = 1.
Proof.
  destruct (run (node_exec "server-1-0" 7) demo_shutdown (node_init demo_node_net MakePersister)) as [s|] eqn:H;
    [|by vm_compute in H].
  destruct (checkpoint_covers "server-1-0" 7 demo_node_net MakePersister demo_shutdown s (mkPersister "term 1" "") H)
    as (v & Hv & Hs & Hd); [by apply (demo_read n_saved _ _ _ H)|].
  exists s, v. do 4 (split; [done|]).
  split; [by apply (demo_read (length ∘ n_sent) _ _ _ H)|by apply (demo_read (length ∘ n_delivered) _ _ _ H)].
Defined.

(** Closing [rpcs] closes the socket the daemon listens on, not the connections
    it has accepted: an answer can still be written after the copy was taken,
    from state the copy does not hold.  Only the network, which finds the server
    deleted, keeps it from its caller. *)
Lemma answer_after_copy :
  exists s e v p, run (node_exec "server-1-0" 7) (take 13 demo_shutdown) (node_init demo_node_net MakePersister) = Some s /\
    n_listen s = false /\ n_tester s = SDCheckpoint (CReply p) /\ n_serving s !! 0 = Some (e, Some v) /\
    forall w, n_hist s !! w = Some p -> S w < v.
Proof.
  eexists _, _, _, _. split; [vm_compute; reflexivity|]. split; [done|]. split; [reflexivity|]. split; [reflexivity|].
  intros [|[|[|w]]]; [discriminate|intros _; lia|discriminate|by destruct w].
Qed.

(** ** RPCs between servers

    A server in a daemon calls another through a [ClientEnd] whose call function
    is [DaemonSrv.forward]: an RPC over a socket to the tester, whose [Forward]
    puts the request on its own network. *)

(** [labgob] on a type of arguments or replies. *)
Class Gob (A : Type) := {
  Marshall : A -> string;
  Unmarshall : string -> option A }.
Class GobLaws (A : Type) `{!Gob A} := Unmarshall_Marshall (x : A) : Unmarshall (Marshall x) = Some x.

Record ForwardArgs := mkForwardArgs { fa_Method : string; fa_End : string; fa_Args : string; fa_Id : Z }.
Record ForwardReply := mkForwardReply { fr_Rep : string; fr_Ok : bool }.

(** [ClientEnd]'s two calls.  [send]: a request put on the network's channel and
    the answer to it; [None]: the network has been destroyed. *)
Section ClientEnd.
Context {T : Type} (send : reqMsg -> T -> outcome (T * option replyMsg)).
Context (callf : option (string -> string -> string -> T -> outcome (T * (string * bool)))).

Definition unmarshal_reply {R} `{!Gob R} (t : T) (rep : string) (ok : bool) : outcome (T * option R) :=
  if ok then
    match Unmarshall rep with
    | Some r => Ret (t, Some r)
    | None => Fatal "Unmarshall fatal: decode reply err"
    end
  else Ret (t, None).

(** [None]: [Call] returns false. *)
Definition Call {A R} `{!Gob A, !Gob R} (e svcMeth : string) (args : A) (t : T) : outcome (T * option R) :=
  match callf with
  | Some f => r ← f e svcMeth (Marshall args) t; unmarshal_reply r.1 r.2.1 r.2.2
  | None =>
      r ← send (mkReq e svcMeth (Marshall args)) t;
      match r.2 with
      | Some rep => unmarshal_reply r.1 (rep_reply rep) (rep_ok rep)
      | None => Ret (r.1, None)
      end
  end.

Definition Forward (e svcMeth args : string) (t : T) : outcome (T * (string * bool)) :=
  r ← send (mkReq e svcMeth args) t;
  Ret (r.1, match r.2 with Some rep => (rep_reply rep, rep_ok rep) | None => ("", false) end).
End ClientEnd.

Section Forwarding.
Context `{!Demux.ArgsCodec, !Gob ForwardArgs, !Gob ForwardReply}.
(** The tester's network and what it does with a request. *)
Context {W : Type} (net_of : W -> Network) (send : reqMsg -> W -> outcome (W * option replyMsg)).

(** [TesterRPC.Forward], as a method of the tester's RPC server. *)
Definition TesterRPC_Forward (args : ForwardArgs) (w : W) : outcome (W * ForwardReply) :=
  e ← LookupEnd (fa_End args) (net_of w);
  r ← Forward send e (fa_Method args) (fa_Args args) w;
  Ret (r.1, mkForwardReply r.2.1 r.2.2).

Definition Forward_method : Method (St := W) := fun b w =>
  match Unmarshall b with
  | Some args => r ← TesterRPC_Forward args w; Ret (r.1, Marshall r.2)
  | None => Fatal "Unmarshall fatal"
  end.

(** [newTesterRPCSrv] *)
Definition newTesterRPCSrv (w : W) : Server (St := W) :=
  AddService "TesterRPC" {[ "Forward" := Forward_method ]} (mkServer ∅ 0 None w).

(** [RPCClnt.RPC] and [RPCMarshall] to the tester, over a connection that works;
    what happens when it is closed is in [Demux]. *)
Definition RPC (clnt method args : string) (rs : Server (St := W)) : outcome (Server (St := W) * (string * bool)) :=
  r ← Demux.ServeRequest rs clnt (Demux.RPC_request method args);
  Ret (r.1, Demux.RPC_result r.2.1 r.2.2 false).

Definition RPCMarshall {A R} `{!Gob A, !Gob R} (clnt method : string) (args : A) (rs : Server (St := W))
    : outcome (Server (St := W) * option R) :=
  r ← RPC clnt method (Marshall args) rs; unmarshal_reply r.1 r.2.1 r.2.2.

(** [DaemonSrv.forward]; [id] is the daemon's next number. *)
Definition forward (clnt : string) (id : Z) (e method b : string) (rs : Server (St := W))
    : outcome (Server (St := W) * (string * bool)) :=
  r ← RPCMarshall (R := ForwardReply) clnt "TesterRPC.Forward" (mkForwardArgs method e b id) rs;
  Ret (r.1, match r.2 with Some rep => (fr_Rep rep, fr_Ok rep) | None => ("", false) end).

Context `{!GobLaws ForwardArgs, !GobLaws ForwardReply}.

(** The tester's server after [n] more requests. *)
Definition served (n : Z) (rs : Server (St := W)) (w : W) : Server (St := W) :=
  mkServer (services rs) (count rs + n) (dispatchf rs) w.

Lemma served_served n m rs w1 w2 : served m (served n rs w1) w2 = served (n + m) rs w2.
Proof. unfold served. simpl. f_equal. lia. Qed.

Lemma forward_eq clnt id e method b rs :
  services rs = services (newTesterRPCSrv (app rs)) -> dispatchf rs = None -> e ∈ ends (net_of (app rs)) ->
  forward clnt id e method b rs =
  (r ← Forward send e method b (app rs); Ret (served 1 rs r.1, r.2)).
Proof.
  intros Hs Hd He. unfold forward, RPCMarshall, RPC. rewrite Demux.ServeRequest_dispatch.
  unfold Server_dispatch. cbn [LabRpc.svcMeth split_svcMeth]. change (split_svcMeth "TesterRPC.Forward") with (Ret ("TesterRPC", "Forward")).
  cbn [mbind outcome_bind fst snd services dispatchf count app]. rewrite Hd, Hs. cbn [newTesterRPCSrv AddService services].
  rewrite lookup_insert_eq. unfold Service_dispatch.
  change (({[ "Forward" := Forward_method ]} : Service (St := W)) !! "Forward") with (Some Forward_method).
  cbn [LabRpc.args mbind outcome_bind].
  unfold Forward_method. rewrite Unmarshall_Marshall. unfold TesterRPC_Forward. cbn [fa_End fa_Method fa_Args].
  unfold LookupEnd. rewrite bool_decide_eq_true_2 by done. cbn [mbind outcome_bind].
  destruct (Forward send e method b (app rs)) as [[w [rep ok]]| |]; [|done..]. cbn.
  rewrite Unmarshall_Marshall. cbn. unfold served. by rewrite Hs, Hd.
Qed.


End Forwarding.

(** Concrete codecs, and a network that keeps the requests it has seen and
    answers each with a number one greater than its argument. *)
Definition countable_gob {A B} `{Countable B} (f : A -> B) (g : B -> A) : Gob A :=
  {| Marshall x := enc_str (f x); Unmarshall s := g <$> dec_str s |}.
Lemma countable_gob_laws {A B} `{Countable B} (f : A -> B) (g : B -> A) :
  (forall x, g (f x) = x) -> @GobLaws A (countable_gob f g).
Proof. intros Hg x. simpl. rewrite dec_enc_str. simpl. by rewrite Hg. Qed.

#[local] Instance demo_args_gob : Gob ForwardArgs :=
  countable_gob (fun a => (fa_Method a, fa_End a, fa_Args a, fa_Id a)) (fun x => mkForwardArgs x.1.1.1 x.1.1.2 x.1.2 x.2).
#[local] Instance demo_reply_gob : Gob ForwardReply :=
  countable_gob (fun r => (fr_Rep r, fr_Ok r)) (fun x => mkForwardReply x.1 x.2).
#[local] Instance demo_num_gob : Gob nat := countable_gob id id.
#[local] Instance demo_rpc_codec : Demux.ArgsCodec := Demux.str_args_codec.

Definition demo_world : Type := Network * list string.
Definition demo_send (req : reqMsg) (w : demo_world) : outcome (demo_world * option replyMsg) :=
  Ret ((w.1, w.2 ++ [svcMeth req]),
       (fun n : nat => mkReplyMsg true (Marshall (S n))) <$> Unmarshall (LabRpc.args req)).


End Daemon.
