(* ===== verification/Rsm.v ===== *)
(** * Rsm: the tester of the replicated state machine

    [src/src/kvraft1/rsm/server.go], [test.go] and [proxy.go].  The replicated
    state machine itself ([rsm.go]) is a skeleton; what surrounds it is here: the
    counter server it replicates, the loop by which the tester finds a leader,
    and the check of the servers' counters.  [RSM] is what the tester expects of
    the machine: an operation that [Submit] answers with OK has been executed,
    once, in the order of one log. *)

From S2P Require Import Prelude KvServer.
From stdpp Require Import base gmap list strings.
From Stdlib Require Import ZArith Lia.
From stdpp Require Import list.

Module Rsm.

(** ** The counter server *)

(** The operations submitted, and what they return; an [any] that is none of
    them is [Dec]'s fate too. *)
Inductive Req := Inc | Null | Dec.
Inductive Rep := IncRep (n : Z) | NullRep.

#[export] Instance Req_eq_dec : EqDecision Req.
Proof. solve_decision. Defined.

Record rsmSrv := mkRsmSrv { me : nat; counter : Z }.

Definition newRSMSrv (srv : nat) : rsmSrv := mkRsmSrv srv 0.
Definition GetCounter (rs : rsmSrv) : Z := counter rs.

Definition DoOp (req : Req) (rs : rsmSrv) : outcome (rsmSrv * Rep) :=
  match req with
  | Inc => let rs := mkRsmSrv (me rs) (counter rs + 1) in Ret (rs, IncRep (counter rs))
  | Null => Ret (rs, NullRep)
  | Dec => Fatal "DoOp should execute only Inc"
  end.

(** [labgob] on an [int]. *)
Class IntCodec := {
  enc_int : Z -> string;
  dec_int : string -> option Z;
  dec_enc_int n : dec_int (enc_int n) = Some n }.

Definition Snapshot `{IntCodec} (rs : rsmSrv) : string := enc_int (counter rs).
Definition Restore `{IntCodec} (data : string) (rs : rsmSrv) : outcome rsmSrv :=
  match dec_int data with
  | Some n => Ret (mkRsmSrv (me rs) n)
  | None => Fatal "couldn't decode counter"
  end.

(** Executing a log, with the replies. *)
Fixpoint DoOps (log : list Req) (rs : rsmSrv) : outcome (rsmSrv * list Rep) :=
  match log with
  | [] => Ret (rs, [])
  | req :: log => r ← DoOp req rs; r' ← DoOps log r.1; Ret (r'.1, r.2 :: r'.2)
  end.

Definition incs (log : list Req) : Z := Z.of_nat (lcount (fun r => r = Inc) log).
(** The reply when the counter stands at [c]. *)
Definition reply_at (c : Z) (req : Req) : Rep :=
  match req with Inc => IncRep (c + 1) | _ => NullRep end.

Lemma incs_cons req log : incs (req :: log) = ((if decide (req = Inc) then 1 else 0) + incs log)%Z.
Proof. unfold incs. rewrite lcount_cons. case_decide; lia. Qed.

Lemma incs_app l1 l2 : incs (l1 ++ l2) = (incs l1 + incs l2)%Z.
Proof. unfold incs. rewrite lcount_app. lia. Qed.

Lemma incs_snoc log req : incs (log ++ [req]) = (incs log + if decide (req = Inc) then 1 else 0)%Z.
Proof. rewrite incs_app, incs_cons. unfold incs at 2. rewrite lcount_nil. lia. Qed.

Lemma DoOps_app l1 l2 rs :
  DoOps (l1 ++ l2) rs = r ← DoOps l1 rs; r' ← DoOps l2 r.1; Ret (r'.1, r.2 ++ r'.2).
Proof.
  revert rs. induction l1 as [|q l1 IH]; intros rs; simpl.
  - by destruct (DoOps l2 rs) as [[]| |].
  - destruct (DoOp q rs) as [[rs1 rep]| |]; [|done..]. simpl. rewrite IH.
    destruct (DoOps l1 rs1) as [[rs2 reps]| |]; [|done..]. simpl. by destruct (DoOps l2 rs2) as [[]| |].
Qed.

(** Executing a log counts its increments and numbers them. *)
Lemma DoOps_counts log rs :
  Dec ∉ log ->
  exists reps, DoOps log rs = Ret (mkRsmSrv (me rs) (counter rs + incs log), reps) /\
    length reps = length log /\
    forall i req, log !! i = Some req -> reps !! i = Some (reply_at (counter rs + incs (take i log)) req).
Proof.
  revert rs. induction log as [|req log IH]; intros [m c] Hd.
  - exists []. split; [|by split]. unfold incs. rewrite lcount_nil. simpl. by rewrite Z.add_0_r.
  - apply not_elem_of_cons in Hd as [Hr Hd].
    destruct (IH (mkRsmSrv m (c + if decide (req = Inc) then 1 else 0)) Hd) as (reps & E & Hl & Hi).
    exists (reply_at c req :: reps). split; [|split; [simpl; lia|]].
    + destruct req; [..|done]; simpl in *; rewrite ?Z.add_0_r in E; rewrite E; simpl; rewrite incs_cons; simpl; do 3 f_equal; lia.
    + intros [|i] q; simpl.
      * intros [= <-]. unfold incs. by rewrite lcount_nil, Z.add_0_r.
      * intros Hq. rewrite (Hi _ _ Hq), incs_cons. simpl. do 2 f_equal. lia.
Qed.

(** The server's number plays no part. *)
Lemma DoOps_me log m m' c c' reps :
  DoOps log (mkRsmSrv m c) = Ret (mkRsmSrv m c', reps) -> DoOps log (mkRsmSrv m' c) = Ret (mkRsmSrv m' c', reps).
Proof.
  revert c reps. induction log as [|req log IH]; intros c reps; simpl; [by intros [= <- <-]|].
  destruct req; [..|done]; simpl.
  - destruct (DoOps log (mkRsmSrv m (c + 1))) as [[[] l]| |] eqn:E; [|done..]. simpl. intros [= -> -> <-]. by rewrite (IH _ _ E).
  - destruct (DoOps log (mkRsmSrv m c)) as [[[] l]| |] eqn:E; [|done..]. simpl. intros [= -> -> <-]. by rewrite (IH _ _ E).
Qed.

(** replicas of the counter agree.  A server that executes a log of the
    operations it is meant for, takes a snapshot after any prefix, and one that
    is restored from that snapshot and executes the rest, end with the same
    counter, the number of increments; and each increment is answered with its
    own number. *)
Theorem counter_snapshot `{IntCodec} l1 l2 srv srv' :
  Dec ∉ l1 ++ l2 ->
  exists rs1 rs2 rs3 reps1 reps2,
    DoOps l1 (newRSMSrv srv) = Ret (rs1, reps1) /\
    DoOps l2 rs1 = Ret (rs2, reps2) /\
    (r ← Restore (Snapshot rs1) (newRSMSrv srv'); DoOps l2 r) = Ret (rs3, reps2) /\
    GetCounter rs2 = incs (l1 ++ l2) /\ GetCounter rs3 = incs (l1 ++ l2) /\
    forall i req, (l1 ++ l2) !! i = Some req -> (reps1 ++ reps2) !! i = Some (reply_at (incs (take i (l1 ++ l2))) req).
Proof.
  intros [Hd1 Hd2]%not_elem_of_app.
  destruct (DoOps_counts l1 (newRSMSrv srv) Hd1) as (reps1 & E1 & Hl1 & H1).
  destruct (DoOps_counts l2 (mkRsmSrv srv (incs l1)) Hd2) as (reps2 & E2 & Hl2 & H2).
  eexists _, _, _, reps1, reps2. split; [exact E1|]. split; [exact E2|]. split.
  { unfold Restore, Snapshot. rewrite dec_enc_int. exact (DoOps_me l2 srv srv' _ _ _ E2). }
  unfold GetCounter. simpl. rewrite incs_app. split; [done|]. split; [done|].
  intros i req [Hi|[Hge Hi]]%lookup_app_Some.
  - rewrite lookup_app_l by (rewrite Hl1; by eapply lookup_lt_Some).
    rewrite take_app_le by (apply lookup_lt_Some in Hi; lia). exact (H1 _ _ Hi).
  - rewrite lookup_app_r, Hl1 by lia. rewrite (H2 _ _ Hi). simpl.
    rewrite take_app_ge, incs_app by lia. done.
Qed.

(** ** Finding a leader *)

(** What the tester relies on: [submit i] is a [Submit] through server [i]'s
    proxy; an operation answered with OK is in the log, after everything that
    was there, with the reply its place in the log gives it.  Other clients may
    submit at the same time. *)
Class RSM (W : Type) := {
  submit : nat -> Req -> W -> W * (Err * option Rep);
  rsm_log : W -> list Req }.
Class RSMLaws (W : Type) `{!RSM W} := {
  submit_log i req w w' r : submit i req w = (w', r) -> rsm_log w `prefix_of` rsm_log w';
  submit_OK i req w w' rep : submit i req w = (w', (OK, rep)) ->
    exists l1 l2, rsm_log w' = rsm_log w ++ l1 ++ req :: l2 /\ rep = Some (reply_at (incs (rsm_log w ++ l1)) req) }.

Definition NSRV : Z := 3.

(** [ts_srvs]: whether a server's [getRSM] gives one. *)
Record test (W : Type) := mkTest {
  ts_world : W; ts_leader : Z; ts_ops : Z; ts_srvs : list bool; ts_connected : list bool }.
Arguments mkTest {W}.
Arguments ts_world {W}.
Arguments ts_leader {W}.
Arguments ts_ops {W}.
Arguments ts_srvs {W}.
Arguments ts_connected {W}.

(** A nil slice is every server. *)
Definition inPartition (s : Z) (p : option (list Z)) : bool :=
  match p with None => true | Some p => existsb (fun i => bool_decide (s = i)) p end.

Definition idxZ {A} (l : list A) (i : Z) : outcome A :=
  if decide (i < 0)%Z then Panic "index out of range" else idx l (Z.to_nat i).

Section Tester.
Context {W : Type} `{!RSM W}.
Implicit Types (t : test W).

(** One turn of the inner loop: [Some rep] returns. *)
Definition try_server (p : option (list Z)) (req : Req) (index : Z) t : outcome (test W * option (option Rep)) :=
  if decide (NSRV <= index)%Z then Fatal "index"
  else if decide (index = -1)%Z then Ret (t, None)
  else
    c ← idxZ (ts_connected t) index;
    if negb c then Ret (t, None)
    else
      s ← idxZ (ts_srvs t) index;
      if negb (s && inPartition index p) then Ret (t, None)
      else
        let '(w, (err, rep)) := submit (Z.to_nat index) req (ts_world t) in
        if decide (err = OK)
        then Ret (mkTest w index (ts_ops t + 1) (ts_srvs t) (ts_connected t), Some rep)
        else Ret (mkTest w (ts_leader t) (ts_ops t) (ts_srvs t) (ts_connected t), None).

Fixpoint sweep (k : nat) (p : option (list Z)) (req : Req) (index : Z) t : outcome (test W * option (option Rep)) :=
  match k with
  | 0 => Ret (t, None)
  | S k =>
      r ← try_server p req index t;
      match r.2 with
      | Some rep => Ret (r.1, Some rep)
      | None => sweep k p req (Z.rem (index + 1) (Z.of_nat (length (ts_srvs t)))) r.1
      end
  end.

(** [rounds]: how often the clock is still within [NSEC] when it is read. *)
Fixpoint onePartition (rounds : nat) (p : option (list Z)) (req : Req) t : outcome (test W * option Rep) :=
  match rounds with
  | 0 => Ret (t, None)
  | S rounds =>
      r ← sweep (length (ts_srvs t)) p req (ts_leader t) t;
      match r.2 with
      | Some rep => Ret (r.1, rep)
      | None => onePartition rounds p req r.1
      end
  end.

Definition oneInc (rounds : nat) t : outcome (test W * Z) :=
  r ← onePartition rounds None Inc t;
  match r.2 with
  | None => Ret (r.1, 0%Z)
  | Some (IncRep n) => Ret (r.1, n)
  | Some NullRep => Panic "interface conversion"
  end.

Definition oneNull (rounds : nat) t : outcome (test W * unit) :=
  r ← onePartition rounds None Null t;
  match r.2 with
  | None | Some NullRep => Ret (r.1, tt)
  | Some (IncRep _) => Panic "interface conversion"
  end.

(** ** Its correctness *)

Definition test_ok t : Prop :=
  Z.of_nat (length (ts_srvs t)) = NSRV /\ Z.of_nat (length (ts_connected t)) = NSRV /\ (0 <= ts_leader t < NSRV)%Z.

(** Same servers and connections; the log has grown. *)
Definition grown t t' : Prop :=
  ts_srvs t' = ts_srvs t /\ ts_connected t' = ts_connected t /\ rsm_log (ts_world t) `prefix_of` rsm_log (ts_world t').
(** A server the loop asks. *)
Definition reachable (p : option (list Z)) t (i : nat) : Prop :=
  ts_connected t !! i = Some true /\ ts_srvs t !! i = Some true /\ inPartition (Z.of_nat i) p = true.

(** What a try, a sweep or the whole loop may do: nothing but let the log grow,
    or return the reply to one operation that is in the log. *)
Definition asked (p : option (list Z)) (req : Req) t t' (r : option (option Rep)) : Prop :=
  grown t t' /\
  match r with
  | None => ts_leader t' = ts_leader t /\ ts_ops t' = ts_ops t
  | Some rep =>
      ts_ops t' = (ts_ops t + 1)%Z /\ (exists i, ts_leader t' = Z.of_nat i /\ reachable p t i) /\
      exists l1 l2, rsm_log (ts_world t) `prefix_of` l1 /\ rsm_log (ts_world t') = l1 ++ req :: l2 /\
        rep = Some (reply_at (incs l1) req)
  end.

(** Server [i] answers whatever it is asked. *)
Definition responsive (i : nat) : Prop := forall req w, (submit i req w).2.1 = OK.

Context `{!RSMLaws W}.

Lemma grown_trans t1 t2 t3 : grown t1 t2 -> grown t2 t3 -> grown t1 t3.
Proof. intros (? & ? & ?) (? & ? & ?). unfold grown. split_and!; [congruence..|]. by etrans. Qed.

Lemma reachable_same p t t' i : grown t t' -> reachable p t' i <-> reachable p t i.
Proof. intros (H1 & H2 & _). unfold reachable. by rewrite H1, H2. Qed.

Lemma asked_trans p req t1 t2 t3 r : asked p req t1 t2 None -> asked p req t2 t3 r -> asked p req t1 t3 r.
Proof.
  intros (Hg & Hl & Ho) (Hg' & Hr). split; [by eapply grown_trans|].
  destruct r as [rep|]; [|destruct Hr; split; congruence].
  destruct Hr as (Ho' & (i & Hi & Hre) & l1 & l2 & Hp & Hl' & Hrep). split; [congruence|]. split.
  - exists i. split; [done|]. by rewrite <-(reachable_same p _ _ i Hg).
  - exists l1, l2. split_and!; [|done..]. destruct Hg as (_ & _ & Hg). by etrans.
Qed.

Lemma asked_ok p req t t' r : test_ok t -> asked p req t t' r -> test_ok t'.
Proof.
  intros (H1 & H2 & H3) ((Hs & Hc & _) & Hr). unfold test_ok. rewrite Hs, Hc. split; [done|]. split; [done|].
  destruct r as [rep|]; [|by destruct Hr as [-> _]].
  destruct Hr as (_ & (i & -> & Hi & _) & _). apply lookup_lt_Some in Hi. lia.
Qed.

Lemma try_server_asked p req (i : nat) t :
  test_ok t -> (Z.of_nat i < NSRV)%Z ->
  exists t' r, try_server p req (Z.of_nat i) t = Ret (t', r) /\ asked p req t t' r /\
    (reachable p t i -> responsive i -> is_Some r).
Proof.
  intros (H1 & H2 & H3) Hi. unfold try_server, idxZ. rewrite decide_False, decide_False by lia.
  rewrite !decide_False by lia. rewrite Nat2Z.id.
  destruct (lookup_lt_is_Some_2 (ts_connected t) i) as [c Hc]; [lia|].
  destruct (lookup_lt_is_Some_2 (ts_srvs t) i) as [b Hb]; [lia|].
  rewrite (idx_Some _ _ _ Hc). cbn [mbind outcome_bind].
  assert (Hnone : asked p req t t None) by (by split).
  destruct c; simpl; [|exists t, None; split_and!; [done..|]; intros [Hx _]; congruence].
  rewrite (idx_Some _ _ _ Hb). cbn [mbind outcome_bind].
  destruct (b && inPartition (Z.of_nat i) p) eqn:Hbp; simpl.
  - apply andb_true_iff in Hbp as [-> Hp].
    destruct (submit i req (ts_world t)) as [w' [err rep]] eqn:Hsub. pose proof (submit_log _ _ _ _ _ Hsub) as Hlog.
    case_decide as Herr.
    + subst err. destruct (submit_OK _ _ _ _ _ Hsub) as (l1 & l2 & Hl & Hrep).
      eexists _, (Some rep). split; [done|]. split; [|by eexists]. split; [done|]. simpl. split; [done|]. split; [by exists i|].
      exists (rsm_log (ts_world t) ++ l1), l2. split; [by apply prefix_app_r|]. by rewrite <-app_assoc.
    + eexists _, None. split; [done|]. split; [by split|]. intros _ Hr. specialize (Hr req (ts_world t)). by rewrite Hsub in Hr.
  - exists t, None. split_and!; [done..|]. intros (_ & Hx & Hy). rewrite Hb in Hx. injection Hx as ->. by rewrite Hy in Hbp.
Qed.

Lemma sweep_asked k p req (i : nat) t :
  test_ok t -> (Z.of_nat i < NSRV)%Z ->
  exists t' r, sweep k p req (Z.of_nat i) t = Ret (t', r) /\ asked p req t t' r /\
    (forall j, j < k -> reachable p t ((i + j) mod 3) -> responsive ((i + j) mod 3) -> is_Some r).
Proof.
  revert i t. induction k as [|k IH]; intros i t Hok Hi; cbn [sweep].
  - exists t, None. split_and!; [done|by split|]. lia.
  - destruct (try_server_asked p req i t Hok Hi) as (t1 & r & E & Ha & Hr). rewrite E. cbn [mbind outcome_bind fst snd].
    destruct r as [rep|]; [exists t1, (Some rep); split_and!; [done..|]; by eexists|].
    pose proof (asked_ok _ _ _ _ _ Hok Ha) as Hok1. unfold NSRV in *.
    assert (Hn : Z.rem (Z.of_nat i + 1) (Z.of_nat (length (ts_srvs t))) = Z.of_nat (S i mod 3)).
    { destruct Hok as (-> & _). unfold NSRV. rewrite Z.rem_mod_nonneg, Nat2Z.inj_mod by lia. f_equal. lia. }
    rewrite Hn. destruct (IH (S i mod 3) t1 Hok1) as (t2 & r & E2 & Ha2 & Hr2).
    { pose proof (Nat.mod_upper_bound (S i) 3). lia. }
    exists t2, r. split; [done|]. split; [by eapply asked_trans|]. intros [|j] Hj Hre Hresp.
    + rewrite Nat.add_0_r, Nat.mod_small in Hre, Hresp by lia. by destruct (Hr Hre Hresp).
    + assert (Hij : (i + S j) mod 3 = (S i mod 3 + j) mod 3).
      { rewrite Nat.Div0.add_mod_idemp_l. f_equal. lia. }
      rewrite Hij in Hre, Hresp. apply (Hr2 j); [lia| |done]. by apply (reachable_same p t t1 _ (proj1 Ha)).
Qed.

Lemma sweep_all p req t :
  test_ok t ->
  exists t' r, sweep (length (ts_srvs t)) p req (ts_leader t) t = Ret (t', r) /\ asked p req t t' r /\
    ((exists i, reachable p t i /\ responsive i) -> is_Some r).
Proof.
  intros Hok. pose proof Hok as (H1 & H2 & H3). unfold NSRV in *.
  destruct (sweep_asked (length (ts_srvs t)) p req (Z.to_nat (ts_leader t)) t Hok) as (t' & r & E & Ha & Hr); [unfold NSRV; lia|].
  rewrite Z2Nat.id in E by lia. exists t', r. split; [done|]. split; [done|]. intros (i & Hre & Hresp).
  assert (Hi : i < 3) by (destruct Hre as (Hc & _); apply lookup_lt_Some in Hc; lia).
  assert (Hl : Z.to_nat (ts_leader t) < 3) by lia. set (l := Z.to_nat (ts_leader t)) in *. assert (Hj : (l + (i + 3 - l)) mod 3 = i).
  { replace (l + (i + 3 - l)) with (i + 1 * 3) by lia. rewrite Nat.Div0.mod_add. by apply Nat.mod_small. }
  destruct (decide (i + 3 - l < 3)) as [Hlt|Hge].
  - apply (Hr (i + 3 - l)); [lia|by rewrite Hj..].
  - assert (Hj' : (l + (i - l)) mod 3 = i) by (replace (l + (i - l)) with i by lia; by apply Nat.mod_small).
    apply (Hr (i - l)); [lia|by rewrite Hj'..].
Qed.

Lemma onePartition_asked rounds p req t :
  test_ok t ->
  exists t' r, onePartition rounds p req t = Ret (t', r) /\ asked p req t t' (Some <$> r) /\
    (0 < rounds -> (exists i, reachable p t i /\ responsive i) -> is_Some r).
Proof.
  revert t. induction rounds as [|rounds IH]; intros t Hok; simpl.
  - exists t, None. split_and!; [done|by split|]. lia.
  - destruct (sweep_all p req t Hok) as (t1 & r & E & Ha & Hr). rewrite E. cbn [mbind outcome_bind fst snd].
    destruct r as [rep|].
    + exists t1, rep. split; [done|]. destruct Ha as (Hg & Ho & Hl & l1 & l2 & Hp & Hlog & Hrep). rewrite Hrep.
      split; [|intros _ _; by eexists]. do 3 (split; [done|]). by exists l1, l2.
    + destruct (IH t1 (asked_ok _ _ _ _ _ Hok Ha)) as (t2 & r & E2 & Ha2 & _). exists t2, r. split; [done|].
      split; [by eapply asked_trans|]. intros _ Hex. by destruct (Hr Hex).
Qed.

Lemma reply_in_log l0 l1 l2 n :
  l0 `prefix_of` l1 -> n = (incs l1 + 1)%Z -> (incs l0 < n <= incs (l1 ++ Inc :: l2))%Z.
Proof.
  intros [k ->] ->. rewrite !incs_app, incs_cons. simpl.
  pose proof (Nat2Z.is_nonneg (lcount (fun r => r = Inc) k)). pose proof (Nat2Z.is_nonneg (lcount (fun r => r = Inc) l2)).
  unfold incs in *. lia.
Qed.

(** incrementing through whatever server leads.  [oneInc] never indexes out
    of range or fails the test; it returns 0 only if no server answered, which
    cannot happen while a connected server answers what it is asked; a number
    it returns is that of one increment in the log, later than everything that
    was in it before; and the server that answered is remembered as the leader
    and is one the tester can reach. *)
Theorem oneInc_counts rounds t :
  test_ok t ->
  exists t' n, oneInc rounds t = Ret (t', n) /\ test_ok t' /\
    rsm_log (ts_world t) `prefix_of` rsm_log (ts_world t') /\
    ((n = 0%Z /\ ts_ops t' = ts_ops t /\ ts_leader t' = ts_leader t) \/
     ((incs (rsm_log (ts_world t)) < n <= incs (rsm_log (ts_world t')))%Z /\ ts_ops t' = (ts_ops t + 1)%Z /\
      exists i, ts_leader t' = Z.of_nat i /\ reachable None t i)) /\
    (0 < rounds -> (exists i, reachable None t i /\ responsive i) -> (0 < n)%Z).
Proof.
  intros Hok. destruct (onePartition_asked rounds None Inc t Hok) as (t' & r & E & Ha & Hr). unfold oneInc. rewrite E. cbn [mbind outcome_bind fst snd].
  pose proof (asked_ok _ _ _ _ _ Hok Ha) as Hok'. destruct Ha as ((_ & _ & Hg) & Ha). destruct r as [rep|]; simpl in Ha.
  - destruct Ha as (Ho & Hl & l1 & l2 & Hp & Hlog & [= ->]). simpl.
    destruct (reply_in_log _ l1 l2 _ Hp eq_refl) as [Hlo Hhi]. rewrite <-Hlog in Hhi.
    exists t', (incs l1 + 1)%Z. split_and!; [done..|right; split_and!; [lia|lia|done|done]|].
    intros _ _. unfold incs. lia.
  - exists t', 0%Z. split_and!; [done..|left; naive_solver|]. intros Hn Hex. by destruct (Hr Hn Hex).
Qed.

End Tester.

(** ** Checking the counters *)

Definition countValue (v : Z) (counters : list Z) : nat := lcount (fun c => c = v) counters.

(** The loop of [checkCounter]: [obs i] are the servers' counters in turn [i];
    [to] is the next pause and [slept] the time spent so far, in milliseconds. *)
Fixpoint check_loop (k i : nat) (to slept : Z) (obs : nat -> list Z) (v : Z) (nsrv : nat) : outcome Z :=
  match k with
  | 0 => Fatal "checkCounter: only n srvs have v"
  | S k =>
      if nsrv <=? countValue v (obs i) then Ret slept
      else check_loop k (S i) (if decide (to < 1000)%Z then to * 2 else to)%Z (slept + to)%Z obs v nsrv
  end.
Definition checkCounter (obs : nat -> list Z) (v : Z) (nsrv : nat) : outcome Z := check_loop 30 0 10 0 obs v nsrv.

Lemma check_loop_spec k i to slept obs v nsrv :
  match check_loop k i to slept obs v nsrv with
  | Ret _ => exists j, j < k /\ nsrv <= countValue v (obs (i + j))
  | Fatal _ => forall j, j < k -> countValue v (obs (i + j)) < nsrv
  | Panic _ => False
  end.
Proof.
  revert i to slept. induction k as [|k IH]; intros i to slept; simpl; [lia|].
  destruct (Nat.leb_spec nsrv (countValue v (obs i))) as [Hle|Hlt]; [exists 0; rewrite Nat.add_0_r; split; [lia|done]|].
  specialize (IH (S i) (if decide (to < 1000) then to * 2 else to)%Z (slept + to)%Z).
  destruct (check_loop _ _ _ _ _ _ _).
  - destruct IH as (j & Hj & Hc). exists (S j). rewrite Nat.add_succ_r. split; [lia|done].
  - done.
  - intros [|j] Hj; [by rewrite Nat.add_0_r|]. rewrite Nat.add_succ_r. apply IH. lia.
Qed.

(** The time [k] turns spend in pauses, the first of length [to]. *)
Fixpoint pauses (k : nat) (to : Z) : Z :=
  match k with
  | 0 => 0
  | S k => to + pauses k (if decide (to < 1000)%Z then to * 2 else to)
  end.

Lemma pauses_nonneg k to : (0 <= to)%Z -> (0 <= pauses k to)%Z.
Proof.
  revert to. induction k as [|k IH]; intros to Hto; simpl; [done|].
  specialize (IH (if decide (to < 1000) then to * 2 else to)%Z). case_decide; lia.
Qed.

Lemma check_loop_slept k i to slept obs v nsrv s :
  (0 <= to)%Z -> check_loop k i to slept obs v nsrv = Ret s -> (slept <= s <= slept + pauses k to)%Z.
Proof.
  revert i to slept. induction k as [|k IH]; intros i to slept Hto; [done|]. cbn [check_loop pauses].
  pose proof (pauses_nonneg k (if decide (to < 1000)%Z then to * 2 else to)%Z ltac:(case_decide; lia)).
  destruct (nsrv <=? _); [intros [= <-]; lia|]. intros Hc. apply IH in Hc; [lia|case_decide; lia].
Qed.

(** the check of the counters passes exactly when, in one of its 30 turns,
    enough servers have the value, and fails the test otherwise; passing takes
    at most 30.71 seconds of pauses. *)
Theorem checkCounter_spec obs v nsrv :
  match checkCounter obs v nsrv with
  | Ret s => (exists i, i < 30 /\ nsrv <= countValue v (obs i)) /\ (0 <= s <= 30710)%Z
  | Fatal _ => forall i, i < 30 -> countValue v (obs i) < nsrv
  | Panic _ => False
  end.
Proof.
  unfold checkCounter. pose proof (check_loop_spec 30 0 10 0 obs v nsrv) as Hs.
  destruct (check_loop 30 0 10 0 obs v nsrv) as [s| |] eqn:E; [|done..].
  split; [done|]. apply check_loop_slept in E; [|lia]. exact E.
Qed.

(** ** Witnesses *)

(** A machine whose leader is server 2. *)
#[local] Instance demo_rsm : RSM (list Req) := {|
  submit i req w := if decide (i = 2) then (w ++ [req], (OK, Some (reply_at (incs w) req))) else (w, (ErrWrongLeader, None));
  rsm_log w := w |}.
#[local] Instance demo_rsm_laws : RSMLaws (list Req).
Proof.
  split; simpl.
  - intros i req w w' r. case_decide; intros [= <- _]; [by apply prefix_app_r|done].
  - intros i req w w' rep. case_decide; intros [= <- <-]. exists [], []. by rewrite !app_nil_r.
Qed.
Definition demo_test : test (list Req) := mkTest [Inc; Null] 0 1 [true; true; true] [true; true; true].

Lemma oneInc_counts_witness :
  test_ok demo_test /\ exists t' n, oneInc 1 demo_test = Ret (t', n) /\ (0 < n)%Z /\ test_ok t'.
Proof.
  assert (Hok : test_ok demo_test) by (unfold test_ok, NSRV; simpl; lia). split; [done|].
  destruct (oneInc_counts 1 demo_test Hok) as (t' & n & E & Hok' & _ & _ & Hn). exists t', n. split; [done|]. split; [|done].
  apply Hn; [lia|]. exists 2. split; [by repeat split|]. intros req w. reflexivity.
Defined.

#[local] Instance demo_int_codec : IntCodec := {| enc_int := enc_str; dec_int := dec_str; dec_enc_int := dec_enc_str |}.

Lemma counter_snapshot_witness :
  exists rs1 rs2 rs3 reps1 reps2, DoOps [Inc; Null] (newRSMSrv 0) = Ret (rs1, reps1) /\
    DoOps [Inc; Inc] rs1 = Ret (rs2, reps2) /\
    (r ← Restore (Snapshot rs1) (newRSMSrv 1); DoOps [Inc; Inc] r) = Ret (rs3, reps2) /\
    GetCounter rs2 = 3%Z /\ GetCounter rs3 = 3%Z.
Proof.
  destruct (counter_snapshot [Inc; Null] [Inc; Inc] 0 1) as (rs1 & rs2 & rs3 & reps1 & reps2 & E1 & E2 & E3 & H2 & H3 & _);
    [by apply (bool_decide_unpack _); vm_compute|].
  by exists rs1, rs2, rs3, reps1, reps2.
Defined.

End Rsm.
