(* ===== verification/Annotation.v ===== *)
(** * Annotation: the timeline of a test

    [src/src/tester1/annotation.go]; its RPC stubs ([annotator.go]) are in
    [Stubs].  The annotations of a test are points, intervals and, per tag, at most one open
    ("continuous") annotation; [FrameworkInfo] tracks which servers are
    disconnected or crashed.  Every reading of the clock is an argument, the
    order in which a Go map is ranged over too; the visualiser and its file are
    outside the model, which gives the list of annotations handed to it. *)

From S2P Require Import Prelude.
From stdpp Require Import base gmap list strings pretty.
From Stdlib Require Import ZArith Lia Sorted.
From stdpp Require Import list.

Module Annotation.

(** ** Data *)

(** The fields of [porcupine.Annotation] the code sets; a point has end 0. *)
Record ann := mkAnn {
  a_tag : string; a_start : Z; a_end : Z; a_desp : string; a_details : string; a_bgcolor : string }.

Record Continuous := mkCont { c_start : Z; c_desp : string; c_details : string; c_bgcolor : string }.

Record Annotation := mkAnnotations {
  annotations : list ann;
  continuous : gmap string Continuous;
  finalized : bool }.

Record FrameworkInfo := mkFinfo {
  nservers : nat;
  connected : list bool;
  crashed : list bool;
  ckbegin : Z * string }.

#[export] Instance ann_eq_dec : EqDecision ann.
Proof. solve_decision. Defined.
#[export] Instance Continuous_eq_dec : EqDecision Continuous.
Proof. solve_decision. Defined.

Definition COLOR_INFO : string := "#FAFAFA".
Definition COLOR_NEUTRAL : string := "#FFECB3".
Definition COLOR_SUCCESS : string := "#C8E6C9".
Definition COLOR_FAILURE : string := "#FFCDD2".
Definition COLOR_FAULT : string := "#B3E5FC".
Definition COLOR_USER : string := "#FFF176".
Definition TAG_CHECKER : string := "$ Checker".
Definition TAG_PARTITION : string := "$ Failure".
Definition TAG_INFO : string := "$ Test Info".

(** The globals [annotation] and [finfo]; [finfo] is nil until [AnnotateTest]. *)
Record state := mkState { an : Annotation; finfo : option FrameworkInfo }.

(** ** The annotation object *)

Definition mkAnnotation : Annotation := mkAnnotations [] ∅ false.

(** [clear] *)
Definition clear (a : Annotation) : Annotation := mkAnnotations [] ∅ false.

Definition add (x : ann) (a : Annotation) : Annotation :=
  mkAnnotations (annotations a ++ [x]) (continuous a) (finalized a).

Definition annotatePointColor (t : Z) (tag desp details bgcolor : string) (a : Annotation) : Annotation :=
  add (mkAnn tag t 0 desp details bgcolor) a.

Definition annotateIntervalColor (t : Z) (tag : string) (start : Z) (desp details bgcolor : string)
    (a : Annotation) : Annotation :=
  add (mkAnn tag start t desp details bgcolor) a.

(** The closed form of an open annotation. *)
Definition concretize (tag : string) (t : Z) (c : Continuous) : ann :=
  mkAnn tag (c_start c) t (c_desp c) (c_details c) (c_bgcolor c).

Definition annotateContinuousColor (t : Z) (tag desp details bgcolor : string) (a : Annotation) : Annotation :=
  match continuous a !! tag with
  | None => mkAnnotations (annotations a) (<[tag := mkCont t desp details bgcolor]> (continuous a)) (finalized a)
  | Some c =>
      mkAnnotations (annotations a ++ [concretize tag t c])
        (<[tag := mkCont t desp details bgcolor]> (continuous a)) (finalized a)
  end.

(** A missing entry reads as the zero [Continuous]: the check for it has no
    [return]. *)
Definition zero_cont : Continuous := mkCont 0 "" "" "".

Definition annotateContinuousEnd (t : Z) (tag : string) (a : Annotation) : Annotation :=
  mkAnnotations (annotations a ++ [concretize tag t (default zero_cont (continuous a !! tag))])
    (delete tag (continuous a)) (finalized a).

(** [finalize], ranging over the open annotations in the order [order]. *)
Definition finalize (t : Z) (order : list (string * Continuous)) (a : Annotation) : Annotation * list ann :=
  (mkAnnotations (annotations a) (continuous a) true,
   annotations a ++ ((fun e => concretize e.1 t e.2) <$> order)).

Definition FinalizeAnnotations (t t' : Z) (order : list (string * Continuous)) (msg : string) (a : Annotation)
    : Annotation * list ann :=
  let '(a, x) := finalize t order a in (a, x ++ [mkAnn TAG_INFO t' 0 msg msg COLOR_INFO]).

(** [cleanup]: [enabled] is the variable [VIS_ENABLE]; the second component is
    what is handed to the visualiser, if anything. *)
Definition cleanup (t t' : Z) (order : list (string * Continuous)) (enabled : string) (failed : bool)
    (msg : string) (a : Annotation) : Annotation * option (list ann) :=
  if bool_decide (enabled = "never") || (negb failed && bool_decide (enabled <> "always")) || finalized a
  then (clear a, None)
  else
    let '(a, x) := finalize t order a in
    match x with
    | [] => (a, None)
    | _ => (a, Some (x ++ [mkAnn TAG_INFO t' 0 msg msg COLOR_INFO]))
    end.

(** ** The framework's calls *)

Definition mkFrameworkInfo (n : nat) : FrameworkInfo :=
  mkFinfo n (replicate n true) (replicate n false) (0%Z, "").

Definition on_an (f : Annotation -> Annotation) (s : state) : state := mkState (f (an s)) (finfo s).

(** The methods of [finfo] dereference it. *)
Definition with_finfo (f : FrameworkInfo -> state -> outcome state) (s : state) : outcome state :=
  match finfo s with None => Panic "nil pointer dereference" | Some fi => f fi s end.

Definition set_finfo (fi : FrameworkInfo) (s : state) : state := mkState (an s) (Some fi).

(** [%v] of an int slice. *)
Fixpoint join_sp (l : list nat) : string :=
  match l with
  | [] => ""
  | [x] => itoa x
  | x :: l => itoa x +:+ " " +:+ join_sp l
  end.
Definition show_ints (l : list nat) : string := "[" +:+ join_sp l +:+ "]".

(** The loop of [annotateFault] over [finfo.connected]: connected servers,
    crashed servers, and the text written so far. *)
Definition fault_loop (crashed : list bool) (r : list nat * list nat * string) (x : nat * bool)
    : outcome (list nat * list nat * string) :=
  let '(conn, crashes, text) := r in
  c ← idx crashed x.1;
  if (c : bool) then Ret (conn, crashes ++ [x.1], text)
  else if x.2 then Ret (conn ++ [x.1], crashes, text)
  else Ret (conn, crashes, text +:+ "[" +:+ itoa x.1 +:+ "] ").

Definition annotateFault (t : Z) (fi : FrameworkInfo) (a : Annotation) : outcome Annotation :=
  if bool_decide (replicate (nservers fi) true = connected fi) && bool_decide (replicate (nservers fi) false = crashed fi)
  then Ret (annotateContinuousEnd t TAG_PARTITION a)
  else
    r ← foldo (fault_loop (crashed fi)) ([], [], "partition = ") (imap pair (connected fi));
    let '(conn, crashes, text) := r in
    let text := match conn with [] => text | _ => text +:+ show_ints conn end in
    let text := match crashes with [] => text | _ => text +:+ " / crash = " +:+ show_ints crashes end in
    Ret (annotateContinuousColor t TAG_PARTITION text text COLOR_FAULT a).

Definition AnnotateTest (t : Z) (desp : string) (n : nat) (s : state) : state :=
  let details := desp +:+ " (" +:+ itoa n +:+ " servers)" in
  mkState (annotatePointColor t TAG_INFO details details COLOR_INFO (clear (an s))) (Some (mkFrameworkInfo n)).

Definition refault (t : Z) (fi : FrameworkInfo) (s : state) : outcome state :=
  a ← annotateFault t fi (an s); Ret (mkState a (Some fi)).

(** Go's [copy]: as many elements as both have. *)
Definition copy_bools (dst src : list bool) : list bool :=
  take (length dst) src ++ drop (length src) dst.

Definition AnnotateConnection (t : Z) (connection : list bool) : state -> outcome state :=
  with_finfo (fun fi s =>
    if decide (connected fi = connection) then Ret s
    else refault t (mkFinfo (nservers fi) (copy_bools (connected fi) connection) (crashed fi) (ckbegin fi)) s).

Definition AnnotateTwoPartitions (t : Z) (p1 p2 : list nat) (s : state) : state :=
  let text := "partition = " +:+ show_ints p1 +:+ " " +:+ show_ints p2 in
  on_an (annotateContinuousColor t TAG_PARTITION text text COLOR_FAULT) s.

Definition AnnotateClearFailure (t : Z) : state -> outcome state :=
  with_finfo (fun fi s =>
    Ret (on_an (annotateContinuousEnd t TAG_PARTITION)
      (set_finfo (mkFinfo (nservers fi) (replicate (length (connected fi)) true) (replicate (length (crashed fi)) false) (ckbegin fi)) s))).

(** The loops of [AnnotateShutdown] ([b = true]) and [AnnotateRestart]: mark the
    servers, noting whether any mark changed. *)
Definition mark (b : bool) (l : list bool) (servers : list nat) : outcome (list bool * bool) :=
  foldo (fun (r : list bool * bool) id => c ← idx r.1 id; Ret (<[id := b]> r.1, r.2 || negb (Bool.eqb c b)))
    (l, false) servers.

Definition AnnotateCrash (b : bool) (t : Z) (servers : list nat) : state -> outcome state :=
  with_finfo (fun fi s =>
    r ← mark b (crashed fi) servers;
    let fi := mkFinfo (nservers fi) (connected fi) r.1 (ckbegin fi) in
    if (r.2 : bool) then refault t fi s else Ret (set_finfo fi s)).
Definition AnnotateShutdown := AnnotateCrash true.
Definition AnnotateRestart := AnnotateCrash false.
Definition AnnotateShutdownAll (t : Z) : state -> outcome state :=
  with_finfo (fun fi => AnnotateShutdown t (seq 0 (nservers fi))).
Definition AnnotateRestartAll (t : Z) : state -> outcome state :=
  with_finfo (fun fi => AnnotateRestart t (seq 0 (nservers fi))).

Definition AnnotateCheckerBegin (t : Z) (details : string) : state -> outcome state :=
  with_finfo (fun fi s => Ret (set_finfo (mkFinfo (nservers fi) (connected fi) (crashed fi) (t, details)) s)).

(** The last assignment of [AnnotateCheckerEnd] is to a copy of [ckbegin]. *)
Definition AnnotateCheckerEnd (t : Z) (desp details color : string) : state -> outcome state :=
  with_finfo (fun fi s =>
    if (fst (ckbegin fi) =? 0)%Z then Ret (on_an (annotatePointColor t TAG_CHECKER desp details color) s)
    else Ret (on_an (annotateIntervalColor t TAG_CHECKER (fst (ckbegin fi)) desp (snd (ckbegin fi) +:+ ": " +:+ details) color) s)).
Definition AnnotateCheckerSuccess t desp details := AnnotateCheckerEnd t desp details COLOR_SUCCESS.
Definition AnnotateCheckerFailure t desp details := AnnotateCheckerEnd t desp details COLOR_FAILURE.
Definition AnnotateCheckerNeutral t desp details := AnnotateCheckerEnd t desp details COLOR_NEUTRAL.

Definition SetAnnotationFinalized (s : state) : state :=
  on_an (fun a => mkAnnotations (annotations a) (continuous a) true) s.
Definition GetAnnotationFinalized (s : state) : bool := finalized (an s).

(** ** Runs *)

(** One call, with the clock it reads.  [OPoint] .. [OEnd] are the calls with a
    tag of the caller's, among them the handlers of [annotator.go]. *)
Inductive op :=
  | OTest (desp : string) (n : nat)
  | OPoint (tag desp details bgcolor : string)
  | OInterval (tag : string) (start : Z) (desp details bgcolor : string)
  | OContinuous (tag desp details bgcolor : string)
  | OEnd (tag : string)
  | OConnection (connection : list bool)
  | OTwoPartitions (p1 p2 : list nat)
  | OClearFailure
  | OShutdown (servers : list nat)
  | OShutdownAll
  | ORestart (servers : list nat)
  | ORestartAll
  | OCheckerBegin (details : string)
  | OCheckerEnd (desp details color : string)
  | OSetFinalized.

Definition exec (t : Z) (o : op) (s : state) : outcome state :=
  match o with
  | OTest desp n => Ret (AnnotateTest t desp n s)
  | OPoint tag desp details bg => Ret (on_an (annotatePointColor t tag desp details bg) s)
  | OInterval tag start desp details bg => Ret (on_an (annotateIntervalColor t tag start desp details bg) s)
  | OContinuous tag desp details bg => Ret (on_an (annotateContinuousColor t tag desp details bg) s)
  | OEnd tag => Ret (on_an (annotateContinuousEnd t tag) s)
  | OConnection l => AnnotateConnection t l s
  | OTwoPartitions p1 p2 => Ret (AnnotateTwoPartitions t p1 p2 s)
  | OClearFailure => AnnotateClearFailure t s
  | OShutdown l => AnnotateShutdown t l s
  | OShutdownAll => AnnotateShutdownAll t s
  | ORestart l => AnnotateRestart t l s
  | ORestartAll => AnnotateRestartAll t s
  | OCheckerBegin d => AnnotateCheckerBegin t d s
  | OCheckerEnd desp details color => AnnotateCheckerEnd t desp details color s
  | OSetFinalized => Ret (SetAnnotationFinalized s)
  end.

Definition exec_all (s : state) (l : list (Z * op)) : outcome state :=
  foldo (fun s to => exec to.1 to.2 s) s l.

(** ** What the fault annotation is meant to show *)

Definition down (fi : FrameworkInfo) (i : nat) : bool := nth i (crashed fi) false.
Definition up (fi : FrameworkInfo) (i : nat) : bool := nth i (connected fi) false && negb (down fi i).
Definition alone (fi : FrameworkInfo) (i : nat) : bool := negb (nth i (connected fi) false) && negb (down fi i).

Definition servers_that (f : nat -> bool) (n : nat) : list nat := filter (fun i => f i = true) (seq 0 n).

Fixpoint concat_s (l : list string) : string := match l with [] => "" | x :: l => x +:+ concat_s l end.

(** Each disconnected server in a partition of its own, then the connected ones
    together, then the crashed ones. *)
Definition fault_text (fi : FrameworkInfo) : string :=
  let n := nservers fi in
  "partition = " +:+ concat_s ((fun i => "[" +:+ itoa i +:+ "] ") <$> servers_that (alone fi) n)
  +:+ (match servers_that (up fi) n with [] => "" | l => show_ints l end)
  +:+ (match servers_that (down fi) n with [] => "" | l => " / crash = " +:+ show_ints l end).

Definition faulty (fi : FrameworkInfo) : bool := existsb negb (connected fi) || existsb id (crashed fi).

Definition fault_desc (fi : FrameworkInfo) : option string := if faulty fi then Some (fault_text fi) else None.

Definition fi_ok (fi : FrameworkInfo) : Prop :=
  length (connected fi) = nservers fi /\ length (crashed fi) = nservers fi.

(** The open fault annotation shows the present faults. *)
Definition shown (s : state) : Prop :=
  match finfo s with
  | None => True
  | Some fi => fi_ok fi /\ c_desp <$> continuous (an s) !! TAG_PARTITION = fault_desc fi
  end.

(** Calls that leave the fault annotation to the framework. *)
Definition framework_op (o : op) : bool :=
  match o with
  | OContinuous tag _ _ _ | OEnd tag => bool_decide (tag <> TAG_PARTITION)
  | OTwoPartitions _ _ => false
  | _ => true
  end.

(** ** The text of the fault annotation *)

Lemma app_str_nil (s : string) : s +:+ "" = s.
Proof. induction s as [|c s IH]; [done|]. exact (f_equal (String c) IH). Qed.
Lemma app_str_assoc (s1 s2 s3 : string) : s1 +:+ (s2 +:+ s3) = (s1 +:+ s2) +:+ s3.
Proof. induction s1 as [|c s IH]; [done|]. exact (f_equal (String c) IH). Qed.

Lemma imap_pair_seq {A} (d : A) (l : list A) : imap pair l = (fun i => (i, nth i l d)) <$> seq 0 (length l).
Proof.
  apply list_eq. intros i. rewrite list_lookup_imap, list_lookup_fmap.
  destruct (l !! i) as [x|] eqn:Hx; cbn.
  - rewrite lookup_seq_lt by (by eapply lookup_lt_Some). cbn. by rewrite (nth_lookup_Some _ _ _ _ Hx).
  - rewrite lookup_seq_ge by (by apply lookup_ge_None). done.
Qed.

Lemma fault_loop_eq cr conn crashes text i b : fault_loop cr (conn, crashes, text) (i, b) =
  c ← idx cr i;
  if (c : bool) then Ret (conn, crashes ++ [i], text)
  else if b then Ret (conn ++ [i], crashes, text)
  else Ret (conn, crashes, text +:+ "[" +:+ itoa i +:+ "] ").
Proof. done. Qed.

Lemma fault_loop_spec fi ids conn cr text :
  (forall i, i ∈ ids -> i < length (crashed fi)) ->
  foldo (fault_loop (crashed fi)) (conn, cr, text) ((fun i => (i, nth i (connected fi) false)) <$> ids) =
  Ret (conn ++ filter (fun i => up fi i = true) ids, cr ++ filter (fun i => down fi i = true) ids,
       text +:+ concat_s ((fun i => "[" +:+ itoa i +:+ "] ") <$> filter (fun i => alone fi i = true) ids)).
Proof.
  revert conn cr text. induction ids as [|i ids IH]; intros conn cr text Hlt.
  { cbn. by rewrite !app_nil_r, app_str_nil. }
  rewrite fmap_cons. cbn [foldo]. rewrite fault_loop_eq.
  destruct (lookup_lt_is_Some_2 (crashed fi) i) as [c Hc]; [apply Hlt, list_elem_of_here|].
  rewrite (idx_Some _ _ _ Hc). cbn [mbind outcome_bind].
  assert (down fi i = c) as Hd by (unfold down; by rewrite (nth_lookup_Some _ _ _ _ Hc)).
  assert (forall j, j ∈ ids -> j < length (crashed fi)) as Hlt' by (intros j Hj; apply Hlt; by apply list_elem_of_further).
  assert (up fi i = nth i (connected fi) false && negb c) as Hu by (unfold up; by rewrite Hd).
  assert (alone fi i = negb (nth i (connected fi) false) && negb c) as Ha by (unfold alone; by rewrite Hd).
  rewrite !filter_cons. destruct c, (nth i (connected fi) false); cbn [negb andb] in Hu, Ha;
    repeat (case_decide; try congruence); cbn [mbind outcome_bind]; rewrite IH by done; rewrite <- ?app_assoc; try done.
  rewrite fmap_cons. cbn [concat_s]. by rewrite <- !app_str_assoc.
Qed.

Lemma replicate_eq_existsb {A} (f : A -> bool) (x : A) (l : list A) :
  (forall y, f y = false <-> y = x) -> replicate (length l) x = l <-> existsb f l = false.
Proof.
  intros Hf. induction l as [|y l IH]; [done|]. cbn. rewrite orb_false_iff, <- IH, Hf. split; [by intros [= -> ->]|by intros [-> ->]].
Qed.

Lemma annotateFault_spec t fi a :
  fi_ok fi ->
  annotateFault t fi a = Ret (match fault_desc fi with
    | None => annotateContinuousEnd t TAG_PARTITION a
    | Some d => annotateContinuousColor t TAG_PARTITION d d COLOR_FAULT a end).
Proof.
  intros [Hc Hd]. unfold annotateFault, fault_desc.
  assert (bool_decide (replicate (nservers fi) true = connected fi) && bool_decide (replicate (nservers fi) false = crashed fi)
    = negb (faulty fi)) as ->.
  { rewrite (bool_decide_ext (replicate (nservers fi) true = _) (existsb negb (connected fi) = false)),
      (bool_decide_ext (replicate (nservers fi) false = _) (existsb id (crashed fi) = false)).
    - unfold faulty. destruct (existsb negb (connected fi)), (existsb id (crashed fi)); reflexivity.
    - rewrite <- Hd. apply replicate_eq_existsb. by intros [].
    - rewrite <- Hc. apply replicate_eq_existsb. by intros []. }
  destruct (faulty fi) eqn:Hf; cbn [negb]; [|done].
  rewrite (imap_pair_seq false), fault_loop_spec.
  - cbn [mbind outcome_bind app]. rewrite Hc. unfold fault_text, servers_that. do 2 f_equal.
    + destruct (filter (fun i => up fi i = true) _), (filter (fun i => down fi i = true) _);
        rewrite ?app_str_nil; rewrite <- ?app_str_assoc; done.
    + destruct (filter (fun i => up fi i = true) _), (filter (fun i => down fi i = true) _);
        rewrite ?app_str_nil; rewrite <- ?app_str_assoc; done.
  - intros i. rewrite Hd, <- Hc, elem_of_seq. lia.
Qed.

(** ** The open fault annotation *)

Lemma fault_desc_clean n ck : fault_desc (mkFinfo n (replicate n true) (replicate n false) ck) = None.
Proof.
  unfold fault_desc, faulty. cbn [connected crashed].
  assert (forall A (f : A -> bool) x k, f x = false -> existsb f (replicate k x) = false) as H.
  { intros A f x k Hf. induction k as [|k IH]; [done|]. cbn. by rewrite Hf, IH. }
  by rewrite !H.
Qed.

Lemma refault_shown t fi s s' :
  fi_ok fi -> refault t fi s = Ret s' -> shown s'.
Proof.
  intros Hok. unfold refault. rewrite annotateFault_spec by done. cbn [mbind outcome_bind]. intros [= <-].
  split; [exact Hok|]. cbn [an]. destruct (fault_desc fi) as [d|].
  - unfold annotateContinuousColor. destruct (continuous (an s) !! TAG_PARTITION); cbn; by rewrite lookup_insert_eq.
  - cbn. by rewrite lookup_delete_eq.
Qed.

Lemma mark_ok b l servers l' ch :
  mark b l servers = Ret (l', ch) -> length l' = length l /\ (ch = false -> l' = l).
Proof.
  unfold mark. assert (forall f, foldo (fun (r : list bool * bool) id => c ← idx r.1 id;
      Ret (<[id := b]> r.1, r.2 || negb (Bool.eqb c b))) (l, f) servers = Ret (l', ch) ->
    length l' = length l /\ (ch = false -> f = false /\ l' = l)) as H; [|intros E; naive_solver].
  revert l. induction servers as [|i servers IH]; intros l f; [intros [= <- <-]; done|].
  cbn [foldo fst snd]. unfold idx. destruct (l !! i) as [c|] eqn:Hc; [|done]. cbn [mbind outcome_bind].
  intros [Hl Hch]%IH. rewrite length_insert in Hl. split; [done|]. intros Hf.
  destruct (Hch Hf) as [[-> Hcb]%orb_false_iff ->]. split; [done|].
  apply negb_false_iff, Bool.eqb_prop in Hcb. subst c. by apply list_insert_id.
Qed.

Lemma copy_bools_length dst src : length (copy_bools dst src) = length dst.
Proof. unfold copy_bools. rewrite length_app, length_take, length_drop. lia. Qed.

Lemma with_finfo_inv f s s' : with_finfo f s = Ret s' -> exists fi, finfo s = Some fi /\ f fi s = Ret s'.
Proof. unfold with_finfo. destruct (finfo s) as [fi|]; [|done]. eauto. Qed.

(** A call that leaves the servers' flags and the fault annotation alone. *)
Lemma shown_same s s' :
  (forall fi', finfo s' = Some fi' -> exists fi, finfo s = Some fi /\ nservers fi' = nservers fi /\
     connected fi' = connected fi /\ crashed fi' = crashed fi) ->
  continuous (an s') !! TAG_PARTITION = continuous (an s) !! TAG_PARTITION -> shown s -> shown s'.
Proof.
  unfold shown. intros Hf Hc. destruct (finfo s') as [fi'|]; [|done].
  destruct (Hf fi' eq_refl) as (fi & -> & H1 & H2 & H3). rewrite Hc.
  unfold fi_ok, fault_desc, faulty, fault_text, servers_that.
  assert (down fi' = down fi /\ up fi' = up fi /\ alone fi' = alone fi) as (H4 & H5 & H6)
    by (unfold up, alone, down; by rewrite H2, H3).
  by rewrite H1, H2, H3, H4, H5, H6.
Qed.

Lemma AnnotateCrash_shown b t servers s s' : AnnotateCrash b t servers s = Ret s' -> shown s -> shown s'.
Proof.
  unfold AnnotateCrash. intros (fi & Hfi & H)%with_finfo_inv Hs. unfold shown in Hs. rewrite Hfi in Hs.
  destruct Hs as [[Hl1 Hl2] Hs]. destruct (mark b (crashed fi) servers) as [[l ch]| |] eqn:Hm; [|done..].
  destruct (mark_ok _ _ _ _ _ Hm) as [Hl Hch]. cbn [mbind outcome_bind fst snd] in H.
  destruct ch.
  - eapply refault_shown; [|exact H]. split; cbn; congruence.
  - injection H as <-. rewrite (Hch eq_refl). unfold shown, set_finfo. cbn [finfo an]. by destruct fi.
Qed.

Lemma exec_all_shown l s :
  Forall (fun to => framework_op to.2 = true) l -> exec_all (mkState mkAnnotation None) l = Ret s -> shown s.
Proof.
  revert s. induction l as [|[t o] l IH] using rev_ind; intros s Hl; [by intros [= <-]|].
  apply Forall_app in Hl as [Hl Ho]. apply Forall_cons_1 in Ho as [Ho _]. unfold exec_all. rewrite foldo_app.
  destruct (foldo _ _ l) as [s1| |] eqn:E; [|done..]. specialize (IH s1 Hl E). cbn.
  destruct (exec t o s1) as [s2| |] eqn:E2; [|done..]. intros [= <-].
  destruct o; cbn [exec] in E2; cbn in Ho.
  - injection E2 as <-. unfold shown, AnnotateTest. cbn [finfo]. unfold mkFrameworkInfo.
    rewrite fault_desc_clean. split; [|done]. split; cbn; apply length_replicate.
  - injection E2 as <-. apply (shown_same s1); [|done|exact IH]; eauto.
  - injection E2 as <-. apply (shown_same s1); [|done|exact IH]; eauto.
  - injection E2 as <-. apply bool_decide_eq_true_1 in Ho. apply (shown_same s1); [|  |exact IH]; [eauto|].
    cbn. unfold annotateContinuousColor. destruct (_ !! tag); cbn; by rewrite lookup_insert_ne.
  - injection E2 as <-. apply bool_decide_eq_true_1 in Ho. apply (shown_same s1); [|  |exact IH]; [eauto|].
    cbn. by rewrite lookup_delete_ne.
  - apply with_finfo_inv in E2 as (fi & Hfi & H). case_decide as Hd; [injection H as <-; exact IH|].
    eapply refault_shown; [|exact H]. unfold shown in IH. rewrite Hfi in IH. destruct IH as [[H1 H2] _].
    split; cbn; [by rewrite copy_bools_length|done].
  - done.
  - apply with_finfo_inv in E2 as (fi & Hfi & H). injection H as <-. unfold shown in *. rewrite Hfi in IH.
    destruct IH as [[H1 H2] _]. unfold on_an, set_finfo. cbn [finfo]. rewrite H1, H2, fault_desc_clean.
    split; [split; cbn; apply length_replicate|]. cbn. by rewrite lookup_delete_eq.
  - by eapply AnnotateCrash_shown.
  - apply with_finfo_inv in E2 as (fi & Hfi & H). by eapply AnnotateCrash_shown.
  - by eapply AnnotateCrash_shown.
  - apply with_finfo_inv in E2 as (fi & Hfi & H). by eapply AnnotateCrash_shown.
  - apply with_finfo_inv in E2 as (fi & Hfi & H). injection H as <-.
    apply (shown_same s1); [|done|exact IH]. cbn. intros fi' [= <-]. by exists fi.
  - apply with_finfo_inv in E2 as (fi & Hfi & H).
    apply (shown_same s1); [| |exact IH]; case_match; injection H as <-; cbn; eauto.
  - injection E2 as <-. apply (shown_same s1); [|done|exact IH]; eauto.
Qed.

(** after any calls of the framework and of the annotators that keep off the
    fault tag (and do not use [AnnotateTwoPartitions], which bypasses the
    flags), a fault annotation is open exactly when some server is disconnected
    or crashed, and its text lists the partitions and the crashed servers as
    the flags have them at that moment. *)
Theorem fault_annotation_current l s :
  Forall (fun to => framework_op to.2 = true) l -> exec_all (mkState mkAnnotation None) l = Ret s -> shown s.
Proof. apply exec_all_shown. Qed.

Definition demo_run : list (Z * op) :=
  [(1%Z, OTest "demo" 3); (2%Z, OShutdown [2]); (3%Z, OConnection [true; false; true]); (4%Z, ORestart [2]);
   (5%Z, OPoint "x" "p" "p" COLOR_USER)].

Lemma fault_annotation_current_witness : exists s, exec_all (mkState mkAnnotation None) demo_run = Ret s /\
  c_desp <$> continuous (an s) !! TAG_PARTITION = Some "partition = [1] [0 2]".
Proof.
  destruct (exec_all (mkState mkAnnotation None) demo_run) as [s| |] eqn:E; [|by vm_compute in E|by vm_compute in E].
  exists s. split; [done|].
  pose proof (fault_annotation_current demo_run s ltac:(by repeat constructor) E) as H.
  vm_compute in E. injection E as <-. destruct H as [_ H]. rewrite H. by vm_compute.
Defined.

(** ** The timeline *)

(** How one call other than [AnnotateTest] moves the annotations. *)
Inductive an_step (t : Z) (a : Annotation) : Annotation -> Prop :=
  | an_add l f : an_step t a (mkAnnotations (annotations a ++ l) (continuous a) f)
  | an_open tag desp details bg : an_step t a (annotateContinuousColor t tag desp details bg a)
  | an_close tag : an_step t a (annotateContinuousEnd t tag a).

Definition is_test (o : op) : bool := match o with OTest _ _ => true | _ => false end.

Lemma an_same t a : an_step t a a.
Proof. pose proof (an_add t a [] (finalized a)) as H. rewrite app_nil_r in H. by destruct a. Qed.

Lemma annotateFault_step t fi a a' : annotateFault t fi a = Ret a' -> an_step t a a'.
Proof.
  unfold annotateFault. destruct (_ && _); [intros [= <-]; constructor|].
  destruct (foldo _ _ _) as [[[conn crashes] text]| |]; [|done..]. intros [= <-]. apply an_open.
Qed.

Lemma exec_step t o s s' : is_test o = false -> exec t o s = Ret s' -> an_step t (an s) (an s').
Proof.
  assert (forall fi s s', refault t fi s = Ret s' -> an_step t (an s) (an s')) as Hre.
  { intros fi s0 s1. unfold refault. destruct (annotateFault t fi (an s0)) as [a| |] eqn:E; [|done..].
    intros [= <-]. by eapply annotateFault_step. }
  assert (forall b l s s', AnnotateCrash b t l s = Ret s' -> an_step t (an s) (an s')) as Hcr.
  { intros b l s0 s1 (fi & _ & H)%with_finfo_inv. destruct (mark b (crashed fi) l) as [[l' ch]| |]; [|done..].
    cbn in H. destruct ch; [by eapply Hre|injection H as <-; apply an_same]. }
  destruct o; cbn [exec is_test]; intros Ht H; try done;
    try (injection H as <-; first [apply an_add | apply an_open | apply an_close]).
  - apply with_finfo_inv in H as (fi & _ & H). case_decide; [injection H as <-; apply an_same|by eapply Hre].
  - apply with_finfo_inv in H as (fi & _ & H). injection H as <-. apply an_close.
  - by eapply Hcr.
  - apply with_finfo_inv in H as (fi & _ & H). by eapply Hcr.
  - by eapply Hcr.
  - apply with_finfo_inv in H as (fi & _ & H). by eapply Hcr.
  - apply with_finfo_inv in H as (fi & _ & H). injection H as <-. apply an_same.
  - apply with_finfo_inv in H as (fi & _ & H). case_match; injection H as <-; apply an_add.
  - injection H as <-. pose proof (an_add t (an s) [] true) as Ha. by rewrite app_nil_r in Ha.
Qed.

(** The annotation [c] of [tag] covers the time up to [t']: it is still open, or
    it was closed no earlier. *)
Definition covers (tag : string) (c : Continuous) (t' : Z) (a : Annotation) : Prop :=
  continuous a !! tag = Some c \/ exists e, (t' <= e)%Z /\ concretize tag e c ∈ annotations a.

Lemma covers_step tag c t' t a a' :
  (t' <= t)%Z -> an_step t a a' -> covers tag c t' a -> covers tag c t' a'.
Proof.
  intros Ht Hstep [Ho|(e & He & Hin)].
  - destruct Hstep as [l f|tag' desp details bg|tag'].
    + by left.
    + destruct (decide (tag' = tag)) as [->|Hne].
      * right. exists t. split; [done|]. unfold annotateContinuousColor. rewrite Ho. cbn.
        apply elem_of_app. right. by apply list_elem_of_singleton.
      * left. unfold annotateContinuousColor. destruct (_ !! tag'); cbn; by rewrite lookup_insert_ne.
    + destruct (decide (tag' = tag)) as [->|Hne].
      * right. exists t. split; [done|]. unfold annotateContinuousEnd. rewrite Ho. cbn.
        apply elem_of_app. right. by apply list_elem_of_singleton.
      * left. cbn. by rewrite lookup_delete_ne.
  - right. exists e. split; [done|]. destruct Hstep as [l f|tag' desp details bg|tag'].
    + apply elem_of_app. by left.
    + unfold annotateContinuousColor. destruct (_ !! tag'); cbn; [apply elem_of_app; by left|done].
    + cbn. apply elem_of_app. by left.
Qed.

Lemma exec_all_covers tag c t' l s s' :
  Forall (fun to => (t' <= to.1)%Z /\ is_test to.2 = false) l ->
  exec_all s l = Ret s' -> covers tag c t' (an s) -> covers tag c t' (an s').
Proof.
  unfold exec_all. revert s. induction l as [|[t o] l IH]; intros s Hl; [by intros [= <-]|].
  apply Forall_cons_1 in Hl as [[Ht Ho] Hl]. cbn [foldo fst snd] in *.
  destruct (exec t o s) as [s1| |] eqn:E; [|done..]. cbn [mbind outcome_bind]. intros H Hc.
  apply (IH s1 Hl H). eapply covers_step; [exact Ht|by eapply exec_step|done].
Qed.

(** Open annotations were opened in the past. *)
Definition opened_by (t : Z) (a : Annotation) : Prop :=
  forall tag c, continuous a !! tag = Some c -> (c_start c <= t)%Z.

Lemma opened_by_step t0 t a a' : (t0 <= t)%Z -> an_step t a a' -> opened_by t0 a -> opened_by t a'.
Proof.
  intros Ht Hstep Ho tag c Hc. destruct Hstep as [l f|tag' desp details bg|tag'].
  - etrans; [by eapply Ho|done].
  - unfold annotateContinuousColor in Hc. destruct (_ !! tag'); cbn in Hc;
      apply lookup_insert_Some in Hc as [[_ <-]|[_ Hc]]; try (cbn; lia); etrans; [by eapply Ho|done|by eapply Ho|done].
  - cbn in Hc. apply lookup_delete_Some in Hc as [_ Hc]. etrans; [by eapply Ho|done].
Qed.

Lemma exec_all_opened_by t l s s' :
  Forall (fun to => (to.1 <= t)%Z) l -> Sorted Z.le (l.*1) -> continuous (an s) = ∅ ->
  exec_all s l = Ret s' -> opened_by t (an s').
Proof.
  intros Hl Hs He H.
  assert (forall t0, Sorted Z.le (t0 :: l.*1) -> opened_by t0 (an s) -> (t0 <= t)%Z -> opened_by t (an s')) as Hgen.
  { clear He. revert s Hl Hs H. unfold exec_all. induction l as [|[t1 o] l IH]; intros s Hl Hs H t0 Hs0 Ho Ht.
    - injection H as <-. intros tag c Hc. etrans; [by eapply Ho|done].
    - apply Forall_cons_1 in Hl as [Ht1 Hl]. cbn [foldo fst snd] in *.
      destruct (exec t1 o s) as [s1| |] eqn:E; [|done..]. cbn [mbind outcome_bind] in H.
      rewrite fmap_cons in Hs, Hs0. cbn [fst] in *.
      apply Sorted_inv in Hs as [Hs _]. apply Sorted_inv in Hs0 as [Hs0 Ht01%HdRel_inv].
      apply (IH s1 Hl Hs H t1 Hs0); [|done]. destruct (is_test o) eqn:Hto.
      + destruct o; try done. injection E as <-. intros tag c. cbn. by rewrite lookup_empty.
      + eapply opened_by_step; [exact Ht01|by eapply exec_step|done]. }
  destruct l as [|[t1 o] l].
  - injection H as <-. intros tag c. by rewrite He, lookup_empty.
  - apply Forall_cons_1 in Hl as [Ht1 Hl']. apply (Hgen t1).
    + constructor; [done|]. rewrite fmap_cons. constructor. cbn. lia.
    + intros tag c. by rewrite He, lookup_empty.
    + done.
Qed.

(** no fault is lost from the timeline: whatever the faults are after some
    call, once the run has gone on to time [t'] (the time of the next call) or
    further there is a fault annotation with the text of those faults that
    started no later than that call and is either still open or was closed at
    [t'] or later. *)
Theorem fault_timeline l1 t l2 t' s1 s2 d fi :
  Forall (fun to => framework_op to.2 = true) l1 ->
  Forall (fun to => (to.1 <= t)%Z) l1 -> Sorted Z.le (l1.*1) ->
  exec_all (mkState mkAnnotation None) l1 = Ret s1 -> finfo s1 = Some fi -> fault_desc fi = Some d ->
  Forall (fun to => (t' <= to.1)%Z /\ is_test to.2 = false) l2 -> exec_all s1 l2 = Ret s2 ->
  exists c, c_desp c = d /\ (c_start c <= t)%Z /\ covers TAG_PARTITION c t' (an s2).
Proof.
  intros Hf Ht Hs H1 Hfi Hd Hl2 H2. pose proof (exec_all_shown l1 s1 Hf H1) as Hsh. unfold shown in Hsh.
  rewrite Hfi, Hd in Hsh. destruct Hsh as [_ (c & Hc & Hcd)%fmap_Some].
  exists c. split; [by rewrite Hcd|]. split.
  - exact (exec_all_opened_by t l1 (mkState mkAnnotation None) s1 Ht Hs eq_refl H1 _ _ Hc).
  - eapply exec_all_covers; [exact Hl2|exact H2|by left].
Qed.

Lemma fault_timeline_witness : exists s2,
  exec_all (mkState mkAnnotation None) demo_run = Ret s2 /\
  exists c, c_desp c = "partition = [0 1] / crash = [2]" /\ covers TAG_PARTITION c 3 (an s2).
Proof.
  destruct (exec_all (mkState mkAnnotation None) (take 2 demo_run)) as [s1| |] eqn:E1; [|by vm_compute in E1|by vm_compute in E1].
  destruct (exec_all s1 (drop 2 demo_run)) as [s2| |] eqn:E2;
    [|vm_compute in E1; injection E1 as <-; by vm_compute in E2|vm_compute in E1; injection E1 as <-; by vm_compute in E2].
  exists s2. split.
  { rewrite <- (take_drop 2 demo_run). unfold exec_all in *. rewrite foldo_app, E1. exact E2. }
  destruct (fault_timeline (take 2 demo_run) 2 (drop 2 demo_run) 3 s1 s2 "partition = [0 1] / crash = [2]"
    (mkFinfo 3 [true; true; true] [false; false; true] (0%Z, ""))) as (c & Hc & _ & H).
  - by repeat constructor.
  - by repeat constructor.
  - by repeat constructor.
  - exact E1.
  - vm_compute in E1. by injection E1 as <-.
  - by vm_compute.
  - by repeat constructor.
  - exact E2.
  - by exists c.
Defined.

(** ** The end of a test *)

(** when [cleanup] hands a timeline to the visualiser, the annotations had
    not been finalized; the timeline has every annotation made, every open
    annotation closed at that moment, and the end mark last; the annotations
    are marked finalized, so that no later [cleanup] of the same test hands
    over a second timeline, and the next one empties them. *)
Theorem cleanup_once t t' order enabled failed msg a a1 v :
  cleanup t t' order enabled failed msg a = (a1, Some v) -> order ≡ₚ map_to_list (continuous a) ->
  finalized a = false /\ finalized a1 = true /\
  (forall x, x ∈ annotations a -> x ∈ v) /\
  (forall tag c, continuous a !! tag = Some c -> concretize tag t c ∈ v) /\
  last v = Some (mkAnn TAG_INFO t' 0 msg msg COLOR_INFO) /\
  (forall t2 t2' order2 enabled2 failed2 msg2, cleanup t2 t2' order2 enabled2 failed2 msg2 a1 = (mkAnnotation, None)).
Proof.
  unfold cleanup. intros H Ho. destruct (bool_decide (enabled = "never") || _ || finalized a) eqn:Hc; [done|].
  apply orb_false_iff in Hc as [_ Hfin]. cbn [finalize] in H.
  destruct (annotations a ++ _) as [|y l] eqn:Hl; [done|]. rewrite <- Hl in H. injection H as <- <-.
  split_and!; [done|done| | |by rewrite last_snoc|].
  - intros x Hx. apply elem_of_app. left. apply elem_of_app. by left.
  - intros tag c Hcont. apply elem_of_app. left. apply elem_of_app. right.
    apply list_elem_of_fmap. exists (tag, c). split; [done|]. rewrite Ho. by apply elem_of_map_to_list.
  - intros. cbn [finalized]. by rewrite orb_true_r.
Qed.

Lemma cleanup_once_witness :
  let a := annotateContinuousColor 2 "x" "d" "d" COLOR_USER (annotatePointColor 1 "y" "p" "p" COLOR_USER mkAnnotation) in
  exists a1 v, cleanup 5 6 (map_to_list (continuous a)) "always" false "test passed" a = (a1, Some v) /\
    mkAnn "x" 2 5 "d" "d" COLOR_USER ∈ v /\ finalized a1 = true.
Proof.
  intros a. destruct (cleanup 5 6 (map_to_list (continuous a)) "always" false "test passed" a) as [a1 [v|]] eqn:E;
    [|by vm_compute in E].
  destruct (cleanup_once _ _ _ _ _ _ _ _ _ E (reflexivity _)) as (_ & Hf & _ & Hc & _).
  exists a1, v. split_and!; [done| |done]. exact (Hc "x" (mkCont 2 "d" "d" COLOR_USER) ltac:(by vm_compute)).
Defined.

(** ** Where the timeline is wrong *)

(** Clearing the failures of a test that has none adds a nameless annotation
    that starts at time 0. *)
Lemma ClearFailure_without_fault t s fi :
  finfo s = Some fi -> shown s -> fault_desc fi = None ->
  exists s', AnnotateClearFailure t s = Ret s' /\ annotations (an s') = annotations (an s) ++ [mkAnn TAG_PARTITION 0 t "" "" ""].
Proof.
  intros Hfi Hs Hn. unfold shown in Hs. rewrite Hfi, Hn in Hs. destruct Hs as [_ Hs].
  unfold AnnotateClearFailure, with_finfo. rewrite Hfi. eexists. split; [done|]. cbn.
  destruct (continuous (an s) !! TAG_PARTITION); [done|]. done.
Qed.

(** The begin of a check is never reset: a second result is drawn as an interval
    from the same begin. *)
Lemma CheckerEnd_keeps_begin s t0 t1 t2 b d1 d2 c1 c2 fi :
  finfo s = Some fi -> t0 <> 0%Z ->
  exists s', exec_all s [(t0, OCheckerBegin b); (t1, OCheckerEnd d1 d1 c1); (t2, OCheckerEnd d2 d2 c2)] = Ret s' /\
    annotations (an s') = annotations (an s) ++
      [mkAnn TAG_CHECKER t0 t1 d1 (b +:+ ": " +:+ d1) c1; mkAnn TAG_CHECKER t0 t2 d2 (b +:+ ": " +:+ d2) c2].
Proof.
  intros Hfi Ht. eexists. split.
  - unfold exec_all. cbn. unfold AnnotateCheckerBegin, AnnotateCheckerEnd. cbn.
    unfold with_finfo. rewrite Hfi. cbn. rewrite (proj2 (Z.eqb_neq t0 0) Ht). cbn.
    rewrite (proj2 (Z.eqb_neq t0 0) Ht). reflexivity.
  - cbn. by rewrite <- app_assoc.
Qed.

End Annotation.
