(* ===== verification/RaftTest.v ===== *)
(** * RaftTest: the Raft tester's checks

    [src/src/raft1/test.go], [src/src/raft1/server.go] and the tester proxy of
    [proxy.go].  Each Raft server process feeds the commands its Raft applies to
    the tester ([applier], [applierSnap]), which keeps a copy of every server's
    committed entries and compares them ([CheckLogs], [nCommitted]).  Commands
    ([any]) are a type with decidable equality and a nil; [show] is [%v].
    Whether an RPC to the tester gets through is an argument. *)

From S2P Require Import Prelude.
From stdpp Require Import base gmap list strings pretty.
From Stdlib Require Import ZArith Lia.
From stdpp Require Import list.

Module RaftTest.

(** What the tester's checks use of a command. *)
Class Command (V : Type) := {
  cmd_dec :: EqDecision V;
  cmd_nil : V;
  cmd_show : V -> string }.

(** Encoding and decoding a snapshot with labgob: the index and the log. *)
Class SnapCodec (V : Type) := {
  enc_snap : Z -> list V -> string;
  dec_snap : string -> option (Z * list V);
  dec_enc_snap : forall i l, dec_snap (enc_snap i l) = Some (i, l);
  enc_nonempty : forall i l, String.length (enc_snap i l) <> 0 }.

Section Tester.
Context {V : Type} `{!Command V}.

(** [raftapi.ApplyMsg]; the snapshot's term is not read. *)
Record ApplyMsg := mkMsg {
  CommandValid : bool;
  Command_ : V;
  CommandIndex : Z;
  SnapshotValid : bool;
  Snapshot : option string;
  SnapshotIndex : Z }.

(** ** The tester's state *)

Record raftServer := mkRaftServer { applyErr : string; logs : gmap Z V }.
Definition newRaftServer : raftServer := mkRaftServer "" ∅.

Record test := mkTest { srvs : list raftServer; maxIndex : Z }.
Definition makeTest (n : nat) : test := mkTest (replicate n newRaftServer) 0.

Definition entry (rs : raftServer) (i : Z) : option V := logs rs !! i.

Definition mismatch (i : nat) (m : ApplyMsg) (j : nat) (old : V) : string :=
  "commit index=" +:+ pretty (CommandIndex m) +:+ " server=" +:+ itoa i +:+ " " +:+ cmd_show (Command_ m) +:+
  " != server=" +:+ itoa j +:+ " " +:+ cmd_show old.

(** The loop of [CheckLogs]: the last conflict found is the one reported. *)
Fixpoint conflicts (i : nat) (m : ApplyMsg) (j : nat) (l : list raftServer) (err : string) : string :=
  match l with
  | [] => err
  | rs :: l =>
      conflicts i m (S j) l
        (match entry rs (CommandIndex m) with
         | Some old => if decide (old = Command_ m) then err else mismatch i m j old
         | None => err
         end)
  end.

Definition CheckLogs (i : nat) (m : ApplyMsg) (ts : test) : outcome (test * (string * bool)) :=
  me ← idx (srvs ts) i;
  let err := conflicts i m 0 (srvs ts) "" in
  let prevok := bool_decide (is_Some (entry me (CommandIndex m - 1))) in
  let me := mkRaftServer (applyErr me) (<[CommandIndex m := Command_ m]> (logs me)) in
  Ret (mkTest (<[i := me]> (srvs ts)) (if (maxIndex ts <? CommandIndex m)%Z then CommandIndex m else maxIndex ts),
       (err, prevok)).

Definition IngestLog (i : nat) (xlog : gmap Z V) (ts : test) : outcome test :=
  me ← idx (srvs ts) i;
  Ret (mkTest (<[i := mkRaftServer (applyErr me) xlog]> (srvs ts)) (maxIndex ts)).

Definition ApplyErr (i : nat) (err : string) (ts : test) : outcome test :=
  me ← idx (srvs ts) i;
  Ret (mkTest (<[i := mkRaftServer err (logs me)]> (srvs ts)) (maxIndex ts)).

(** [nCommitted]: how many servers have the entry, and its value. *)
Definition nCommitted (ts : test) (index : Z) : outcome (nat * option V) :=
  foldo (fun (r : nat * option V) rs =>
    if decide (applyErr rs = "") then
      match entry rs index with
      | Some cmd1 =>
          if (0 <? r.1) && bool_decide (r.2 <> Some cmd1) then Fatal "committed values do not match"
          else Ret (S r.1, Some cmd1)
      | None => Ret r
      end
    else Fatal (applyErr rs)) (0, None) (srvs ts).

Definition checkNoAgreement (ts : test) (index : Z) : outcome unit :=
  r ← nCommitted ts index;
  if 0 <? r.1 then Fatal "committed but no majority" else Ret tt.

(** ** Leaders and terms *)

(** What a connected server answers to [GetState]; [None]: not connected. *)
Definition answers : Type := list (option (Z * bool)).

(** [checkOneLeader]'s map from terms to the servers leading in them. *)
Definition add_leader (m : gmap Z (list nat)) (x : nat * option (Z * bool)) : gmap Z (list nat) :=
  match x.2 with
  | Some (term, true) => <[term := default [] (m !! term) ++ [x.1]]> m
  | _ => m
  end.
Definition leaders (a : answers) : gmap Z (list nat) := foldl add_leader ∅ (imap pair a).

(** One iteration of [checkOneLeader]; [order] is the order the map is ranged
    over in. [None]: no leader, try again. *)
Definition checkOneLeader_iter (order : list (Z * list nat)) (a : answers) : outcome (option nat) :=
  last ← foldo (fun (last : Z) (x : Z * list nat) =>
      if 1 <? length x.2 then Fatal "term has more than one leader"
      else Ret (if (last <? x.1)%Z then x.1 else last)) (-1)%Z order;
  if bool_decide (leaders a = ∅) then Ret None
  else l ← idx (default [] (leaders a !! last)) 0; Ret (Some l).

Fixpoint checkOneLeader (iters : list (list (Z * list nat) * answers)) : outcome nat :=
  match iters with
  | [] => Fatal "expected one leader, got none"
  | (order, a) :: iters =>
      r ← checkOneLeader_iter order a;
      match r with Some l => Ret l | None => checkOneLeader iters end
  end.

Definition checkTerms (a : answers) : outcome Z :=
  foldo (fun (term : Z) (x : option (Z * bool)) =>
    match x with
    | None => Ret term
    | Some (xterm, _) =>
        if (term =? -1)%Z then Ret xterm
        else if (term =? xterm)%Z then Ret term else Fatal "servers disagree on term"
    end) (-1)%Z a.

Definition checkNoLeader (a : answers) : outcome unit :=
  foldo (fun _ (x : option (Z * bool)) =>
    match x with Some (_, true) => Fatal "leader" | _ => Ret tt end) tt a.

(** [one]'s round over the servers: [start i] is the index [Start] gave on
    server [i], if it is connected, running and the leader. *)
Fixpoint try_servers (k n : nat) (start : nat -> option Z) (starts : nat) : nat * option Z :=
  match k with
  | 0 => (starts, None)
  | S k =>
      let starts := (starts + 1) mod n in
      match start starts with
      | Some index => (starts, Some index)
      | None => try_servers k n start starts
      end
  end.

(** [one]'s wait for agreement: [polls] are the tester's states at its polls. *)
Fixpoint one_wait (polls : list test) (index : Z) (cmd : V) (expectedServers : nat) : outcome bool :=
  match polls with
  | [] => Ret false
  | ts :: polls =>
      r ← nCommitted ts index;
      if (0 <? r.1) && (expectedServers <=? r.1) && bool_decide (r.2 = Some cmd) then Ret true
      else one_wait polls index cmd expectedServers
  end.

(** [one], over the rounds made before the ten seconds are over or the test is
    [finished]: what [Start] gives on each server, and the polls that follow
    if some server took the command. *)
Fixpoint one (rounds : list ((nat -> option Z) * list test)) (n : nat) (finished : bool) (cmd : V)
    (expectedServers : nat) (retry : bool) (starts : nat) : outcome Z :=
  match rounds with
  | [] => if finished then Ret (-1)%Z else Fatal "one failed to reach agreement"
  | (start, polls) :: rounds =>
      let '(starts, index) := try_servers n n start starts in
      match index with
      | Some index =>
          if (index =? -1)%Z then one rounds n finished cmd expectedServers retry starts
          else
            b ← one_wait polls index cmd expectedServers;
            if (b : bool) then Ret index
            else if retry then one rounds n finished cmd expectedServers retry starts
            else Fatal "one failed to reach agreement"
      | None => one rounds n finished cmd expectedServers retry starts
      end
  end.

(** ** The server side *)

(** [applier] on one message of server [me]; [rpc] and [rpc_err] say whether
    the CheckLogs and ApplyErr RPCs get through. *)
Definition report (me : nat) (rpc_err : bool) (err : string) (ts : test) : outcome test :=
  if decide (err = "") then Ret ts else if rpc_err then ApplyErr me err ts else Ret ts.

Definition CheckLogs_rpc (me : nat) (rpc : bool) (m : ApplyMsg) (ts : test) : outcome (test * (string * bool)) :=
  if rpc then CheckLogs me m ts else Ret (ts, ("ErrRPC", false)).

Definition out_of_order (me : nat) (i : Z) : string :=
  "server " +:+ itoa me +:+ " apply out of order " +:+ pretty i.

Definition applier (me : nat) (rpc rpc_err : bool) (m : ApplyMsg) (ts : test) : outcome test :=
  if CommandValid m then
    r ← CheckLogs_rpc me rpc m ts;
    let '(ts, (err, prevok)) := r in
    let err := if (1 <? CommandIndex m)%Z && negb prevok then out_of_order me (CommandIndex m) else err in
    report me rpc_err err ts
  else Ret ts.

(** ** Servers with snapshots *)

Definition SnapShotInterval : Z := 10.

Record rfsrv := mkRfsrv { lastApplied : Z; log : gmap Z V }.

Definition unexpected_index (me : nat) (want got : Z) : string :=
  "server " +:+ itoa me +:+ " apply out of order, expected index " +:+ pretty want +:+ ", got " +:+ pretty got.

Context `{!SnapCodec V}.

Definition log_of (xlog : list V) : gmap Z V := map_seqZ 0 xlog.

(** [ingestSnap]: the new server state and the error string. *)
Definition ingestSnap (me : nat) (snapshot : option string) (index : Z) (rs : rfsrv) : rfsrv * string :=
  match snapshot with
  | None => (rs, "nil snapshot")
  | Some sn =>
      match dec_snap sn with
      | None => (rs, "failed to decode snapshot")
      | Some (lastIncludedIndex, xlog) =>
          if negb (index =? -1)%Z && negb (index =? lastIncludedIndex)%Z
          then (rs, "server " +:+ itoa me +:+ " snapshot doesn't match m.SnapshotIndex")
          else (mkRfsrv lastIncludedIndex (log_of xlog), "")
      end
  end.

(** The entries [0 .. i] of the log, nil where it has none. *)
Definition log_upto (i : Z) (l : gmap Z V) : list V :=
  (fun j => default cmd_nil (l !! Z.of_nat j)) <$> seq 0 (Z.to_nat (i + 1)).

(** [applierSnap] on one message: the server's new state, the snapshot it
    gives its Raft if any, and the tester's state. *)
Definition applierSnap (me : nat) (rpc rpc_err : bool) (m : ApplyMsg) (rs : rfsrv) (ts : test)
    : outcome (rfsrv * option (Z * string) * test) :=
  if SnapshotValid m then
    let '(rs, err) := ingestSnap me (Snapshot m) (SnapshotIndex m) rs in
    ts ← (if rpc then IngestLog me (log rs) ts else Ret ts);
    ts ← report me rpc_err err ts;
    Ret (rs, None, ts)
  else if CommandValid m then
    r ← (if decide (CommandIndex m = lastApplied rs + 1)%Z then
           r ← CheckLogs_rpc me rpc m ts;
           let '(ts, (err, prevok)) := r in
           Ret (ts, if bool_decide (err <> "ErrRPC") && (1 <? CommandIndex m)%Z && negb prevok
                    then out_of_order me (CommandIndex m) else err)
         else Ret (ts, unexpected_index me (lastApplied rs + 1) (CommandIndex m)));
    let rs := mkRfsrv (CommandIndex m) (<[CommandIndex m := Command_ m]> (log rs)) in
    let snap := if ((CommandIndex m + 1) mod SnapShotInterval =? 0)%Z
                then Some (CommandIndex m, enc_snap (CommandIndex m) (log_upto (CommandIndex m) (log rs))) else None in
    ts ← report me rpc_err r.2 r.1;
    Ret (rs, snap, ts)
  else Ret (rs, None, ts).

(** [newRfsrv]'s start from the persister's snapshot; a snapshot it cannot
    use ends the process. *)
Definition newRfsrv (me : nat) (rpc rpc_err : bool) (sn : option string) (ts : test) : outcome (rfsrv * test) :=
  if bool_decide (String.length (default "" sn) = 0) then Ret (mkRfsrv 0 ∅, ts)
  else
    let '(rs, err) := ingestSnap me sn (-1) (mkRfsrv 0 ∅) in
    if decide (err = "") then ts ← (if rpc then IngestLog me (log rs) ts else Ret ts); Ret (rs, ts)
    else Fatal "ingestSnap err".
End Tester.
Arguments ApplyMsg : clear implicits.
Arguments test : clear implicits.
Arguments rfsrv : clear implicits.
Arguments raftServer : clear implicits.

(** Strings as commands. *)
#[export] Instance string_command : Command string := { cmd_nil := ""; cmd_show := fun s => s }.

(** ** The conflict check *)

Section Checks.
Context {V : Type} `{!Command V}.
Implicit Types (ts : test V) (rs : raftServer V) (m : ApplyMsg V).

Lemma conflicts_err i m j l err : err <> "" -> conflicts i m j l err <> "".
Proof.
  revert j err. induction l as [|rs l IH]; intros j err He; [done|]. cbn. apply IH.
  destruct (entry rs _) as [old|]; [|done]. by case_decide.
Qed.

Lemma conflicts_none i m j l :
  conflicts i m j l "" = "" <-> Forall (fun rs => forall old, entry rs (CommandIndex m) = Some old -> old = Command_ m) l.
Proof.
  revert j. induction l as [|rs l IH]; intros j; [done|]. cbn. rewrite Forall_cons.
  destruct (entry rs (CommandIndex m)) as [old|] eqn:He.
  - case_decide as Ho.
    + rewrite IH. split; [|by intros [_ ?]]. intros H. split; [|done]. by intros ? [= <-].
    + split; [|intros [H _]; by destruct Ho; apply H].
      intros H. exfalso. revert H. by apply conflicts_err.
  - rewrite IH. split; [|by intros [_ ?]]. intros H. split; [|done]. done.
Qed.

Definition no_errors ts : Prop := Forall (fun rs => applyErr rs = "") (srvs ts).

Definition log_at ts (i : nat) (k : Z) : option V := rs ← srvs ts !! i; logs rs !! k.

Lemma log_at_insert ts i me e k v mi j k' :
  srvs ts !! i = Some me ->
  log_at (mkTest (<[i := mkRaftServer e (<[k := v]> (logs me))]> (srvs ts)) mi) j k' =
  if decide (j = i /\ k' = k) then Some v else log_at ts j k'.
Proof.
  intros Hi. unfold log_at. cbn. destruct (decide (j = i)) as [->|Hj].
  - rewrite list_lookup_insert_eq by (by eapply lookup_lt_Some). rewrite Hi. cbn.
    destruct (decide (k' = k)) as [->|Hk]; [rewrite lookup_insert_eq, decide_True; done|].
    rewrite lookup_insert_ne, decide_False by naive_solver. done.
  - rewrite list_lookup_insert_ne by done. by rewrite decide_False by naive_solver.
Qed.

Lemma no_errors_insert ts i me rs mi :
  srvs ts !! i = Some me -> applyErr rs = applyErr me ->
  no_errors (mkTest (<[i := rs]> (srvs ts)) mi) <-> no_errors ts.
Proof.
  intros Hi He. unfold no_errors. rewrite !Forall_lookup. cbn. split; intros H j x Hx.
  - destruct (decide (j = i)) as [->|Hj].
    + assert (x = me) as -> by congruence. rewrite <- He. apply (H i).
      apply list_lookup_insert_eq. by eapply lookup_lt_Some.
    + apply (H j). by rewrite list_lookup_insert_ne.
  - apply list_lookup_insert_Some in Hx as [(_ & <- & _)|[_ Hx]]; [|by apply (H j)].
    rewrite He. by apply (H i).
Qed.

(** What the tester does with an entry and what it answers. *)
Lemma CheckLogs_spec i m ts :
  i < length (srvs ts) ->
  exists ts' err prevok, CheckLogs i m ts = Ret (ts', (err, prevok)) /\ length (srvs ts') = length (srvs ts) /\
    (forall j k, log_at ts' j k = if decide (j = i /\ k = CommandIndex m) then Some (Command_ m) else log_at ts j k) /\
    (no_errors ts' <-> no_errors ts) /\
    (err = "" <-> forall j old, log_at ts j (CommandIndex m) = Some old -> old = Command_ m) /\
    (prevok = true <-> is_Some (log_at ts i (CommandIndex m - 1))).
Proof.
  intros [me Hi]%lookup_lt_is_Some. unfold CheckLogs. rewrite (idx_Some _ _ _ Hi). cbn [mbind outcome_bind].
  do 3 eexists. split; [reflexivity|]. split; [cbn; apply length_insert|]. split; [intros j k; by apply log_at_insert|].
  split; [by eapply no_errors_insert|]. split.
  - rewrite conflicts_none, Forall_lookup. unfold log_at. split.
    + intros H j old (rs & Hj & Ho)%bind_Some. by apply (H j rs).
    + intros H j rs Hj old Ho. apply (H j). by rewrite Hj.
  - rewrite bool_decide_eq_true. unfold log_at. by rewrite Hi.
Qed.

Lemma ApplyErr_spec i err ts :
  i < length (srvs ts) -> err <> "" ->
  exists ts', ApplyErr i err ts = Ret ts' /\ length (srvs ts') = length (srvs ts) /\
    (forall j k, log_at ts' j k = log_at ts j k) /\ ~ no_errors ts'.
Proof.
  intros Hl He. destruct (lookup_lt_is_Some_2 _ _ Hl) as [me Hi]. unfold ApplyErr. rewrite (idx_Some _ _ _ Hi). cbn [mbind outcome_bind].
  eexists. split; [reflexivity|]. split; [cbn; apply length_insert|]. split.
  - intros j k. unfold log_at. cbn. destruct (decide (j = i)) as [->|Hj]; [by rewrite list_lookup_insert_eq, Hi by done|].
    by rewrite list_lookup_insert_ne.
  - unfold no_errors. rewrite Forall_lookup. intros H. apply He. apply (H i (mkRaftServer err (logs me))). cbn.
    by apply list_lookup_insert_eq.
Qed.

(** What one applied message does, all RPCs getting through. *)
Lemma applier_spec i m ts :
  i < length (srvs ts) -> CommandValid m = true ->
  exists ts', applier i true true m ts = Ret ts' /\ length (srvs ts') = length (srvs ts) /\
    (forall j k, log_at ts' j k = if decide (j = i /\ k = CommandIndex m) then Some (Command_ m) else log_at ts j k) /\
    (no_errors ts' <-> no_errors ts /\
      (forall j old, log_at ts j (CommandIndex m) = Some old -> old = Command_ m) /\
      ((1 < CommandIndex m)%Z -> is_Some (log_at ts i (CommandIndex m - 1)))).
Proof.
  intros Hi Hv. unfold applier. rewrite Hv. destruct (CheckLogs_spec i m ts Hi) as (ts1 & err & prevok & E & Hl1 & Hlog & Hne & Herr & Hprev).
  unfold CheckLogs_rpc. rewrite E. cbn [mbind outcome_bind]. set (err' := if _ && _ then _ else _).
  assert (Herr' : err' = "" <-> (forall j old, log_at ts j (CommandIndex m) = Some old -> old = Command_ m) /\
      ((1 < CommandIndex m)%Z -> is_Some (log_at ts i (CommandIndex m - 1)))).
  { unfold err'. rewrite <-Herr, <-Hprev. destruct (Z.ltb_spec 1 (CommandIndex m)), prevok; cbn [andb negb];
      (split; [intros Hx; split; [done|intros; done || lia]|]); try by intros [? _]. intros [_ Hx]. by discriminate Hx. }
  unfold report. case_decide as He.
  - exists ts1. split; [done|]. split; [done|]. split; [done|]. rewrite Hne. tauto.
  - destruct (ApplyErr_spec i err' ts1 ltac:(lia) He) as (ts2 & -> & Hl2 & Hlog2 & Hn2). exists ts2. split; [done|].
    split; [congruence|]. split; [intros j k; by rewrite Hlog2|]. tauto.
Qed.
End Checks.

(** ** What the checks of a whole test decide *)

Section Streams.
Context {V : Type} `{!Command V}.
Implicit Types (ts : test V) (m : ApplyMsg V) (l : list (nat * ApplyMsg V)).

(** The messages the servers apply, in the order they reach the tester. *)
Definition apply_all ts l : outcome (test V) := foldo (fun ts im => applier im.1 true true im.2 ts) ts l.

(** No two servers (or twice the same) apply different commands at an index. *)
Definition same_commands l : Prop :=
  forall i m j m', (i, m) ∈ l -> (j, m') ∈ l -> CommandValid m = true -> CommandValid m' = true ->
    CommandIndex m = CommandIndex m' -> Command_ m = Command_ m'.

(** A server applies an index above 1 only after the one before. *)
Definition in_order l : Prop :=
  forall l1 i m l2, l = l1 ++ (i, m) :: l2 -> CommandValid m = true -> (1 < CommandIndex m)%Z ->
    exists m', (i, m') ∈ l1 /\ CommandValid m' = true /\ CommandIndex m' = (CommandIndex m - 1)%Z.

Lemma elem_of_snoc {A} (x y : A) (l : list A) : x ∈ l ++ [y] <-> x ∈ l \/ x = y.
Proof. by rewrite elem_of_app, list_elem_of_singleton. Qed.

Lemma same_commands_snoc l i m : CommandValid m = true ->
  same_commands (l ++ [(i, m)]) <-> same_commands l /\
    (forall j m', (j, m') ∈ l -> CommandValid m' = true -> CommandIndex m' = CommandIndex m -> Command_ m' = Command_ m).
Proof.
  intros Hv. unfold same_commands. setoid_rewrite elem_of_snoc. split.
  - intros H. split; [intros a ma b mb Ha Hb; apply (H a ma b mb); by left|].
    intros j m' Hj Hv' Hi. apply (H j m' i m); [by left|by right|done..].
  - intros [H1 H2] a ma b mb [Ha|[= -> ->]] [Hb|[= -> ->]] Hva Hvb Hab; [by eapply H1|by eapply H2| |done].
    symmetry. by eapply H2.
Qed.

Lemma in_order_snoc l i m : CommandValid m = true ->
  in_order (l ++ [(i, m)]) <-> in_order l /\ ((1 < CommandIndex m)%Z ->
    exists m', (i, m') ∈ l /\ CommandValid m' = true /\ CommandIndex m' = (CommandIndex m - 1)%Z).
Proof.
  intros Hv. split.
  - intros H. split.
    + intros l1 j mj l2 ->. apply (H l1 j mj (l2 ++ [(i, m)])). by rewrite <- app_assoc.
    + intros Hi. apply (H l i m []); done.
  - intros [H1 H2] l1 j mj l2 Hl. destruct l2 as [|x l2 _] using rev_ind.
    + apply app_inj_tail in Hl as [-> [= -> ->]]. intros _ Hi. by apply H2.
    + rewrite app_comm_cons, app_assoc in Hl. apply app_inj_tail in Hl as [-> _]. by eapply H1.
Qed.

Lemma invalid_snoc l i m : CommandValid m = false ->
  (same_commands (l ++ [(i, m)]) <-> same_commands l) /\ (in_order (l ++ [(i, m)]) <-> in_order l).
Proof.
  intros Hv. unfold same_commands, in_order. setoid_rewrite elem_of_snoc. split; split; intros H.
  - intros a ma b mb Ha Hb. apply (H a ma b mb); by left.
  - intros a ma b mb [Ha|[= -> ->]] [Hb|[= -> ->]]; [by eapply H|congruence..].
  - intros l1 j mj l2 ->. apply (H l1 j mj (l2 ++ [(i, m)])). by rewrite <- app_assoc.
  - intros l1 j mj l2 Hl. destruct l2 as [|x l2 _] using rev_ind.
    + apply app_inj_tail in Hl as [-> [= -> ->]]. congruence.
    + rewrite app_comm_cons, app_assoc in Hl. apply app_inj_tail in Hl as [-> _]. by eapply H.
Qed.

(** The tester's logs are those of the messages. *)
Definition logs_of n l ts : Prop :=
  length (srvs ts) = n /\
  (forall i k v, log_at ts i k = Some v -> exists m, (i, m) ∈ l /\ CommandValid m = true /\ CommandIndex m = k /\ Command_ m = v) /\
  (forall i m, (i, m) ∈ l -> CommandValid m = true -> is_Some (log_at ts i (CommandIndex m))).

Lemma apply_all_spec n l :
  Forall (fun im => im.1 < n) l ->
  exists ts, apply_all (makeTest n) l = Ret ts /\ logs_of n l ts /\ (no_errors ts <-> same_commands l /\ in_order l).
Proof.
  induction l as [|[i m] l IH] using rev_ind; intros Hn.
  { exists (makeTest n). split; [done|]. split; [split; [cbn; apply length_replicate|split]|].
    - intros i k v (rs & [-> _]%lookup_replicate & Hk)%bind_Some. cbn in Hk. by rewrite lookup_empty in Hk.
    - intros i m Hi. inversion Hi.
    - split; [|intros _; unfold no_errors; cbn; apply Forall_forall; by intros rs [-> _]%elem_of_replicate].
      intros _. split; [intros a ma b mb Ha; inversion Ha|intros [|] ? ? ? ?; done]. }
  apply Forall_app in Hn as [Hl Hi]. apply Forall_cons_1 in Hi as [Hi _]. cbn [fst] in Hi.
  destruct (IH Hl) as (ts & E & (Hlen & Hsrc & Hall) & Hne).
  unfold apply_all in *. rewrite foldo_app, E. cbn [mbind outcome_bind foldo fst snd].
  destruct (CommandValid m) eqn:Hv.
  - destruct (applier_spec i m ts ltac:(lia) Hv) as (ts' & -> & Hlen' & Hlog & Hne').
    exists ts'. split; [done|]. split; [split; [congruence|split]|].
    + intros j k v. rewrite Hlog. case_decide as Hd.
      * destruct Hd as [-> ->]. intros [= <-]. exists m. rewrite elem_of_snoc. auto.
      * intros (m' & H & ?)%Hsrc. exists m'. rewrite elem_of_snoc. auto.
    + intros j m' [H|[= -> ->]]%elem_of_snoc Hv'; rewrite Hlog; case_decide; try done; [by apply Hall|naive_solver].
    + rewrite same_commands_snoc, in_order_snoc, Hne', Hne by done.
      assert (same_commands l -> (forall j old, log_at ts j (CommandIndex m) = Some old -> old = Command_ m) <->
        (forall j m', (j, m') ∈ l -> CommandValid m' = true -> CommandIndex m' = CommandIndex m -> Command_ m' = Command_ m)) as Hcf.
      { intros Hsame. split.
        - intros H j m' Hj Hv' Hk. destruct (Hall j m' Hj Hv') as [v Hlv]. rewrite Hk in Hlv.
          rewrite <- (H j v Hlv). destruct (Hsrc _ _ _ Hlv) as (m2 & Hm2 & Hv2 & Hk2 & <-).
          apply (Hsame j m' j m2); congruence || done.
        - intros H j old Ho. destruct (Hsrc _ _ _ Ho) as (m2 & Hm2 & Hv2 & Hk2 & <-). by apply (H j). }
      assert (is_Some (log_at ts i (CommandIndex m - 1)) <->
        exists m', (i, m') ∈ l /\ CommandValid m' = true /\ CommandIndex m' = (CommandIndex m - 1)%Z) as Hpr.
      { split.
        - intros [v Hvv]. destruct (Hsrc _ _ _ Hvv) as (m2 & ? & ? & ? & _). by exists m2.
        - intros (m' & H1 & H2 & <-). by apply Hall. }
      rewrite Hpr. tauto.
  - unfold applier. rewrite Hv. exists ts. split; [done|]. destruct (invalid_snoc l i m Hv) as [-> ->].
    split; [|done]. split; [done|]. split.
    + intros j k v (m' & H & ?)%Hsrc. exists m'. rewrite elem_of_snoc. auto.
    + intros j m' [H|[= -> ->]]%elem_of_snoc Hv'; [by apply Hall|congruence].
Qed.

(** without snapshots, and with the servers' RPCs to the tester getting
    through, the tester ends a run with no apply error exactly when no two
    applied messages disagree on the command at an index and every server
    applied each index above 1 after the one before it: the checks neither
    miss a violation of the state machine safety property nor report a false
    one. *)
Theorem tester_detects_exactly n l ts :
  Forall (fun im => im.1 < n) l -> apply_all (makeTest n) l = Ret ts ->
  (Forall (fun rs => applyErr rs = "") (srvs ts) <-> same_commands l /\ in_order l).
Proof. intros Hn E. destruct (apply_all_spec n l Hn) as (ts' & E' & _ & H). rewrite E in E'. by injection E' as <-. Qed.
End Streams.


Definition cmd_msg (i : Z) (c : string) : ApplyMsg string := mkMsg true c i false None 0.
Definition demo_stream : list (nat * ApplyMsg string) :=
  [(0, cmd_msg 1 "a"); (1, cmd_msg 1 "a"); (1, cmd_msg 2 "b"); (0, cmd_msg 2 "b")].

Lemma tester_detects_exactly_witness :
  (exists ts, apply_all (makeTest 2) demo_stream = Ret ts /\ same_commands demo_stream /\ in_order demo_stream) /\
  (exists ts, apply_all (makeTest 2) (demo_stream ++ [(0, cmd_msg 4 "d")]) = Ret ts /\
     ~ (same_commands (demo_stream ++ [(0, cmd_msg 4 "d")]) /\ in_order (demo_stream ++ [(0, cmd_msg 4 "d")]))).
Proof.
  split.
  - destruct (apply_all (makeTest 2) demo_stream) as [ts| |] eqn:E; [|by vm_compute in E|by vm_compute in E].
    exists ts. split; [done|]. apply (tester_detects_exactly 2 demo_stream ts); [|exact E|].
    + repeat constructor.
    + vm_compute in E. injection E as <-. by repeat constructor.
  - destruct (apply_all (makeTest 2) (demo_stream ++ [(0, cmd_msg 4 "d")])) as [ts| |] eqn:E; [|by vm_compute in E|by vm_compute in E].
    exists ts. split; [done|]. intros H. apply (tester_detects_exactly 2 _ ts) in H; [|repeat constructor|exact E].
    vm_compute in E. injection E as <-. apply Forall_cons_1 in H as [H _]. by vm_compute in H.
Defined.

(** ** Committed entries, leaders *)

Section Queries.
Context {V : Type} `{!Command V}.

Lemma nCommitted_ok (ts : test V) index :
  match nCommitted ts index with
  | Ret (n, cmd) =>
      Forall (fun rs => applyErr rs = "") (srvs ts) /\
      n = length (filter (fun rs => is_Some (entry rs index)) (srvs ts)) /\
      (forall rs v, rs ∈ srvs ts -> entry rs index = Some v -> cmd = Some v)
  | Fatal _ =>
      (exists rs, rs ∈ srvs ts /\ applyErr rs <> "") \/
      (exists rs rs' v w, rs ∈ srvs ts /\ rs' ∈ srvs ts /\ entry rs index = Some v /\ entry rs' index = Some w /\ v <> w)
  | Panic _ => False
  end.
Proof.
  unfold nCommitted. induction (srvs ts) as [|rs l IH] using rev_ind; [by split_and!; [constructor|done|intros ? ? H; inversion H]|].
  rewrite foldo_app. destruct (foldo _ (0, None) l) as [[n cmd]|e|e]; [|done|].
  2:{ cbn [mbind outcome_bind]. destruct IH as [(rs' & H & He)|(r1 & r2 & v & w & H1 & H2 & ?)].
      - left. exists rs'. rewrite elem_of_snoc. auto.
      - right. exists r1, r2, v, w. rewrite !elem_of_snoc. tauto. }
  destruct IH as (Hall & Hn & Hc). cbn [mbind outcome_bind foldo fst snd].
  case_decide as He; [|left; exists rs; rewrite elem_of_snoc; auto].
  assert (Forall (fun rs => applyErr rs = "") (l ++ [rs])) as Hall' by (apply Forall_app; split; [done|by constructor]).
  rewrite filter_app, length_app, <- Hn, filter_cons.
  destruct (entry rs index) as [v|] eqn:Hv.
  - assert (0 < n -> exists rs' w, rs' ∈ l /\ entry rs' index = Some w) as Hex.
    { rewrite Hn. intros Hpos. destruct (filter (fun rs => is_Some (entry rs index)) l) as [|r0 l0] eqn:Hf; [cbn in Hpos; lia|].
      assert (r0 ∈ filter (fun rs => is_Some (entry rs index)) l) as [[w Hw] Hin]%list_elem_of_filter
        by (rewrite Hf; apply list_elem_of_here). eauto. }
    destruct ((0 <? n) && bool_decide (cmd <> Some v)) eqn:Hb; cbn [mbind outcome_bind].
    + apply andb_true_iff in Hb as [Hpos%Nat.ltb_lt Hne%bool_decide_eq_true_1].
      destruct (Hex Hpos) as (rs' & w & Hin & Hw). right. exists rs, rs', v, w. rewrite !elem_of_snoc.
      rewrite (Hc _ _ Hin Hw) in Hne. split_and!; auto. congruence.
    + split; [done|]. rewrite decide_True by done. cbn. split; [lia|].
      intros rs' w [Hin| ->]%elem_of_snoc Hw; [|congruence].
      apply andb_false_iff in Hb as [Hz%Nat.ltb_ge|Heq%bool_decide_eq_false_1].
      * exfalso. assert (rs' ∈ filter (fun rs => is_Some (entry rs index)) l) as H by (apply list_elem_of_filter; eauto).
        destruct (filter (fun rs => is_Some (entry rs index)) l); [inversion H|cbn in Hn; lia].
      * rewrite <- (Hc _ _ Hin Hw). destruct (decide (cmd = Some v)); [done|tauto].
  - cbn [mbind outcome_bind]. split; [done|]. rewrite decide_False by (by intros [? ?]). cbn. split; [lia|].
    intros rs' w [Hin| ->]%elem_of_snoc Hw; [by eapply Hc|congruence].
Qed.

(** [nCommitted] returns exactly when no server has an apply error and no
    two servers have different entries at the index; it then returns the
    number of servers that have the entry, and their common command. *)
Theorem nCommitted_spec (ts : test V) index :
  match nCommitted ts index with
  | Ret (n, cmd) =>
      Forall (fun rs => applyErr rs = "") (srvs ts) /\
      n = length (filter (fun rs => is_Some (entry rs index)) (srvs ts)) /\
      (forall rs v, rs ∈ srvs ts -> entry rs index = Some v -> cmd = Some v)
  | Fatal _ =>
      (exists rs, rs ∈ srvs ts /\ applyErr rs <> "") \/
      (exists rs rs' v w, rs ∈ srvs ts /\ rs' ∈ srvs ts /\ entry rs index = Some v /\ entry rs' index = Some w /\ v <> w)
  | Panic _ => False
  end.
Proof. apply nCommitted_ok. Qed.

Lemma one_wait_true polls index cmd (expected : nat) :
  one_wait polls index cmd expected = Ret true ->
  exists ts, ts ∈ polls /\ no_errors ts /\
    expected <= length (filter (fun rs => entry rs index = Some cmd) (srvs ts)) /\
    forall rs v, rs ∈ srvs ts -> entry rs index = Some v -> v = cmd.
Proof.
  induction polls as [|ts polls IH]; [done|]. cbn [one_wait]. pose proof (nCommitted_ok ts index) as Hn.
  destruct (nCommitted ts index) as [[k c]| |]; [|done..]. cbn [mbind outcome_bind fst snd].
  destruct Hn as (Hall & Hk & Hc).
  destruct ((0 <? k) && (expected <=? k) && bool_decide (c = Some cmd)) eqn:Hb.
  - intros _. apply andb_true_iff in Hb as [[_ He%Nat.leb_le]%andb_true_iff ->%bool_decide_eq_true_1].
    exists ts. split; [apply list_elem_of_here|]. split; [done|].
    assert (forall rs v, rs ∈ srvs ts -> entry rs index = Some v -> v = cmd) as Hv.
    { intros rs v Hrs Hv. pose proof (Hc rs v Hrs Hv). congruence. }
    split; [|done]. rewrite Hk in He. etrans; [exact He|]. apply Nat.eq_le_incl. clear -Hv.
    induction (srvs ts) as [|rs l IH]; [done|]. rewrite !filter_cons.
    assert (length (filter (fun rs => is_Some (entry rs index)) l) = length (filter (fun rs => entry rs index = Some cmd) l)) as IH'.
    { apply IH. intros rs' v Hrs. apply Hv. by apply list_elem_of_further. }
    destruct (entry rs index) as [v|] eqn:E.
    + pose proof (Hv rs v (list_elem_of_here _ _) E) as ->. rewrite !decide_True by done. cbn. by rewrite IH'.
    + rewrite !decide_False by (try done; by intros [? ?]). done.
  - intros H. destruct (IH H) as (ts' & Hin & ?). exists ts'. split; [by apply list_elem_of_further|done].
Qed.

(** C39: when [one] returns an index (other than giving up because the test is
    over), then at one of its polls no server had an apply error, at least
    the expected number of servers had the command at that index, and no
    server had another command there. *)
Theorem one_reaches_agreement rounds n finished cmd (expected : nat) retry starts index :
  one rounds n finished cmd expected retry starts = Ret index -> index <> (-1)%Z ->
  exists start polls ts, (start, polls) ∈ rounds /\ ts ∈ polls /\ no_errors ts /\
    expected <= length (filter (fun rs => entry rs index = Some cmd) (srvs ts)) /\
    forall rs v, rs ∈ srvs ts -> entry rs index = Some v -> v = cmd.
Proof.
  revert starts. induction rounds as [|[start polls] rounds IH]; intros starts; cbn.
  { destruct finished; [|done]. by intros [= <-]. }
  destruct (try_servers n n start starts) as [starts' [index'|]]; [destruct (Z.eqb_spec index' (-1)) as [->|Hi]|].
  2:{ destruct (one_wait polls index' cmd expected) as [[]| |] eqn:E; [| |done..]; cbn [mbind outcome_bind].
      - intros [= ->] _. destruct (one_wait_true _ _ _ _ E) as (ts & Hts & H).
        exists start, polls, ts. split; [apply list_elem_of_here|]. by split.
      - destruct retry; [|done]. intros H1 H2. destruct (IH _ H1 H2) as (s0 & p0 & ts & Hin & H).
        exists s0, p0, ts. split; [by apply list_elem_of_further|done]. }
  all: intros H1 H2; destruct (IH _ H1 H2) as (s0 & p0 & ts & Hin & H);
    exists s0, p0, ts; split; [by apply list_elem_of_further|done].
Qed.

(** Server [i] is connected and says it leads in term [t]. *)
Definition leads (a : answers) (t : Z) (i : nat) : Prop := a !! i = Some (Some (t, true)).

Lemma leads_snoc a x t i : leads (a ++ [x]) t i <-> leads a t i \/ (i = length a /\ x = Some (t, true)).
Proof.
  unfold leads. rewrite lookup_snoc_Some. split; [|intros [H|[-> ->]]; [left|by right]].
  - intros [[? ?]|[-> ?]]; [by left|by right].
  - split; [by eapply lookup_lt_Some|done].
Qed.

Lemma leaders_spec a t :
  (forall i, i ∈ default [] (leaders a !! t) <-> leads a t i) /\ NoDup (default [] (leaders a !! t)) /\ leaders a !! t <> Some [].
Proof.
  unfold leaders. induction a as [|x a IH] using rev_ind.
  { cbn. rewrite lookup_empty. split_and!; [|constructor|done]. intros i. split; intros H; inversion H. }
  assert (foldl add_leader ∅ (imap pair (a ++ [x])) = add_leader (foldl add_leader ∅ (imap pair a)) (length a, x)) as ->.
  { rewrite imap_app, foldl_app. cbn. by rewrite Nat.add_0_r. }
  set (m := foldl add_leader ∅ (imap pair a)) in *. destruct IH as (Hin & Hnd & Hne).
  unfold add_leader. cbn [fst snd]. destruct x as [[t' []]|];
    [|by split_and!; [intros i; rewrite leads_snoc, Hin; naive_solver|..]..].
  destruct (decide (t' = t)) as [->|Ht].
  - rewrite lookup_insert_eq. cbn. split_and!.
    + intros i. rewrite elem_of_app, list_elem_of_singleton, Hin, leads_snoc. naive_solver.
    + apply NoDup_app. split_and!; [done| |apply NoDup_singleton].
      intros i Hi%Hin. rewrite list_elem_of_singleton. apply lookup_lt_Some in Hi. lia.
    + intros [= H]. by destruct (default [] (m !! t)).
  - rewrite lookup_insert_ne by done. split_and!; [|done..]. intros i. rewrite leads_snoc, Hin. naive_solver.
Qed.

(** The loop over the map: the highest term, unless some term has two. *)
Lemma term_loop order last :
  match foldo (fun (last : Z) (x : Z * list nat) =>
      if 1 <? length x.2 then Fatal "term has more than one leader"
      else Ret (if (last <? x.1)%Z then x.1 else last)) last order with
  | Ret z => Forall (fun x => length x.2 <= 1) order /\ (last <= z)%Z /\ Forall (fun x => (x.1 <= z)%Z) order /\
      (z = last \/ z ∈ order.*1)
  | Fatal _ => Exists (fun x => 1 < length x.2) order
  | Panic _ => False
  end.
Proof.
  revert last. induction order as [|[t l] order IH]; intros last; cbn [foldo fst snd].
  { split_and!; [constructor|done|constructor|by left]. }
  destruct (Nat.ltb_spec 1 (length l)) as [Hl|Hl]; [by apply Exists_cons_hd|]. cbn [mbind outcome_bind].
  specialize (IH (if (last <? t)%Z then t else last)). destruct (foldo _ _ order) as [z|e|e]; [|done|by apply Exists_cons_tl].
  destruct IH as (H1 & H2 & H3 & H4). rewrite fmap_cons, elem_of_cons. cbn [fst].
  destruct (Z.ltb_spec last t); split_and!; try (by constructor); try (constructor; [cbn; lia|done]); try lia; tauto.
Qed.

(** an iteration of [checkOneLeader], in whatever order the map is ranged
    over: it fails the test exactly when two connected servers lead in the
    same term, finds nobody when no connected server leads, and otherwise
    returns the only server that leads in the highest term with a leader. *)
Theorem checkOneLeader_iter_spec (a : answers) order :
  order ≡ₚ map_to_list (leaders a) -> (forall i t b, a !! i = Some (Some (t, b)) -> (0 <= t)%Z) ->
  match checkOneLeader_iter order a with
  | Ret None => forall t i, ~ leads a t i
  | Ret (Some i) =>
      (forall t j k, leads a t j -> leads a t k -> j = k) /\
      exists t, leads a t i /\ forall t' j, leads a t' j -> (t' <= t)%Z
  | Fatal _ => exists t i j, leads a t i /\ leads a t j /\ i <> j
  | Panic _ => False
  end.
Proof.
  intros Ho Hpos. unfold checkOneLeader_iter.
  assert (forall t l, (t, l) ∈ order <-> leaders a !! t = Some l) as Hord
    by (intros t l; rewrite Ho; apply elem_of_map_to_list).
  assert (forall t i, leads a t i -> exists l, (t, l) ∈ order /\ i ∈ l) as Hlead.
  { intros t i Hi. apply leaders_spec in Hi. destruct (leaders a !! t) as [l|] eqn:Hl; [|inversion Hi].
    exists l. by rewrite Hord. }
  assert (forall t l, (t, l) ∈ order -> NoDup l /\ l <> [] /\ forall i, i ∈ l <-> leads a t i) as Hof.
  { intros t l Hl%Hord. destruct (leaders_spec a t) as (H1 & H2 & H3). rewrite Hl in *. cbn in *.
    split_and!; [done|congruence|done]. }
  pose proof (term_loop order (-1)) as Hloop. destruct (foldo _ (-1)%Z order) as [z|e|e]; [|done|].
  - destruct Hloop as (Hone & _ & Hmax & Hz). rewrite Forall_forall in Hone, Hmax. cbn [mbind outcome_bind].
    assert (forall t j k, leads a t j -> leads a t k -> j = k) as Huniq.
    { intros t j k (l & Hl & Hj)%Hlead Hk. apply (Hof t l Hl) in Hk. pose proof (Hone _ Hl) as Hle. cbn in Hle.
      destruct l as [|x [|y l]]; [inversion Hj| |cbn in Hle; lia].
      apply list_elem_of_singleton in Hj, Hk. congruence. }
    case_bool_decide as He.
    + cbn. intros t i Hi. destruct (Hlead t i Hi) as (l & Hl%Hord & _). by rewrite He, lookup_empty in Hl.
    + assert (exists l, (z, l) ∈ order) as [l Hl].
      { destruct Hz as [->|([t l] & -> & Hin)%list_elem_of_fmap]; [|by exists l]. exfalso.
        apply map_choose in He as (t & l & Hl%Hord). pose proof (Hmax _ Hl) as Hle. cbn in Hle.
        destruct (Hof t l Hl) as (_ & Hne & Hin). destruct l as [|i l]; [done|].
        pose proof (proj1 (Hin i) (list_elem_of_here _ _)) as Hi. apply Hpos in Hi. lia. }
      pose proof (proj1 (Hord z l) Hl) as Hz'. rewrite Hz'. cbn [default].
      destruct (Hof z l Hl) as (_ & Hne & Hin). destruct l as [|i l]; [done|]. cbn.
      split; [done|]. exists z. split; [apply Hin, list_elem_of_here|].
      intros t' j (l' & Hl' & _)%Hlead. exact (Hmax _ Hl').
  - apply Exists_exists in Hloop as ([t l] & Hin & Hlen). cbn in Hlen.
    destruct (Hof t l Hin) as (Hnd & _ & Hl). destruct l as [|i [|j l]]; [cbn in Hlen; lia..|].
    exists t, i, j. split_and!; [apply Hl, list_elem_of_here|apply Hl, list_elem_of_further, list_elem_of_here|].
    apply NoDup_cons in Hnd as [Hni _]. intros ->. apply Hni, list_elem_of_here.
Qed.
End Queries.

Lemma checkOneLeader_iter_spec_witness :
  checkOneLeader_iter (map_to_list (leaders [Some (3%Z, true); None; Some (4%Z, true)])) [Some (3%Z, true); None; Some (4%Z, true)]
    = Ret (Some 2) /\ leads [Some (3%Z, true); None; Some (4%Z, true)] 4 2.
Proof.
  set (a := [Some (3%Z, true); None; Some (4%Z, true)]).
  pose proof (checkOneLeader_iter_spec a (map_to_list (leaders a)) (reflexivity _)) as H.
  assert (checkOneLeader_iter (map_to_list (leaders a)) a = Ret (Some 2)) as E by by vm_compute.
  rewrite E in H. split; [done|]. destruct H as [_ (t & Ht & Hm)].
  - intros [|[|[|i]]] t b [= <- <-]; lia.
  - exact eq_refl.
Defined.

Lemma one_reaches_agreement_witness :
  let ts := mkTest [mkRaftServer "" {[ 1%Z := "a" ]}; mkRaftServer "" ∅; mkRaftServer "" {[ 1%Z := "a" ]}] 1 in
  one [((fun i => if i =? 2 then Some 1%Z else None), [makeTest 3; ts])] 3 false "a" 2 false 0 = Ret 1%Z /\
  2 <= length (filter (fun rs => entry rs 1 = Some "a") (srvs ts)).
Proof.
  intros ts. assert (one [((fun i => if i =? 2 then Some 1%Z else None), [makeTest 3; ts])] 3 false "a" 2 false 0 = Ret 1%Z) as E
    by by vm_compute.
  split; [exact E|].
  destruct (one_reaches_agreement _ _ _ _ _ _ _ _ E ltac:(done)) as (start & polls & ts' & Hin & Hts & _ & Hn & _).
  apply list_elem_of_singleton in Hin as [= -> ->].
  apply elem_of_cons in Hts as [->|Hts]; [vm_compute in Hn; lia|].
  apply list_elem_of_singleton in Hts as ->. exact Hn.
Defined.

(** Trying the servers in turn misses none. *)
Lemma try_servers_complete n start starts i index :
  starts < n -> i < n -> start i = Some index -> is_Some (try_servers n n start starts).2.
Proof.
  intros Hs Hi Hidx.
  assert (forall k s, s < n -> (exists d, d < k /\ start ((s + 1 + d) mod n) <> None) -> is_Some (try_servers k n start s).2) as H.
  { induction k as [|k IH]; intros s Hsn (d & Hd & Hst); [lia|]. cbn.
    destruct (start ((s + 1) mod n)) eqn:E; [done|]. apply IH; [apply Nat.mod_upper_bound; lia|].
    destruct d as [|d]; [by rewrite Nat.add_0_r in Hst|]. exists d. split; [lia|].
    rewrite <- Nat.add_assoc, Nat.Div0.add_mod_idemp_l. by replace (s + 1 + (1 + d)) with (s + 1 + S d) by lia. }
  apply H; [done|]. exists ((i + n - (starts + 1) mod n) mod n). split; [apply Nat.mod_upper_bound; lia|].
  assert (((starts + 1 + (i + n - (starts + 1) mod n) mod n)) mod n = i) as ->; [|by rewrite Hidx].
  pose proof (Nat.mod_upper_bound (starts + 1) n ltac:(lia)).
  rewrite Nat.Div0.add_mod_idemp_r, <- Nat.Div0.add_mod_idemp_l.
  replace ((starts + 1) mod n + (i + n - (starts + 1) mod n)) with (i + 1 * n) by lia.
  rewrite Nat.Div0.mod_add. by apply Nat.mod_small.
Qed.

(** ** Snapshots *)

Section Snapshots.
Context {V : Type} `{!Command V} `{!SnapCodec V}.
Implicit Types (ts : test V) (rs : rfsrv V) (m : ApplyMsg V).

Lemma log_of_upto i (l : gmap Z V) k :
  log_of (log_upto i l) !! k = if decide (0 <= k <= i)%Z then Some (default cmd_nil (l !! k)) else None.
Proof.
  unfold log_of, log_upto. case_decide as Hk.
  - rewrite lookup_map_seqZ_0 by lia. rewrite list_lookup_fmap, lookup_seq_lt by lia. cbn. by rewrite Z2Nat.id by lia.
  - apply lookup_map_seqZ_None. rewrite length_fmap, length_seq. lia.
Qed.

(** the snapshot a server hands to its Raft after applying an index, given
    back to it at a restart, restores the index as the last applied one and
    the log up to it (nil where it had no entry): the tester receives that
    log, and the server accepts the next index as in order. *)
Theorem snapshot_restart me rpc rpc_err m rs ts rs' i sn ts' :
  applierSnap me rpc rpc_err m rs ts = Ret (rs', Some (i, sn), ts') -> me < length (srvs ts') ->
  SnapshotValid m = false ->
  exists rs2 ts2, newRfsrv me true rpc_err (Some sn) ts' = Ret (rs2, ts2) /\
    lastApplied rs2 = CommandIndex m /\ lastApplied rs' = CommandIndex m /\
    (forall k, (0 <= k <= CommandIndex m)%Z -> log rs2 !! k = Some (default cmd_nil (log rs' !! k))) /\
    (forall k, log_at ts2 me k = log rs2 !! k).
Proof.
  intros H Hme Hsv. unfold applierSnap in H. rewrite Hsv in H. destruct (CommandValid m); [|done].
  destruct (if decide _ then _ else _) as [[ts1 err]| |] in H; [|done..]. cbn [mbind outcome_bind fst snd] in H.
  destruct (report me rpc_err err ts1) as [ts3| |]; [|done..]. cbn [mbind outcome_bind] in H.
  destruct (_ =? 0)%Z; [|done]. injection H as <- <- <- <-. cbn [lastApplied log CommandIndex].
  set (l := <[CommandIndex m := Command_ m]> (log rs)).
  destruct (lookup_lt_is_Some_2 (srvs ts3) me Hme) as [s Hs].
  unfold newRfsrv. cbn [default]. rewrite bool_decide_false by apply enc_nonempty.
  unfold ingestSnap. rewrite dec_enc_snap, Z.eqb_refl. cbn [negb andb]. rewrite decide_True by done.
  unfold IngestLog. rewrite (idx_Some _ _ _ Hs). cbn [mbind outcome_bind].
  eexists _, _. split; [done|]. cbn [lastApplied log]. split_and!; [done|done| |].
  - intros k Hk. rewrite log_of_upto. by rewrite decide_True.
  - intros k. unfold log_at. cbn. rewrite list_lookup_insert_eq by done. done.
Qed.
End Snapshots.

(** A codec for string commands. *)
#[export] Program Instance string_snap : SnapCodec string := {
  enc_snap := fun i l => "s" +:+ (pos_bits (encode (i, l)));
  dec_snap := fun s => match s with String _ s => p ← bits_pos s; decode p | EmptyString => None end }.
Next Obligation.
  intros i l. change ((p ← bits_pos (pos_bits (encode (i, l))); decode p) = Some (i, l)).
  rewrite bits_pos_bits. apply decode_encode.
Qed.
Next Obligation. done. Qed.

Lemma snapshot_restart_witness : exists rs' sn ts',
  applierSnap 0 true true (cmd_msg 9 "x") (mkRfsrv 8 ∅) (makeTest 1) = Ret (rs', Some (9%Z, sn), ts') /\
  exists rs2 ts2, newRfsrv 0 true true (Some sn) ts' = Ret (rs2, ts2) /\ lastApplied rs2 = 9%Z.
Proof.
  destruct (applierSnap 0 true true (cmd_msg 9 "x") (mkRfsrv 8 ∅) (makeTest 1)) as [[[rs' [[i sn]|]] ts']| |] eqn:E;
    [|by vm_compute in E..].
  assert (i = 9%Z) as -> by (vm_compute in E; congruence).
  assert (length (srvs ts') = 1) as Hl by (vm_compute in E; by injection E as <- <- <-).
  destruct (snapshot_restart 0 true true (cmd_msg 9 "x") (mkRfsrv 8 ∅) (makeTest 1) rs' 9 sn ts' E) as (rs2 & ts2 & H & Hla & _);
    [lia|done|].
  exists rs', sn, ts'. split; [done|]. by exists rs2, ts2.
Defined.

End RaftTest.
