(* ===== verification/ShardCfg.v ===== *)
(** * ShardCfg: shard configurations and their balancing

    [src/src/shardkv1/shardcfg/shardcfg.go].  A configuration assigns the
    [NShards] shards to replica groups.  [Shards] is the array (a list of
    length [NShards], see [wf]), [Groups] the map from group to servers.  Go
    iterates over a map in an unspecified order: where the code ranges over a
    map, the definition takes the order as a list, and the theorems hold for
    every order. *)

From S2P Require Import Prelude.
From stdpp Require Import base gmap list strings sorting.
From Stdlib Require Import ZArith Lia.

Module ShardCfg.
Definition NShards : nat := 12.
Definition NumFirst : Z := 1.
Definition Gid1 : Z := 1.

Record ShardConfig := mkConfig {
  Num : Z;
  Shards : list Z;
  Groups : gmap Z (list string) }.

#[export] Instance ShardConfig_eq_dec : EqDecision ShardConfig.
Proof. solve_decision. Defined.

Definition Key2Shard (key : string) : nat :=
  Z.to_nat (fnv32a key mod Z.of_nat NShards)%Z.

Definition MakeShardConfig : ShardConfig := mkConfig 0 (replicate NShards 0%Z) ∅.

(** [Copy] rebuilds the map entry by entry, in the order of [order]. *)
Definition Copy (order : list (Z * list string)) (cfg : ShardConfig) : ShardConfig :=
  let c := MakeShardConfig in
  mkConfig (Num cfg) (Shards cfg)
    (foldl (fun (m : gmap Z (list string)) kv => <[kv.1 := kv.2]> m) (Groups c) order).

(** The [counts] map of [analyze] and [CheckConfig]; a missing key reads 0. *)
Definition shard_counts (shards : list Z) : gmap Z nat :=
  foldl (fun (m : gmap Z nat) g => <[g := default 0 (m !! g) + 1]> m) ∅ shards.

Definition count_at (counts : gmap Z nat) (g : Z) : Z := Z.of_nat (default 0 (counts !! g)).

Definition sorted_gids (c : ShardConfig) : list Z :=
  merge_sort Z.le ((map_to_list (Groups c)).*1).

(** mostgroup, mostn, leastgroup, leastn *)
Record analysis := mkAnalysis { mg : Z; mn : Z; lg : Z; ln : Z }.

Definition analyze_step (counts : gmap Z nat) (a : analysis) (g : Z) : analysis :=
  let a := if (count_at counts g <? ln a)%Z
           then mkAnalysis (mg a) (mn a) g (count_at counts g) else a in
  if (mn a <? count_at counts g)%Z
  then mkAnalysis g (count_at counts g) (lg a) (ln a) else a.

Definition analyze (c : ShardConfig) : analysis :=
  foldl (analyze_step (shard_counts (Shards c))) (mkAnalysis (-1) (-1) (-1) 257) (sorted_gids c).

Definition least (c : ShardConfig) : Z := lg (analyze c).

Definition set_Shards (c : ShardConfig) (l : list Z) : ShardConfig :=
  mkConfig (Num c) l (Groups c).

(** The loop assigning unassigned shards: [range c.Shards] iterates over a
    copy of the array, and reads each shard once. *)
Definition assign_shard (c : ShardConfig) (sg : nat * Z) : ShardConfig :=
  match Groups c !! sg.2 with
  | None => set_Shards c (<[sg.1 := least c]> (Shards c))
  | Some _ => c
  end.

Definition assign_unassigned (c : ShardConfig) : ShardConfig :=
  foldl assign_shard c (imap (fun i g => (i, g)) (Shards c)).

(** Move the first shard of [mg] to [lg]. *)
Definition move_one (c : ShardConfig) (mg lg : Z) : ShardConfig :=
  match list_find (fun g => g = mg) (Shards c) with
  | Some (s, _) => set_Shards c (<[s := lg]> (Shards c))
  | None => c
  end.

(** The [for] loop of [Rebalance]; [None] when the fuel runs out. *)
Fixpoint balance_loop (fuel : nat) (c : ShardConfig) : option ShardConfig :=
  match fuel with
  | 0 => None
  | S fuel =>
      let a := analyze c in
      if (mn a <? ln a + 2)%Z then Some c
      else balance_loop fuel (move_one c (mg a) (lg a))
  end.

(** [NShards * NShards + 1] iterations always suffice (see
    [Rebalance_balances]). *)
Definition balance_fuel : nat := NShards * NShards + 1.

Definition Rebalance (c : ShardConfig) : option ShardConfig :=
  if size (Groups c) <? 1 then Some (set_Shards c (const 0%Z <$> Shards c))
  else balance_loop balance_fuel (assign_unassigned c).

(** [s1 == s2] for a server of [servers] and one of the configuration. *)
Definition server_clash (cfg : ShardConfig) (servers : list string) : bool :=
  existsb (fun xkv => existsb (fun s1 => existsb (fun s2 => bool_decide (s1 = s2)) servers) xkv.2)
    (map_to_list (Groups cfg)).

(** [order]: the entries of the argument map, in iteration order.  A return
    of [false] leaves the groups already added in the configuration. *)
Fixpoint Join_loop (order : list (Z * list string)) (cfg : ShardConfig) (changed : bool)
    : outcome (bool * ShardConfig) :=
  match order with
  | [] => if changed then Ret (true, mkConfig (Num cfg + 1) (Shards cfg) (Groups cfg))
          else Fatal "Join but no change"
  | (gid, servers) :: rest =>
      match Groups cfg !! gid with
      | Some _ => Ret (false, cfg)
      | None =>
          if server_clash cfg servers then Fatal "Join puts server in two groups"
          else Join_loop rest (mkConfig (Num cfg) (Shards cfg) (<[gid := servers]> (Groups cfg))) true
      end
  end.

Definition Join (order : list (Z * list string)) (cfg : ShardConfig) : outcome (bool * ShardConfig) :=
  Join_loop order cfg false.

Fixpoint Leave_loop (gids : list Z) (cfg : ShardConfig) (changed : bool)
    : outcome (bool * ShardConfig) :=
  match gids with
  | [] => if changed then Ret (true, mkConfig (Num cfg + 1) (Shards cfg) (Groups cfg))
          else Fatal "Leave but no change"
  | gid :: rest =>
      match Groups cfg !! gid with
      | None => Ret (false, cfg)
      | Some _ => Leave_loop rest (mkConfig (Num cfg) (Shards cfg) (delete gid (Groups cfg))) true
      end
  end.

Definition Leave (gids : list Z) (cfg : ShardConfig) : outcome (bool * ShardConfig) :=
  Leave_loop gids cfg false.

(** The callers' [if !cfg.Join(..) { return false }; cfg.Rebalance()]. *)
Definition then_Rebalance (o : outcome (bool * ShardConfig)) : outcome (bool * ShardConfig) :=
  r ← o;
  if (r.1 : bool) then
    match Rebalance r.2 with
    | Some c => Ret (true, c)
    | None => Panic "Rebalance does not return"
    end
  else Ret (false, r.2).

Definition JoinBalance (order : list (Z * list string)) (cfg : ShardConfig) :=
  then_Rebalance (Join order cfg).

Definition LeaveBalance (gids : list Z) (cfg : ShardConfig) :=
  then_Rebalance (Leave gids cfg).

(** Indexing the array panics out of range. *)
Definition GidServers (cfg : ShardConfig) (sh : nat) : outcome (Z * list string * bool) :=
  match Shards cfg !! sh with
  | None => Panic "index out of range"
  | Some gid =>
      match Groups cfg !! gid with
      | Some srvs => Ret (gid, srvs, true)
      | None => Ret (gid, [], false)
      end
  end.

Definition IsMember (cfg : ShardConfig) (gid : Z) : bool :=
  existsb (fun g => (g =? gid)%Z) (Shards cfg).

(** The last loop of [CheckConfig], over the groups in [order]. *)
Definition min_max_step (counts : gmap Z nat) (mm : Z * Z) (g : Z) : Z * Z :=
  let max := if (mm.2 <? count_at counts g)%Z then count_at counts g else mm.2 in
  let min := if (count_at counts g <? mm.1)%Z then count_at counts g else mm.1 in
  (min, max).

Definition CheckConfig (order : list Z) (cfg : ShardConfig) (groups : list Z) : outcome unit :=
  if negb (size (Groups cfg) =? length groups) then Fatal "wanted groups"
  else if existsb (fun g => bool_decide (Groups cfg !! g = None)) groups then Fatal "missing group"
  else if (0 <? length groups) &&
          existsb (fun g => bool_decide (Groups cfg !! g = None)) (Shards cfg)
  then Fatal "shard -> invalid group"
  else
    let '(min, max) := foldl (min_max_step (shard_counts (Shards cfg))) (257, 0)%Z order in
    if (min + 1 <? max)%Z then Fatal "max too much larger than min" else Ret tt.

(** ** Specification *)

(** Number of shards of group [g]. *)
Definition load (shards : list Z) (g : Z) : nat := lcount (fun x => x = g) shards.

(** Every shard is in a group of the configuration. *)
Definition assigned (c : ShardConfig) : Prop :=
  forall g, g ∈ Shards c -> is_Some (Groups c !! g).

(** Loads of two groups differ by at most one. *)
Definition balanced (c : ShardConfig) : Prop :=
  forall g1 g2, is_Some (Groups c !! g1) -> is_Some (Groups c !! g2) ->
    load (Shards c) g1 <= load (Shards c) g2 + 1.

(** No server serves two groups. *)
Definition disjoint_servers (G : gmap Z (list string)) : Prop :=
  forall g1 g2 s1 s2 x, G !! g1 = Some s1 -> G !! g2 = Some s2 -> x ∈ s1 -> x ∈ s2 -> g1 = g2.

Definition wf (c : ShardConfig) : Prop := length (Shards c) = NShards.

Lemma load_cons x l g : load (x :: l) g = (if decide (x = g) then 1 else 0) + load l g.
Proof. unfold load. by rewrite lcount_cons. Qed.

Lemma load_insert l i x y g :
  l !! i = Some x ->
  load (<[i:=y]> l) g + (if decide (x = g) then 1 else 0) =
  load l g + (if decide (y = g) then 1 else 0).
Proof. intros Hi. exact (lcount_insert (fun x => x = g) l i x y Hi). Qed.

Lemma load_pos l g : 0 < load l g -> g ∈ l.
Proof.
  intros (i & x & Hi & ->)%lcount_pos. by eapply list_elem_of_lookup_2.
Qed.

Lemma load_elem l g : g ∈ l -> 0 < load l g.
Proof. induction 1; rewrite load_cons; [rewrite decide_True by done|]; lia. Qed.

Lemma shard_counts_from l (m : gmap Z nat) g :
  default 0 (foldl (fun (m : gmap Z nat) g => <[g := default 0 (m !! g) + 1]> m) m l !! g) =
  default 0 (m !! g) + load l g.
Proof.
  revert m. induction l as [|x l IH]; intros m; simpl.
  - unfold load. rewrite lcount_nil. lia.
  - rewrite IH, load_cons. case_decide as Hx.
    + subst. rewrite lookup_insert_eq. simpl. lia.
    + by rewrite lookup_insert_ne.
Qed.

Lemma shard_counts_load l g : count_at (shard_counts l) g = Z.of_nat (load l g).
Proof. unfold count_at, shard_counts. rewrite shard_counts_from, lookup_empty. done. Qed.

Lemma elem_of_sorted_gids c g : g ∈ sorted_gids c <-> is_Some (Groups c !! g).
Proof.
  unfold sorted_gids. rewrite merge_sort_Permutation.
  rewrite list_elem_of_fmap. split.
  - intros ([g' v] & -> & H%elem_of_map_to_list). eauto.
  - intros [v H]. exists (g, v). by rewrite elem_of_map_to_list.
Qed.

Lemma NoDup_sorted_gids c : NoDup (sorted_gids c).
Proof.
  unfold sorted_gids. rewrite merge_sort_Permutation. apply NoDup_fst_map_to_list.
Qed.

(** [analyze] finds a group of maximal load and one of minimal load. *)
Definition analysis_of (l : list Z) (gs : list Z) (a : analysis) : Prop :=
  (forall g, g ∈ gs -> (ln a <= Z.of_nat (load l g) <= mn a)%Z) /\
  (gs <> [] -> mg a ∈ gs /\ lg a ∈ gs /\
    mn a = Z.of_nat (load l (mg a)) /\ ln a = Z.of_nat (load l (lg a))) /\
  (gs = [] -> a = mkAnalysis (-1) (-1) (-1) 257).

Lemma analyze_fold l gs :
  length l < 257 ->
  analysis_of l gs (foldl (analyze_step (shard_counts l)) (mkAnalysis (-1) (-1) (-1) 257) gs).
Proof.
  intros Hl. induction gs as [|g gs IH] using rev_ind.
  { simpl. split_and!; [set_solver|done|done]. }
  rewrite foldl_app. simpl. destruct IH as (Hb & Hne & Hnil).
  set (a := foldl _ _ gs) in *. unfold analyze_step. rewrite shard_counts_load.
  assert (Hlt : load l g < 257) by (pose proof (lcount_le_length (fun x => x = g) l); unfold load; lia).
  assert (Hempty : gs = [] \/ gs <> []) by (destruct gs; auto).
  destruct Hempty as [-> | Hgs].
  - rewrite (Hnil eq_refl). simpl.
    destruct (Z.ltb_spec (Z.of_nat (load l g)) 257); [|lia]. simpl.
    destruct (Z.ltb_spec (-1) (Z.of_nat (load l g))); [|lia]. simpl.
    split_and!; [|set_solver|done].
    intros g' ->%list_elem_of_singleton. simpl. lia.
  - destruct (Hne Hgs) as (Hm & Hn & Em & En).
    pose proof (Hb _ Hm) as B1. pose proof (Hb _ Hn) as B2.
    destruct (Z.ltb_spec (Z.of_nat (load l g)) (ln a)); simpl;
    destruct (Z.ltb_spec (mn a) (Z.of_nat (load l g))); simpl;
    (split_and!; [|set_solver|by intros Happ; destruct gs]);
    intros g' [Hg' | ->%list_elem_of_singleton]%elem_of_app; simpl;
    try (pose proof (Hb _ Hg')); lia.
Qed.

Lemma analyze_spec c :
  length (Shards c) < 257 -> analysis_of (Shards c) (sorted_gids c) (analyze c).
Proof. apply analyze_fold. Qed.

Lemma sorted_gids_nonempty c : 1 <= size (Groups c) -> sorted_gids c <> [].
Proof.
  intros Hs Hnil. assert (Groups c = ∅) as He.
  { apply map_empty. intros g. destruct (Groups c !! g) eqn:Hg; [|done].
    assert (g ∈ sorted_gids c) as Hin by (apply elem_of_sorted_gids; eauto).
    rewrite Hnil in Hin. set_solver. }
  rewrite He, map_size_empty in Hs. lia.
Qed.

(** ** Termination: the sum of squared loads decreases with each move *)

Definition potential (l gs : list Z) : nat := sum_list ((fun g => load l g * load l g) <$> gs).

Lemma sum_fmap_cons {A} (f : A -> nat) x l :
  sum_list (f <$> x :: l) = f x + sum_list (f <$> l).
Proof. done. Qed.

Lemma sum_fmap_le {A} (f g : A -> nat) l :
  (forall x, x ∈ l -> f x <= g x) -> sum_list (f <$> l) <= sum_list (g <$> l).
Proof.
  induction l as [|x l IH]; intros H; [done|]. rewrite !sum_fmap_cons.
  assert (f x <= g x) by (apply H; set_solver).
  assert (sum_list (f <$> l) <= sum_list (g <$> l)) by (apply IH; set_solver). lia.
Qed.

Lemma sum_load_le gs l : NoDup gs -> sum_list (load l <$> gs) <= length l.
Proof.
  intros Hnd. induction l as [|x l IH].
  { induction gs; [done|]. rewrite sum_fmap_cons. apply NoDup_cons in Hnd as [_ Hnd]. by apply IHgs. }
  assert (sum_list (load (x :: l) <$> gs) <= 1 + sum_list (load l <$> gs)) as H; [|simpl; lia].
  clear IH. induction gs as [|g gs IH]; [simpl; lia|]. rewrite !sum_fmap_cons.
  apply NoDup_cons in Hnd as [Hg Hnd]. specialize (IH Hnd). rewrite load_cons.
  case_decide as Hx; [|lia]. subst g.
  assert (sum_list (load (x :: l) <$> gs) <= sum_list (load l <$> gs)); [|lia].
  apply sum_fmap_le. intros g' Hg'. rewrite load_cons. case_decide; [|lia]. by subst.
Qed.

Lemma potential_bound gs l : NoDup gs -> potential l gs <= length l * length l.
Proof.
  intros Hnd. transitivity (length l * sum_list (load l <$> gs)).
  - unfold potential. clear Hnd. induction gs as [|g gs IH]; [simpl; lia|]. rewrite !sum_fmap_cons.
    assert (load l g <= length l) by apply lcount_le_length. nia.
  - pose proof (sum_load_le gs l Hnd). nia.
Qed.

Lemma potential_Permutation l gs1 gs2 : gs1 ≡ₚ gs2 -> potential l gs1 = potential l gs2.
Proof. intros H. unfold potential. induction H; rewrite ?sum_fmap_cons; lia. Qed.

Lemma potential_move l gs i g1 g2 :
  NoDup gs -> g1 ∈ gs -> g2 ∈ gs -> l !! i = Some g1 -> load l g2 + 2 <= load l g1 ->
  potential (<[i:=g2]> l) gs < potential l gs.
Proof.
  intros Hnd H1 H2 Hi Hload.
  assert (g1 <> g2) as Hne by (intros ->; lia).
  apply elem_of_Permutation in H1 as [gs1 H1]. rewrite H1 in H2, Hnd.
  assert (g2 ∈ gs1) as H2' by set_solver. apply elem_of_Permutation in H2' as [gs2 H3].
  rewrite H3 in H1, Hnd.
  rewrite !(potential_Permutation _ _ _ H1). unfold potential. rewrite !sum_fmap_cons.
  assert (sum_list ((fun g => load (<[i:=g2]> l) g * load (<[i:=g2]> l) g) <$> gs2) <=
          sum_list ((fun g => load l g * load l g) <$> gs2)) as Hrest.
  { apply sum_fmap_le. intros g Hg. pose proof (load_insert l i g1 g2 g Hi) as E.
    apply NoDup_cons in Hnd as [Hn1 [Hn2 _]%NoDup_cons].
    rewrite !decide_False in E by set_solver. assert (load (<[i:=g2]> l) g = load l g) by lia. nia. }
  pose proof (load_insert l i g1 g2 g1 Hi) as E1. pose proof (load_insert l i g1 g2 g2 Hi) as E2.
  rewrite decide_True, decide_False in E1 by done.
  rewrite decide_False, decide_True in E2 by done.
  set (x := load l g1) in *. set (y := load l g2) in *.
  set (x' := load (<[i:=g2]> l) g1) in *. set (y' := load (<[i:=g2]> l) g2) in *.
  assert (x = x' + 1) by lia. assert (y' = y + 1) by lia. nia.
Qed.

(** ** Rebalancing *)

Definition same_but_shards (c c' : ShardConfig) : Prop :=
  Num c' = Num c /\ Groups c' = Groups c /\ length (Shards c') = length (Shards c).

#[export] Instance same_but_shards_preorder : PreOrder same_but_shards.
Proof.
  split; [intros x; by split_and!|].
  intros x y z (?&?&?) (?&?&?). split_and!; congruence.
Qed.

Lemma set_Shards_same c l : length l = length (Shards c) -> same_but_shards c (set_Shards c l).
Proof. intros H. by split_and!. Qed.

Lemma sorted_gids_same c c' : same_but_shards c c' -> sorted_gids c' = sorted_gids c.
Proof. intros (_ & HG & _). unfold sorted_gids. by rewrite HG. Qed.

(** A group that owns a shard and stays still owns one. *)
Definition keeps (c c' : ShardConfig) : Prop :=
  forall g, is_Some (Groups c !! g) -> g ∈ Shards c -> g ∈ Shards c'.

Lemma keeps_shards_trans c1 c2 c3 : same_but_shards c1 c2 -> keeps c1 c2 -> keeps c2 c3 -> keeps c1 c3.
Proof. intros (_ & HG & _) H1 H2 g Hg Hin. apply H2; [by rewrite HG|by apply H1]. Qed.

(** Both groups named by [analyze] exist as soon as one group does. *)
Lemma analyze_groups c :
  length (Shards c) < 257 -> 1 <= size (Groups c) ->
  is_Some (Groups c !! mg (analyze c)) /\ is_Some (Groups c !! lg (analyze c)) /\
  mn (analyze c) = Z.of_nat (load (Shards c) (mg (analyze c))) /\
  ln (analyze c) = Z.of_nat (load (Shards c) (lg (analyze c))).
Proof.
  intros Hl Hs. destruct (analyze_spec c Hl) as (_ & H & _).
  destruct (H (sorted_gids_nonempty c Hs)) as (?&?&?&?).
  by rewrite <-!elem_of_sorted_gids.
Qed.

Lemma assign_from c l1 l2 :
  Shards c = l1 ++ l2 -> length (Shards c) < 257 -> 1 <= size (Groups c) ->
  (forall g, g ∈ l1 -> is_Some (Groups c !! g)) ->
  let c' := foldl assign_shard c (imap (fun i g => (length l1 + i, g)) l2) in
  same_but_shards c c' /\ assigned c' /\ keeps c c'.
Proof.
  revert c l1. induction l2 as [|g l2 IH]; intros c l1 Hsh Hl Hs Ha; simpl.
  { split_and!; [done| |by intros g]. intros g Hg. apply Ha. rewrite Hsh, app_nil_r in Hg. done. }
  set (g' := match Groups c !! g with Some _ => g | None => least c end).
  assert (is_Some (Groups c !! g')) as Hg'.
  { unfold g'. destruct (Groups c !! g) eqn:E; [by rewrite E|]. by apply analyze_groups. }
  assert (assign_shard c (length l1 + 0, g) = set_Shards c ((l1 ++ [g']) ++ l2)) as ->.
  { unfold assign_shard, g'. simpl. destruct (Groups c !! g) eqn:E.
    - rewrite <-app_assoc; simpl. rewrite <-Hsh. by destruct c.
    - rewrite Hsh, Nat.add_0_r. f_equal. rewrite <-app_assoc; simpl.
      rewrite <-(Nat.add_0_r (length l1)), insert_app_r. done. }
  specialize (IH (set_Shards c ((l1 ++ [g']) ++ l2)) (l1 ++ [g']) eq_refl).
  assert (same_but_shards c (set_Shards c ((l1 ++ [g']) ++ l2))) as Hsame.
  { apply set_Shards_same. rewrite Hsh, !length_app. simpl. lia. }
  assert (keeps c (set_Shards c ((l1 ++ [g']) ++ l2))) as Hk.
  { intros x Hx. cbn. rewrite Hsh, !elem_of_app, elem_of_cons, list_elem_of_singleton. intros [?|[->|?]]; [by left; left| |by right].
    left; right. unfold g'. destruct Hx as [v ->]. done. }
  destruct IH as (IH1 & IH2 & IH3).
  - destruct Hsame as (_&_&->). done.
  - done.
  - simpl. intros x [Hx | ->%list_elem_of_singleton]%elem_of_app; [by apply Ha|done].
  - rewrite (imap_ext _ (fun i x => (length (l1 ++ [g']) + i, x)))
      by (intros; rewrite length_app; simpl; f_equal; lia).
    split_and!; [by etransitivity|done|by eapply keeps_shards_trans].
Qed.

Lemma assign_unassigned_spec c :
  length (Shards c) < 257 -> 1 <= size (Groups c) ->
  same_but_shards c (assign_unassigned c) /\ assigned (assign_unassigned c) /\ keeps c (assign_unassigned c).
Proof. intros Hl Hs. apply (assign_from c [] (Shards c) eq_refl Hl Hs). set_solver. Qed.

Lemma analyze_balanced c :
  length (Shards c) < 257 -> 1 <= size (Groups c) ->
  ((mn (analyze c) <? ln (analyze c) + 2)%Z = true <-> balanced c).
Proof.
  intros Hl Hs. destruct (analyze_spec c Hl) as (Hb & _).
  destruct (analyze_groups c Hl Hs) as (Hm & Hn & Em & En).
  rewrite Z.ltb_lt. split.
  - intros Hlt g1 g2 H1%elem_of_sorted_gids H2%elem_of_sorted_gids.
    apply Hb in H1, H2. lia.
  - intros Hbal. specialize (Hbal _ _ Hm Hn). lia.
Qed.

Lemma move_one_spec c :
  length (Shards c) < 257 -> 1 <= size (Groups c) -> assigned c -> ~ balanced c ->
  let c' := move_one c (mg (analyze c)) (lg (analyze c)) in
  same_but_shards c c' /\ assigned c' /\ keeps c c' /\
  potential (Shards c') (sorted_gids c') < potential (Shards c) (sorted_gids c).
Proof.
  intros Hl Hs Ha Hnb. destruct (analyze_groups c Hl Hs) as (Hm & Hn & Em & En).
  assert (load (Shards c) (lg (analyze c)) + 2 <= load (Shards c) (mg (analyze c))) as Hgap.
  { rewrite <-(analyze_balanced c Hl Hs), Z.ltb_lt in Hnb. lia. }
  unfold move_one. destruct (list_find _ _) as [[s g]|] eqn:Hf.
  - apply list_find_Some in Hf as (Hsl & -> & _). split_and!.
    + apply set_Shards_same. by rewrite length_insert.
    + intros g [-> | Hg]%elem_of_insert_inv; [done|by apply Ha].
    + intros g _ Hg. apply load_pos. cbn [Shards set_Shards]. pose proof (load_insert (Shards c) s (mg (analyze c)) (lg (analyze c)) g Hsl) as E.
      assert (0 < load (Shards c) g) by by apply load_elem.
      destruct (decide (mg (analyze c) = g)) as [<-|]; destruct (decide (lg (analyze c) = _)); lia.
    + simpl. eapply (potential_move _ _ _ (mg (analyze c))); [apply NoDup_sorted_gids| | |done|done];
        by apply elem_of_sorted_gids.
  - apply list_find_None in Hf. rewrite Forall_forall in Hf.
    destruct (Hf (mg (analyze c))); [|done]. apply load_pos. lia.
Qed.

Lemma balance_loop_ends fuel c :
  length (Shards c) < 257 -> 1 <= size (Groups c) -> assigned c ->
  potential (Shards c) (sorted_gids c) < fuel ->
  exists c', balance_loop fuel c = Some c' /\ same_but_shards c c' /\ assigned c' /\ balanced c' /\ keeps c c'.
Proof.
  revert c. induction fuel as [|fuel IH]; intros c Hl Hs Ha Hp; [lia|]. simpl.
  pose proof (analyze_balanced c Hl Hs) as Hb.
  destruct (mn (analyze c) <? ln (analyze c) + 2)%Z.
  { exists c. split_and!; [done..|by apply Hb|by intros g]. }
  destruct (move_one_spec c) as (Hsame & Ha' & Hk & Hp'); [done..|by rewrite <-Hb|].
  destruct (IH (move_one c (mg (analyze c)) (lg (analyze c)))) as (c' & ? & ? & ? & ? & ?).
  - destruct Hsame as (_&_&->). done.
  - destruct Hsame as (_&->&_). done.
  - done.
  - lia.
  - exists c'. split_and!; [done| by etransitivity |done|done|by eapply keeps_shards_trans].
Qed.

Lemma Rebalance_ends c :
  wf c -> 1 <= size (Groups c) ->
  exists c', Rebalance c = Some c' /\ same_but_shards c c' /\ assigned c' /\ balanced c' /\ keeps c c'.
Proof.
  intros Hwf Hs. unfold Rebalance. destruct (Nat.ltb_spec (size (Groups c)) 1); [lia|].
  assert (length (Shards c) < 257) as Hl by (rewrite Hwf; unfold NShards; lia).
  destruct (assign_unassigned_spec c Hl Hs) as (Hsame & Ha & Hk).
  pose proof Hsame as (HN & HG & HL).
  destruct (balance_loop_ends balance_fuel (assign_unassigned c)) as (c' & ? & ? & ? & ? & ?);
    [by rewrite HL|by rewrite HG|done| |].
  - pose proof (potential_bound (sorted_gids (assign_unassigned c)) (Shards (assign_unassigned c))
      (NoDup_sorted_gids _)) as Hp.
    rewrite HL, Hwf in Hp. unfold balance_fuel. lia.
  - exists c'. split_and!; [done| by etransitivity |done|done|by eapply keeps_shards_trans].
Qed.

Lemma assign_unassigned_stable c : assigned c -> assign_unassigned c = c.
Proof.
  intros Ha. unfold assign_unassigned.
  assert (forall l, (forall sg, sg ∈ l -> is_Some (Groups c !! sg.2)) -> foldl assign_shard c l = c) as H.
  { induction l as [|sg l IH]; intros Hl; simpl; [done|].
    destruct (Hl sg) as [v Hv]; [set_solver|]. unfold assign_shard at 2. rewrite Hv.
    apply IH. set_solver. }
  apply H. intros sg (i & g & -> & Hg)%elem_of_lookup_imap_1. apply Ha. by eapply list_elem_of_lookup_2.
Qed.

Lemma balance_loop_stable n c :
  length (Shards c) < 257 -> 1 <= size (Groups c) -> balanced c ->
  balance_loop (n + 1) c = Some c.
Proof.
  intros Hl Hs Hb. rewrite Nat.add_1_r. simpl. by rewrite (proj2 (analyze_balanced c Hl Hs) Hb).
Qed.

Lemma shards_unassigned c : size (Groups c) = 0 -> Rebalance c = Some (set_Shards c (const 0%Z <$> Shards c)).
Proof. intros H. unfold Rebalance. by rewrite H. Qed.

(** C8: [Rebalance] terminates on every configuration, keeps its number and
    its groups, and ends with each shard in a group of the configuration and
    loads that differ by at most one; without groups all shards are
    unassigned.  A configuration already assigned and balanced is left as it
    is. *)
Theorem Rebalance_balances c :
  wf c ->
  exists c', Rebalance c = Some c' /\ same_but_shards c c' /\
    (1 <= size (Groups c) -> assigned c' /\ balanced c') /\
    (size (Groups c) = 0 -> Shards c' = replicate NShards 0%Z) /\
    (1 <= size (Groups c) -> assigned c -> balanced c -> c' = c).
Proof.
  intros Hwf. destruct (decide (size (Groups c) = 0)) as [Hs|Hs].
  - exists (set_Shards c (const 0%Z <$> Shards c)). rewrite (shards_unassigned c Hs).
    split_and!; [done|by apply set_Shards_same, length_fmap|lia| |lia].
    intros _. cbn [Shards set_Shards]. rewrite <-Hwf. by apply const_fmap.
  - destruct (Rebalance_ends c) as (c' & Hr & Hsame & Ha & Hb & _); [done|lia|].
    exists c'. split_and!; [done|done|done|done|]. intros Hs' Ha' Hb'.
    unfold Rebalance in Hr. destruct (Nat.ltb_spec (size (Groups c)) 1); [lia|].
    rewrite (assign_unassigned_stable c Ha') in Hr.
    assert (length (Shards c) < 257) as Hl by (rewrite Hwf; unfold NShards; lia).
    unfold balance_fuel in Hr. rewrite (balance_loop_stable _ _ Hl Hs' Hb') in Hr. by injection Hr.
Qed.

(** ** Joining and leaving *)

Definition all_new (G : gmap Z (list string)) (order : list (Z * list string)) : Prop :=
  forall kv, kv ∈ order -> G !! kv.1 = None.

Lemma server_clash_false cfg servers :
  server_clash cfg servers = false <->
  forall g s x, Groups cfg !! g = Some s -> x ∈ s -> x ∉ servers.
Proof.
  unfold server_clash. rewrite <-not_true_iff_false, existsb_exists. split.
  - intros Hn g s x Hg Hx Hx'. apply Hn. exists (g, s). split.
    { by apply list_elem_of_In, elem_of_map_to_list. }
    apply existsb_exists. exists x. split; [by apply list_elem_of_In|].
    apply existsb_exists. exists x. split; [by apply list_elem_of_In|]. by apply bool_decide_eq_true.
  - intros H ([g s] & Hin%list_elem_of_In%elem_of_map_to_list & Hex).
    apply existsb_exists in Hex as (x & Hx%list_elem_of_In & Hex).
    apply existsb_exists in Hex as (y & Hy%list_elem_of_In & ->%bool_decide_eq_true).
    by eapply H.
Qed.

Lemma disjoint_insert G gid servers :
  G !! gid = None ->
  disjoint_servers (<[gid:=servers]> G) <->
  disjoint_servers G /\ (forall g s x, G !! g = Some s -> x ∈ s -> x ∉ servers).
Proof.
  intros Hnew. unfold disjoint_servers. setoid_rewrite lookup_insert_Some. split.
  - intros H. split.
    + intros g1 g2 s1 s2 x H1 H2. eapply H; right; split; [|done| |done]; congruence.
    + intros g s x Hg Hx Hx'. assert (gid = g); [|congruence].
      eapply (H gid g servers s x); [by left| |done|done]. right. split; [congruence|done].
  - intros [H1 H2] g1 g2 s1 s2 x [[<- <-]|[Hn1 Hg1]] [[<- <-]|[Hn2 Hg2]] Hx1 Hx2; try done.
    + by destruct (H2 _ _ _ Hg2 Hx2).
    + by destruct (H2 _ _ _ Hg1 Hx1).
    + by eapply H1.
Qed.

Lemma Join_loop_spec order cfg changed cfg' :
  disjoint_servers (Groups cfg) -> NoDup order.*1 ->
  Join_loop order cfg changed = Ret (true, cfg') <->
  (changed = true \/ order <> []) /\ all_new (Groups cfg) order /\
  disjoint_servers (list_to_map order ∪ Groups cfg) /\
  cfg' = mkConfig (Num cfg + 1) (Shards cfg) (list_to_map order ∪ Groups cfg).
Proof.
  revert cfg changed. induction order as [|[gid servers] order IH]; intros cfg changed Hd Hnd.
  - simpl. rewrite (left_id_L ∅ (∪)). destruct changed; split.
    + intros [= <-]. split_and!; [by left|intros ? ?; set_solver|done|done].
    + intros (_&_&_&->). done.
    + done.
    + intros ([|]&_); done.
  - cbn [fmap list_fmap] in Hnd. apply NoDup_cons in Hnd as [Hnot Hnd]. simpl in Hnot.
    assert (Hcomm : forall G, G !! gid = None ->
      list_to_map order ∪ <[gid:=servers]> G =@{gmap Z (list string)}
      list_to_map ((gid, servers) :: order) ∪ G).
    { intros G HG. rewrite list_to_map_cons. rewrite <-insert_union_l. rewrite <-insert_union_r; [done|].
      by apply not_elem_of_list_to_map_1. }
    cbn [Join_loop]. destruct (Groups cfg !! gid) eqn:Hg.
    { split; [done|]. intros (_ & Hnew & _). specialize (Hnew (gid, servers) ltac:(set_solver)).
      simpl in Hnew. congruence. }
    destruct (server_clash cfg servers) eqn:Hc.
    { split; [done|]. intros (_ & Hnew & Hdis & _). exfalso.
      apply not_false_iff_true in Hc. apply Hc, server_clash_false. intros g s x Hg' Hx Hx'.
      assert (gid = g); [|congruence].
      eapply (Hdis gid g servers s x); [|apply lookup_union_Some_raw; right; split; [|exact Hg']|done|done].
      - rewrite list_to_map_cons. apply lookup_union_Some_raw. left. by rewrite lookup_insert_eq.
      - apply not_elem_of_list_to_map_1. intros ([k v] & Hk & Hin)%list_elem_of_fmap. simpl in Hk. subst.
        specialize (Hnew (k, v) ltac:(set_solver)). simpl in Hnew. congruence. }
    rewrite server_clash_false in Hc. rewrite IH; [|by apply disjoint_insert|done].
    simpl. rewrite (Hcomm _ Hg). split.
    + intros (_ & Hnew & Hdis & ->). split_and!; [by right| |done|done].
      intros kv [-> | Hkv]%elem_of_cons; [done|]. specialize (Hnew kv Hkv).
      by apply lookup_insert_None in Hnew as [? _].
    + intros (_ & Hnew & Hdis & ->). split_and!; [by left| |done|done].
      intros kv Hkv. apply lookup_insert_None. split; [apply Hnew; set_solver|].
      intros ->. apply Hnot. apply list_elem_of_fmap. by exists kv.
Qed.

Lemma disjoint_subset G1 G2 : G1 ⊆ G2 -> disjoint_servers G2 -> disjoint_servers G1.
Proof.
  intros Hsub H g1 g2 s1 s2 x H1 H2. eapply H; by eapply lookup_weaken.
Qed.

(** [Join] of a map of new groups, iterated in any order, succeeds
    exactly when the map is not empty, its groups are new and no server
    would serve two groups; it then adds the groups and bumps the number.  In
    particular the iteration order does not change a successful join. *)
Theorem Join_spec servers order cfg cfg' :
  disjoint_servers (Groups cfg) -> order ≡ₚ map_to_list servers ->
  Join order cfg = Ret (true, cfg') <->
  servers <> ∅ /\ servers ##ₘ Groups cfg /\
  disjoint_servers (servers ∪ Groups cfg) /\
  cfg' = mkConfig (Num cfg + 1) (Shards cfg) (servers ∪ Groups cfg).
Proof.
  intros Hd Hp. unfold Join.
  assert (NoDup order.*1) as Hnd by (rewrite Hp; apply NoDup_fst_map_to_list).
  rewrite Join_loop_spec by done.
  assert (list_to_map order =@{gmap Z (list string)} servers) as ->.
  { rewrite (list_to_map_proper order (map_to_list servers)) by done. apply list_to_map_to_list. }
  assert (all_new (Groups cfg) order <-> servers ##ₘ Groups cfg) as ->.
  { rewrite map_disjoint_alt. unfold all_new. split.
    - intros H g. destruct (servers !! g) eqn:E; [|by left].
      right. apply (H (g, l)). rewrite Hp. by apply elem_of_map_to_list.
    - intros H [g v] Hin. rewrite Hp, elem_of_map_to_list in Hin. simpl. destruct (H g); [congruence|done]. }
  assert ((false = true \/ order <> []) <-> servers <> ∅) as ->; [|done].
  split.
  - intros [|Ho] ->; [done|]. rewrite map_to_list_empty, Permutation_nil_r in Hp. done.
  - intros Hs. right. intros ->. symmetry in Hp. apply Permutation_nil_r in Hp.
    by apply map_to_list_empty_iff in Hp.
Qed.

Lemma Leave_loop_spec gids cfg changed cfg' :
  Leave_loop gids cfg changed = Ret (true, cfg') <->
  (changed = true \/ gids <> []) /\ NoDup gids /\ (forall g, g ∈ gids -> is_Some (Groups cfg !! g)) /\
  cfg' = mkConfig (Num cfg + 1) (Shards cfg) (filter (fun kv => kv.1 ∉ gids) (Groups cfg)).
Proof.
  revert cfg changed. induction gids as [|gid gids IH]; intros cfg changed; cbn [Leave_loop].
  - assert (filter (fun kv : Z * list string => kv.1 ∉ []) (Groups cfg) = Groups cfg) as ->.
    { apply map_filter_id. intros. set_solver. }
    destruct changed; split.
    + intros [= <-]. split_and!; [by left|constructor|set_solver|done].
    + intros (_&_&_&->). done.
    + done.
    + intros ([|]&_); done.
  - destruct (Groups cfg !! gid) eqn:Hg.
    2: { split; [done|]. intros (_&_&H&_). destruct (H gid); [set_solver|congruence]. }
    rewrite IH. simpl.
    assert (filter (fun kv : Z * list string => kv.1 ∉ gids) (delete gid (Groups cfg)) =
            filter (fun kv => kv.1 ∉ gid :: gids) (Groups cfg)) as ->.
    { apply map_eq. intros g. apply option_eq. intros v.
      rewrite !map_lookup_filter_Some, lookup_delete_Some, not_elem_of_cons. simpl. naive_solver. }
    rewrite NoDup_cons.
    assert ((forall g, g ∈ gids -> is_Some (delete gid (Groups cfg) !! g)) <->
            (forall g, g ∈ gids -> gid <> g /\ is_Some (Groups cfg !! g))) as ->.
    { by setoid_rewrite lookup_delete_is_Some. }
    split.
    + intros (_ & Hnd & Hin & ->). split_and!; [by right| |done| |done].
      * intros H. by destruct (Hin gid H) as [? _].
      * intros g [-> | H]%elem_of_cons; [by eexists|]. by apply Hin.
    + intros (_ & [Hn Hnd] & Hin & ->). split_and!; [by left|done| |done].
      intros g H. split; [|apply Hin; by apply list_elem_of_further]. by intros ->.
Qed.

(** ** Histories of configurations *)

Inductive reconf_event :=
  | EvJoin (order : list (Z * list string))
  | EvLeave (gids : list Z).

Definition reconf (e : reconf_event) (c : ShardConfig) : option ShardConfig :=
  match match e with EvJoin order => JoinBalance order c | EvLeave gids => LeaveBalance gids c end with
  | Ret (true, c') => Some c'
  | _ => None
  end.

(** What every configuration the controller publishes satisfies. *)
Record good_config (c : ShardConfig) : Prop := {
  good_wf : wf c;
  good_servers : disjoint_servers (Groups c);
  good_assigned : 1 <= size (Groups c) -> assigned c;
  good_balanced : balanced c }.

Lemma Join_loop_inv order cfg changed b cfg' :
  disjoint_servers (Groups cfg) -> Join_loop order cfg changed = Ret (b, cfg') ->
  disjoint_servers (Groups cfg') /\ Shards cfg' = Shards cfg /\
  Num cfg' = (Num cfg + if b then 1 else 0)%Z.
Proof.
  revert cfg changed. induction order as [|[gid servers] order IH]; intros cfg changed Hd; simpl.
  - destruct changed; [|done]. intros [= <- <-]. done.
  - destruct (Groups cfg !! gid) eqn:Hg; [intros [= <- <-]; split_and!; [done..|lia]|].
    destruct (server_clash cfg servers) eqn:Hc; [done|]. intros H.
    apply IH in H; [done|]. apply disjoint_insert; [done|]. by rewrite server_clash_false in Hc.
Qed.

Lemma then_Rebalance_good o n c' :
  (forall b c, o = Ret (b, c) -> wf c /\ disjoint_servers (Groups c) /\ (b = true -> Num c = n)) ->
  then_Rebalance o = Ret (true, c') -> good_config c' /\ Num c' = n.
Proof.
  intros Ho. destruct o as [[[] c]| |]; try done.
  destruct (Ho _ _ eq_refl) as (Hwf & Hd & Hn). specialize (Hn eq_refl).
  unfold then_Rebalance; simpl. destruct (Rebalance c) as [c1|] eqn:Hr; [|done]. intros [= ->].
  destruct (decide (size (Groups c) = 0)) as [Hs|Hs].
  - rewrite (shards_unassigned c Hs) in Hr. injection Hr as <-. split; [split|done]; simpl.
    + unfold wf. simpl. by rewrite length_fmap.
    + done.
    + lia.
    + apply map_size_empty_inv in Hs. intros g1 g2 [? H]. simpl in H. by rewrite Hs, lookup_empty in H.
  - destruct (Rebalance_ends c) as (c2 & Hr' & (HN & HG & HL) & Ha & Hb & _); [done|lia|].
    rewrite Hr in Hr'. injection Hr' as <-. split; [split|congruence]; [|by rewrite HG|done|done].
    unfold wf in *. congruence.
Qed.

Lemma reconf_good e c c' :
  good_config c -> reconf e c = Some c' -> good_config c' /\ Num c' = (Num c + 1)%Z.
Proof.
  intros [Hwf Hd _ _]. unfold reconf.
  destruct e as [order|gids];
    [destruct (JoinBalance order c) as [[[] ?]| |] eqn:E|destruct (LeaveBalance gids c) as [[[] ?]| |] eqn:E];
    try done; intros [= ->]; (eapply then_Rebalance_good; [|exact E]); intros b c1 H1.
  - apply Join_loop_inv in H1 as (? & HS & HN); [|done]. unfold wf in *. rewrite HS.
    split_and!; [done..|]. by intros ->.
  - assert (wf c1 /\ disjoint_servers (Groups c1) /\ Num c1 = (Num c + if b then 1 else 0)%Z) as (?&?&HN).
    { clear E. revert H1. unfold Leave. generalize false. revert c Hwf Hd.
      induction gids as [|gid gids IH]; intros c Hwf Hd changed; simpl.
      - destruct changed; [|done]. by intros [= <- <-].
      - destruct (Groups c !! gid) eqn:Hg.
        + intros H. apply IH in H; [done|done|]. eapply disjoint_subset; [|done]. apply delete_subseteq.
        + intros [= <- <-]. split_and!; [done..|lia]. }
    split_and!; [done..|]. by intros ->.
Qed.

Lemma min_max_fold l order :
  length l < 257 ->
  let mm := foldl (min_max_step (shard_counts l)) (257, 0)%Z order in
  forall b, (forall g1 g2, g1 ∈ order -> g2 ∈ order -> load l g1 <= load l g2 + b) ->
  (mm.2 <= mm.1 + Z.of_nat b)%Z /\ (0 <= mm.2)%Z /\
  (mm.1 = 257 \/ exists g, g ∈ order /\ mm.1 = Z.of_nat (load l g))%Z /\
  (mm.2 = 0 \/ exists g, g ∈ order /\ mm.2 = Z.of_nat (load l g))%Z.
Proof.
  intros Hl. simpl. intros b. induction order as [|g order IH] using rev_ind; intros Hb.
  { simpl. split_and!; [lia|lia|by left|by left]. }
  rewrite foldl_app. simpl. destruct IH as (H1 & H2 & H3 & H4); [set_solver|].
  set (mm := foldl _ _ order) in *. unfold min_max_step. rewrite shard_counts_load.
  assert (load l g < 257) by (pose proof (lcount_le_length (fun x => x = g) l); unfold load; lia).
  assert (forall n, (n = 257 \/ exists g0, g0 ∈ order /\ n = Z.of_nat (load l g0))%Z ->
    (Z.of_nat (load l g) <= n + Z.of_nat b)%Z) as U.
  { intros n [-> | (g0 & Hg0 & ->)]; [lia|]. assert (load l g <= load l g0 + b) by (apply Hb; set_solver). lia. }
  assert (forall n, (n = 0 \/ exists g0, g0 ∈ order /\ n = Z.of_nat (load l g0))%Z ->
    (n <= Z.of_nat (load l g) + Z.of_nat b)%Z) as L.
  { intros n [-> | (g0 & Hg0 & ->)]; [lia|]. assert (load l g0 <= load l g + b) by (apply Hb; set_solver). lia. }
  assert (g ∈ order ++ [g]) as Hin by set_solver.
  split_and!.
  - specialize (U _ H3). specialize (L _ H4). go_cases.
  - go_cases.
  - simpl. case_match; [right; by exists g|]. destruct H3 as [|(g0&?&?)]; [by left|right].
    exists g0. set_solver.
  - simpl. case_match; [right; by exists g|]. destruct H4 as [|(g0&?&?)]; [by left|right].
    exists g0. set_solver.
Qed.

Lemma CheckConfig_good c order groups :
  good_config c -> order ≡ₚ (map_to_list (Groups c)).*1 -> groups ≡ₚ (map_to_list (Groups c)).*1 ->
  CheckConfig order c groups = Ret tt.
Proof.
  intros [Hwf _ Ha Hb] Ho Hg. unfold CheckConfig.
  assert (length groups = size (Groups c)) as Hlen.
  { by rewrite Hg, length_fmap, length_map_to_list. }
  rewrite Hlen, Nat.eqb_refl. simpl.
  assert (forall g, g ∈ groups -> is_Some (Groups c !! g)) as Hin.
  { intros g H. rewrite Hg in H. apply list_elem_of_fmap in H as ([g' v] & -> & H%elem_of_map_to_list).
    simpl. eauto. }
  assert (existsb (fun g => bool_decide (Groups c !! g = None)) groups = false) as ->.
  { apply not_true_iff_false. rewrite existsb_exists. intros (g & H%list_elem_of_In & H'%bool_decide_eq_true).
    destruct (Hin _ H); congruence. }
  assert ((0 <? size (Groups c)) && existsb (fun g => bool_decide (Groups c !! g = None)) (Shards c) = false) as ->.
  { destruct (Nat.ltb_spec 0 (size (Groups c))); [simpl|done].
    apply not_true_iff_false. rewrite existsb_exists. intros (g & H1%list_elem_of_In & H'%bool_decide_eq_true).
    destruct (Ha ltac:(lia) _ H1); congruence. }
  destruct (min_max_fold (Shards c) order ltac:(rewrite Hwf; unfold NShards; lia) 1) as [Hmm _].
  - intros g1 g2 H1 H2. rewrite Ho, <-Hg in H1, H2. apply Hb; by apply Hin.
  - destruct (foldl _ _ order) as [min max]. simpl in Hmm.
    destruct (Z.ltb_spec (min + 1) max); [lia|done].
Qed.

(** C22: every configuration obtained from the empty one by successful
    [JoinBalance]s and [LeaveBalance]s is well formed: its number counts the
    changes, no server is in two groups, loads differ by at most one, every
    shard has servers as soon as a group exists, and the tester's
    [CheckConfig] accepts it, whatever order Go iterates the maps in. *)
Theorem reconf_history es c :
  run reconf es MakeShardConfig = Some c ->
  Num c = Z.of_nat (length es) /\ disjoint_servers (Groups c) /\ balanced c /\
  (1 <= size (Groups c) -> forall sh, sh < NShards ->
    exists gid srvs, GidServers c sh = Ret (gid, srvs, true) /\ IsMember c gid = true) /\
  (forall order groups, order ≡ₚ (map_to_list (Groups c)).*1 -> groups ≡ₚ (map_to_list (Groups c)).*1 ->
    CheckConfig order c groups = Ret tt).
Proof.
  intros Hrun.
  assert (good_config c /\ Num c = Z.of_nat (length es)) as [Hgood HN].
  { revert c Hrun. induction es as [|e es IH] using rev_ind; intros c Hrun.
    - injection Hrun as <-. split; [split|done].
      + done.
      + intros g1 g2 ??? H. simpl in H. by rewrite lookup_empty in H.
      + simpl. rewrite map_size_empty. lia.
      + intros g1 g2 [? H]. simpl in H. by rewrite lookup_empty in H.
    - apply run_snoc in Hrun as (c1 & H1 & H2). apply IH in H1 as [Hg1 HN1].
      apply reconf_good in H2 as [??]; [|done]. split; [done|]. rewrite length_app. simpl. lia. }
  split_and!; [done|apply Hgood|apply Hgood| |by intros; apply CheckConfig_good].
  intros Hs sh Hsh. destruct (lookup_lt_is_Some_2 (Shards c) sh) as [gid Hgid].
  { by rewrite (good_wf c Hgood). }
  assert (gid ∈ Shards c) as Hel by (by eapply list_elem_of_lookup_2).
  destruct (good_assigned c Hgood Hs gid Hel) as [srvs Hsrvs].
  exists gid, srvs. unfold GidServers. rewrite Hgid, Hsrvs. split; [done|].
  apply existsb_exists. exists gid. split; [by apply list_elem_of_In|]. by apply Z.eqb_eq.
Qed.

(** ** Witnesses *)

Definition demo_order : list (Z * list string) := [(2%Z, ["c"; "d"]); (1%Z, ["a"; "b"])].

Lemma Rebalance_balances_witness :
  wf MakeShardConfig /\ exists c', Rebalance MakeShardConfig = Some c' /\
    same_but_shards MakeShardConfig c' /\
    (1 <= size (Groups MakeShardConfig) -> assigned c' /\ balanced c') /\
    (size (Groups MakeShardConfig) = 0 -> Shards c' = replicate NShards 0%Z) /\
    (1 <= size (Groups MakeShardConfig) -> assigned MakeShardConfig -> balanced MakeShardConfig ->
       c' = MakeShardConfig).
Proof. split; [done|]. apply (Rebalance_balances MakeShardConfig). done. Defined.

Lemma Join_spec_witness :
  exists cfg', Join demo_order MakeShardConfig = Ret (true, cfg') /\
    cfg' = mkConfig 1 (replicate NShards 0%Z) (list_to_map demo_order ∪ ∅).
Proof.
  exists (mkConfig 1 (replicate NShards 0%Z) (list_to_map demo_order)). split; [by vm_compute|].
  refine (proj2 (proj2 (proj2 (proj1 (Join_spec (list_to_map demo_order) demo_order MakeShardConfig _ _ _) _))));
    [|by vm_compute|by vm_compute].
  intros g1 g2 ??? H. simpl in H. by rewrite lookup_empty in H.
Defined.

Definition demo_history : list reconf_event :=
  [EvJoin demo_order; EvJoin [(3%Z, ["e"])]; EvLeave [1%Z]].

Lemma reconf_history_witness :
  exists c, run reconf demo_history MakeShardConfig = Some c /\
    Shards c = [3;3;3;3;2;2;3;2;2;2;3;2]%Z /\ Num c = 3%Z /\ disjoint_servers (Groups c).
Proof.
  destruct (run reconf demo_history MakeShardConfig) as [c|] eqn:H; [|by vm_compute in H].
  exists c. split; [done|]. split.
  - refine (demo_read Shards _ _ _ H _). by vm_compute.
  - destruct (reconf_history demo_history c H) as (HN & Hd & _). split; [exact HN|exact Hd].
Defined.
End ShardCfg.
