(* ===== verification/ShardTest.v ===== *)
(** * ShardTest: how the sharded key/value tests manage groups

    [src/src/shardkv1/test.go]: the tester makes replica groups, has the shard
    controller add them to the configuration and remove them, and starts and
    stops their servers.  The configurations are [ShardCfg]'s, the groups and the
    network [Config]'s.  The controller ([shardctrler.go]) is a skeleton: [Ctrler]
    is what its comments promise to a tester that is the only one to use it. *)

From S2P Require Import Prelude LabRpc Tester Config ShardCfg.
From stdpp Require Import base gmap list strings pretty.
From Stdlib Require Import ZArith Lia Ascii.
From stdpp Require Import list.

Module ShardTest.
Import LabRpc ShardCfg.

(** ** The controller *)

(** [current], for the laws: the configuration the controller holds. *)
Class Ctrler (C : Type) := {
  Query : C -> C * ShardConfig;
  InitConfig : ShardConfig -> C -> C;
  ChangeConfigTo : ShardConfig -> C -> C;
  current : C -> ShardConfig }.
Class CtrlerLaws (C : Type) `{!Ctrler C} := {
  Query_current c c' cfg : Query c = (c', cfg) -> cfg = current c /\ current c' = current c;
  InitConfig_current cfg c : current (InitConfig cfg c) = cfg;
  ChangeConfigTo_current cfg c : Num cfg = (Num (current c) + 1)%Z -> current (ChangeConfigTo cfg c) = cfg }.

Definition Controler : Z := 0.
Definition NSRV : nat := 3.

(** The names of a group's servers. *)
Definition SrvNames (sg : Tester.ServerGrp) : list string := Tester.ServerName (Tester.gid sg) <$> Tester.all sg.

Record test (C : Type) := mkTest {
  t_sck : C;
  t_net : Network;
  t_groups : gmap Z Tester.ServerGrp;
  t_ngid : Z }.
Arguments mkTest {C}.
Arguments t_sck {C}.
Arguments t_net {C}.
Arguments t_groups {C}.
Arguments t_ngid {C}.

(** The names of the ends a group's servers get: first objects and, with the
    object each joins the network as, when they start. *)
Class Supply := {
  names : Z -> list (list string);
  starts : Z -> nat -> list string * nat }.

Section Test.
Context {C : Type} `{!Ctrler C, !Supply}.
Implicit Types (t : test C).

Definition set_sck (c : C) t : test C := mkTest c (t_net t) (t_groups t) (t_ngid t).
Definition set_groups (ng : Network * gmap Z Tester.ServerGrp) t : test C := mkTest (t_sck t) ng.1 ng.2 (t_ngid t).

Definition newGid t : test C * Z := (mkTest (t_sck t) (t_net t) (t_groups t) (t_ngid t + 1), t_ngid t).
Fixpoint groups (n : nat) t : test C * list Z :=
  match n with
  | 0 => (t, [])
  | S n => let '(t, gid) := newGid t in let '(t, gids) := groups n t in (t, gid :: gids)
  end.

Definition MakeGroupStart (gid : Z) t : outcome (test C) :=
  ng ← Config.MakeGroupStart gid (names gid) (starts gid) (t_net t, t_groups t); Ret (set_groups ng t).

(** [ts.Group(gid).SrvNames()] *)
Definition Group_SrvNames (gid : Z) t : outcome (list string) :=
  match t_groups t !! gid with Some sg => Ret (SrvNames sg) | None => Panic "nil pointer dereference" end.

Definition setupKVService t : outcome (test C * Z) :=
  t ← MakeGroupStart Gid1 t;
  srvs ← Group_SrvNames Gid1 t;
  r ← JoinBalance [(Gid1, srvs)] MakeShardConfig;
  Ret (set_sck (InitConfig r.2 (t_sck t)) t, Gid1).

Definition checkMember (gid : Z) t : test C * bool :=
  let '(c, cfg) := Query (t_sck t) in (set_sck c t, IsMember cfg gid).

(** [Copy] ranges over the configuration's map. *)
Definition copy_config (cfg : ShardConfig) : ShardConfig := Copy (map_to_list (Groups cfg)) cfg.

Definition join (gid : Z) (srvs : list string) t : outcome (test C) :=
  let '(c, cfg) := Query (t_sck t) in
  r ← JoinBalance [(gid, srvs)] (copy_config cfg);
  if r.1 : bool then Ret (set_sck (ChangeConfigTo r.2 c) t) else Fatal "join: group is already present".

Definition leave (gid : Z) t : outcome (test C) :=
  let '(c, cfg) := Query (t_sck t) in
  r ← LeaveBalance [gid] (copy_config cfg);
  if r.1 : bool then Ret (set_sck (ChangeConfigTo r.2 c) t) else Fatal "leave: group is already not present".

Fixpoint joinGroups (gids : list Z) t : outcome (test C * bool) :=
  match gids with
  | [] => Ret (t, true)
  | gid :: gids =>
      t ← MakeGroupStart gid t;
      srvs ← Group_SrvNames gid t;
      t ← join gid srvs t;
      let '(t, ok) := checkMember gid t in
      if ok : bool then joinGroups gids t else Ret (t, false)
  end.

Fixpoint leaveGroups (gids : list Z) t : outcome (test C * bool) :=
  match gids with
  | [] => Ret (t, true)
  | gid :: gids =>
      t ← leave gid t;
      let '(t, ok) := checkMember gid t in
      if ok : bool then Ret (t, false)
      else
        ng ← Config.ExitGroup gid (t_net t, t_groups t);
        leaveGroups gids (set_groups ng t)
  end.

End Test.

(** ** Configurations *)

Lemma insert_all (l : list (Z * list string)) m :
  NoDup l.*1 -> foldl (fun (m : gmap Z (list string)) kv => <[kv.1 := kv.2]> m) m l = list_to_map l ∪ m.
Proof.
  revert m. induction l as [|[k v] l IH]; intros m; cbn; [by rewrite (left_id_L ∅ (∪))|].
  intros [Hk Hnd]%NoDup_cons. rewrite IH by done.
  rewrite <-insert_union_l. symmetry. apply insert_union_r. by apply not_elem_of_list_to_map_1.
Qed.

Lemma copy_config_same cfg : copy_config cfg = cfg.
Proof.
  destruct cfg as [n l G]. unfold copy_config, Copy. cbn [Num Shards Groups MakeShardConfig]. f_equal.
  rewrite insert_all by apply NoDup_fst_map_to_list. by rewrite list_to_map_to_list, (right_id_L ∅ (∪)).
Qed.

(** Without groups, no shard has an owner. *)
Definition unowned_if_empty (c : ShardConfig) : Prop := size (Groups c) = 0 -> forall g, g ∈ Shards c -> g = 0%Z.

Lemma then_Rebalance_ok c :
  wf c -> disjoint_servers (Groups c) ->
  exists c', then_Rebalance (Ret (true, c)) = Ret (true, c') /\ good_config c' /\ Num c' = Num c /\ Groups c' = Groups c /\
    unowned_if_empty c' /\ keeps c c'.
Proof.
  intros Hwf Hd.
  assert (Hr : exists c', Rebalance c = Some c' /\ Groups c' = Groups c /\ unowned_if_empty c' /\ keeps c c').
  { destruct (decide (size (Groups c) = 0)) as [Hs|Hs].
    - rewrite (shards_unassigned c Hs). eexists. split; [done|]. split; [done|]. split.
      + intros _ g. cbn. intros (x & -> & _)%list_elem_of_fmap. done.
      + intros g [s Hg]. apply map_size_empty_inv in Hs. by rewrite Hs in Hg.
    - destruct (Rebalance_ends c Hwf) as (c' & E & (_ & HG & _) & _ & _ & Hk); [lia|]. exists c'. split; [done|]. split; [done|].
      split; [|done]. intros Hz. rewrite HG in Hz. lia. }
  destruct Hr as (c' & E & HG & Hu & Hk). exists c'. assert (E' : then_Rebalance (Ret (true, c)) = Ret (true, c')) by (unfold then_Rebalance; cbn; by rewrite E).
  split; [done|]. destruct (then_Rebalance_good (Ret (true, c)) (Num c) c') as [Hg HN]; [|done|done].
  intros b c0 [= <- <-]. done.
Qed.

Lemma JoinBalance_one gid srvs c :
  good_config c -> Groups c !! gid = None -> (forall g s x, Groups c !! g = Some s -> x ∈ s -> x ∉ srvs) ->
  exists c', JoinBalance [(gid, srvs)] c = Ret (true, c') /\ good_config c' /\ Num c' = (Num c + 1)%Z /\
    Groups c' = <[gid := srvs]> (Groups c) /\ unowned_if_empty c' /\ keeps c c'.
Proof.
  intros Hgood Hg Hx. unfold JoinBalance, Join. cbn [Join_loop]. rewrite Hg.
  rewrite (proj2 (server_clash_false c srvs) Hx).
  destruct (then_Rebalance_ok (mkConfig (Num c + 1) (Shards c) (<[gid := srvs]> (Groups c)))) as (c' & E & Hg' & HN & HG & Hu & Hk).
  - exact (good_wf _ Hgood).
  - apply disjoint_insert; [done|]. split; [apply Hgood|done].
  - exists c'. split; [exact E|]. split_and!; try done. intros g Hm. apply Hk. cbn.
    rewrite lookup_insert_ne; [done|]. intros <-. rewrite Hg in Hm. by destruct Hm.
Qed.

Lemma LeaveBalance_one gid c :
  good_config c -> is_Some (Groups c !! gid) ->
  exists c', LeaveBalance [gid] c = Ret (true, c') /\ good_config c' /\ Num c' = (Num c + 1)%Z /\
    Groups c' = delete gid (Groups c) /\ unowned_if_empty c' /\
    forall g, g <> gid -> is_Some (Groups c !! g) -> g ∈ Shards c -> g ∈ Shards c'.
Proof.
  intros Hgood [srvs Hg]. unfold LeaveBalance, Leave. cbn [Leave_loop]. rewrite Hg.
  destruct (then_Rebalance_ok (mkConfig (Num c + 1) (Shards c) (delete gid (Groups c)))) as (c' & E & Hg' & HN & HG & Hu & Hk).
  - exact (good_wf _ Hgood).
  - cbn. eapply disjoint_subset; [apply delete_subseteq|apply Hgood].
  - exists c'. split; [exact E|]. split_and!; try done. intros g Hne Hm. apply Hk. cbn. by rewrite lookup_delete_ne.
Qed.

(** ** Members

    [IsMember] looks for the group among the shards' owners. *)

Lemma load_sum_ge l gs : (forall g, g ∈ l -> g ∈ gs) -> length l <= sum_list (load l <$> gs).
Proof.
  induction l as [|x l IH]; intros Hin; [simpl; lia|].
  assert (Hx : x ∈ gs) by (apply Hin; by left). specialize (IH (fun g Hg => Hin g (list_elem_of_further _ _ _ Hg))).
  assert (S (sum_list (load l <$> gs)) <= sum_list (load (x :: l) <$> gs)); [|simpl; lia].
  clear -Hx. induction gs as [|g gs IH]; [by apply not_elem_of_nil in Hx|]. rewrite !sum_fmap_cons, load_cons.
  assert (sum_list (load l <$> gs) <= sum_list (load (x :: l) <$> gs)).
  { apply sum_fmap_le. intros g' _. rewrite load_cons. lia. }
  apply elem_of_cons in Hx as [->|Hx]; [rewrite decide_True by done; lia|]. specialize (IH Hx). lia.
Qed.

Lemma sum_le_length {A} (f : A -> nat) l : (forall x, x ∈ l -> f x <= 1) -> sum_list (f <$> l) <= length l.
Proof.
  induction l as [|x l IH]; intros H; [done|]. rewrite sum_fmap_cons. pose proof (H x ltac:(by left)).
  specialize (IH (fun y Hy => H y (list_elem_of_further _ _ _ Hy))). simpl. lia.
Qed.

(** With no more groups than shards, every group owns one. *)
Lemma good_owns c gid :
  good_config c -> size (Groups c) <= NShards -> is_Some (Groups c !! gid) -> gid ∈ Shards c.
Proof.
  intros Hgood Hsize Hg. destruct (decide (load (Shards c) gid = 0)) as [H0|H0]; [|apply load_pos; lia]. exfalso.
  set (gs := (map_to_list (Groups c)).*1).
  assert (Hgs : forall g, g ∈ gs <-> is_Some (Groups c !! g)).
  { intros g. unfold gs. rewrite list_elem_of_fmap. split.
    - intros ([g' s] & -> & Hin%elem_of_map_to_list). by exists s.
    - intros [s Hs]. exists (g, s). split; [done|]. by apply elem_of_map_to_list. }
  assert (Hlen : length gs <= NShards) by (unfold gs; by rewrite length_fmap, length_map_to_list).
  set (gs' := filter (fun g => g <> gid) gs).
  assert (Hlt : length gs' < length gs) by (apply (length_filter_lt _ _ gid); [by apply Hgs|naive_solver]).
  assert (H1 : length (Shards c) <= sum_list (load (Shards c) <$> gs')).
  { apply load_sum_ge. intros g Hin. apply list_elem_of_filter. split.
    - intros ->. apply load_elem in Hin. lia.
    - apply Hgs. apply (good_assigned c Hgood); [|done]. destruct (Groups c !! gid) eqn:E; [|by destruct Hg].
      destruct (decide (size (Groups c) = 0)) as [Hz|]; [|lia]. apply map_size_empty_inv in Hz. by rewrite Hz in E. }
  assert (H2 : sum_list (load (Shards c) <$> gs') <= length gs').
  { apply sum_le_length. intros g [_ Hin]%list_elem_of_filter. apply Hgs in Hin.
    pose proof (good_balanced c Hgood g gid Hin Hg). lia. }
  pose proof (good_wf c Hgood) as Hw. unfold wf in Hw. lia.
Qed.

Lemma IsMember_good c gid :
  good_config c -> size (Groups c) <= NShards -> gid <> 0%Z ->
  unowned_if_empty c ->
  IsMember c gid = bool_decide (is_Some (Groups c !! gid)).
Proof.
  intros Hgood Hsize Hgid Hempty. apply eq_bool_prop_intro. rewrite bool_decide_spec. unfold IsMember.
  rewrite Is_true_true, existsb_exists. split.
  - intros (g & Hin%list_elem_of_In & Heq%Z.eqb_eq). subst g.
    destruct (decide (size (Groups c) = 0)) as [Hz|Hz]; [by specialize (Hempty Hz _ Hin)|].
    apply (good_assigned c Hgood); [lia|done].
  - intros Hg. exists gid. split; [|by apply Z.eqb_eq]. apply list_elem_of_In. by apply good_owns.
Qed.

(** ** Names *)

Lemma ServerName_inj2 g i g' j :
  (0 <= g)%Z -> (0 <= g')%Z -> Tester.ServerName g i = Tester.ServerName g' j -> g = g' /\ i = j.
Proof.
  intros Hg Hg' H.
  unfold Tester.ServerName in H. cbn [String.append] in H. simplify_eq.
  rewrite !pretty_Z_nonneg in H by done. destruct (split_at_inj "-"%char _ _ (itoa i) (itoa j) (itoa_no_dash _) (itoa_no_dash _) H) as [H1 H2].
  apply itoa_inj in H1, H2. split; [lia|done].
Qed.

(** ** The tester's invariant *)

Section History.
Context {C : Type} `{!Ctrler C, !CtrlerLaws C, !Supply}.
Implicit Types (t : test C).

(** [Randstring] does not repeat: the names supplied are distinct. *)
Definition ends_of (gid : Z) : list string := Config.group_names (names gid) (starts gid).
Record supply_ok : Prop := {
  so_len gid : length (names gid) = NSRV;
  so_starts gid i : i < NSRV -> length (starts gid i).1 = NSRV;
  so_nodup gid : NoDup (ends_of gid);
  so_disjoint g1 g2 e : e ∈ ends_of g1 -> e ∈ ends_of g2 -> g1 = g2 }.

Definition group_srvs (gid : Z) : list string := Tester.ServerName gid <$> seq 0 NSRV.

(** The members of the configuration are the groups that run, the controller's
    apart; their servers are on the network, and no other group's are.  [pend]:
    groups that have a number and have not been made. *)
Record test_ok (pend : list Z) t : Prop := {
  to_good : good_config (current (t_sck t));
  to_unowned : unowned_if_empty (current (t_sck t));
  to_gids gid srvs : Groups (current (t_sck t)) !! gid = Some srvs -> (1 <= gid < t_ngid t)%Z /\ srvs = group_srvs gid;
  to_running gid : (1 <= gid)%Z -> is_Some (Groups (current (t_sck t)) !! gid) <-> is_Some (t_groups t !! gid);
  to_group gid sg : (1 <= gid)%Z -> t_groups t !! gid = Some sg -> Config.group_ok gid NSRV sg;
  to_up gid sn : is_Some (Groups (current (t_sck t)) !! gid) -> sn ∈ group_srvs gid -> is_Some (server_at (t_net t) sn);
  to_down gid sn : (1 <= gid)%Z -> Groups (current (t_sck t)) !! gid = None -> sn ∈ group_srvs gid -> server_at (t_net t) sn = None;
  to_fresh gid e : (t_ngid t <= gid)%Z \/ gid ∈ pend -> e ∈ ends_of gid -> e ∉ ends (t_net t);
  to_pend gid : gid ∈ pend -> (1 <= gid < t_ngid t)%Z /\ Groups (current (t_sck t)) !! gid = None;
  to_ngid : (1 <= t_ngid t)%Z }.

Lemma elem_of_group_srvs gid sn : sn ∈ group_srvs gid <-> exists i, i < NSRV /\ sn = Tester.ServerName gid i.
Proof.
  unfold group_srvs. rewrite list_elem_of_fmap. split.
  - intros (i & -> & Hi%elem_of_seq). exists i. split; [lia|done].
  - intros (i & Hi & ->). exists i. rewrite elem_of_seq. split; [done|lia].
Qed.

Lemma group_srvs_disjoint g1 g2 sn : (0 <= g1)%Z -> (0 <= g2)%Z -> sn ∈ group_srvs g1 -> sn ∈ group_srvs g2 -> g1 = g2.
Proof. intros H1 H2 (i & _ & ->)%elem_of_group_srvs (j & _ & Heq)%elem_of_group_srvs. by apply ServerName_inj2 in Heq as [? _]. Qed.

Lemma SrvNames_ok gid sg : Config.group_ok gid NSRV sg -> SrvNames sg = group_srvs gid.
Proof. intros (_ & HN & Hg). unfold SrvNames, group_srvs, Tester.all. by rewrite HN, Hg. Qed.

Lemma checkMember_eq gid t :
  good_config (current (t_sck t)) -> unowned_if_empty (current (t_sck t)) ->
  size (Groups (current (t_sck t))) <= NShards -> gid <> 0%Z ->
  exists c, checkMember gid t = (set_sck c t, bool_decide (is_Some (Groups (current (t_sck t)) !! gid))) /\
    current c = current (t_sck t).
Proof.
  intros Hg Hu Hs Hgid. unfold checkMember. destruct (Query (t_sck t)) as [c cfg] eqn:Hq. apply Query_current in Hq as [-> Hc].
  exists c. split; [|done]. by rewrite IsMember_good.
Qed.

(** Only the controller's configuration matters, not how it is stored. *)
Lemma test_ok_sck pend c t : current c = current (t_sck t) -> test_ok pend t -> test_ok pend (set_sck c t).
Proof. intros Hc []. split; cbn; rewrite ?Hc; done. Qed.

(** Membership in the servers of two groups. *)
Lemma other_group g1 g2 i : (0 <= g1)%Z -> (0 <= g2)%Z -> i < NSRV -> Tester.ServerName g1 i ∈ group_srvs g2 -> g1 = g2.
Proof. intros H1 H2 Hi Hin. apply (group_srvs_disjoint g1 g2 (Tester.ServerName g1 i)); [done..| |done]. apply elem_of_group_srvs. by exists i. Qed.

(** The invariant once group [gid] runs and the controller holds [cfg']. *)
Lemma test_ok_join gid pend t net sg c cfg' :
  supply_ok -> test_ok (gid :: pend) t -> gid ∉ pend -> Config.group_ok gid NSRV sg ->
  ends net = list_to_set (ends_of gid) ∪ ends (t_net t) ->
  (forall i, i < NSRV -> is_Some (server_at net (Tester.ServerName gid i))) ->
  (forall sn, (forall i, i < NSRV -> sn <> Tester.ServerName gid i) -> server_at net sn = server_at (t_net t) sn) ->
  current c = cfg' -> good_config cfg' -> unowned_if_empty cfg' ->
  Groups cfg' = <[gid := group_srvs gid]> (Groups (current (t_sck t))) ->
  test_ok pend (mkTest c net (<[gid := sg]> (t_groups t)) (t_ngid t)).
Proof.
  intros Hsup Hok Hni Hgrp He Hup Hoth Hc3 Hg' Hu' HG'. destruct (to_pend _ _ Hok gid) as [Hgid Hnew]; [by left|].
  destruct Hok as [K1 K2 K3 K4 K5 K6 K7 K8 K9 K10]. split; cbn; rewrite ?Hc3, ?HG'; try done.
  - intros g s. rewrite lookup_insert_Some. intros [[<- <-]|[_ Hs]]; [by split|by apply K3].
  - intros g Hg. destruct (decide (gid = g)) as [<-|Hne]; [by rewrite !lookup_insert_eq|]. rewrite !lookup_insert_ne by done. by apply K4.
  - intros g s Hg. rewrite lookup_insert_Some. intros [[<- <-]|[_ Hs]]; [done|by apply K5].
  - intros g sn Hg Hsn. destruct (decide (gid = g)) as [<-|Hne].
    + apply elem_of_group_srvs in Hsn as (i & Hi & ->). by apply Hup.
    + rewrite lookup_insert_ne in Hg by done. rewrite Hoth; [by apply (K6 g)|].
      intros i Hi ->. destruct Hg as [s Hg]. destruct (K3 _ _ Hg) as [Hr _]. apply Hne, (other_group gid g i); [lia|lia|done..].
  - intros g sn Hg1 Hg Hsn. destruct (decide (gid = g)) as [<-|Hne]; [by rewrite lookup_insert_eq in Hg|].
    rewrite lookup_insert_ne in Hg by done. rewrite Hoth; [by apply (K7 g)|].
    intros i Hi ->. apply Hne, (other_group gid g i); [lia|lia|done..].
  - intros g e Hg He'. rewrite He. rewrite not_elem_of_union, not_elem_of_list_to_set. split.
    + intros Hin. assert (g = gid) as -> by exact (so_disjoint Hsup _ _ _ He' Hin). destruct Hg; [lia|done].
    + apply (K8 g); [|done]. destruct Hg; [by left|right; by right].
  - intros g Hg. destruct (K9 g) as [Hr Hn]; [by right|]. split; [done|]. rewrite lookup_insert_ne; [done|]. by intros ->.
Qed.

(** One group joins. *)
Lemma join_one gid pend t :
  supply_ok -> test_ok (gid :: pend) t -> gid ∉ pend -> size (Groups (current (t_sck t))) < NShards ->
  exists t1 srvs t2 t3, MakeGroupStart gid t = Ret t1 /\ Group_SrvNames gid t1 = Ret srvs /\ join gid srvs t1 = Ret t2 /\
    checkMember gid t2 = (t3, true) /\ test_ok pend t3 /\ t_ngid t3 = t_ngid t /\
    Num (current (t_sck t3)) = (Num (current (t_sck t)) + 1)%Z /\
    Groups (current (t_sck t3)) = <[gid := group_srvs gid]> (Groups (current (t_sck t))).
Proof.
  intros Hsup Hok Hni Hsize. destruct (to_pend _ _ Hok gid) as [Hgid Hnew]; [by left|].
  destruct (Config.MakeGroupStart_spec gid (names gid) (starts gid) (t_net t) (t_groups t)) as (net & sg & E & Hgrp & _ & He & Hup & Hoth).
  { apply Hsup. }
  { intros e Hin. apply (to_fresh _ _ Hok gid); [right; by left|done]. }
  { intros i. rewrite (so_len Hsup). apply (so_starts Hsup). }
  rewrite (so_len Hsup) in *.
  set (t1 := mkTest (t_sck t) net (<[gid := sg]> (t_groups t)) (t_ngid t)).
  assert (E1 : MakeGroupStart gid t = Ret t1) by (unfold MakeGroupStart; by rewrite E).
  assert (E2 : Group_SrvNames gid t1 = Ret (group_srvs gid)).
  { unfold Group_SrvNames. cbn [t_groups t1]. rewrite lookup_insert_eq. by rewrite (SrvNames_ok gid). }
  destruct (Query (t_sck t)) as [c0 cfg] eqn:Hq. pose proof (Query_current _ _ _ Hq) as [-> Hc0].
  destruct (JoinBalance_one gid (group_srvs gid) (current (t_sck t)) (to_good _ _ Hok) Hnew) as (cfg' & EJ & Hg' & HN' & HG' & Hu' & _).
  { intros g s x Hgs Hx Hx'. destruct (to_gids _ _ Hok g s Hgs) as [Hr ->].
    assert (g = gid) as -> by (apply (group_srvs_disjoint g gid x); lia || done). by rewrite Hnew in Hgs. }
  set (t2 := set_sck (ChangeConfigTo cfg' c0) t1).
  assert (E3 : join gid (group_srvs gid) t1 = Ret t2) by (unfold join; cbn [t_sck t1]; rewrite Hq, copy_config_same, EJ; done).
  assert (Hcur : current (ChangeConfigTo cfg' c0) = cfg') by (apply ChangeConfigTo_current; by rewrite Hc0).
  destruct (checkMember_eq gid t2) as (c3 & E4 & Hc3).
  { cbn. by rewrite Hcur. } { cbn. by rewrite Hcur. }
  { cbn. rewrite Hcur, HG'. rewrite map_size_insert_None by done. lia. } { lia. }
  cbn [t_sck set_sck t2] in E4, Hc3. rewrite Hcur in Hc3. rewrite Hcur, HG', lookup_insert_eq, bool_decide_eq_true_2 in E4 by by eexists.
  exists t1, (group_srvs gid), t2, (set_sck c3 t2). do 4 (split; [done|]).
  split; [|cbn; rewrite Hc3; by split]. apply (test_ok_join gid pend t net sg c3 cfg'); try done.
  intros i Hi. rewrite Hup by done. by eexists.
Qed.

(** The invariant once the controller holds [cfg'] and group [gid] has exited. *)
Lemma test_ok_leave gid pend t net c cfg' :
  test_ok pend t -> is_Some (Groups (current (t_sck t)) !! gid) ->
  ends net = ends (t_net t) ->
  (forall sn, server_at net sn = if decide (sn ∈ group_srvs gid) then None else server_at (t_net t) sn) ->
  current c = cfg' -> good_config cfg' -> unowned_if_empty cfg' ->
  Groups cfg' = delete gid (Groups (current (t_sck t))) ->
  test_ok pend (mkTest c net (delete gid (t_groups t)) (t_ngid t)).
Proof.
  intros Hok [srvs Hmem] He Hsv Hc Hg' Hu' HG'. destruct (to_gids _ _ Hok _ _ Hmem) as [Hgid _].
  destruct Hok as [K1 K2 K3 K4 K5 K6 K7 K8 K9 K10]. split; cbn; rewrite ?Hc, ?HG', ?He; try done.
  - intros g s [_ Hs]%lookup_delete_Some. by apply K3.
  - intros g Hg. destruct (decide (gid = g)) as [<-|Hne]; [by rewrite !lookup_delete_eq|]. rewrite !lookup_delete_ne by done. by apply K4.
  - intros g s Hg [_ Hs]%lookup_delete_Some. by apply K5.
  - intros g sn [s [Hne Hg]%lookup_delete_Some] Hsn. destruct (K3 _ _ Hg) as [Hr _]. rewrite Hsv, decide_False; [by apply (K6 g); [eexists|]|].
    intros Hin. apply Hne. apply (group_srvs_disjoint gid g sn); [lia|lia|done..].
  - intros g sn Hg1 Hg Hsn. rewrite Hsv. case_decide as Hin; [done|]. apply (K7 g); [done| |done].
    apply lookup_delete_None in Hg as [<-|Hg]; done.
  - intros g Hg. destruct (K9 g Hg) as [Hr Hn]. split; [done|]. apply lookup_delete_None. by right.
Qed.

(** One group leaves. *)
Lemma leave_one gid pend t :
  test_ok pend t -> is_Some (Groups (current (t_sck t)) !! gid) -> size (Groups (current (t_sck t))) <= NShards ->
  exists t2 t3 ng, leave gid t = Ret t2 /\ checkMember gid t2 = (t3, false) /\
    Config.ExitGroup gid (t_net t3, t_groups t3) = Ret ng /\ test_ok pend (set_groups ng t3) /\ t_ngid t3 = t_ngid t /\
    Num (current (t_sck t3)) = (Num (current (t_sck t)) + 1)%Z /\
    Groups (current (t_sck t3)) = delete gid (Groups (current (t_sck t))).
Proof.
  intros Hok Hmem Hsize. pose proof Hmem as [srvs Hs]. destruct (to_gids _ _ Hok _ _ Hs) as [Hgid _].
  destruct (Query (t_sck t)) as [c0 cfg] eqn:Hq. pose proof (Query_current _ _ _ Hq) as [-> Hc0].
  destruct (LeaveBalance_one gid (current (t_sck t)) (to_good _ _ Hok) Hmem) as (cfg' & EL & Hg' & HN' & HG' & Hu' & _).
  set (t2 := set_sck (ChangeConfigTo cfg' c0) t).
  assert (E1 : leave gid t = Ret t2) by (unfold leave; rewrite Hq, copy_config_same, EL; done).
  assert (Hcur : current (ChangeConfigTo cfg' c0) = cfg') by (apply ChangeConfigTo_current; by rewrite Hc0).
  destruct (checkMember_eq gid t2) as (c3 & E2 & Hc3).
  { cbn. by rewrite Hcur. } { cbn. by rewrite Hcur. }
  { cbn. rewrite Hcur, HG'. rewrite map_size_delete_Some by done. lia. } { lia. }
  cbn [t_sck set_sck t2] in E2, Hc3. rewrite Hcur in Hc3. rewrite Hcur, HG', lookup_delete_eq, bool_decide_eq_false_2 in E2 by by intros [].
  destruct (proj1 (to_running _ _ Hok gid ltac:(lia)) Hmem) as [sg Hsg].
  pose proof (to_group _ _ Hok gid sg ltac:(lia) Hsg) as Hgrp. pose proof Hgrp as (Hwf & HNs & Hgs).
  destruct (Config.ExitGroup_spec gid (t_net t) (t_groups t) sg Hsg) as (net & E3 & He & Hsv); [by rewrite HNs|].
  rewrite HNs in Hsv. exists t2, (set_sck c3 t2), (net, delete gid (t_groups t)).
  do 3 (split; [done|]). split; [|cbn; rewrite Hc3; by split].
  by apply (test_ok_leave gid pend t net c3 cfg').
Qed.

(** ** Several groups *)

(** The numbers of [n] new groups. *)
Fixpoint gids_from (g : Z) (n : nat) : list Z :=
  match n with 0 => [] | S n => g :: gids_from (g + 1) n end.

Lemma elem_of_gids_from g n x : x ∈ gids_from g n <-> (g <= x < g + Z.of_nat n)%Z.
Proof.
  revert g. induction n as [|n IH]; intros g; cbn [gids_from]; [rewrite elem_of_nil; lia|]. rewrite elem_of_cons, IH. lia.
Qed.

Lemma length_gids_from g n : length (gids_from g n) = n.
Proof. revert g. induction n as [|n IH]; intros g; cbn; [done|]. by rewrite IH. Qed.

Lemma NoDup_gids_from g n : NoDup (gids_from g n).
Proof.
  revert g. induction n as [|n IH]; intros g; cbn [gids_from]; [constructor|]. constructor; [|done].
  rewrite elem_of_gids_from. lia.
Qed.

(** [groups] hands out the next numbers, none of them a member. *)
Lemma groups_ok pend n t :
  test_ok pend t ->
  exists t', groups n t = (t', gids_from (t_ngid t) n) /\ test_ok (pend ++ gids_from (t_ngid t) n) t' /\
    t_sck t' = t_sck t /\ t_ngid t' = (t_ngid t + Z.of_nat n)%Z.
Proof.
  revert pend t. induction n as [|n IH]; intros pend t Hok.
  - exists t. cbn. rewrite app_nil_r. split; [done|]. split; [done|]. split; [done|lia].
  - cbn [groups newGid gids_from].
    destruct (IH (pend ++ [t_ngid t]) (mkTest (t_sck t) (t_net t) (t_groups t) (t_ngid t + 1))) as (t' & E & Hok' & Hs & Hn).
    { destruct Hok as [K1 K2 K3 K4 K5 K6 K7 K8 K9 K10]. split; cbn; try done.
      - intros g srvs Hg. destruct (K3 g srvs Hg). split; [lia|done].
      - intros g e Hg. apply (K8 g). rewrite elem_of_app, list_elem_of_singleton in Hg. destruct Hg as [|[|]]; [left; lia|by right|left; lia].
      - intros g. rewrite elem_of_app, list_elem_of_singleton. intros [Hg| ->]; [destruct (K9 g Hg); split; [lia|done]|].
        split; [lia|]. destruct (Groups (current (t_sck t)) !! t_ngid t) eqn:Hg; [|done]. destruct (K3 _ _ Hg). lia.
      - lia. }
    exists t'. cbn in *. rewrite E. split; [done|]. rewrite <-app_assoc in Hok'. split; [done|]. split; [done|lia].
Qed.

Lemma joinGroups_ok gids pend t :
  supply_ok -> NoDup (gids ++ pend) -> test_ok (gids ++ pend) t ->
  size (Groups (current (t_sck t))) + length gids <= NShards ->
  exists t', joinGroups gids t = Ret (t', true) /\ test_ok pend t' /\ t_ngid t' = t_ngid t /\
    Num (current (t_sck t')) = (Num (current (t_sck t)) + Z.of_nat (length gids))%Z /\
    dom (Groups (current (t_sck t'))) = list_to_set gids ∪ dom (Groups (current (t_sck t))).
Proof.
  intros Hsup. revert t. induction gids as [|g gids IH]; intros t Hnd Hok Hsize.
  - exists t. cbn. do 3 (split; [done|]). split; [lia|set_solver].
  - apply NoDup_cons in Hnd as [Hni Hnd]. cbn [length] in Hsize.
    destruct (join_one g (gids ++ pend) t Hsup Hok Hni) as (t1 & srvs & t2 & t3 & E1 & E2 & E3 & E4 & Hok3 & Hn3 & HN3 & HG3); [lia|].
    destruct (to_pend _ _ Hok g) as [_ Hnew]; [by left|].
    destruct (IH t3 Hnd Hok3) as (t' & E & Hok' & Hn' & HN' & HG').
    { rewrite HG3, map_size_insert_None by done. lia. }
    exists t'. cbn [joinGroups]. rewrite E1. cbn. rewrite E2. cbn. rewrite E3. cbn. rewrite E4, E.
    split; [done|]. split; [done|]. split; [congruence|]. split; [lia|].
    rewrite HG', HG3, dom_insert_L. cbn [list_to_set]. set_solver.
Qed.

Lemma leaveGroups_ok gids t :
  test_ok [] t -> NoDup gids -> (forall g, g ∈ gids -> is_Some (Groups (current (t_sck t)) !! g)) ->
  size (Groups (current (t_sck t))) <= NShards ->
  exists t', leaveGroups gids t = Ret (t', true) /\ test_ok [] t' /\ t_ngid t' = t_ngid t /\
    Num (current (t_sck t')) = (Num (current (t_sck t)) + Z.of_nat (length gids))%Z /\
    dom (Groups (current (t_sck t'))) = dom (Groups (current (t_sck t))) ∖ list_to_set gids.
Proof.
  revert t. induction gids as [|g gids IH]; intros t Hok Hnd Hmem Hsize.
  - exists t. cbn. do 3 (split; [done|]). split; [lia|set_solver].
  - apply NoDup_cons in Hnd as [Hni Hnd].
    destruct (leave_one g [] t Hok (Hmem g ltac:(by left)) Hsize) as (t2 & t3 & ng & E1 & E2 & E3 & Hok3 & Hn3 & HN3 & HG3).
    destruct (IH (set_groups ng t3) Hok3 Hnd) as (t' & E & Hok' & Hn' & HN' & HG').
    { intros g' Hg'. cbn. rewrite HG3, lookup_delete_ne by (by intros ->). apply Hmem. by right. }
    { cbn. rewrite HG3. etrans; [|exact Hsize]. apply map_subseteq_size, delete_subseteq. }
    exists t'. cbn [leaveGroups]. rewrite E1. cbn. rewrite E2, E3. cbn. rewrite E.
    split; [done|]. split; [done|]. cbn in Hn', HN', HG'. split; [congruence|]. split; [cbn [length]; lia|].
    rewrite HG', HG3, dom_delete_L. cbn [list_to_set]. set_solver.
Qed.

(** ** Setting the service up *)

(** A tester as [MakeTest] returns it: only the controller's group runs. *)
Record test_made t : Prop := {
  tm_ngid : t_ngid t = (Gid1 + 1)%Z;
  tm_groups gid : (1 <= gid)%Z -> t_groups t !! gid = None;
  tm_down gid sn : (1 <= gid)%Z -> sn ∈ group_srvs gid -> server_at (t_net t) sn = None;
  tm_fresh gid e : (1 <= gid)%Z -> e ∈ ends_of gid -> e ∉ ends (t_net t) }.

#[local] Arguments JoinBalance : simpl never.

Lemma good_MakeShardConfig : good_config MakeShardConfig.
Proof.
  split.
  - reflexivity.
  - by intros g1 g2 s1 s2 x _ Hs.
  - cbn. rewrite map_size_empty. lia.
  - by intros g1 g2 [s Hs].
Qed.

Lemma setup_ok t :
  supply_ok -> test_made t ->
  exists t', setupKVService t = Ret (t', Gid1) /\ test_ok [] t' /\ t_ngid t' = (Gid1 + 1)%Z /\
    Num (current (t_sck t')) = 1%Z /\ dom (Groups (current (t_sck t'))) = {[Gid1]}.
Proof.
  intros Hsup [M1 M2 M3 M4].
  assert (Hok : test_ok [Gid1] (set_sck (InitConfig MakeShardConfig (t_sck t)) t)).
  { split; cbn; rewrite ?InitConfig_current.
    - apply good_MakeShardConfig.
    - intros _ g Hg. by apply elem_of_replicate in Hg as [-> _].
    - done.
    - intros g Hg. rewrite M2 by done. cbn. by rewrite lookup_empty.
    - intros g sg Hg. by rewrite M2.
    - intros g sn [s Hg]. done.
    - intros g sn Hg _. by apply M3.
    - intros g e Hg. apply M4. rewrite M1 in Hg. unfold Gid1 in *. rewrite list_elem_of_singleton in Hg. lia.
    - intros g ->%list_elem_of_singleton. rewrite M1. unfold Gid1. split; [lia|done].
    - rewrite M1. unfold Gid1. lia. }
  destruct (Config.MakeGroupStart_spec Gid1 (names Gid1) (starts Gid1) (t_net t) (t_groups t)) as (net & sg & E & Hgrp & _ & He & Hup & Hoth).
  { apply Hsup. } { intros e. by apply M4. } { intros i. rewrite (so_len Hsup). apply (so_starts Hsup). }
  rewrite (so_len Hsup) in *.
  destruct (JoinBalance_one Gid1 (group_srvs Gid1) MakeShardConfig good_MakeShardConfig) as (cfg' & EJ & Hg' & HN' & HG' & Hu' & _); [done..|].
  exists (mkTest (InitConfig cfg' (t_sck t)) net (<[Gid1 := sg]> (t_groups t)) (t_ngid t)). split.
  { unfold setupKVService, MakeGroupStart. rewrite E. cbn. unfold Group_SrvNames. cbn [t_groups set_groups snd].
    rewrite lookup_insert_eq. cbn [mbind outcome_bind]. rewrite (SrvNames_ok Gid1) by done.
    cbn [mbind outcome_bind]. by rewrite EJ. }
  cbn [t_sck t_ngid]. rewrite InitConfig_current. split.
  - refine (test_ok_join Gid1 [] _ net sg _ cfg' Hsup Hok (not_elem_of_nil _) Hgrp He _ Hoth (InitConfig_current _ _) Hg' Hu' _).
    + intros i Hi. rewrite Hup by done. by eexists.
    + cbn [t_sck set_sck]. by rewrite InitConfig_current.
  - split; [done|]. split; [done|]. rewrite HG', dom_insert_L. cbn. set_solver.
Qed.

(** ** A test's reconfigurations *)

(** What a test does: new groups join, or members leave. *)
Inductive event := EvJoin (n : nat) | EvLeave (gids : list Z).

Definition step (e : event) t : outcome (test C * bool) :=
  match e with
  | EvJoin n => let '(t, gids) := groups n t in joinGroups gids t
  | EvLeave gids => leaveGroups gids t
  end.

(** The abstract tester: the members, the next number and the configuration's
    number.  A step is allowed while there are no more groups than shards, and
    only members leave. *)
Record view := mkView { v_members : gset Z; v_ngid : Z; v_num : Z }.
Definition view_step (e : event) (v : view) : option view :=
  match e with
  | EvJoin n =>
      if decide (size (v_members v) + n <= NShards)
      then Some (mkView (list_to_set (gids_from (v_ngid v) n) ∪ v_members v) (v_ngid v + Z.of_nat n) (v_num v + Z.of_nat n))
      else None
  | EvLeave gids =>
      if decide (NoDup gids /\ Forall (fun g => g ∈ v_members v) gids)
      then Some (mkView (v_members v ∖ list_to_set gids) (v_ngid v) (v_num v + Z.of_nat (length gids)))
      else None
  end.

Fixpoint view_run (es : list event) (v : view) : option view :=
  match es with [] => Some v | e :: es => v' ← view_step e v; view_run es v' end.
Fixpoint run (es : list event) t : outcome (test C * bool) :=
  match es with
  | [] => Ret (t, true)
  | e :: es => r ← step e t; if r.2 : bool then run es r.1 else Ret (r.1, false)
  end.

Definition refines t (v : view) : Prop :=
  test_ok [] t /\ dom (Groups (current (t_sck t))) = v_members v /\ t_ngid t = v_ngid v /\ Num (current (t_sck t)) = v_num v.

(** The running groups and their servers match the abstract members. *)
Record matches t (v : view) : Prop := {
  ma_members : dom (Groups (current (t_sck t))) = v_members v;
  ma_num : Num (current (t_sck t)) = v_num v;
  ma_running gid : (1 <= gid)%Z -> is_Some (t_groups t !! gid) <-> gid ∈ v_members v;
  ma_servers gid sn : (1 <= gid)%Z -> sn ∈ group_srvs gid -> is_Some (server_at (t_net t) sn) <-> gid ∈ v_members v;
  ma_owned gid : gid ∈ v_members v -> size (v_members v) <= NShards -> gid ∈ Shards (current (t_sck t)) }.

Lemma refines_matches t v : refines t v -> matches t v.
Proof.
  intros ([K1 K2 K3 K4 K5 K6 K7 K8 K9 K10] & Hd & Hn & HN). split; try done.
  - intros g Hg. rewrite <-K4 by done. by rewrite <-Hd, elem_of_dom.
  - intros g sn Hg Hsn. rewrite <-Hd, elem_of_dom. split.
    + intros Hs. destruct (Groups (current (t_sck t)) !! g) eqn:E; [done|]. rewrite (K7 g sn) in Hs by done. by destruct Hs.
    + intros Hs. by apply (K6 g).
  - intros g. rewrite <-Hd, elem_of_dom, size_dom. intros Hg Hs. by apply good_owns.
Qed.

Lemma size_list_union (l : list Z) (X : gset Z) : size (list_to_set l ∪ X) <= length l + size X.
Proof.
  induction l as [|x l IH]; cbn [list_to_set length]; [by rewrite union_empty_l_L|].
  rewrite <-union_assoc_L, size_union_alt, size_singleton.
  assert (size ((list_to_set l ∪ X) ∖ {[x]}) <= size (list_to_set l ∪ X)) by (apply subseteq_size; set_solver). lia.
Qed.

Lemma step_refines e t v v' :
  supply_ok -> refines t v -> view_step e v = Some v' -> size (v_members v) <= NShards ->
  exists t', step e t = Ret (t', true) /\ refines t' v' /\ size (v_members v') <= NShards.
Proof.
  intros Hsup (Hok & Hd & Hn & HN) Hv Hsize. rewrite <-Hd, size_dom in Hsize. destruct e as [n|gids]; cbn in *; case_decide as Hc; simplify_eq.
  - destruct (groups_ok [] n t Hok) as (t1 & E1 & Hok1 & Hs1 & Hn1). cbn in Hok1. rewrite E1.
    destruct (joinGroups_ok (gids_from (t_ngid t) n) [] t1 Hsup) as (t' & E & Hok' & Hn' & HN' & HG').
    { rewrite app_nil_r. apply NoDup_gids_from. } { by rewrite app_nil_r. }
    { by rewrite Hs1, <-size_dom, Hd, length_gids_from. }
    rewrite length_gids_from in HN'. exists t'. split; [done|]. split.
    { split; [done|]. cbn. rewrite HG', Hs1, Hd, Hn', HN', Hs1, Hn. split; [done|]. split; lia. }
    cbn. etrans; [apply size_list_union|]. rewrite length_gids_from. lia.
  - destruct Hc as [Hnd Hmem]. rewrite Forall_forall in Hmem.
    destruct (leaveGroups_ok gids t Hok Hnd) as (t' & E & Hok' & Hn' & HN' & HG'); [|done|].
    { intros g Hg. apply elem_of_dom. rewrite Hd. by apply Hmem. }
    exists t'. split; [done|]. split; [|etrans; [by apply subseteq_size, subseteq_difference_l|by rewrite <-Hd, size_dom]].
    split; [done|]. cbn. rewrite HG', Hd. split; [done|]. split; [congruence|lia].
Qed.

Lemma run_refines es t v v' :
  supply_ok -> refines t v -> view_run es v = Some v' -> size (v_members v) <= NShards ->
  exists t', run es t = Ret (t', true) /\ refines t' v'.
Proof.
  intros Hsup. revert t v. induction es as [|e es IH]; intros t v Hr Hv Hs; cbn in Hv.
  - simplify_eq. by exists t.
  - apply bind_Some in Hv as (v1 & Hv1 & Hv). destruct (step_refines e t v v1 Hsup Hr Hv1 Hs) as (t1 & E & Hr1 & Hs1).
    destruct (IH t1 v1 Hr1 Hv Hs1) as (t' & E' & Hr'). exists t'. cbn. rewrite E. by split.
Qed.

(** C14: [setupKVService] and then any sequence of allowed joins and leaves:
    no step panics, aborts the test or answers false; the controller ends with
    the abstract tester's members and configuration number; exactly the members'
    groups run, their servers are on the network and no other group's are; and
    while there are no more groups than shards, each member owns a shard. *)
Theorem shard_groups_match t es v :
  supply_ok -> test_made t -> view_run es (mkView {[Gid1]} (Gid1 + 1) 1) = Some v ->
  exists t1 t', setupKVService t = Ret (t1, Gid1) /\ run es t1 = Ret (t', true) /\ matches t' v.
Proof.
  intros Hsup Hm Hv. destruct (setup_ok t Hsup Hm) as (t1 & E1 & Hok & Hn & HN & Hd). exists t1.
  assert (Hr : refines t1 (mkView {[Gid1]} (Gid1 + 1) 1)) by by split.
  destruct (run_refines es t1 _ v Hsup Hr Hv) as (t' & E & Hr').
  - cbn. rewrite size_singleton. unfold NShards. lia.
  - exists t'. split; [done|]. split; [done|]. by apply refines_matches.
Qed.

End History.

(** ** A tester *)

(** A controller that holds its configuration. *)
#[export] Instance demo_Ctrler : Ctrler ShardConfig := {|
  Query c := (c, c); InitConfig cfg c := cfg; ChangeConfigTo cfg c := cfg; current c := c |}.
#[export] Instance demo_CtrlerLaws : CtrlerLaws ShardConfig.
Proof. split; cbn; naive_solver. Qed.

(** Names that tell which group, server and end they belong to. *)
Definition demo_end (gid : Z) (k : nat) : string := itoa k +:+ "-" +:+ pretty gid.
#[export] Instance demo_Supply : Supply := {|
  names gid := (fun i => demo_end gid <$> [3 * i; 3 * i + 1; 3 * i + 2]) <$> [0; 1; 2];
  starts gid i := (demo_end gid <$> [9 + 3 * i; 10 + 3 * i; 11 + 3 * i], i) |}.

Lemma demo_end_inj g1 g2 k1 k2 : demo_end g1 k1 = demo_end g2 k2 -> g1 = g2 /\ k1 = k2.
Proof.
  intros H. destruct (split_at_inj "-"%char _ _ _ _ (itoa_no_dash k1) (itoa_no_dash k2) H) as [Hk Hg].
  split; [by apply (inj pretty) in Hg|by apply itoa_inj].
Qed.

Lemma demo_ends gid : ends_of gid = demo_end gid <$> seq 0 18.
Proof. reflexivity. Qed.

Lemma demo_supply_ok : supply_ok.
Proof.
  split; [done|done| |].
  - intros gid. rewrite demo_ends. apply NoDup_fmap_2_strong; [|apply NoDup_seq]. by intros x y _ _ [_ ?]%demo_end_inj.
  - intros g1 g2 e. rewrite !demo_ends, !list_elem_of_fmap. intros (k1 & -> & _) (k2 & Heq & _). by apply demo_end_inj in Heq as [? _].
Qed.

Definition demo_test : test ShardConfig := mkTest MakeShardConfig MakeNetwork ∅ (Gid1 + 1).

(** Two groups join, the first one leaves with one of them, another joins. *)
Definition demo_events : list event := [EvJoin 2; EvLeave [1; 2]%Z; EvJoin 1].

Lemma shard_groups_match_witness :
  exists t1 t', setupKVService demo_test = Ret (t1, Gid1) /\ run demo_events t1 = Ret (t', true) /\
    matches t' (mkView {[3; 4]}%Z 5 6).
Proof.
  apply (shard_groups_match demo_test demo_events (mkView {[3; 4]}%Z 5 6)).
  - exact demo_supply_ok.
  - split; done.
  - vm_compute. reflexivity.
Defined.

(** More groups than shards: the last one joins, owns no shard, and
    [checkMember], which looks at the shards only, says it is no member. *)
Definition joined (n : nat) : option (bool * nat) :=
  match setupKVService demo_test with
  | Ret (t, _) =>
      match run [EvJoin n] t with
      | Ret (t, ok) => Some (ok, size (Groups (t_sck t)))
      | _ => None
      end
  | _ => None
  end.

Lemma too_many_groups : joined 11 = Some (true, 12) /\ joined 12 = Some (false, 13).
Proof. split; vm_compute; reflexivity. Qed.

End ShardTest.
