(* ===== verification/MrCoordinator.v ===== *)
(** * MrCoordinator: the MapReduce coordinator

    [src/src/mr/coordinator.go] and the RPC types of [src/src/mr/rpc.go].
    The coordinator runs a main goroutine ([mapReduce]), one goroutine per
    RPC ([ReqTask], [CompleteTask]) and one timer goroutine per task handed
    out, sharing the task states under [mu] and two channels of capacity 128.
    The state records the shared data and where each goroutine is; an event
    is one goroutine's move from one blocking point to the next.  A sender
    blocks while its channel is full: the event is not enabled then.  The
    timer goroutine reads the task state and sends under one [RLock]: both
    are one event.  A panic in any goroutine ends the process. *)

From S2P Require Import Prelude.
From stdpp Require Import base gmap list strings.
From Stdlib Require Import ZArith Lia.

Module MrCoordinator.
Local Set Default Proof Using "Type".

Inductive coordinatorState_t :=
  | coordinatorStateMap | coordinatorStateReduce | coordinatorStateDone.

#[export] Instance coordinatorState_eq_dec : EqDecision coordinatorState_t.
Proof. solve_decision. Defined.

Record task := mkTask { tid : nat; taskType : coordinatorState_t }.

#[export] Instance task_eq_dec : EqDecision task.
Proof. solve_decision. Defined.

(** One intermediate file: [ReducerTid] and [File]. *)
Definition IntermediateFile : Type := Z * string.

Record mapTask := mkMapTask {
  m_tid : nat; m_done : bool; m_inputFile : string;
  m_intermediateFiles : list IntermediateFile }.

Record reduceTask := mkReduceTask {
  r_tid : nat; r_done : bool; r_intermediateFiles : list string }.

Definition TaskTypeMap : Z := 0.
Definition TaskTypeReduce : Z := 1.
Definition TaskTypeSleep : Z := 2.

(** [ReqTaskReply]; the fields a reply does not set keep Go's zero value. *)
Record ReqTaskReply := mkReply {
  p_Type : Z; p_Tid : nat;
  p_File : string; p_NReduce : nat;
  p_Files : list string }.

Definition sleep_reply (tid : nat) : ReqTaskReply := mkReply TaskTypeSleep tid "" 0 [].

Record CompleteTaskArgs := mkArgs {
  a_Type : Z; a_Tid : Z; a_MapFiles : list IntermediateFile; a_ReduceFile : string }.

(** [deepCopy] copies type, id and map output, and leaves [ReduceOut] zero. *)
Definition deepCopy (a : CompleteTaskArgs) : CompleteTaskArgs :=
  mkArgs (a_Type a) (a_Tid a) (a_MapFiles a) "".

(** Where the main goroutine is. *)
Inductive main_pc :=
  | MapWait                 (* receiving in the first loop *)
  | MapRequeue (t : nat)    (* sending a task back after a malformed ack *)
  | Enqueue (k : nat)       (* holding [mu], about to send reduce task [k] *)
  | ReduceWait              (* receiving in the second loop *)
  | Finished
  | Panicked.

Record coord := mkCoord {
  nReduce : nat;
  inputFiles : list string;
  mapTaskState : list mapTask;
  reduceTaskState : list reduceTask;
  taskQueue : list task;
  completionQueue : list CompleteTaskArgs;
  coordinatorState : coordinatorState_t;
  pc : main_pc;
  incomplete : Z;           (* incompleteMapTasks, then incompleteReduceTasks *)
  handlers : list task;     (* ReqTask calls between the receive and [RLock] *)
  timers : list task }.     (* sleeping timeout goroutines *)

Definition chan_cap : nat := 128.

Definition set_pc (c : coord) (p : main_pc) : coord :=
  mkCoord (nReduce c) (inputFiles c) (mapTaskState c) (reduceTaskState c) (taskQueue c)
    (completionQueue c) (coordinatorState c) p (incomplete c) (handlers c) (timers c).
Definition set_queues (c : coord) (q h tm : list task) : coord :=
  mkCoord (nReduce c) (inputFiles c) (mapTaskState c) (reduceTaskState c) q
    (completionQueue c) (coordinatorState c) (pc c) (incomplete c) h tm.
Definition set_completions (c : coord) (q : list CompleteTaskArgs) : coord :=
  mkCoord (nReduce c) (inputFiles c) (mapTaskState c) (reduceTaskState c) (taskQueue c)
    q (coordinatorState c) (pc c) (incomplete c) (handlers c) (timers c).
Definition set_maps (c : coord) (ms : list mapTask) (n : Z) : coord :=
  mkCoord (nReduce c) (inputFiles c) ms (reduceTaskState c) (taskQueue c)
    (completionQueue c) (coordinatorState c) (pc c) n (handlers c) (timers c).
Definition set_reduces (c : coord) (rs : list reduceTask) (n : Z) : coord :=
  mkCoord (nReduce c) (inputFiles c) (mapTaskState c) rs (taskQueue c)
    (completionQueue c) (coordinatorState c) (pc c) n (handlers c) (timers c).
Definition set_state (c : coord) (st : coordinatorState_t) : coord :=
  mkCoord (nReduce c) (inputFiles c) (mapTaskState c) (reduceTaskState c) (taskQueue c)
    (completionQueue c) st (pc c) (incomplete c) (handlers c) (timers c).

(** A send: [None] while the channel is full. *)
Definition send_task (c : coord) (t : task) : option coord :=
  if length (taskQueue c) <? chan_cap
  then Some (set_queues c (taskQueue c ++ [t]) (handlers c) (timers c)) else None.

(** [ReqTask] after the receive, under [RLock]: the reply, and whether the
    timeout goroutine is started. *)
Definition ReqTask (c : coord) (t : task) : outcome (ReqTaskReply * bool) :=
  if decide (taskType t = coordinatorState c) then
    match taskType t with
    | coordinatorStateMap =>
        match mapTaskState c !! tid t with
        | Some mt => Ret (mkReply TaskTypeMap (tid t) (m_inputFile mt) (nReduce c) [], true)
        | None => Panic "index out of range"
        end
    | coordinatorStateReduce =>
        match reduceTaskState c !! tid t with
        | Some rt => Ret (mkReply TaskTypeReduce (tid t) "" 0 (r_intermediateFiles rt), true)
        | None => Panic "index out of range"
        end
    | coordinatorStateDone => Ret (sleep_reply (tid t), false)
    end
  else Ret (sleep_reply 0, false).

(** [ReqTask] when nothing arrives on the queue within [reqTaskTimeout]. *)
Definition ReqTask_timeout : ReqTaskReply := sleep_reply 0.

(** The timeout goroutine after its sleep: must the task be sent again? *)
Definition timer_fires (c : coord) (t : task) : outcome bool :=
  taskDone ← match taskType t with
    | coordinatorStateMap =>
        match mapTaskState c !! tid t with
        | Some mt => Ret (m_done mt) | None => Panic "index out of range" end
    | coordinatorStateReduce =>
        match reduceTaskState c !! tid t with
        | Some rt => Ret (r_done rt) | None => Panic "index out of range" end
    | coordinatorStateDone => Ret true
    end;
  Ret (bool_decide (taskType t = coordinatorState c) && negb taskDone).

Definition CompleteTask (c : coord) (a : CompleteTaskArgs) : option coord :=
  if length (completionQueue c) <? chan_cap
  then Some (set_completions c (completionQueue c ++ [deepCopy a])) else None.

Definition Done (c : coord) : bool := bool_decide (coordinatorState c = coordinatorStateDone).

(** [f.file = v.File; f.reducerTid = v.ReducerTid] for each index. *)
Definition copy_files (old new : list IntermediateFile) : list IntermediateFile :=
  foldl (fun l iv => <[iv.1 := iv.2]> l) old (imap (fun i v => (i, v)) new).

(** The body of the first loop, for an ack received. *)
Definition map_ack (c : coord) (a : CompleteTaskArgs) : coord :=
  if negb (a_Type a =? TaskTypeMap)%Z then c
  else if (a_Tid a <? 0)%Z || (Z.of_nat (length (inputFiles c)) <=? a_Tid a)%Z then c
  else if negb (length (a_MapFiles a) =? nReduce c) then set_pc c (MapRequeue (Z.to_nat (a_Tid a)))
  else
    match mapTaskState c !! Z.to_nat (a_Tid a) with
    | None => set_pc c Panicked
    | Some mt =>
        if m_done mt then c
        else set_maps c
          (<[Z.to_nat (a_Tid a) := mkMapTask (m_tid mt) true (m_inputFile mt)
               (copy_files (m_intermediateFiles mt) (a_MapFiles a))]> (mapTaskState c))
          (incomplete c - 1)
    end.

(** The body of the second loop. *)
Definition reduce_ack (c : coord) (a : CompleteTaskArgs) : coord :=
  if negb (a_Type a =? TaskTypeReduce)%Z then c
  else if (a_Tid a <? 0)%Z || (Z.of_nat (nReduce c) <=? a_Tid a)%Z then c
  else
    match reduceTaskState c !! Z.to_nat (a_Tid a) with
    | None => set_pc c Panicked
    | Some rt =>
        if r_done rt then c
        else set_reduces c
          (<[Z.to_nat (a_Tid a) := mkReduceTask (r_tid rt) true (r_intermediateFiles rt)]> (reduceTaskState c))
          (incomplete c - 1)
    end.

(** [append] to the reducer the file names; any other index panics. *)
Definition assign_file (o : outcome (list reduceTask)) (f : IntermediateFile) : outcome (list reduceTask) :=
  rs ← o;
  if (f.1 <? 0)%Z then Panic "index out of range" else
  match rs !! Z.to_nat f.1 with
  | Some r => Ret (<[Z.to_nat f.1 := mkReduceTask (r_tid r) (r_done r) (r_intermediateFiles r ++ [f.2])]> rs)
  | None => Panic "index out of range"
  end.

Definition assign_files (ms : list mapTask) (rs : list reduceTask) : outcome (list reduceTask) :=
  foldl (fun o mts => foldl assign_file o (m_intermediateFiles mts)) (Ret rs) ms.

(** One move of [mapReduce]; [None] when it blocks or has returned. *)
Definition mapReduce (c : coord) : option coord :=
  match pc c with
  | MapWait =>
      if (0 <? incomplete c)%Z then
        match completionQueue c with
        | [] => None
        | a :: q => Some (map_ack (set_completions c q) a)
        end
      else Some (set_pc c (Enqueue 0))
  | MapRequeue t => (fun c' => set_pc c' MapWait) <$> send_task c (mkTask t coordinatorStateMap)
  | Enqueue k =>
      if k <? nReduce c
      then (fun c' => set_pc c' (Enqueue (S k))) <$> send_task c (mkTask k coordinatorStateReduce)
      else
        match assign_files (mapTaskState c) (reduceTaskState c) with
        | Ret rs =>
            Some (set_pc (set_state (set_reduces c rs (Z.of_nat (nReduce c))) coordinatorStateReduce) ReduceWait)
        | _ => Some (set_pc c Panicked)
        end
  | ReduceWait =>
      if (0 <? incomplete c)%Z then
        match completionQueue c with
        | [] => None
        | a :: q => Some (reduce_ack (set_completions c q) a)
        end
      else Some (set_pc (set_state c coordinatorStateDone) Finished)
  | Finished | Panicked => None
  end.

(** [MakeCoordinator] sends the map tasks before any receiver exists: with
    more files than the channel holds it blocks for ever ([None]). *)
Fixpoint queue_map_tasks (n : nat) (tid : nat) (q : list task) : option (list task) :=
  match n with
  | 0 => Some q
  | S n => if length q <? chan_cap
           then queue_map_tasks n (S tid) (q ++ [mkTask tid coordinatorStateMap]) else None
  end.

Definition new_map_task (nReduce : nat) (tid : nat) (inputFile : string) : mapTask :=
  mkMapTask tid false inputFile (replicate nReduce (0%Z, "")).

Definition new_reduce_task (tid : nat) : reduceTask := mkReduceTask tid false [].

Definition MakeCoordinator (files : list string) (nReduce : nat) : option coord :=
  q ← queue_map_tasks (length files) 0 [];
  Some (mkCoord nReduce files (imap (new_map_task nReduce) files)
          (new_reduce_task <$> seq 0 nReduce) q [] coordinatorStateMap MapWait
          (Z.of_nat (length files)) [] []).

(** ** The coordinator as a transition system *)

Inductive event :=
  | EvReqRecv                         (* a ReqTask call receives a task *)
  | EvReqLock (i : nat)               (* the i-th such call replies *)
  | EvTimer (i : nat)                 (* the i-th timeout goroutine fires *)
  | EvComplete (a : CompleteTaskArgs) (* a CompleteTask call *)
  | EvMain.

(** [RLock] waits while the main goroutine holds [mu] over the sends. *)
Definition locked (c : coord) : bool := match pc c with Enqueue _ => true | _ => false end.

Definition crashed (c : coord) : bool := match pc c with Panicked => true | _ => false end.

Definition req_recv (c : coord) : option coord :=
  match taskQueue c with
  | [] => None
  | t :: q => Some (set_queues c q (handlers c ++ [t]) (timers c))
  end.

Definition req_lock (c : coord) (i : nat) : option coord :=
  if locked c then None else
  t ← handlers c !! i;
  Some match ReqTask c t with
       | Ret (_, true) => set_queues c (taskQueue c) (delete i (handlers c)) (timers c ++ [t])
       | Ret (_, false) => set_queues c (taskQueue c) (delete i (handlers c)) (timers c)
       | _ => set_pc c Panicked
       end.

Definition timer (c : coord) (i : nat) : option coord :=
  if locked c then None else
  t ← timers c !! i;
  match timer_fires c t with
  | Ret true =>
      c' ← send_task c t;
      Some (set_queues c' (taskQueue c') (handlers c') (delete i (timers c')))
  | Ret false => Some (set_queues c (taskQueue c) (handlers c) (delete i (timers c)))
  | _ => Some (set_pc c Panicked)
  end.

Definition exec (e : event) (c : coord) : option coord :=
  if crashed c then None else
  match e with
  | EvReqRecv => req_recv c
  | EvReqLock i => req_lock c i
  | EvTimer i => timer c i
  | EvComplete a => CompleteTask c a
  | EvMain => mapReduce c
  end.
(** ** Invariant *)

Definition undone_maps (ms : list mapTask) : nat := lcount (fun m => m_done m = false) ms.
Definition undone_reduces (rs : list reduceTask) : nat := lcount (fun r => r_done r = false) rs.

(** A task somewhere between the queue and the end of its timeout. *)
Definition in_flight (c : coord) (t : task) : Prop :=
  t ∈ taskQueue c \/ t ∈ handlers c \/ t ∈ timers c.

Definition task_ok (c : coord) (t : task) : Prop :=
  match taskType t with
  | coordinatorStateMap => tid t < length (inputFiles c)
  | coordinatorStateReduce => tid t < nReduce c
  | coordinatorStateDone => False
  end.

Definition all_maps_done (c : coord) : Prop := undone_maps (mapTaskState c) = 0.
Definition all_reduces_done (c : coord) : Prop := undone_reduces (reduceTaskState c) = 0.

(** The files of reducer [r], in the order of the map tasks. *)
Definition files_for (fs : list IntermediateFile) (r : nat) : list string :=
  (filter (fun f : IntermediateFile => f.1 = Z.of_nat r) fs).*2.

Definition reducer_input (ms : list mapTask) (r : nat) : list string :=
  files_for (ms ≫= m_intermediateFiles) r.

Definition maps_covered (c : coord) : Prop :=
  forall i m, mapTaskState c !! i = Some m -> m_done m = false ->
    in_flight c (mkTask i coordinatorStateMap) \/ pc c = MapRequeue i.

Definition reduces_covered (c : coord) : Prop :=
  forall i r, reduceTaskState c !! i = Some r -> r_done r = false ->
    in_flight c (mkTask i coordinatorStateReduce).

Definition reduces_fresh (c : coord) : Prop :=
  reduceTaskState c = new_reduce_task <$> seq 0 (nReduce c).

Definition inputs_assigned (c : coord) : Prop :=
  forall i r, reduceTaskState c !! i = Some r ->
    r_intermediateFiles r = reducer_input (mapTaskState c) i.

Definition pc_ok (c : coord) : Prop :=
  match pc c with
  | MapWait | MapRequeue _ =>
      coordinatorState c = coordinatorStateMap /\
      incomplete c = Z.of_nat (undone_maps (mapTaskState c)) /\
      reduces_fresh c /\ maps_covered c
  | Enqueue k =>
      coordinatorState c = coordinatorStateMap /\ all_maps_done c /\ reduces_fresh c /\
      k <= nReduce c /\
      forall r, r < k -> mkTask r coordinatorStateReduce ∈ taskQueue c \/
                         mkTask r coordinatorStateReduce ∈ handlers c
  | ReduceWait =>
      coordinatorState c = coordinatorStateReduce /\ all_maps_done c /\
      incomplete c = Z.of_nat (undone_reduces (reduceTaskState c)) /\
      inputs_assigned c /\ reduces_covered c
  | Finished =>
      coordinatorState c = coordinatorStateDone /\ all_maps_done c /\ all_reduces_done c /\
      inputs_assigned c
  | Panicked => coordinatorState c = coordinatorStateMap /\ all_maps_done c
  end.

Record inv (files : list string) (n : nat) (c : coord) : Prop := {
  inv_n : nReduce c = n;
  inv_inputs : inputFiles c = files;
  inv_maps : length (mapTaskState c) = length files;
  inv_map : forall i m, mapTaskState c !! i = Some m ->
    files !! i = Some (m_inputFile m) /\ length (m_intermediateFiles m) = n;
  inv_reduces : length (reduceTaskState c) = n;
  inv_tasks : forall t, in_flight c t -> task_ok c t;
  inv_requeue : forall t, pc c = MapRequeue t -> t < length files;
  inv_pc : pc_ok c }.

(** *** The initial state *)

Lemma queue_map_tasks_spec n k q :
  queue_map_tasks n k q =
  if bool_decide (length q + n <= chan_cap \/ n = 0)
  then Some (q ++ ((fun i => mkTask i coordinatorStateMap) <$> seq k n)) else None.
Proof.
  revert k q. induction n as [|n IH]; intros k q; simpl.
  - rewrite bool_decide_eq_true_2 by lia. by rewrite app_nil_r.
  - destruct (Nat.ltb_spec (length q) chan_cap).
    + rewrite IH, length_app. simpl.
      rewrite (bool_decide_ext _ (length q + S n <= chan_cap \/ S n = 0)) by lia.
      case_bool_decide; [|done]. by rewrite <-app_assoc.
    + by rewrite bool_decide_eq_false_2 by lia.
Qed.

(** [MakeCoordinator] returns exactly when the input files fit the task
    channel's 128 slots, with every map task queued; with more files it
    blocks for ever on the send, since nothing receives yet. *)
Theorem MakeCoordinator_returns files n :
  if decide (length files <= chan_cap) then
    exists c, MakeCoordinator files n = Some c /\
      taskQueue c = (fun i => mkTask i coordinatorStateMap) <$> seq 0 (length files)
  else MakeCoordinator files n = None.
Proof.
  unfold MakeCoordinator. rewrite queue_map_tasks_spec. simpl. case_decide.
  - rewrite bool_decide_eq_true_2 by lia. simpl. by eexists.
  - by rewrite bool_decide_eq_false_2 by lia.
Qed.

Lemma undone_maps_all ms : (forall m, m ∈ ms -> m_done m = false) -> undone_maps ms = length ms.
Proof.
  unfold undone_maps. induction ms as [|m ms IH]; intros H; [done|].
  rewrite lcount_cons, decide_True by (apply H; set_solver).
  simpl. rewrite IH; [done|]. intros. apply H. set_solver.
Qed.

Lemma inv_init files n c : MakeCoordinator files n = Some c -> inv files n c.
Proof.
  unfold MakeCoordinator. rewrite queue_map_tasks_spec. simpl.
  case_bool_decide; [|done]. simpl. intros [= <-]. split; simpl.
  - done.
  - done.
  - by rewrite length_imap.
  - intros i m. rewrite list_lookup_imap. destruct (files !! i); simpl; [|done].
    intros [= <-]. simpl. by rewrite length_replicate.
  - by rewrite length_fmap, length_seq.
  - intros t [H1|[H1|H1]]; simpl in H1; [|set_solver..].
    apply list_elem_of_fmap in H1 as (i & -> & Hi%elem_of_seq). unfold task_ok. simpl. lia.
  - done.
  - unfold pc_ok. simpl. split_and!; [done| |done|].
    + rewrite undone_maps_all; [by rewrite length_imap|].
      intros m (i & f & -> & _)%elem_of_lookup_imap. done.
    + intros i m Hi _. left. left. simpl. apply list_elem_of_fmap. exists i. split; [done|].
      apply lookup_lt_Some in Hi. simpl in Hi. rewrite length_imap in Hi. apply elem_of_seq. lia.
Qed.

(** *** Channel and task-list moves *)

Lemma send_task_Some c t c' :
  send_task c t = Some c' ->
  length (taskQueue c) < chan_cap /\ c' = set_queues c (taskQueue c ++ [t]) (handlers c) (timers c).
Proof.
  unfold send_task. destruct (Nat.ltb_spec (length (taskQueue c)) chan_cap); [|done].
  by intros [= <-].
Qed.

Lemma elem_of_delete_idx {A} (l : list A) i x y :
  l !! i = Some x -> y ∈ l <-> y = x \/ y ∈ delete i l.
Proof. intros H. rewrite (delete_Permutation l i x H) at 1. by rewrite elem_of_cons. Qed.

(** Nothing but the task lists changes, and no task that the current phase
    still needs gets lost. *)
Lemma inv_move files n c q h tm :
  inv files n c -> crashed c = false ->
  (forall t, in_flight (set_queues c q h tm) t -> in_flight c t) ->
  (forall t, in_flight c t -> in_flight (set_queues c q h tm) t \/
     locked c = false /\ taskType t <> coordinatorState c \/
     locked c = false /\ (forall m, taskType t = coordinatorStateMap -> mapTaskState c !! tid t = Some m -> m_done m = true) /\
       (forall r, taskType t = coordinatorStateReduce -> reduceTaskState c !! tid t = Some r -> r_done r = true)) ->
  (locked c = true -> forall t, t ∈ taskQueue c \/ t ∈ handlers c -> t ∈ q \/ t ∈ h) ->
  inv files n (set_queues c q h tm).
Proof.
  intros [H1 H2 H3 H4 H5 H6 H7 H8] Hcr Hsub Hkeep Hlock. split; simpl; try done.
  - intros t Ht. specialize (H6 t (Hsub t Ht)). done.
  - unfold pc_ok in *. simpl. unfold locked in *. destruct (pc c) eqn:Hpc; try done.
    + destruct H8 as (Hst & Hinc & Hf & Hcov). split_and!; [done..|].
      intros i m Hi Hm. destruct (Hcov i m Hi Hm) as [Hfl|]; [|by right].
      destruct (Hkeep _ Hfl) as [|[[_ Hd]|(_ & Hd & _)]]; [by left|by rewrite Hst in Hd|].
      by rewrite (Hd m eq_refl Hi) in Hm.
    + destruct H8 as (Hst & Hinc & Hf & Hcov). split_and!; [done..|].
      intros i m Hi Hm. destruct (Hcov i m Hi Hm) as [Hfl|]; [|by right].
      destruct (Hkeep _ Hfl) as [|[[_ Hd]|(_ & Hd & _)]]; [by left|by rewrite Hst in Hd|].
      by rewrite (Hd m eq_refl Hi) in Hm.
    + destruct H8 as (Hst & Hinc & Hf & Hk & Hq). split_and!; [done..|].
      intros r Hr. by apply Hlock, Hq.
    + destruct H8 as (Hst & Hinc & Hf & Hin & Hcov). split_and!; [done..|].
      intros i m Hi Hm. specialize (Hcov i m Hi Hm).
      destruct (Hkeep _ Hcov) as [|[[_ Hd]|(_ & _ & Hd)]]; [done|by rewrite Hst in Hd|].
      by rewrite (Hd m eq_refl Hi) in Hm.
Qed.

Lemma inv_req_recv files n c c' :
  inv files n c -> crashed c = false -> req_recv c = Some c' -> inv files n c'.
Proof.
  intros Hinv Hcr. unfold req_recv. destruct (taskQueue c) as [|t q] eqn:Hq; [done|].
  intros [= <-]. apply inv_move; try done.
  - intros t'. unfold in_flight. simpl. rewrite Hq. set_solver.
  - intros t'. unfold in_flight. simpl. rewrite Hq. set_solver.
  - intros _ t'. rewrite Hq. set_solver.
Qed.

(** The handler's and the timer's reads are in range. *)
Lemma task_in_range files n c t :
  inv files n c -> task_ok c t ->
  match taskType t with
  | coordinatorStateMap => is_Some (mapTaskState c !! tid t)
  | coordinatorStateReduce => is_Some (reduceTaskState c !! tid t)
  | coordinatorStateDone => False
  end.
Proof.
  intros Hinv. unfold task_ok. pose proof (inv_maps _ _ _ Hinv). pose proof (inv_reduces _ _ _ Hinv).
  rewrite (inv_inputs _ _ _ Hinv), (inv_n _ _ _ Hinv).
  destruct (taskType t); [| |done]; intros; apply lookup_lt_is_Some; lia.
Qed.

Lemma ReqTask_spec files n c t :
  inv files n c -> task_ok c t ->
  match ReqTask c t with
  | Ret (_, true) => taskType t = coordinatorState c
  | Ret (_, false) => taskType t <> coordinatorState c
  | _ => False
  end.
Proof.
  intros Hinv Hok. pose proof (task_in_range _ _ _ _ Hinv Hok) as Hr. unfold ReqTask.
  case_decide as Hd; [|done]. destruct (taskType t); [| |done]; destruct Hr as [? ->]; done.
Qed.

Lemma inv_req_lock files n c i c' :
  inv files n c -> crashed c = false -> req_lock c i = Some c' -> inv files n c'.
Proof.
  intros Hinv Hcr. unfold req_lock. destruct (locked c) eqn:Hl; [done|].
  destruct (handlers c !! i) as [t|] eqn:Hi; simpl; [|done]. intros [= <-].
  assert (in_flight c t) as Hfl by (right; left; by eapply list_elem_of_lookup_2).
  pose proof (ReqTask_spec _ _ _ t Hinv (inv_tasks _ _ _ Hinv t Hfl)) as Hs.
  pose proof (fun y => elem_of_delete_idx (handlers c) i t y Hi) as Hdel.
  destruct (ReqTask c t) as [[reply []]| |]; try done; apply inv_move; try done;
    try (by rewrite Hl); intros t'; unfold in_flight; simpl; rewrite (Hdel t'); rewrite ?elem_of_app, ?list_elem_of_singleton.
  - naive_solver.
  - naive_solver.
  - naive_solver.
  - destruct (decide (t' = t)) as [->|]; [right; left; done|naive_solver].
Qed.

Lemma timer_fires_spec files n c t :
  inv files n c -> task_ok c t ->
  match timer_fires c t with
  | Ret true => True
  | Ret false => taskType t <> coordinatorState c \/
      (forall m, taskType t = coordinatorStateMap -> mapTaskState c !! tid t = Some m -> m_done m = true) /\
      (forall r, taskType t = coordinatorStateReduce -> reduceTaskState c !! tid t = Some r -> r_done r = true)
  | _ => False
  end.
Proof.
  intros Hinv Hok. pose proof (task_in_range _ _ _ _ Hinv Hok) as Hr. unfold timer_fires.
  destruct (taskType t); [| |done]; destruct Hr as [x ->]; simpl;
    [destruct (m_done x) eqn:Hx|destruct (r_done x) eqn:Hx]; case_bool_decide; simpl;
    try done; try (by left); right; split; intros; simplify_eq; done.
Qed.

Lemma inv_timer files n c i c' :
  inv files n c -> crashed c = false -> timer c i = Some c' -> inv files n c'.
Proof.
  intros Hinv Hcr. unfold timer. destruct (locked c) eqn:Hl; [done|].
  destruct (timers c !! i) as [t|] eqn:Hi; simpl; [|done].
  assert (in_flight c t) as Hfl by (right; right; by eapply list_elem_of_lookup_2).
  pose proof (timer_fires_spec _ _ _ t Hinv (inv_tasks _ _ _ Hinv t Hfl)) as Hs.
  pose proof (fun y => elem_of_delete_idx (timers c) i t y Hi) as Hdel.
  destruct (timer_fires c t) as [[]| |]; try done.
  - destruct (send_task c t) as [c1|] eqn:Hsend; simpl; [|done]. intros [= <-].
    apply send_task_Some in Hsend as [_ ->]. simpl.
    apply (inv_move files n c (taskQueue c ++ [t]) (handlers c) (delete i (timers c))); try done;
      try (by rewrite Hl); intros t'; unfold in_flight; simpl; rewrite (Hdel t');
      rewrite ?elem_of_app, ?list_elem_of_singleton; naive_solver.
  - intros [= <-]. apply inv_move; try done; try (by rewrite Hl); intros t';
      unfold in_flight; simpl; rewrite (Hdel t').
    + naive_solver.
    + destruct (decide (t' = t)) as [->|]; [|naive_solver].
      intros _. right. destruct Hs as [|[]]; [left|right]; done.
Qed.
(** *** Acks *)

Lemma copy_files_from pre old new :
  length old = length new ->
  foldl (fun (l : list IntermediateFile) (iv : nat * IntermediateFile) => <[iv.1 := iv.2]> l)
    (pre ++ old) (imap (fun i v => (length pre + i, v)) new) =
  pre ++ new.
Proof.
  revert pre old. induction new as [|v new IH]; intros pre [|o old] Hl; try done; simpl.
  rewrite insert_app_r. simpl.
  rewrite (imap_ext _ (fun i x => (length (pre ++ [v]) + i, x)))
    by (intros; rewrite length_app; simpl; f_equal; lia).
  change (pre ++ v :: old) with (pre ++ [v] ++ old). rewrite (app_assoc pre [v] old).
  rewrite IH by (simpl in Hl; lia). by rewrite <-app_assoc.
Qed.

Lemma copy_files_eq old new : length old = length new -> copy_files old new = new.
Proof. intros H. exact (copy_files_from [] old new H). Qed.

Lemma in_flight_ext c c' :
  taskQueue c' = taskQueue c -> handlers c' = handlers c -> timers c' = timers c ->
  forall t, in_flight c' t <-> in_flight c t.
Proof. unfold in_flight. by intros -> -> ->. Qed.

Lemma inv_completions files n c q :
  inv files n c -> inv files n (set_completions c q).
Proof. intros [H1 H2 H3 H4 H5 H6 H7 H8]. by split. Qed.

(** The three outcomes of an ack in the map phase. *)
Inductive map_ack_cases (c : coord) (a : CompleteTaskArgs) : coord -> Prop :=
  | MapIgnored : map_ack_cases c a c
  | MapMalformed t : t < length (inputFiles c) -> map_ack_cases c a (set_pc c (MapRequeue t))
  | MapAccepted t mt :
      mapTaskState c !! t = Some mt -> m_done mt = false -> a_Type a = TaskTypeMap ->
      a_Tid a = Z.of_nat t -> length (a_MapFiles a) = nReduce c ->
      map_ack_cases c a
        (set_maps c (<[t := mkMapTask (m_tid mt) true (m_inputFile mt) (a_MapFiles a)]> (mapTaskState c))
          (incomplete c - 1)).

Lemma map_ack_spec files n c a : inv files n c -> map_ack_cases c a (map_ack c a).
Proof.
  intros Hinv. unfold map_ack.
  destruct (Z.eqb_spec (a_Type a) TaskTypeMap) as [Ht|]; simpl; [|constructor].
  destruct (Z.ltb_spec (a_Tid a) 0); simpl; [constructor|].
  destruct (Z.leb_spec (Z.of_nat (length (inputFiles c))) (a_Tid a)); simpl; [constructor|].
  destruct (Nat.eqb_spec (length (a_MapFiles a)) (nReduce c)); simpl; [|constructor; lia].
  destruct (lookup_lt_is_Some_2 (mapTaskState c) (Z.to_nat (a_Tid a))) as [mt Hmt].
  { rewrite (inv_maps _ _ _ Hinv), <-(inv_inputs _ _ _ Hinv). lia. }
  rewrite Hmt. destruct (m_done mt) eqn:Hd; [constructor|].
  rewrite copy_files_eq.
  - constructor; [done..|lia|done].
  - rewrite (proj2 (inv_map _ _ _ Hinv _ _ Hmt)), <-(inv_n _ _ _ Hinv). done.
Qed.

Inductive reduce_ack_cases (c : coord) (a : CompleteTaskArgs) : coord -> Prop :=
  | ReduceIgnored : reduce_ack_cases c a c
  | ReduceAccepted t rt :
      reduceTaskState c !! t = Some rt -> r_done rt = false -> a_Type a = TaskTypeReduce ->
      a_Tid a = Z.of_nat t ->
      reduce_ack_cases c a
        (set_reduces c (<[t := mkReduceTask (r_tid rt) true (r_intermediateFiles rt)]> (reduceTaskState c))
          (incomplete c - 1)).

Lemma reduce_ack_spec files n c a : inv files n c -> reduce_ack_cases c a (reduce_ack c a).
Proof.
  intros Hinv. unfold reduce_ack.
  destruct (Z.eqb_spec (a_Type a) TaskTypeReduce) as [Ht|]; simpl; [|constructor].
  destruct (Z.ltb_spec (a_Tid a) 0); simpl; [constructor|].
  destruct (Z.leb_spec (Z.of_nat (nReduce c)) (a_Tid a)); simpl; [constructor|].
  destruct (lookup_lt_is_Some_2 (reduceTaskState c) (Z.to_nat (a_Tid a))) as [rt Hrt].
  { rewrite (inv_reduces _ _ _ Hinv), <-(inv_n _ _ _ Hinv). lia. }
  rewrite Hrt. destruct (r_done rt) eqn:Hd; [constructor|]. constructor; [done..|lia].
Qed.

Lemma undone_maps_ack ms t mt m' :
  ms !! t = Some mt -> m_done mt = false -> m_done m' = true ->
  undone_maps (<[t:=m']> ms) + 1 = undone_maps ms.
Proof.
  intros Ht Hd Hd'. pose proof (lcount_insert (fun m => m_done m = false) ms t mt m' Ht) as H.
  rewrite decide_True, decide_False in H by congruence. unfold undone_maps. lia.
Qed.

Lemma undone_reduces_ack rs t rt r' :
  rs !! t = Some rt -> r_done rt = false -> r_done r' = true ->
  undone_reduces (<[t:=r']> rs) + 1 = undone_reduces rs.
Proof.
  intros Ht Hd Hd'. pose proof (lcount_insert (fun m => r_done m = false) rs t rt r' Ht) as H.
  rewrite decide_True, decide_False in H by congruence. unfold undone_reduces. lia.
Qed.

Lemma inv_map_ack files n c a :
  inv files n c -> pc c = MapWait -> inv files n (map_ack c a).
Proof.
  intros Hinv Hpc. destruct (map_ack_spec _ _ _ a Hinv) as [|t Ht|t mt Hmt Hd _ _ Hlen]; [done| |];
    destruct Hinv as [H1 H2 H3 H4 H5 H6 H7 H8]; unfold pc_ok in H8; rewrite Hpc in H8;
    destruct H8 as (Hst & Hinc & Hf & Hcov).
  - split; simpl; try done; [by intros ? [= <-]; rewrite <-H2|].
    unfold pc_ok. simpl. split_and!; [done..|]. intros i m Hi Hm.
    destruct (Hcov i m Hi Hm) as [|Hr]; [by left|congruence].
  - split; simpl; try done.
    + by rewrite length_insert.
    + intros i m. rewrite list_lookup_insert_Some. intros [(<- & <- & _)|(_ & Hi)]; [|by apply H4].
      simpl. split; [apply (H4 _ _ Hmt)|congruence].
    + unfold pc_ok. simpl. rewrite Hpc. split_and!; [done| |done|].
      * pose proof (undone_maps_ack (mapTaskState c) t mt
          (mkMapTask (m_tid mt) true (m_inputFile mt) (a_MapFiles a)) Hmt Hd eq_refl). lia.
      * intros i m. simpl. rewrite list_lookup_insert_Some.
        intros [(_ & <- & _)|(_ & Hi)] Hm; [done|]. by apply (Hcov i m).
Qed.

Lemma inv_reduce_ack files n c a :
  inv files n c -> pc c = ReduceWait -> inv files n (reduce_ack c a).
Proof.
  intros Hinv Hpc. destruct (reduce_ack_spec _ _ _ a Hinv) as [|t rt Hrt Hd _ _]; [done|].
  destruct Hinv as [H1 H2 H3 H4 H5 H6 H7 H8]; unfold pc_ok in H8; rewrite Hpc in H8;
    destruct H8 as (Hst & Hall & Hinc & Hin & Hcov).
  split; simpl; try done; [by rewrite length_insert|].
  unfold pc_ok. simpl. rewrite Hpc. split_and!; [done|done| | |].
  - pose proof (undone_reduces_ack (reduceTaskState c) t rt
      (mkReduceTask (r_tid rt) true (r_intermediateFiles rt)) Hrt Hd eq_refl). lia.
  - intros i r. simpl. rewrite list_lookup_insert_Some.
    intros [(<- & <- & _)|(_ & Hi)]; [|by apply Hin]. by apply (Hin _ rt).
  - intros i r. simpl. rewrite list_lookup_insert_Some.
    intros [(_ & <- & _)|(_ & Hi)] Hm; [done|]. by apply (Hcov i r).
Qed.

(** *** Handing the intermediate files to the reducers *)

Lemma assign_file_stuck fs o rs' :
  foldl assign_file o fs = Ret rs' -> exists rs, o = Ret rs.
Proof.
  revert o. induction fs as [|f fs IH]; intros o; simpl; [by eauto|].
  intros [rs1 H]%IH. destruct o; [by eauto|done|done].
Qed.

Lemma assign_file_fold fs rs rs' :
  foldl assign_file (Ret rs) fs = Ret rs' ->
  length rs' = length rs /\
  forall i r, rs !! i = Some r ->
    rs' !! i = Some (mkReduceTask (r_tid r) (r_done r) (r_intermediateFiles r ++ files_for fs i)).
Proof.
  revert rs. induction fs as [|f fs IH]; intros rs H; cbn [foldl] in H.
  - injection H as <-. split; [done|]. intros i r Hi. rewrite app_nil_r, Hi. by destruct r.
  - destruct (assign_file_stuck _ _ _ H) as [rs1 H1]. rewrite H1 in H. apply IH in H as [Hl H].
    cbn in H1. destruct (Z.ltb_spec f.1 0); [done|].
    destruct (rs !! Z.to_nat f.1) as [r0|] eqn:Hr0; [|done]. injection H1 as <-.
    rewrite length_insert in Hl. split; [done|]. intros i r Hi. unfold files_for. rewrite filter_cons.
    destruct (decide (Z.to_nat f.1 = i)) as [Heq|Hne].
    + rewrite decide_True by lia. subst i. rewrite Hi in Hr0. injection Hr0 as <-.
      rewrite (H (Z.to_nat f.1) _ (list_lookup_insert_eq _ _ _ (lookup_lt_Some _ _ _ Hi))).
      simpl. by rewrite <-app_assoc.
    + rewrite decide_False by lia. by rewrite (H i r) by (by rewrite list_lookup_insert_ne).
Qed.

Lemma assign_files_flat ms rs :
  assign_files ms rs = foldl assign_file (Ret rs) (ms ≫= m_intermediateFiles).
Proof.
  unfold assign_files. generalize (Ret rs). induction ms as [|m ms IH]; intros o; [done|].
  rewrite bind_cons, foldl_app. simpl. apply IH.
Qed.

Lemma assign_files_spec ms rs rs' :
  assign_files ms rs = Ret rs' ->
  length rs' = length rs /\
  forall i r, rs !! i = Some r ->
    rs' !! i = Some (mkReduceTask (r_tid r) (r_done r) (r_intermediateFiles r ++ reducer_input ms i)).
Proof. rewrite assign_files_flat. apply assign_file_fold. Qed.

Lemma assign_file_ret fs rs :
  (exists rs', foldl assign_file (Ret rs) fs = Ret rs') <->
  forall f, f ∈ fs -> (0 <= f.1 < Z.of_nat (length rs))%Z.
Proof.
  revert rs. induction fs as [|f fs IH]; intros rs; cbn [foldl].
  { split; [set_solver|by eexists]. }
  assert (assign_file (Ret rs) f = if decide (0 <= f.1 < Z.of_nat (length rs))%Z
    then assign_file (Ret rs) f else Panic "index out of range") as Hf.
  { case_decide as Hr; [done|]. cbn. destruct (Z.ltb_spec f.1 0); [done|].
    rewrite lookup_ge_None_2; [done|lia]. }
  rewrite Hf. case_decide as Hr.
  - cbn. destruct (Z.ltb_spec f.1 0); [lia|].
    destruct (lookup_lt_is_Some_2 rs (Z.to_nat f.1)) as [r ->]; [lia|].
    rewrite IH. setoid_rewrite length_insert. split.
    + intros H1 f' [-> | Hin]%elem_of_cons; [done|by apply H1].
    + intros H1 f' Hin. apply H1. by apply list_elem_of_further.
  - split; [|intros H; exfalso; apply Hr, H, list_elem_of_here].
    intros [rs' H%assign_file_stuck]. by destruct H.
Qed.

Lemma assign_files_ret ms rs :
  (exists rs', assign_files ms rs = Ret rs') <->
  forall m f, m ∈ ms -> f ∈ m_intermediateFiles m -> (0 <= f.1 < Z.of_nat (length rs))%Z.
Proof.
  rewrite assign_files_flat, assign_file_ret. split.
  - intros H m f Hm Hf. apply H, list_elem_of_bind. eauto.
  - intros H f (m & Hf & Hm)%list_elem_of_bind. by eapply H.
Qed.

Lemma fresh_lookup n i r :
  (new_reduce_task <$> seq 0 n) !! i = Some r -> r = new_reduce_task i.
Proof.
  rewrite list_lookup_fmap. destruct (seq 0 n !! i) as [k|] eqn:H; [|done].
  apply lookup_seq in H as [-> _]. simpl. by intros [= <-].
Qed.

Lemma undone_reduces_all rs : (forall r, r ∈ rs -> r_done r = false) -> undone_reduces rs = length rs.
Proof.
  unfold undone_reduces. induction rs as [|r rs IH]; intros H; [done|].
  rewrite lcount_cons, decide_True by (apply H; set_solver).
  simpl. rewrite IH; [done|]. intros. apply H. set_solver.
Qed.

(** The step from the map to the reduce phase, under the lock. *)
Lemma inv_start_reduce files n c k rs :
  inv files n c -> pc c = Enqueue k -> k = nReduce c ->
  assign_files (mapTaskState c) (reduceTaskState c) = Ret rs ->
  inv files n (set_pc (set_state (set_reduces c rs (Z.of_nat (nReduce c))) coordinatorStateReduce) ReduceWait).
Proof.
  intros [H1 H2 H3 H4 H5 H6 H7 H8] Hpc Hk Hrs. unfold pc_ok in H8. rewrite Hpc in H8.
  destruct H8 as (Hst & Hall & Hf & _ & Hq).
  apply assign_files_spec in Hrs as [Hl Hrs].
  assert (forall i r, rs !! i = Some r ->
    r_done r = false /\ r_intermediateFiles r = reducer_input (mapTaskState c) i) as Hnew.
  { intros i r Hi. destruct (lookup_lt_is_Some_2 (reduceTaskState c) i) as [r0 Hr0].
    { rewrite <-Hl. by eapply lookup_lt_Some. }
    pose proof (Hrs i r0 Hr0) as Hi'. rewrite Hi in Hi'. injection Hi' as ->.
    unfold reduces_fresh in Hf. rewrite Hf in Hr0. apply fresh_lookup in Hr0 as ->. done. }
  split; simpl; try done; [congruence|].
  unfold pc_ok. simpl. split_and!; [done|done| | |].
  - rewrite undone_reduces_all; [congruence|].
    intros r [i Hi]%list_elem_of_lookup. by eapply Hnew.
  - intros i r Hi. simpl in *. by apply Hnew.
  - intros i r Hi _. simpl in *. apply lookup_lt_Some in Hi.
    destruct (Hq i) as [|]; [lia|by left|by right; left].
Qed.

(** The main goroutine sends a map task again. *)
Lemma inv_resend files n c c' t :
  inv files n c -> pc c = MapRequeue t ->
  (fun c' => set_pc c' MapWait) <$> send_task c (mkTask t coordinatorStateMap) = Some c' -> inv files n c'.
Proof.
  intros Hinv Hpc. destruct (send_task _ _) as [c1|] eqn:Hs; simpl; [|done]. intros [= <-].
  apply send_task_Some in Hs as [_ ->]. pose proof (inv_requeue _ _ _ Hinv _ Hpc) as Ht.
  destruct Hinv as [H1 H2 H3 H4 H5 H6 H7 H8]. unfold pc_ok in H8. rewrite Hpc in H8.
  destruct H8 as (Hst & Hinc & Hf & Hcov). split; simpl; try done.
  - intros t' [Hin|Hin]; simpl in Hin.
    + apply elem_of_app in Hin as [Hin| ->%list_elem_of_singleton].
      { apply (H6 t'). by left. } { unfold task_ok. simpl. congruence. }
    + apply (H6 t'). by right.
  - unfold pc_ok. simpl. split_and!; [done..|]. intros i m Hi Hm. left. unfold in_flight. simpl.
    rewrite elem_of_app, list_elem_of_singleton.
    destruct (Hcov i m Hi Hm) as [[|]|[= ->]%(eq_trans (eq_sym Hpc))]; [by auto..|]. auto.
Qed.

(** It sends the next reduce task. *)
Lemma inv_queue_reduce files n c c' k :
  inv files n c -> pc c = Enqueue k -> k < nReduce c ->
  (fun c' => set_pc c' (Enqueue (S k))) <$> send_task c (mkTask k coordinatorStateReduce) = Some c' -> inv files n c'.
Proof.
  intros Hinv Hpc Hlt. destruct (send_task _ _) as [c1|] eqn:Hs; simpl; [|done]. intros [= <-].
  apply send_task_Some in Hs as [_ ->].
  destruct Hinv as [H1 H2 H3 H4 H5 H6 H7 H8]. unfold pc_ok in H8. rewrite Hpc in H8.
  destruct H8 as (Hst & Hall & Hf & Hk & Hq). split; simpl; try done.
  - intros t' [Hin|Hin]; simpl in Hin.
    { apply elem_of_app in Hin as [Hin| ->%list_elem_of_singleton]; [apply (H6 t'); by left|done]. }
    apply (H6 t'). by right.
  - unfold pc_ok. simpl. split_and!; [done..|]. intros r Hr.
    rewrite elem_of_app, list_elem_of_singleton.
    destruct (decide (r = k)) as [->|]; [by auto|].
    destruct (Hq r) as [|]; [lia|by auto..].
Qed.

Lemma inv_panic files n c k : inv files n c -> pc c = Enqueue k -> inv files n (set_pc c Panicked).
Proof.
  intros [H1 H2 H3 H4 H5 H6 H7 H8] Hpc. unfold pc_ok in H8. rewrite Hpc in H8. destruct H8 as (?&?&_). by split.
Qed.

Lemma inv_mapReduce files n c c' :
  inv files n c -> mapReduce c = Some c' -> inv files n c'.
Proof.
  intros Hinv. unfold mapReduce. destruct (pc c) eqn:Hpc; try done.
  - destruct (Z.ltb_spec 0 (incomplete c)).
    + destruct (completionQueue c) as [|a q]; [done|]. intros [= <-].
      apply inv_map_ack; [by apply inv_completions|done].
    + intros [= <-]. destruct Hinv as [H1 H2 H3 H4 H5 H6 H7 H8]. unfold pc_ok in H8. rewrite Hpc in H8.
      destruct H8 as (Hst & Hinc & Hf & Hcov). split; simpl; try done.
      unfold pc_ok. simpl. split_and!; [done| |done|lia|lia]. unfold all_maps_done. simpl. lia.
  - intros Hc. by eapply inv_resend.
  - destruct (Nat.ltb_spec k (nReduce c)).
    + intros Hc. by eapply inv_queue_reduce.
    + destruct (assign_files _ _) as [rs| |] eqn:Hrs; intros [= <-].
      * eapply inv_start_reduce; [done|exact Hpc| |done].
        pose proof (inv_pc _ _ _ Hinv) as H8. unfold pc_ok in H8. rewrite Hpc in H8. lia.
      * by eapply inv_panic.
      * by eapply inv_panic.
  - destruct (Z.ltb_spec 0 (incomplete c)).
    + destruct (completionQueue c) as [|a q]; [done|]. intros [= <-].
      apply inv_reduce_ack; [by apply inv_completions|done].
    + intros [= <-]. destruct Hinv as [H1 H2 H3 H4 H5 H6 H7 H8]. unfold pc_ok in H8. rewrite Hpc in H8.
      destruct H8 as (Hst & Hall & Hinc & Hin & Hcov). split; simpl; try done.
      unfold pc_ok. simpl. split_and!; [done|done| |done]. unfold all_reduces_done. simpl. lia.
Qed.

Lemma inv_exec files n e c c' : inv files n c -> exec e c = Some c' -> inv files n c'.
Proof.
  intros Hinv. unfold exec. destruct (crashed c) eqn:Hcr; [done|]. destruct e.
  - by apply inv_req_recv.
  - by apply inv_req_lock.
  - by apply inv_timer.
  - unfold CompleteTask. case_match; [|done]. intros [= <-]. by apply inv_completions.
  - by apply inv_mapReduce.
Qed.

Lemma inv_reach files n c0 c :
  MakeCoordinator files n = Some c0 -> reach exec c0 c -> inv files n c.
Proof.
  intros H0 Hr. eapply (reach_invariant exec (inv files n)); [|intros ???; apply inv_exec|done].
  by apply inv_init.
Qed.
(** ** What the coordinator guarantees *)

Lemma done_all_maps c i m :
  all_maps_done c -> mapTaskState c !! i = Some m -> m_done m = true.
Proof.
  unfold all_maps_done, undone_maps. rewrite lcount_zero, Forall_lookup. intros H Hi.
  specialize (H i m Hi). by destruct (m_done m).
Qed.

Lemma done_all_reduces c i r :
  all_reduces_done c -> reduceTaskState c !! i = Some r -> r_done r = true.
Proof.
  unfold all_reduces_done, undone_reduces. rewrite lcount_zero, Forall_lookup. intros H Hi.
  specialize (H i r Hi). by destruct (r_done r).
Qed.

(** C28: [Done] is true only once every map task and every reduce task has
    been acknowledged, and each reducer was given exactly the files the map
    tasks named for it, in the order of the map tasks. *)
Theorem Done_all_complete files n c0 c :
  MakeCoordinator files n = Some c0 -> reach exec c0 c -> Done c = true ->
  length (mapTaskState c) = length files /\ length (reduceTaskState c) = n /\
  (forall i m, mapTaskState c !! i = Some m -> m_done m = true /\ length (m_intermediateFiles m) = n) /\
  (forall i r, reduceTaskState c !! i = Some r ->
     r_done r = true /\ r_intermediateFiles r = reducer_input (mapTaskState c) i).
Proof.
  intros H0 Hr Hd. pose proof (inv_reach _ _ _ _ H0 Hr) as Hinv.
  unfold Done in Hd. apply bool_decide_eq_true in Hd.
  pose proof (inv_pc _ _ _ Hinv) as Hpc. unfold pc_ok in Hpc.
  destruct (pc c); try (destruct Hpc as (Hst & _); congruence).
  destruct Hpc as (_ & Hm & Hrd & Hin). split_and!.
  - apply Hinv.
  - apply Hinv.
  - intros i m Hi. split; [by eapply done_all_maps|]. by apply (inv_map _ _ _ Hinv i).
  - intros i r Hi. split; [by eapply done_all_reduces|by apply Hin].
Qed.

(** a reply to [ReqTask] is always one a worker can act on: a map task
    with its own input file and the number of reducers, or, once every map
    task is acknowledged, a reduce task with all the files the map tasks
    named for it, or the order to sleep; no index is out of range. *)
Theorem ReqTask_reply files n c0 c t :
  MakeCoordinator files n = Some c0 -> reach exec c0 c -> t ∈ handlers c -> locked c = false ->
  crashed c = false ->
  match ReqTask c t with
  | Ret (reply, started) =>
      (p_Type reply = TaskTypeSleep /\ started = false) \/
      (p_Type reply = TaskTypeMap /\ started = true /\ p_NReduce reply = n /\
        files !! p_Tid reply = Some (p_File reply)) \/
      (p_Type reply = TaskTypeReduce /\ started = true /\ p_Tid reply < n /\ all_maps_done c /\
        p_Files reply = reducer_input (mapTaskState c) (p_Tid reply))
  | _ => False
  end.
Proof.
  intros H0 Hr Ht Hl Hcr. pose proof (inv_reach _ _ _ _ H0 Hr) as Hinv.
  assert (task_ok c t) as Hok by (apply (inv_tasks _ _ _ Hinv); by right; left).
  pose proof (task_in_range _ _ _ _ Hinv Hok) as Hin. unfold ReqTask.
  case_decide as Hd; [|by left]. destruct (taskType t) eqn:Htt; [| |done]; destruct Hin as [x Hx]; rewrite Hx.
  - right. left. simpl. split_and!; [done|done|by apply Hinv|]. by apply (inv_map _ _ _ Hinv).
  - right. right. simpl. pose proof (inv_pc _ _ _ Hinv) as Hpc. unfold pc_ok, locked, crashed in *.
    destruct (pc c) eqn:E; try done; try (destruct Hpc as (Hst & _); congruence).
    destruct Hpc as (_ & Hm & _ & Hia & _). split_and!; [done|done| |done|by apply Hia].
    rewrite <-(inv_reduces _ _ _ Hinv). by eapply lookup_lt_Some.
Qed.

(** Acknowledged outputs are never overwritten. *)
Lemma maps_stable files n e c c' i m :
  inv files n c -> exec e c = Some c' ->
  mapTaskState c !! i = Some m -> m_done m = true -> mapTaskState c' !! i = Some m.
Proof.
  intros Hinv He Hi Hm. unfold exec in He. destruct (crashed c) eqn:Hcr; [done|]. destruct e; simpl in He.
  - unfold req_recv in He. case_match; [done|]. by injection He as <-.
  - unfold req_lock in He. case_match; [done|]. destruct (handlers c !! i0); simpl in He; [|done].
    injection He as <-. by repeat case_match.
  - unfold timer in He. case_match; [done|]. destruct (timers c !! i0) as [t|]; simpl in He; [|done].
    repeat case_match; try (by injection He as <-).
    destruct (send_task c t) eqn:Hs; simpl in He; [|done]. apply send_task_Some in Hs as [_ ->].
    by injection He as <-.
  - unfold CompleteTask in He. case_match; [|done]. by injection He as <-.
  - unfold mapReduce in He. destruct (pc c) eqn:Hpc; try done.
    + case_match; [|by injection He as <-]. case_match; [done|]. injection He as <-.
      pose proof (inv_completions _ _ _ l Hinv) as Hinv'.
      destruct (map_ack_spec _ _ _ c0 Hinv') as [|t Ht|t mt Hmt Hd _ _ Hlen]; simpl in *; [done..|].
      rewrite list_lookup_insert_ne; [done|]. congruence.
    + destruct (send_task _ _) eqn:Hs; simpl in He; [|done]. apply send_task_Some in Hs as [_ ->].
      by injection He as <-.
    + repeat case_match; try (by injection He as <-).
      destruct (send_task _ _) eqn:Hs; simpl in He; [|done]. apply send_task_Some in Hs as [_ ->].
      by injection He as <-.
    + case_match; [|by injection He as <-]. case_match; [done|]. injection He as <-.
      pose proof (inv_completions _ _ _ l Hinv) as Hinv'.
      by destruct (reduce_ack_spec _ _ _ c0 Hinv').
Qed.

(** map completions take effect exactly once: whatever happens later
    (late or duplicate acks of timed-out workers included), the output
    recorded for an acknowledged map task does not change. *)
Theorem map_output_stable files n c0 c c' i m :
  MakeCoordinator files n = Some c0 -> reach exec c0 c -> reach exec c c' ->
  mapTaskState c !! i = Some m -> m_done m = true -> mapTaskState c' !! i = Some m.
Proof.
  intros H0 Hr Hr' Hi Hm. pose proof (inv_reach _ _ _ _ H0 Hr) as Hinv.
  assert (inv files n c' /\ mapTaskState c' !! i = Some m) as [_ H]; [|done].
  destruct Hr' as [es Hes]. revert Hes.
  apply (run_invariant exec (fun c => inv files n c /\ mapTaskState c !! i = Some m)); [|done].
  intros e s s' [Hs1 Hs2] He. split; [by eapply inv_exec|by eapply maps_stable].
Qed.

(** the one index the coordinator does not validate: the main goroutine
    panics at the end of the map phase exactly when an acknowledged map
    output names a reducer outside the range of reducers. *)
Theorem assign_panics_iff files n c0 c :
  MakeCoordinator files n = Some c0 -> reach exec c0 c -> pc c = Enqueue n ->
  (mapReduce c = Some (set_pc c Panicked) <->
   exists m f, m ∈ mapTaskState c /\ f ∈ m_intermediateFiles m /\ ~ (0 <= f.1 < Z.of_nat n)%Z).
Proof.
  intros H0 Hr Hpc. pose proof (inv_reach _ _ _ _ H0 Hr) as Hinv.
  pose proof (assign_files_ret (mapTaskState c) (reduceTaskState c)) as Hret.
  rewrite (inv_reduces _ _ _ Hinv) in Hret.
  unfold mapReduce. rewrite Hpc, (inv_n _ _ _ Hinv). destruct (Nat.ltb_spec n n); [lia|].
  transitivity (~ exists rs, assign_files (mapTaskState c) (reduceTaskState c) = Ret rs).
  - destruct (assign_files _ _) as [rs| |]; split.
    + intros [=].
    + intros []. by exists rs.
    + intros _ [? [=]].
    + done.
    + intros _ [? [=]].
    + done.
  - rewrite Hret. split.
    + intros Hn. destruct (decide (Exists (fun m => Exists (fun f : IntermediateFile =>
        ~ (0 <= f.1 < Z.of_nat n)%Z) (m_intermediateFiles m)) (mapTaskState c))) as [Hex|Hex].
      * apply Exists_exists in Hex as (m & Hm & (f & Hf & Hb)%Exists_exists). eauto 10.
      * destruct Hn. intros m f Hm Hf. apply dec_stable. intros Hb. apply Hex.
        apply Exists_exists. exists m. split; [done|]. apply Exists_exists. by exists f.
    + intros (m & f & Hm & Hf & Hb) Hall. by eapply Hb, Hall.
Qed.

(** ** Well-behaved workers: an ack follows the hand-out of its task *)

Definition ack_for (n : nat) (a : CompleteTaskArgs) (t : task) : bool :=
  match taskType t with
  | coordinatorStateMap =>
      (a_Type a =? TaskTypeMap)%Z && (a_Tid a =? Z.of_nat (tid t))%Z &&
      bool_decide ((a_MapFiles a).*1 = Z.of_nat <$> seq 0 n)
  | coordinatorStateReduce =>
      (a_Type a =? TaskTypeReduce)%Z && (a_Tid a =? Z.of_nat (tid t))%Z
  | coordinatorStateDone => false
  end.

(** The task the reply of handler [i] hands to a worker, if any. *)
Definition handed_out (c : coord) (i : nat) : list task :=
  match handlers c !! i with
  | Some t => match ReqTask c t with Ret (_, true) => [t] | _ => [] end
  | None => []
  end.

(** The coordinator with the list of tasks its workers hold. *)
Definition exec_w (e : event) (s : coord * list task) : option (coord * list task) :=
  match e with
  | EvComplete a =>
      if existsb (ack_for (nReduce s.1) a) s.2 then (fun c' => (c', s.2)) <$> exec e s.1 else None
  | EvReqLock i => (fun c' => (c', s.2 ++ handed_out s.1 i)) <$> exec e s.1
  | _ => (fun c' => (c', s.2)) <$> exec e s.1
  end.

Lemma exec_w_exec e s s' : exec_w e s = Some s' -> exec e s.1 = Some s'.1.
Proof.
  unfold exec_w. destruct e; try case_match; try done;
    (destruct (exec _ s.1); simpl; [|done]); by intros [= <-].
Qed.

(** The acks queued and accepted name reducers in range. *)
Definition outputs_ok (c : coord) : Prop :=
  (forall a, a ∈ completionQueue c -> a_Type a = TaskTypeMap ->
     forall f, f ∈ a_MapFiles a -> (0 <= f.1 < Z.of_nat (nReduce c))%Z) /\
  (forall m f, m ∈ mapTaskState c -> m_done m = true -> f ∈ m_intermediateFiles m ->
     (0 <= f.1 < Z.of_nat (nReduce c))%Z).

Record inv_w (files : list string) (n : nat) (s : coord * list task) : Prop := {
  inv_w_inv : inv files n s.1;
  inv_w_out : outputs_ok s.1;
  inv_w_pc : pc s.1 <> Panicked }.

Lemma ack_for_files n a t f :
  ack_for n a t = true -> a_Type a = TaskTypeMap -> f ∈ a_MapFiles a -> (0 <= f.1 < Z.of_nat n)%Z.
Proof.
  unfold ack_for. intros Ha Ht Hf. destruct (taskType t); [| |done].
  - apply andb_true_iff in Ha as [_ Ha%bool_decide_eq_true].
    assert (f.1 ∈ (a_MapFiles a).*1) as Hin by (apply list_elem_of_fmap; by exists f).
    rewrite Ha in Hin. apply list_elem_of_fmap in Hin as (k & -> & Hk%elem_of_seq). lia.
  - rewrite Ht in Ha. done.
Qed.

(** What an event changes besides the task lists. *)
Definition same_core (c c' : coord) : Prop :=
  exists q h tm, c' = set_queues c q h tm.

Lemma same_core_refl c : same_core c c.
Proof. exists (taskQueue c), (handlers c), (timers c). by destruct c. Qed.

Lemma same_core_trans c1 c2 c3 : same_core c1 c2 -> same_core c2 c3 -> same_core c1 c3.
Proof. intros (q & h & tm & ->) (q' & h' & tm' & ->). by exists q', h', tm'. Qed.

Definition list_event (e : event) : bool :=
  match e with EvReqRecv | EvReqLock _ | EvTimer _ => true | _ => false end.

Lemma list_event_core files n e c c' :
  inv files n c -> exec e c = Some c' -> list_event e = true -> same_core c c'.
Proof.
  intros Hinv. unfold exec. destruct (crashed c); [done|]. destruct e; try done; simpl; intros He _.
  - unfold req_recv in He. case_match; [done|]. injection He as <-. repeat eexists.
  - unfold req_lock in He. case_match; [done|]. destruct (handlers c !! i) as [t|] eqn:Hi; [|done].
    assert (in_flight c t) as Hfl by (right; left; by eapply list_elem_of_lookup_2).
    pose proof (ReqTask_spec _ _ _ t Hinv (inv_tasks _ _ _ Hinv t Hfl)) as Hs.
    injection He as <-. destruct (ReqTask c t) as [[? []]| |]; try done; repeat eexists.
  - unfold timer in He. case_match; [done|]. destruct (timers c !! i) as [t|] eqn:Hi; simpl in He; [|done].
    assert (in_flight c t) as Hfl by (right; right; by eapply list_elem_of_lookup_2).
    pose proof (timer_fires_spec _ _ _ t Hinv (inv_tasks _ _ _ Hinv t Hfl)) as Hs.
    destruct (timer_fires c t) as [[]| |]; try done.
    + destruct (send_task c t) eqn:Hsd; simpl in He; [|done]. apply send_task_Some in Hsd as [_ ->].
      injection He as <-. repeat eexists.
    + injection He as <-. repeat eexists.
Qed.

Lemma outputs_step files n e s (s' : coord * list task) :
  inv_w files n s -> exec_w e s = Some s' -> exec e s.1 = Some s'.1 -> list_event e = false -> outputs_ok s'.1.
Proof.
  intros [Hinv [Hq Hm] Hpc] He He' Hl.
  destruct e; try done.
  - simpl in He. destruct (existsb _ _) eqn:Hex; [|done]. apply existsb_exists in Hex as (t & _ & Ht).
    unfold exec in He'. case_match; [done|]. unfold CompleteTask in He'. case_match; [|done].
    injection He' as <-. split; [|done]. simpl. intros b [Hb| ->%list_elem_of_singleton]%elem_of_app.
    + by apply Hq.
    + simpl. intros Htype f Hf. by eapply ack_for_files.
  - unfold exec in He'. case_match; [done|]. unfold mapReduce in He'. destruct (pc s.1); try done.
    + case_match; [|by injection He' as <-]. destruct (completionQueue s.1) as [|a q] eqn:Hcq; [done|].
      injection He' as <-. pose proof (inv_completions _ _ _ q Hinv) as Hinv2.
      destruct (map_ack_spec _ _ _ a Hinv2) as [|t Ht|t mt Hmt Hd Htype _ Hlen]; split; simpl;
        try (intros b Hb; apply Hq; by apply list_elem_of_further); try done.
      intros m f [-> | Hin]%elem_of_insert_inv Hmd Hf; [|by eapply Hm].
      eapply (Hq a); [apply list_elem_of_here|done|done].
    + destruct (send_task _ _) eqn:Hs; simpl in He'; [|done]. apply send_task_Some in Hs as [_ ->].
      by injection He' as <-.
    + case_match.
      { destruct (send_task _ _) eqn:Hs; simpl in He'; [|done]. apply send_task_Some in Hs as [_ ->].
        by injection He' as <-. }
      by case_match; injection He' as <-.
    + case_match; [|by injection He' as <-]. destruct (completionQueue s.1) as [|a q] eqn:Hcq; [done|].
      injection He' as <-. pose proof (inv_completions _ _ _ q Hinv) as Hinv2.
      destruct (reduce_ack_spec _ _ _ a Hinv2); split; simpl;
        try (intros b Hb; apply Hq; by apply list_elem_of_further); done.
Qed.

Lemma no_panic_step files n e s (s' : coord * list task) :
  inv_w files n s -> exec e s.1 = Some s'.1 -> list_event e = false -> pc s'.1 <> Panicked.
Proof.
  intros [Hinv [Hq Hm] Hpc] He' Hl Hp. destruct e; try done.
  - unfold exec in He'. case_match; [done|]. unfold CompleteTask in He'. case_match; [|done].
    by injection He' as Hs'; rewrite <-Hs' in Hp.
  - unfold exec in He'. case_match; [done|]. unfold mapReduce in He'. destruct (pc s.1) eqn:Hpc1; try done.
    + case_match; [|injection He' as Hs'; by rewrite <-Hs' in Hp]. case_match; [done|].
      injection He' as Hs'. rewrite <-Hs' in Hp. pose proof (inv_completions _ _ _ l Hinv) as Hinv2.
      destruct (map_ack_spec _ _ _ c Hinv2); simpl in Hp; congruence.
    + destruct (send_task _ _); simpl in He'; [|done]. injection He' as Hs'. by rewrite <-Hs' in Hp.
    + case_match.
      { destruct (send_task _ _); simpl in He'; [|done]. injection He' as Hs'. by rewrite <-Hs' in Hp. }
      destruct (proj2 (assign_files_ret (mapTaskState s.1) (reduceTaskState s.1))) as [rs Hrs].
      { rewrite (inv_reduces _ _ _ Hinv), <-(inv_n _ _ _ Hinv). intros m f Hin. apply Hm; [done|].
        pose proof (inv_pc _ _ _ Hinv) as H8. unfold pc_ok in H8. rewrite Hpc1 in H8.
        apply list_elem_of_lookup in Hin as [i Hi]. eapply done_all_maps; [|done]. apply H8. }
      rewrite Hrs in He'. injection He' as Hs'. by rewrite <-Hs' in Hp.
    + case_match; [|injection He' as Hs'; by rewrite <-Hs' in Hp]. case_match; [done|].
      injection He' as Hs'. rewrite <-Hs' in Hp. pose proof (inv_completions _ _ _ l Hinv) as Hinv2.
      destruct (reduce_ack_spec _ _ _ c Hinv2); simpl in Hp; congruence.
Qed.

Lemma inv_w_step files n e s s' : inv_w files n s -> exec_w e s = Some s' -> inv_w files n s'.
Proof.
  intros Hw He. pose proof Hw as [Hinv [Hq Hm] Hpc]. pose proof (exec_w_exec _ _ _ He) as He'.
  pose proof (inv_exec _ _ _ _ _ Hinv He') as Hinv'.
  destruct (list_event e) eqn:Hl.
  { destruct (list_event_core _ _ _ _ _ Hinv He' Hl) as (q & h & tm & Hs'). split; rewrite ?Hs'; try done.
    by rewrite <-Hs'. }
  split; [done|by eapply outputs_step|by eapply no_panic_step].
Qed.
Lemma inv_w_reach files n s s' : inv_w files n s -> reach exec_w s s' -> inv_w files n s'.
Proof.
  intros H Hr. eapply (reach_invariant exec_w (inv_w files n)); [done|intros ???; apply inv_w_step|done].
Qed.

(** *** A schedule that finishes the job *)

Lemma reach_step s e s' : exec_w e s = Some s' -> reach exec_w s s'.
Proof. intros H. exists [e]. simpl. by rewrite H. Qed.

Lemma not_crashed c : pc c <> Panicked -> crashed c = false.
Proof. unfold crashed. by destruct (pc c). Qed.

Lemma recv_step c l t q :
  pc c <> Panicked -> taskQueue c = t :: q ->
  reach exec_w (c, l) (set_queues c q (handlers c ++ [t]) (timers c), l).
Proof.
  intros Hp Hq. apply (reach_step _ EvReqRecv). simpl. unfold exec. rewrite (not_crashed _ Hp).
  unfold req_recv. by rewrite Hq.
Qed.

(** Receivers empty the queue, so a blocked sender can proceed ... *)
Lemma make_room c l :
  pc c <> Panicked ->
  exists c', reach exec_w (c, l) (c', l) /\ same_core c c' /\ length (taskQueue c') < chan_cap /\
    (forall t, in_flight c t <-> in_flight c' t) /\ timers c' = timers c.
Proof.
  remember (taskQueue c) as q eqn:Hq. revert c Hq. induction q as [|t q IH]; intros c Hq Hp.
  - exists c. split_and!; [done|apply same_core_refl|by rewrite <-Hq; unfold chan_cap; simpl; lia|done|done].
  - destruct (IH (set_queues c q (handlers c ++ [t]) (timers c))) as (c' & Hr & Hs & Hl & Hf & Ht); [done..|].
    exists c'. split_and!; [|by eapply same_core_trans; [|done]; repeat eexists|done| |done].
    + etransitivity; [by apply recv_step|done].
    + intros t'. rewrite <-Hf. unfold in_flight. simpl. rewrite <-Hq. set_solver.
Qed.

(** ... and reach any task in it. *)
Lemma queue_to_handlers c l t :
  pc c <> Panicked -> t ∈ taskQueue c ->
  exists c', reach exec_w (c, l) (c', l) /\ same_core c c' /\ t ∈ handlers c'.
Proof.
  remember (taskQueue c) as q eqn:Hq. revert c Hq. induction q as [|t' q IH]; intros c Hq Hp Ht; [set_solver|].
  pose proof (recv_step c l t' q Hp (eq_sym Hq)) as Hr1.
  apply elem_of_cons in Ht as [-> | Ht].
  - eexists. split_and!; [exact Hr1|repeat eexists|]. simpl. set_solver.
  - destruct (IH (set_queues c q (handlers c ++ [t']) (timers c))) as (c' & Hr & Hs & Hin); [done..|].
    exists c'. split_and!; [by etransitivity|by eapply same_core_trans; [|done]; repeat eexists|done].
Qed.

Definition task_undone (c : coord) (t : task) : Prop :=
  match taskType t with
  | coordinatorStateMap => exists m, mapTaskState c !! tid t = Some m /\ m_done m = false
  | coordinatorStateReduce => exists r, reduceTaskState c !! tid t = Some r /\ r_done r = false
  | coordinatorStateDone => False
  end.

Lemma timer_fires_undone c t :
  task_undone c t -> taskType t = coordinatorState c -> timer_fires c t = Ret true.
Proof.
  unfold task_undone, timer_fires. intros Hu Hst. rewrite (bool_decide_eq_true_2 _ Hst).
  destruct (taskType t); [| |done]; destruct Hu as (x & -> & Hx); simpl; by rewrite Hx.
Qed.

(** Every undone task of the phase can be handed to a (new) worker, even if
    all the workers that held it are gone. *)
Lemma hand_out files n c l t :
  inv_w files n (c, l) -> locked c = false -> in_flight c t ->
  taskType t = coordinatorState c -> task_undone c t ->
  exists c' l', reach exec_w (c, l) (c', l') /\ same_core c c' /\ t ∈ l'.
Proof.
  intros Hinv Hl Hf Hst Hu.
  assert (exists c', reach exec_w (c, l) (c', l) /\ same_core c c' /\ t ∈ handlers c') as (c1 & Hr1 & Hs1 & Hin).
  { pose proof (inv_w_pc _ _ _ Hinv) as Hp. simpl in Hp. destruct Hf as [Hf|[Hf|Hf]].
    - by apply queue_to_handlers.
    - exists c. split_and!; [done|apply same_core_refl|done].
    - destruct (make_room c l Hp) as (c1 & Hr1 & (q & h & tm & ->) & Hlen & _ & Htm). simpl in *. subst tm.
      apply list_elem_of_lookup in Hf as [i Hi].
      set (c2 := set_queues c (q ++ [t]) h (delete i (timers c))).
      assert (reach exec_w (set_queues c q h (timers c), l) (c2, l)) as Hr2.
      { apply (reach_step _ (EvTimer i)). unfold exec_w, exec, timer. simpl.
        change (crashed _) with (crashed c). rewrite (not_crashed _ Hp).
        change (locked _) with (locked c). rewrite Hl, Hi. simpl.
        change (timer_fires _ t) with (timer_fires c t). rewrite (timer_fires_undone c t Hu Hst).
        unfold send_task. simpl. destruct (Nat.ltb_spec (length q) chan_cap); [done|lia]. }
      destruct (queue_to_handlers c2 l t) as (c3 & Hr3 & Hs3 & Hin3); [done|simpl; set_solver|].
      exists c3. split_and!; [by eauto using reach_trans| |done].
      eapply same_core_trans; [|exact Hs3]. repeat eexists. }
  pose proof (inv_w_reach _ _ _ _ Hinv Hr1) as Hinv1.
  destruct Hs1 as (q & h & tm & ->). apply list_elem_of_lookup in Hin as [i Hi]. simpl in Hi.
  set (c1 := set_queues c q h tm) in *.
  assert (task_ok c1 t) as Hok.
  { apply (inv_tasks _ _ _ (inv_w_inv _ _ _ Hinv1)). right. left. by eapply list_elem_of_lookup_2. }
  pose proof (ReqTask_spec files n c1 t (inv_w_inv _ _ _ Hinv1) Hok) as Hreq.
  destruct (ReqTask c1 t) as [[reply []]| |] eqn:Hrt; try done.
  exists (set_queues c1 q (delete i h) (tm ++ [t])), (l ++ [t]). split_and!.
  - etransitivity; [exact Hr1|]. apply (reach_step _ (EvReqLock i)).
    unfold exec_w, exec, req_lock, handed_out. change (crashed _) with (crashed c).
    rewrite (not_crashed c) by (apply (inv_w_pc _ _ _ Hinv)). change (locked _) with (locked c).
    rewrite Hl. change (handlers (c1, l).1) with h. rewrite Hi. simpl. by rewrite Hrt.
  - repeat eexists.
  - set_solver.
Qed.

Definition good_map_ack (n i : nat) : CompleteTaskArgs :=
  mkArgs TaskTypeMap (Z.of_nat i) ((fun k : nat => (Z.of_nat k, "")) <$> seq 0 n) "".
Definition good_reduce_ack (i : nat) : CompleteTaskArgs := mkArgs TaskTypeReduce (Z.of_nat i) [] "".

(** A worker completes a task it holds and the main goroutine takes the ack. *)
Lemma complete_and_take c l t a c' :
  pc c <> Panicked -> completionQueue c = [] -> t ∈ l -> ack_for (nReduce c) a t = true ->
  deepCopy a = a -> mapReduce (set_completions c [a]) = Some c' ->
  reach exec_w (c, l) (c', l).
Proof.
  intros Hp Hq Ht Ha Hd Hm. exists [EvComplete a; EvMain]. simpl.
  assert (existsb (ack_for (nReduce c) a) l = true) as ->.
  { apply existsb_exists. exists t. split; [by apply list_elem_of_In|done]. }
  assert (exec (EvComplete a) c = Some (set_completions c [a])) as ->.
  { unfold exec. rewrite (not_crashed _ Hp). unfold CompleteTask. by rewrite Hq, Hd. }
  simpl. assert (exec EvMain (set_completions c [a]) = Some c') as ->; [|done].
  unfold exec. by rewrite (not_crashed (set_completions c [a]) Hp).
Qed.

Lemma map_progress files n c l :
  inv_w files n (c, l) -> pc c = MapWait -> completionQueue c = [] -> (0 < incomplete c)%Z ->
  exists c' l', reach exec_w (c, l) (c', l') /\ pc c' = MapWait /\ completionQueue c' = [] /\
    incomplete c' = (incomplete c - 1)%Z.
Proof.
  intros Hw Hpc Hq Hinc. pose proof (inv_w_inv _ _ _ Hw) as Hinv. simpl in Hinv.
  pose proof (inv_pc _ _ _ Hinv) as H8. unfold pc_ok in H8. rewrite Hpc in H8.
  destruct H8 as (Hst & Hn & _ & Hcov).
  destruct (lcount_pos (fun m => m_done m = false) (mapTaskState c)) as (i & m & Hi & Hm).
  { unfold undone_maps in Hn. lia. }
  destruct (Hcov i m Hi Hm) as [Hf|]; [|congruence].
  destruct (hand_out files n c l (mkTask i coordinatorStateMap)) as (c1 & l1 & Hr & (q & h & tm & ->) & Hin);
    [done|unfold locked; by rewrite Hpc|done|done|by exists m|].
  set (c1 := set_queues c q h tm) in *.
  set (c2 := set_completions c1 []).
  exists (map_ack c2 (good_map_ack n i)), l1.
  assert (map_ack c2 (good_map_ack n i) =
    set_maps c2 (<[i := mkMapTask (m_tid m) true (m_inputFile m)
      (copy_files (m_intermediateFiles m) ((fun k : nat => (Z.of_nat k, "")) <$> seq 0 n))]> (mapTaskState c2))
      (incomplete c2 - 1)) as Hack.
  { unfold map_ack. simpl. destruct (Z.ltb_spec (Z.of_nat i) 0); [lia|]. simpl.
    apply lookup_lt_Some in Hi as Hlt. rewrite (inv_maps _ _ _ Hinv), <-(inv_inputs _ _ _ Hinv) in Hlt.
    destruct (Z.leb_spec (Z.of_nat (length (inputFiles c))) (Z.of_nat i)); [lia|].
    rewrite length_fmap, length_seq, (inv_n _ _ _ Hinv), Nat.eqb_refl. simpl.
    by rewrite Nat2Z.id, Hi, Hm. }
  split_and!.
  - etransitivity; [exact Hr|].
    apply (complete_and_take c1 l1 (mkTask i coordinatorStateMap) (good_map_ack n i)); try done.
    + simpl. congruence.
    + unfold ack_for. simpl. rewrite Z.eqb_refl. simpl. apply bool_decide_eq_true.
      rewrite (inv_n _ _ _ Hinv), <-list_fmap_compose. by apply list_fmap_ext.
    + unfold mapReduce. simpl. rewrite Hpc. destruct (Z.ltb_spec 0 (incomplete c)); [done|lia].
  - by rewrite Hack.
  - by rewrite Hack.
  - by rewrite Hack.
Qed.

Lemma reduce_progress files n c l :
  inv_w files n (c, l) -> pc c = ReduceWait -> completionQueue c = [] -> (0 < incomplete c)%Z ->
  exists c' l', reach exec_w (c, l) (c', l') /\ pc c' = ReduceWait /\ completionQueue c' = [] /\
    incomplete c' = (incomplete c - 1)%Z.
Proof.
  intros Hw Hpc Hq Hinc. pose proof (inv_w_inv _ _ _ Hw) as Hinv. simpl in Hinv.
  pose proof (inv_pc _ _ _ Hinv) as H8. unfold pc_ok in H8. rewrite Hpc in H8.
  destruct H8 as (Hst & _ & Hn & _ & Hcov).
  destruct (lcount_pos (fun r => r_done r = false) (reduceTaskState c)) as (i & m & Hi & Hm).
  { unfold undone_reduces in Hn. lia. }
  specialize (Hcov i m Hi Hm) as Hf.
  destruct (hand_out files n c l (mkTask i coordinatorStateReduce)) as (c1 & l1 & Hr & (q & h & tm & ->) & Hin);
    [done|unfold locked; by rewrite Hpc|done|done|by exists m|].
  set (c1 := set_queues c q h tm) in *.
  set (c2 := set_completions c1 []).
  exists (reduce_ack c2 (good_reduce_ack i)), l1.
  assert (reduce_ack c2 (good_reduce_ack i) =
    set_reduces c2 (<[i := mkReduceTask (r_tid m) true (r_intermediateFiles m)]> (reduceTaskState c2))
      (incomplete c2 - 1)) as Hack.
  { unfold reduce_ack. simpl. destruct (Z.ltb_spec (Z.of_nat i) 0); [lia|]. simpl.
    apply lookup_lt_Some in Hi as Hlt. rewrite (inv_reduces _ _ _ Hinv), <-(inv_n _ _ _ Hinv) in Hlt.
    destruct (Z.leb_spec (Z.of_nat (nReduce c)) (Z.of_nat i)); [lia|].
    by rewrite Nat2Z.id, Hi, Hm. }
  split_and!.
  - etransitivity; [exact Hr|].
    apply (complete_and_take c1 l1 (mkTask i coordinatorStateReduce) (good_reduce_ack i)); try done.
    + simpl. congruence.
    + unfold ack_for. simpl. by rewrite Z.eqb_refl.
    + unfold mapReduce. simpl. rewrite Hpc. destruct (Z.ltb_spec 0 (incomplete c)); [done|lia].
  - by rewrite Hack.
  - by rewrite Hack.
  - by rewrite Hack.
Qed.

(** One move of the main goroutine, after receivers made room for its send. *)
Lemma main_step c l c' :
  pc c <> Panicked -> mapReduce c = Some c' -> reach exec_w (c, l) (c', l).
Proof.
  intros Hp Hm. apply (reach_step _ EvMain). simpl. unfold exec. by rewrite (not_crashed _ Hp), Hm.
Qed.
(** A send of the main goroutine goes through once receivers made room. *)
Lemma main_send c l t p :
  pc c <> Panicked ->
  (forall c', same_core c c' -> mapReduce c' = (fun c' => set_pc c' p) <$> send_task c' t) ->
  exists c', reach exec_w (c, l) (c', l) /\ pc c' = p /\ completionQueue c' = completionQueue c.
Proof.
  intros Hp Hm. destruct (make_room c l Hp) as (c1 & Hr & Hs & Hlen & _ & _).
  specialize (Hm c1 Hs). destruct Hs as (q & h & tm & ->). unfold send_task in Hm. simpl in Hm, Hlen.
  destruct (Nat.ltb_spec (length q) chan_cap); [|lia]. simpl in Hm.
  exists (set_pc (set_queues c (q ++ [t]) h tm) p). split_and!; [|done|done].
  etransitivity; [exact Hr|]. apply main_step; [done|exact Hm].
Qed.

Definition in_maps (c : coord) : Prop := pc c = MapWait \/ exists t, pc c = MapRequeue t.

Lemma requeue_step files n c l t :
  inv_w files n (c, l) -> pc c = MapRequeue t ->
  exists c', reach exec_w (c, l) (c', l) /\ pc c' = MapWait /\ completionQueue c' = completionQueue c.
Proof.
  intros Hw Hpc. apply (main_send c l (mkTask t coordinatorStateMap)); [by rewrite Hpc|].
  intros c' (q & h & tm & ->). unfold mapReduce. simpl. by rewrite Hpc.
Qed.

(** The main goroutine drains the acks already queued. *)
Lemma drain_maps files n c l :
  inv_w files n (c, l) -> in_maps c ->
  exists c', reach exec_w (c, l) (c', l) /\ pc c' = MapWait /\
    (completionQueue c' = [] \/ (incomplete c' <= 0)%Z).
Proof.
  remember (completionQueue c) as q eqn:Hq. revert c Hq.
  induction q as [|a q IH]; intros c Hq Hw Hc.
  - destruct Hc as [Hpc|[t Hpc]]; [exists c; split_and!; auto using reach_refl|].
    destruct (requeue_step _ _ _ _ _ Hw Hpc) as (c' & Hr & Hpc' & Hq').
    exists c'. split_and!; [done|done|]. left. by rewrite Hq'.
  - assert (exists c1, reach exec_w (c, l) (c1, l) /\ pc c1 = MapWait /\ completionQueue c1 = a :: q)
      as (c1 & Hr1 & Hpc1 & Hq1).
    { destruct Hc as [Hpc|[t Hpc]]; [exists c; split_and!; auto using reach_refl|].
      destruct (requeue_step _ _ _ _ _ Hw Hpc) as (c' & Hr & Hpc' & Hq').
      exists c'. split_and!; [done|done|]. by rewrite Hq'. }
    pose proof (inv_w_reach _ _ _ _ Hw Hr1) as Hw1.
    destruct (Z.ltb_spec 0 (incomplete c1)) as [Hlt|]; [|exists c1; split_and!; auto using reach_refl].
    set (c2 := map_ack (set_completions c1 q) a).
    assert (reach exec_w (c1, l) (c2, l)) as Hr2.
    { apply main_step; [by rewrite Hpc1|]. unfold mapReduce. rewrite Hpc1.
      destruct (Z.ltb_spec 0 (incomplete c1)); [|lia]. by rewrite Hq1. }
    pose proof (inv_w_reach _ _ _ _ Hw1 Hr2) as Hw2.
    destruct (IH c2) as (c3 & Hr3 & Hpc3 & H3).
    + unfold c2. pose proof (inv_completions files n c1 q (inv_w_inv _ _ _ Hw1)) as Hi.
      by destruct (map_ack_spec _ _ _ a Hi).
    + done.
    + unfold c2. pose proof (inv_completions files n c1 q (inv_w_inv _ _ _ Hw1)) as Hi.
      destruct (map_ack_spec _ _ _ a Hi); simpl; [by left|right; by eexists|by left].
    + exists c3. split_and!; [by eauto using reach_trans|done|done].
Qed.

Lemma drain_reduces files n c l :
  inv_w files n (c, l) -> pc c = ReduceWait ->
  exists c', reach exec_w (c, l) (c', l) /\ pc c' = ReduceWait /\
    (completionQueue c' = [] \/ (incomplete c' <= 0)%Z).
Proof.
  remember (completionQueue c) as q eqn:Hq. revert c Hq.
  induction q as [|a q IH]; intros c Hq Hw Hpc; [exists c; split_and!; auto using reach_refl|].
  destruct (Z.ltb_spec 0 (incomplete c)) as [Hlt|]; [|exists c; split_and!; auto using reach_refl].
  set (c2 := reduce_ack (set_completions c q) a).
  assert (reach exec_w (c, l) (c2, l)) as Hr2.
  { apply main_step; [by rewrite Hpc|]. unfold mapReduce. rewrite Hpc.
    destruct (Z.ltb_spec 0 (incomplete c)); [|lia]. by rewrite <-Hq. }
  pose proof (inv_w_reach _ _ _ _ Hw Hr2) as Hw2.
  pose proof (inv_completions files n c q (inv_w_inv _ _ _ Hw)) as Hi.
  destruct (IH c2) as (c3 & Hr3 & Hpc3 & H3); [|done| |].
  - unfold c2. by destruct (reduce_ack_spec _ _ _ a Hi).
  - unfold c2. by destruct (reduce_ack_spec _ _ _ a Hi).
  - exists c3. split_and!; [by etransitivity|done|done].
Qed.

(** With an empty ack channel the workers finish the phase task by task. *)
Lemma finish_maps files n c l :
  inv_w files n (c, l) -> pc c = MapWait ->
  completionQueue c = [] \/ (incomplete c <= 0)%Z ->
  exists c' l', reach exec_w (c, l) (c', l') /\ pc c' = Enqueue 0.
Proof.
  remember (Z.to_nat (incomplete c)) as k eqn:Hk. revert c l Hk.
  induction k as [|k IH]; intros c l Hk Hw Hpc Hq.
  - exists (set_pc c (Enqueue 0)), l. split; [|done]. apply main_step; [by rewrite Hpc|].
    unfold mapReduce. rewrite Hpc. destruct (Z.ltb_spec 0 (incomplete c)); [lia|done].
  - destruct Hq as [Hq|]; [|lia].
    destruct (map_progress files n c l) as (c1 & l1 & Hr1 & Hpc1 & Hq1 & Hi1); [done..|lia|].
    destruct (IH c1 l1) as (c2 & l2 & Hr2 & Hpc2); [lia|by eapply inv_w_reach|done|by left|].
    exists c2, l2. split; [by etransitivity|done].
Qed.

Lemma finish_reduces files n c l :
  inv_w files n (c, l) -> pc c = ReduceWait ->
  completionQueue c = [] \/ (incomplete c <= 0)%Z ->
  exists c' l', reach exec_w (c, l) (c', l') /\ Done c' = true.
Proof.
  remember (Z.to_nat (incomplete c)) as k eqn:Hk. revert c l Hk.
  induction k as [|k IH]; intros c l Hk Hw Hpc Hq.
  - exists (set_pc (set_state c coordinatorStateDone) Finished), l. split; [|done].
    apply main_step; [by rewrite Hpc|].
    unfold mapReduce. rewrite Hpc. destruct (Z.ltb_spec 0 (incomplete c)); [lia|done].
  - destruct Hq as [Hq|]; [|lia].
    destruct (reduce_progress files n c l) as (c1 & l1 & Hr1 & Hpc1 & Hq1 & Hi1); [done..|lia|].
    destruct (IH c1 l1) as (c2 & l2 & Hr2 & Hpc2); [lia|by eapply inv_w_reach|done|by left|].
    exists c2, l2. split; [by etransitivity|done].
Qed.

Lemma enqueue_all files n c l k :
  inv_w files n (c, l) -> pc c = Enqueue k ->
  exists c', reach exec_w (c, l) (c', l) /\ pc c' = ReduceWait.
Proof.
  intros Hw Hpc. remember (n - k) as d eqn:Hd. revert c k Hd Hw Hpc.
  induction d as [|d IH]; intros c k Hd Hw Hpc;
    pose proof (inv_n _ _ _ (inv_w_inv _ _ _ Hw)) as Hn; simpl in Hn;
    pose proof (inv_pc _ _ _ (inv_w_inv _ _ _ Hw)) as H8; unfold pc_ok in H8; simpl in H8;
    rewrite Hpc in H8; destruct H8 as (_ & _ & _ & Hk & _).
  - assert (exists c', mapReduce c = Some c' /\ (pc c' = ReduceWait \/ pc c' = Panicked)) as (c' & Hm & Hc').
    { unfold mapReduce. rewrite Hpc. destruct (Nat.ltb_spec k (nReduce c)); [lia|].
      case_match; (eexists; split; [done|]); simpl; auto. }
    assert (reach exec_w (c, l) (c', l)) as Hr by (apply main_step; [by rewrite Hpc|done]).
    exists c'. split; [done|]. destruct Hc' as [|Hbad]; [done|].
    by destruct (inv_w_pc _ _ _ (inv_w_reach _ _ _ _ Hw Hr)).
  - destruct (main_send c l (mkTask k coordinatorStateReduce) (Enqueue (S k))) as (c1 & Hr1 & Hpc1 & _).
    + by rewrite Hpc.
    + intros c' (q & h & tm & ->). unfold mapReduce. simpl. rewrite Hpc.
      destruct (Nat.ltb_spec k (nReduce c)); [done|lia].
    + destruct (IH c1 (S k)) as (c2 & Hr2 & Hpc2); [lia|by eapply inv_w_reach|done|].
      exists c2. split; [by etransitivity|done].
Qed.

Lemma inv_w_init files n c0 : MakeCoordinator files n = Some c0 -> inv_w files n (c0, []).
Proof.
  intros H0. pose proof (inv_init _ _ _ H0) as Hinv. revert H0.
  unfold MakeCoordinator. destruct (queue_map_tasks _ _ _); simpl; [|done]. intros [= <-].
  split; [done| |done]. split; simpl; [set_solver|].
  intros m f (i & x & -> & _)%elem_of_lookup_imap. done.
Qed.

Lemma finish_from files n c :
  inv_w files n (c, []) -> exists c' l', reach exec_w (c, []) (c', l') /\ Done c' = true.
Proof.
  intros Hw.
  assert (forall c l, inv_w files n (c, l) -> pc c = ReduceWait ->
    exists c' l', reach exec_w (c, l) (c', l') /\ Done c' = true) as Hred.
  { clear c Hw. intros c l Hw Hpc. destruct (drain_reduces _ _ _ _ Hw Hpc) as (c1 & Hr1 & Hpc1 & H1).
    destruct (finish_reduces files n c1 l) as (c2 & l2 & Hr2 & Hd); [by eapply inv_w_reach|done..|].
    exists c2, l2. split; [by etransitivity|done]. }
  assert (forall c l k, inv_w files n (c, l) -> pc c = Enqueue k ->
    exists c' l', reach exec_w (c, l) (c', l') /\ Done c' = true) as Henq.
  { clear c Hw. intros c l k Hw Hpc. destruct (enqueue_all _ _ _ _ _ Hw Hpc) as (c1 & Hr1 & Hpc1).
    destruct (Hred c1 l) as (c2 & l2 & Hr2 & Hd); [by eapply inv_w_reach|done..|].
    exists c2, l2. split; [by etransitivity|done]. }
  assert (in_maps c -> exists c' l', reach exec_w (c, []) (c', l') /\ Done c' = true) as Hmap.
  { intros Hc. destruct (drain_maps _ _ _ _ Hw Hc) as (c1 & Hr1 & Hpc1 & H1).
    destruct (finish_maps files n c1 []) as (c2 & l2 & Hr2 & Hd); [by eapply inv_w_reach|done..|].
    destruct (Henq c2 l2 0) as (c3 & l3 & Hr3 & H3);
      [eapply inv_w_reach; [|exact Hr2]; by eapply inv_w_reach|done|].
    exists c3, l3. split; [by eauto using reach_trans|done]. }
  destruct (pc c) eqn:Hpc.
  - apply Hmap. by left.
  - apply Hmap. right. by eexists.
  - by eapply Henq.
  - by apply Hred.
  - exists c, []. split; [done|]. pose proof (inv_pc _ _ _ (inv_w_inv _ _ _ Hw)) as H8.
    unfold pc_ok in H8. simpl in H8. rewrite Hpc in H8. unfold Done. apply bool_decide_eq_true, H8.
  - by destruct (inv_w_pc _ _ _ Hw).
Qed.

(** C11: the job survives the loss of its workers.  While workers acknowledge
    only tasks handed to them, with their output files in range, the
    coordinator does not panic, and from every state it reaches, even if all
    its workers stop there (the list of held tasks becomes empty), new
    workers can be handed every task still missing and finish the job. *)
Theorem job_can_finish files n c0 es c l :
  MakeCoordinator files n = Some c0 -> run exec_w es (c0, []) = Some (c, l) ->
  pc c <> Panicked /\
  exists es' c' l', run exec_w es' (c, []) = Some (c', l') /\ Done c' = true.
Proof.
  intros H0 Hes.
  assert (inv_w files n (c, l)) as [Hinv Hout Hpc].
  { apply (inv_w_reach files n (c0, [])); [by apply inv_w_init|by exists es]. }
  split; [done|]. destruct (finish_from files n c) as (c' & l' & [es' Hr] & Hd); [by split|].
  by exists es', c', l'.
Qed.

(** ** Witnesses: two input files, two reducers *)

Definition demo_coord : option coord := MakeCoordinator ["in-0"; "in-1"] 2.

Definition ack_map (i : Z) (f1 f2 : string) : CompleteTaskArgs :=
  mkArgs TaskTypeMap i [(0%Z, f1); (1%Z, f2)] "".

(** The first worker of task 0 is slow: the timer fires, another worker gets
    the task, and both acknowledge. *)
Definition demo_job : list event :=
  [EvReqRecv; EvReqRecv; EvReqLock 0; EvReqLock 0; EvTimer 0; EvReqRecv; EvReqLock 0;
   EvComplete (ack_map 0 "a0" "a1"); EvComplete (ack_map 1 "b0" "b1"); EvComplete (ack_map 0 "c0" "c1");
   EvMain; EvMain; EvMain; EvMain; EvMain; EvMain; EvReqRecv; EvReqRecv].

Definition demo_end (es : list event) : option coord := c ← demo_coord; run exec es c.

Lemma demo_end_reach es c : demo_end es = Some c ->
  exists c0, demo_coord = Some c0 /\ reach exec c0 c.
Proof.
  unfold demo_end. destruct demo_coord as [c0|] eqn:H; simpl; [|done]. intros Hr.
  exists c0. split; [done|]. by exists es.
Qed.

Definition demo_finish : list event :=
  demo_job ++ [EvReqLock 0; EvReqLock 0; EvComplete (good_reduce_ack 1); EvComplete (good_reduce_ack 0);
    EvMain; EvMain; EvMain; EvMain].

Lemma Done_all_complete_witness :
  exists c, demo_end demo_finish = Some c /\ Done c = true /\
    r_intermediateFiles <$> reduceTaskState c = [["a0"; "b0"]; ["a1"; "b1"]] /\
    forall i m, mapTaskState c !! i = Some m -> m_done m = true /\ length (m_intermediateFiles m) = 2.
Proof.
  destruct (demo_end demo_finish) as [c|] eqn:H; [|by vm_compute in H].
  assert (Hd : Done c = true) by (refine (demo_read Done _ _ _ H _); by vm_compute).
  exists c. split_and!; [done|done| |].
  - refine (demo_read (fun c => r_intermediateFiles <$> reduceTaskState c) _ _ _ H _). by vm_compute.
  - destruct (demo_end_reach _ _ H) as (c0 & H0 & Hr).
    exact (proj1 (proj2 (proj2 (Done_all_complete ["in-0"; "in-1"] 2 c0 c H0 Hr Hd)))).
Defined.

Lemma ReqTask_reply_witness :
  exists c t, demo_end demo_job = Some c /\ handlers c !! 0 = Some t /\
    match ReqTask c t with
    | Ret (reply, started) =>
      (p_Type reply = TaskTypeSleep /\ started = false) \/
      (p_Type reply = TaskTypeMap /\ started = true /\ p_NReduce reply = 2 /\
        ["in-0"; "in-1"] !! p_Tid reply = Some (p_File reply)) \/
      (p_Type reply = TaskTypeReduce /\ started = true /\ p_Tid reply < 2 /\ all_maps_done c /\
        p_Files reply = reducer_input (mapTaskState c) (p_Tid reply))
    | _ => False
    end.
Proof.
  destruct (demo_end demo_job) as [c|] eqn:H; [|by vm_compute in H].
  set (t := mkTask 0 coordinatorStateReduce).
  assert (Ht : handlers c !! 0 = Some t).
  { refine (demo_read (fun c => handlers c !! 0) _ _ _ H _). by vm_compute. }
  exists c, t. split_and!; [done|done|].
  destruct (demo_end_reach _ _ H) as (c0 & H0 & Hr).
  apply (ReqTask_reply ["in-0"; "in-1"] 2 c0 c t H0 Hr).
  - by eapply list_elem_of_lookup_2.
  - refine (demo_read locked _ _ _ H _). by vm_compute.
  - refine (demo_read crashed _ _ _ H _). by vm_compute.
Defined.

Lemma map_output_stable_witness :
  exists c c' m, demo_end (take 11 demo_job) = Some c /\ reach exec c c' /\
    mapTaskState c !! 0 = Some m /\ m_done m = true /\ mapTaskState c' !! 0 = Some m.
Proof.
  destruct (demo_end (take 11 demo_job) ≫= run exec (drop 11 demo_job)) as [c'|] eqn:E;
    [|by vm_compute in E].
  apply bind_Some in E as (c & H & Hc').
  set (m := mkMapTask 0 true "in-0" [(0%Z, "a0"); (1%Z, "a1")]).
  assert (Hm : mapTaskState c !! 0 = Some m).
  { refine (demo_read (fun c => mapTaskState c !! 0) _ _ _ H _). by vm_compute. }
  destruct (demo_end_reach _ _ H) as (c0 & H0 & Hr).
  exists c, c', m. split_and!; [done|by eexists|done|done|].
  exact (map_output_stable ["in-0"; "in-1"] 2 c0 c c' 0 m H0 Hr (ex_intro _ _ Hc') Hm eq_refl).
Defined.

(** A map task whose second file names reducer 7. *)
Definition demo_bad : list event :=
  [EvComplete (ack_map 0 "a0" "a1"); EvComplete (mkArgs TaskTypeMap 1 [(0%Z, "b0"); (7%Z, "b1")] "");
   EvMain; EvMain; EvMain; EvMain; EvMain].

Lemma assign_panics_iff_witness :
  exists c, demo_end demo_bad = Some c /\ mapReduce c = Some (set_pc c Panicked).
Proof.
  destruct (demo_end demo_bad) as [c|] eqn:H; [|by vm_compute in H].
  destruct (demo_end_reach _ _ H) as (c0 & H0 & Hr). exists c. split; [done|].
  assert (Hpc : pc c = Enqueue 2) by (refine (demo_read pc _ _ _ H _); by vm_compute).
  apply (proj2 (assign_panics_iff ["in-0"; "in-1"] 2 c0 c H0 Hr Hpc)).
  exists (mkMapTask 1 true "in-1" [(0%Z, "b0"); (7%Z, "b1")]), (7%Z, "b1"). split_and!.
  - apply (list_elem_of_lookup_2 _ 1).
    refine (demo_read (fun c => mapTaskState c !! 1) _ _ _ H _). by vm_compute.
  - simpl. set_solver.
  - simpl. lia.
Defined.

Lemma job_can_finish_witness :
  exists c0 c l, demo_coord = Some c0 /\ run exec_w demo_job (c0, []) = Some (c, l) /\
    pc c <> Panicked /\
    exists es' c' l', run exec_w es' (c, []) = Some (c', l') /\ Done c' = true.
Proof.
  destruct (demo_coord ≫= fun c0 => run exec_w demo_job (c0, [])) as [[c l]|] eqn:E; [|by vm_compute in E].
  apply bind_Some in E as (c0 & H0 & Hr).
  exists c0, c, l. split_and!; [done|done|..].
  - apply (job_can_finish ["in-0"; "in-1"] 2 c0 demo_job c l H0 Hr).
  - apply (job_can_finish ["in-0"; "in-1"] 2 c0 demo_job c l H0 Hr).
Defined.
End MrCoordinator.
