(* ===== verification/MrWorker.v ===== *)
(** * MrWorker: the MapReduce worker, the applications, and the job

    [src/src/mr/worker.go] ([ihash], [generateUniqueIntermediateFilename],
    [doMap], [doReduce], the body of [Worker]'s loop), the sequential
    reference [src/src/main/mrsequential.go] and the applications under
    [src/src/mrapps/].  The file system is a map from names to contents,
    passed through the operations.  Operations of the operating system that
    can fail take a predicate saying which succeed.  [encoding/json] is a
    type class with its round trip on valid UTF-8 strings as the law. *)

From S2P Require Import Prelude MrCoordinator.
From stdpp Require Import base gmap list strings pretty sorting countable.
From Stdlib Require Import ZArith Lia Ascii.
From stdpp Require Import list.

Module MrWorker.
Import MrCoordinator.

Notation fs_t := (gmap string string).
Notation contents_t := (gmap string (list string)).

Record KeyValue := mkKV { Key : string; Value : string }.

#[export] Instance KeyValue_eq_dec : EqDecision KeyValue.
Proof. solve_decision. Defined.

(** [encoding/json] on [map[string][]string]. *)
Class Json := {
  valid_utf8 : string -> Prop;
  marshal : contents_t -> string;
  unmarshal : string -> option contents_t;
  unmarshal_marshal m :
    (forall k vs, m !! k = Some vs -> valid_utf8 k /\ Forall valid_utf8 vs) ->
    unmarshal (marshal m) = Some m }.

Definition ihash (key : string) : Z := Z.land (fnv32a key) 0x7fffffff.

(** ** File names *)

Definition hex_digit (n : N) : ascii :=
  Ascii.ascii_of_N (if (n <? 10)%N then 48 + n else 87 + n).

(** [hex.EncodeToString] *)
Fixpoint hex_encode (s : string) : string :=
  match s with
  | EmptyString => ""
  | String b s' =>
      String (hex_digit (Ascii.N_of_ascii b / 16)) (String (hex_digit (Ascii.N_of_ascii b mod 16)) (hex_encode s'))
  end.

(** [rnd]: the 16 bytes the reader fills in. *)
Definition generateUniqueIntermediateFilename (mapTid reduceTid : nat) (rnd : string) : string :=
  "mr-" +:+ itoa mapTid +:+ "-" +:+ itoa reduceTid +:+ "-" +:+ hex_encode rnd.

Definition out_name (reducerTid : nat) : string := "mr-out-" +:+ itoa reducerTid.

(** ** doMap *)

(** The keys and values collected for each key, in order of appearance. *)
Definition append_value (k v : string) (m : contents_t) : contents_t :=
  <[k := default [] (m !! k) ++ [v]]> m.

Definition reducer_of (nReduce : nat) (key : string) : nat :=
  Z.to_nat (ihash key mod Z.of_nat nReduce)%Z.

(** [sortedResults]; the modulo panics when [nReduce] is zero. *)
Definition add_result (nReduce : nat) (o : outcome (list contents_t)) (kv : KeyValue)
    : outcome (list contents_t) :=
  bs ← o;
  if nReduce =? 0 then Panic "integer divide by zero"
  else Ret (alter (append_value (Key kv) (Value kv)) (reducer_of nReduce (Key kv)) bs).

Definition sort_results (nReduce : nat) (kvs : list KeyValue) : outcome (list contents_t) :=
  foldl (add_result nReduce) (Ret (replicate nReduce ∅)) kvs.

Section Worker.
Context `{Json}.
(** Which [os.Create] and [Write] calls succeed. *)
Context (create_ok write_ok : string -> bool).

(** Create the files one by one; on failure those created stay. *)
Fixpoint create_files (names : list string) (fs : fs_t) : fs_t * bool :=
  match names with
  | [] => (fs, true)
  | n :: rest => if create_ok n then create_files rest (<[n := ""]> fs) else (fs, false)
  end.

(** [order]: the buckets in the order Go ranges over [sortedResults]. *)
Fixpoint write_buckets (names : list string) (buckets : list contents_t) (order : list nat)
    (fs : fs_t) : fs_t * bool :=
  match order with
  | [] => (fs, true)
  | r :: rest =>
      match names !! r, buckets !! r with
      | Some n, Some b =>
          if write_ok n
          then write_buckets names buckets rest (<[n := default "" (fs !! n) +:+ marshal b]> fs)
          else (fs, false)
      | _, _ => (fs, false)
      end
  end.

Definition doMap (mapf : string -> string -> list KeyValue) (inputFile inputContents : string)
    (mapTid nReduce : nat) (rnd : nat -> string) (order : list nat) (fs : fs_t)
    : outcome (fs_t * option (list string)) :=
  let names := (fun r => generateUniqueIntermediateFilename mapTid r (rnd r)) <$> seq 0 nReduce in
  let '(fs1, created) := create_files names fs in
  if created then
    buckets ← sort_results nReduce (mapf inputFile inputContents);
    let '(fs2, written) := write_buckets names buckets order fs1 in
    Ret (fs2, if written then Some names else None)
  else Ret (fs1, None).

(** ** doReduce *)

(** [for k, values := range tmp]: each key is touched once, so the order
    does not matter. *)
Definition merge_contents (m tmp : contents_t) : contents_t :=
  union_with (fun vs1 vs2 => Some (vs1 ++ vs2)) m tmp.

Fixpoint reduction_map (fileContents : list string) (m : contents_t) : option contents_t :=
  match fileContents with
  | [] => Some m
  | fc :: rest => tmp ← unmarshal fc; reduction_map rest (merge_contents m tmp)
  end.

(** One output line, [fmt.Fprintf(outputFile, "%v %v\n", k, out)]. *)
Definition out_line (kv : string * string) : string :=
  kv.1 +:+ " " +:+ kv.2 +:+ String (Ascii.ascii_of_nat 10) "".

Definition out_file (lines : list (string * string)) : string :=
  foldr (fun l acc => out_line l +:+ acc) "" lines.

(** [order]: the entries of the reduction map in iteration order. *)
Definition doReduce (reducef : string -> list string -> string) (fileContents : list string)
    (reducerTid : nat) (order : contents_t -> list (string * list string)) (fs : fs_t)
    : fs_t * bool :=
  match reduction_map fileContents ∅ with
  | None => (fs, false)
  | Some m =>
      if create_ok (out_name reducerTid)
      then (<[out_name reducerTid := out_file ((fun kv => (kv.1, reducef kv.1 kv.2)) <$> order m)]> fs, true)
      else (fs, false)
  end.

(** ** One task: the body of [Worker]'s loop *)

(** The loop reading a reducer's files.  Its [continue] belongs to this
    loop: an unreadable file is left out. *)
Definition read_inputs (fs : fs_t) (files : list string) : list string :=
  omap (fun f => fs !! f) files.

Definition map_ack_args (tid : nat) (names : list string) : CompleteTaskArgs :=
  mkArgs TaskTypeMap (Z.of_nat tid) (imap (fun r n => (Z.of_nat r, n)) names) "".

Definition reduce_ack_args (tid : nat) : CompleteTaskArgs :=
  mkArgs TaskTypeReduce (Z.of_nat tid) [] "".

(** The file system after the task and the ack sent, if any. *)
Definition worker_task (mapf : string -> string -> list KeyValue)
    (reducef : string -> list string -> string) (rnd : nat -> string) (map_order : list nat)
    (red_order : contents_t -> list (string * list string)) (task : ReqTaskReply) (fs : fs_t)
    : outcome (fs_t * option CompleteTaskArgs) :=
  if (p_Type task =? TaskTypeMap)%Z then
    match fs !! p_File task with
    | None => Ret (fs, None)
    | Some contents =>
        r ← doMap mapf (p_File task) contents (p_Tid task) (p_NReduce task) rnd map_order fs;
        match r with
        | (fs', Some names) => Ret (fs', Some (map_ack_args (p_Tid task) names))
        | (fs', None) => Ret (fs', None)
        end
    end
  else if (p_Type task =? TaskTypeReduce)%Z then
    match doReduce reducef (read_inputs fs (p_Files task)) (p_Tid task) red_order fs with
    | (fs', true) => Ret (fs', Some (reduce_ack_args (p_Tid task)))
    | (fs', false) => Ret (fs', None)
    end
  else Ret (fs, None).
End Worker.

(** ** The sequential reference, [main/mrsequential.go] *)

(** [mapf] over the input files, in order; unreadable files are fatal. *)
Fixpoint seq_intermediate (mapf : string -> string -> list KeyValue) (fs : fs_t)
    (files : list string) : outcome (list KeyValue) :=
  match files with
  | [] => Ret []
  | f :: rest =>
      match fs !! f with
      | None => Fatal "cannot open"
      | Some content => kvs ← seq_intermediate mapf fs rest; Ret (mapf f content ++ kvs)
      end
  end.

(** The inner loop: the values of the run of equal keys and what follows. *)
Fixpoint key_run (key : string) (l : list KeyValue) : list string * list KeyValue :=
  match l with
  | kv :: rest =>
      if decide (Key kv = key) then
        let '(vs, rest') := key_run key rest in (Value kv :: vs, rest')
      else ([], l)
  | [] => ([], [])
  end.

(** The outer loop, with the list's length as fuel. *)
Fixpoint seq_groups (fuel : nat) (l : list KeyValue) : list (string * list string) :=
  match fuel, l with
  | S fuel, kv :: rest =>
      let '(vs, rest') := key_run (Key kv) rest in
      (Key kv, Value kv :: vs) :: seq_groups fuel rest'
  | _, _ => []
  end.

(** [sort.Sort] is not stable: [sorted] is any sorted permutation. *)
Definition mrsequential (reducef : string -> list string -> string) (sorted : list KeyValue)
    : list (string * string) :=
  (fun kv => (kv.1, reducef kv.1 kv.2)) <$> seq_groups (length sorted) sorted.

(** ** Applications, [mrapps/] *)

(** [sort.Strings] *)
Definition sort_strings (l : list string) : list string := merge_sort String.le l.

Definition wc_Reduce (key : string) (values : list string) : string := itoa (length values).

(** crash.go and nocrash.go, for a call that does not crash. *)
Definition crash_Map (filename contents : string) : list KeyValue :=
  [mkKV "a" filename; mkKV "b" (itoa (String.length filename));
   mkKV "c" (itoa (String.length contents)); mkKV "d" "xyzzy"].
Definition crash_Reduce (key : string) (values : list string) : string :=
  String.concat " " (sort_strings values).

Definition indexer_Reduce (key : string) (values : list string) : string :=
  itoa (length values) +:+ " " +:+ String.concat "," (sort_strings values).

Definition early_exit_Map (filename contents : string) : list KeyValue := [mkKV filename "1"].
Definition early_exit_Reduce (key : string) (values : list string) : string := itoa (length values).
(** ** File names are unique *)

Lemma hex_digit_inj n m : (n < 16)%N -> (m < 16)%N -> hex_digit n = hex_digit m -> n = m.
Proof.
  intros Hn Hm H. unfold hex_digit in H. apply (f_equal Ascii.N_of_ascii) in H.
  destruct (N.ltb_spec n 10), (N.ltb_spec m 10);
    rewrite !Ascii.N_ascii_embedding in H by lia; lia.
Qed.

#[export] Instance hex_encode_inj : Inj (=) (=) hex_encode.
Proof.
  intros s1. induction s1 as [|a s1 IH]; intros [|b s2] H; try done. simpl in H.
  injection H as H1 H2 H3. apply IH in H3 as ->. f_equal.
  pose proof (Ascii.N_ascii_bounded a). pose proof (Ascii.N_ascii_bounded b).
  apply hex_digit_inj in H1; [|apply N.Div0.div_lt_upper_bound; lia..].
  apply hex_digit_inj in H2; [|apply N.mod_lt; lia..].
  rewrite <-(Ascii.ascii_N_embedding a), <-(Ascii.ascii_N_embedding b). f_equal.
  rewrite (N.div_mod (Ascii.N_of_ascii a) 16), (N.div_mod (Ascii.N_of_ascii b) 16) by done. congruence.
Qed.

(** two intermediate file names are equal only when the map task, the
    reduce task and the 16 random bytes all are: a retried mapper with fresh
    random bytes never overwrites another's file. *)
Theorem generateUniqueIntermediateFilename_unique m1 r1 b1 m2 r2 b2 :
  generateUniqueIntermediateFilename m1 r1 b1 = generateUniqueIntermediateFilename m2 r2 b2 <->
  m1 = m2 /\ r1 = r2 /\ b1 = b2.
Proof.
  split; [|by intros (-> & -> & ->)]. unfold generateUniqueIntermediateFilename. intros H.
  apply (inj (String.append "mr-")) in H.
  apply split_at_inj in H as [H1 H]; [|apply itoa_no_dash..].
  apply split_at_inj in H as [H2 H]; [|apply itoa_no_dash..].
  by apply (inj itoa) in H1, H2; apply (inj hex_encode) in H.
Qed.

Lemma out_name_not_intermediate r m r' b :
  out_name r <> generateUniqueIntermediateFilename m r' b.
Proof.
  unfold out_name, generateUniqueIntermediateFilename. intros H.
  change ("mr-" +:+ ("out" +:+ String "-" (itoa r)) =
          "mr-" +:+ (itoa m +:+ String "-" (itoa r' +:+ "-" +:+ hex_encode b))) in H.
  apply (inj (String.append "mr-")) in H.
  apply split_at_inj in H as [H _]; [|done|apply itoa_no_dash].
  assert (has_char "o" (itoa m) = false) as Ho.
  { apply itoa_no_char. intros x. unfold pretty_N_char. by repeat case_match. }
  by rewrite <-H in Ho.
Qed.

Lemma out_name_inj r r' : out_name r = out_name r' -> r = r'.
Proof. intros H. by apply (inj (String.append "mr-out-")), (inj itoa) in H. Qed.

(** ** Grouping by key *)

Definition values_of (k : string) (kvs : list KeyValue) : list string :=
  Value <$> filter (fun kv => Key kv = k) kvs.

Definition group (kvs : list KeyValue) : contents_t :=
  foldl (fun m kv => append_value (Key kv) (Value kv) m) ∅ kvs.

Definition nonempty_opt {A} (l : list A) : option (list A) :=
  match l with [] => None | _ => Some l end.

Lemma nonempty_opt_app {A} (l1 l2 : list A) :
  nonempty_opt (l1 ++ l2) =
  union_with (fun vs1 vs2 => Some (vs1 ++ vs2)) (nonempty_opt l1) (nonempty_opt l2).
Proof. destruct l1, l2; simpl; try done. by rewrite app_nil_r. Qed.

Lemma values_of_app k l1 l2 : values_of k (l1 ++ l2) = values_of k l1 ++ values_of k l2.
Proof. unfold values_of. by rewrite filter_app, fmap_app. Qed.

Lemma values_of_cons k kv l :
  values_of k (kv :: l) = (if decide (Key kv = k) then [Value kv] else []) ++ values_of k l.
Proof. unfold values_of. rewrite filter_cons. by case_decide. Qed.

Lemma values_of_Permutation k l1 l2 : l1 ≡ₚ l2 -> values_of k l1 ≡ₚ values_of k l2.
Proof. intros H. unfold values_of. by rewrite H. Qed.

Lemma group_lookup kvs k : group kvs !! k = nonempty_opt (values_of k kvs).
Proof.
  induction kvs as [|kv kvs IH] using rev_ind; [done|].
  unfold group. rewrite foldl_app. simpl. fold (group kvs). unfold append_value.
  rewrite values_of_app, values_of_cons. simpl.
  destruct (decide (Key kv = k)) as [->|Hk].
  - rewrite lookup_insert_eq, IH. by destruct (values_of k kvs).
  - rewrite lookup_insert_ne by done. by rewrite app_nil_r.
Qed.

Lemma group_elem kvs k vs : group kvs !! k = Some vs -> vs = values_of k kvs /\ vs <> [].
Proof. rewrite group_lookup. by destruct (values_of k kvs) eqn:H; [|intros [= <-]]. Qed.

(** [merge_contents] is the grouping of the concatenation. *)
Lemma group_app l1 l2 : group (l1 ++ l2) = merge_contents (group l1) (group l2).
Proof.
  apply map_eq. intros k. unfold merge_contents. rewrite lookup_union_with, !group_lookup.
  by rewrite values_of_app, nonempty_opt_app.
Qed.

(** The keys of one reducer. *)
Definition bucket (nReduce : nat) (kvs : list KeyValue) (r : nat) : contents_t :=
  filter (fun kv => reducer_of nReduce kv.1 = r) (group kvs).

Lemma bucket_lookup n kvs r k :
  bucket n kvs r !! k = if decide (reducer_of n k = r) then group kvs !! k else None.
Proof.
  unfold bucket. rewrite map_lookup_filter. destruct (group kvs !! k); simpl.
  - by repeat case_decide.
  - by case_decide.
Qed.

Lemma bucket_app n l1 l2 r : bucket n (l1 ++ l2) r = merge_contents (bucket n l1 r) (bucket n l2 r).
Proof.
  apply map_eq. intros k. unfold merge_contents. rewrite lookup_union_with, !bucket_lookup, group_app.
  unfold merge_contents. rewrite lookup_union_with. by case_decide.
Qed.

Lemma ihash_nonneg k : (0 <= ihash k)%Z.
Proof. unfold ihash. apply Z.land_nonneg. right. lia. Qed.

Lemma reducer_of_lt n k : 0 < n -> reducer_of n k < n.
Proof.
  intros Hn. unfold reducer_of. pose proof (Z.mod_pos_bound (ihash k) (Z.of_nat n) ltac:(lia)). lia.
Qed.

Lemma bucket_snoc n kvs kv r :
  bucket n (kvs ++ [kv]) r =
  if decide (reducer_of n (Key kv) = r) then append_value (Key kv) (Value kv) (bucket n kvs r)
  else bucket n kvs r.
Proof.
  apply map_eq. intros k. rewrite bucket_lookup.
  unfold group at 1. rewrite foldl_app. simpl. fold (group kvs). unfold append_value.
  destruct (decide (Key kv = k)) as [->|Hk].
  - rewrite lookup_insert_eq. case_decide.
    + by rewrite lookup_insert_eq, bucket_lookup, decide_True.
    + by rewrite bucket_lookup, decide_False.
  - rewrite lookup_insert_ne by done. rewrite <-bucket_lookup.
    case_decide; [by rewrite lookup_insert_ne|done].
Qed.

Lemma lookup_fmap_seq {A} (f : nat -> A) n r :
  (f <$> seq 0 n) !! r = if decide (r < n) then Some (f r) else None.
Proof.
  rewrite list_lookup_fmap. case_decide.
  - by rewrite lookup_seq_lt.
  - by rewrite lookup_seq_ge by lia.
Qed.

Lemma sort_results_spec n kvs :
  0 < n -> sort_results n kvs = Ret (bucket n kvs <$> seq 0 n).
Proof.
  intros Hn. induction kvs as [|kv kvs IH] using rev_ind.
  - unfold sort_results. simpl. f_equal. apply list_eq. intros r.
    rewrite lookup_fmap_seq. case_decide.
    + rewrite lookup_replicate_2 by done. done.
    + apply lookup_ge_None_2. rewrite length_replicate. lia.
  - unfold sort_results in *. rewrite foldl_app, IH. cbn.
    destruct (Nat.eqb_spec n 0); [lia|]. f_equal. apply list_eq. intros r.
    rewrite list_lookup_alter, !lookup_fmap_seq, bucket_snoc.
    destruct (decide (reducer_of n (Key kv) = r)) as [->|]; by case_decide.
Qed.
(** ** doMap and doReduce *)

Section Files.
Context `{Json}.
Context (create_ok write_ok : string -> bool).

Lemma create_files_spec names fs fs' :
  create_files create_ok names fs = (fs', true) ->
  (forall f, f ∈ names -> fs' !! f = Some "") /\ (forall f, f ∉ names -> fs' !! f = fs !! f).
Proof.
  revert fs. induction names as [|n names IH]; intros fs; simpl.
  - intros [= <-]. set_solver.
  - destruct (create_ok n); [|done]. intros [H1 H2]%IH. split.
    + intros f [-> | Hf]%elem_of_cons; [|by apply H1].
      destruct (decide (n ∈ names)); [by apply H1|]. rewrite H2 by done. by rewrite lookup_insert_eq.
    + intros f Hf. rewrite H2 by set_solver. rewrite lookup_insert_ne; [done|set_solver].
Qed.

Lemma create_files_ok names fs :
  (forall n, create_ok n = true) -> exists fs', create_files create_ok names fs = (fs', true).
Proof.
  intros Hok. revert fs. induction names as [|n names IH]; intros fs; simpl; [by eexists|].
  by rewrite Hok.
Qed.

Lemma write_buckets_spec (name : nat -> string) (b : nat -> contents_t) n order fs fs' :
  (forall r r', name r = name r' -> r = r') -> NoDup order ->
  (forall r, r ∈ order -> r < n /\ fs !! name r = Some "") ->
  write_buckets write_ok (name <$> seq 0 n) (b <$> seq 0 n) order fs = (fs', true) ->
  (forall r, r ∈ order -> fs' !! name r = Some (marshal (b r))) /\
  (forall f, (forall r, r ∈ order -> f <> name r) -> fs' !! f = fs !! f).
Proof.
  intros Hinj. revert fs. induction order as [|r order IH]; intros fs Hnd Hpre; simpl.
  - intros [= <-]. set_solver.
  - apply NoDup_cons in Hnd as [Hr Hnd].
    destruct (Hpre r) as [Hlt Hfs]; [set_solver|].
    rewrite !lookup_fmap_seq, !decide_True by done. destruct (write_ok (name r)); [|done].
    rewrite Hfs. simpl. intros Hw. apply IH in Hw as [H1 H2]; [|done|].
    + split.
      * intros r' [-> | Hr']%elem_of_cons; [|by apply H1].
        rewrite H2; [by rewrite lookup_insert_eq|]. intros r' Hr' Heq. apply Hinj in Heq. by subst.
      * intros f Hf. rewrite H2; [|intros; apply Hf; set_solver].
        rewrite lookup_insert_ne; [done|]. intros <-. by eapply Hf; [apply list_elem_of_here|].
    + intros r' Hr'. destruct (Hpre r') as [??]; [set_solver|]. split; [done|].
      rewrite lookup_insert_ne; [done|]. intros Heq%Hinj. by subst.
Qed.

Lemma write_buckets_ok (name : nat -> string) (b : nat -> contents_t) n order fs :
  (forall f, write_ok f = true) -> (forall r, r ∈ order -> r < n) ->
  exists fs', write_buckets write_ok (name <$> seq 0 n) (b <$> seq 0 n) order fs = (fs', true).
Proof.
  intros Hok. revert fs. induction order as [|r order IH]; intros fs Hlt; simpl; [by eexists|].
  rewrite !lookup_fmap_seq, !decide_True by (apply Hlt; set_solver). rewrite Hok.
  apply IH. intros. apply Hlt. set_solver.
Qed.

Lemma gen_name_inj mapTid rnd r r' :
  generateUniqueIntermediateFilename mapTid r (rnd r) =
  generateUniqueIntermediateFilename mapTid r' (rnd r') -> r = r'.
Proof.
  unfold generateUniqueIntermediateFilename. intros H0.
  apply (inj (String.append "mr-")) in H0.
  apply split_at_inj in H0 as [_ H0]; [|apply itoa_no_dash..].
  apply split_at_inj in H0 as [H2 _]; [|apply itoa_no_dash..]. by apply (inj itoa) in H2.
Qed.

Lemma gen_name_task m1 r1 b1 m2 r2 b2 :
  generateUniqueIntermediateFilename m1 r1 b1 = generateUniqueIntermediateFilename m2 r2 b2 -> m1 = m2.
Proof.
  unfold generateUniqueIntermediateFilename. intros H0.
  apply (inj (String.append "mr-")) in H0.
  apply split_at_inj in H0 as [H1 _]; [|apply itoa_no_dash..]. by apply (inj itoa) in H1.
Qed.

Definition map_names (mapTid n : nat) (rnd : nat -> string) : list string :=
  (fun r => generateUniqueIntermediateFilename mapTid r (rnd r)) <$> seq 0 n.

(** What a successful map task leaves in the file system. *)
Definition map_output (kvs : list KeyValue) (mapTid n : nat) (rnd : nat -> string) (fs fs' : fs_t) : Prop :=
  (forall r, r < n ->
    fs' !! generateUniqueIntermediateFilename mapTid r (rnd r) = Some (marshal (bucket n kvs r))) /\
  (forall f, (forall r, r < n -> f <> generateUniqueIntermediateFilename mapTid r (rnd r)) ->
    fs' !! f = fs !! f).

Lemma doMap_output mapf inputFile contents mapTid n rnd order fs fs' names :
  0 < n -> order ≡ₚ seq 0 n ->
  doMap create_ok write_ok mapf inputFile contents mapTid n rnd order fs = Ret (fs', Some names) ->
  names = map_names mapTid n rnd /\ map_output (mapf inputFile contents) mapTid n rnd fs fs'.
Proof.
  intros Hn Ho. unfold doMap. fold (map_names mapTid n rnd).
  destruct (create_files create_ok _ fs) as [fs1 []] eqn:Hc; [|done].
  rewrite sort_results_spec by done. simpl.
  destruct (write_buckets _ _ _ _ _) as [fs2 []] eqn:Hw; [|done]. intros [= <- <-]. split; [done|].
  apply create_files_spec in Hc as [Hc1 Hc2].
  apply write_buckets_spec in Hw as [Hw1 Hw2].
  - split.
    + intros r Hr. apply Hw1. rewrite Ho. apply elem_of_seq. lia.
    + intros f Hf. rewrite Hw2, Hc2; [done| |].
      * intros (r & -> & Hr%elem_of_seq)%list_elem_of_fmap. apply (Hf r); [lia|done].
      * intros r Hr. apply Hf. rewrite Ho in Hr. apply elem_of_seq in Hr. lia.
  - intros r r'. apply gen_name_inj.
  - rewrite Ho. apply NoDup_seq.
  - intros r Hr. rewrite Ho in Hr. pose proof (proj1 (elem_of_seq _ _ _) Hr). split; [lia|].
    apply Hc1. unfold map_names. apply list_elem_of_fmap. by exists r.
Qed.

Lemma doMap_ok mapf inputFile contents mapTid n rnd order fs :
  (forall f, create_ok f = true) -> (forall f, write_ok f = true) -> 0 < n -> order ≡ₚ seq 0 n ->
  exists fs', doMap create_ok write_ok mapf inputFile contents mapTid n rnd order fs =
    Ret (fs', Some (map_names mapTid n rnd)).
Proof.
  intros Hc Hw Hn Ho. unfold doMap. fold (map_names mapTid n rnd).
  destruct (create_files_ok (map_names mapTid n rnd) fs Hc) as [fs1 ->].
  rewrite sort_results_spec by done. simpl.
  destruct (write_buckets_ok (fun r => generateUniqueIntermediateFilename mapTid r (rnd r))
    (bucket n (mapf inputFile contents)) n order fs1 Hw) as [fs2 Hfs2].
  { intros r Hr. rewrite Ho in Hr. apply elem_of_seq in Hr. lia. }
  unfold map_names. rewrite Hfs2. by eexists.
Qed.

Definition valid_kvs (kvs : list KeyValue) : Prop :=
  Forall (fun kv => valid_utf8 (Key kv) /\ valid_utf8 (Value kv)) kvs.

Lemma bucket_roundtrip n kvs r :
  valid_kvs kvs -> unmarshal (marshal (bucket n kvs r)) = Some (bucket n kvs r).
Proof using Type.
  clear create_ok write_ok.
  intros Hv. unfold valid_kvs in Hv. rewrite Forall_forall in Hv.
  apply unmarshal_marshal. intros k vs. rewrite bucket_lookup. case_decide; [|done].
  intros [-> Hne]%group_elem.
  assert (forall v, v ∈ values_of k kvs -> valid_utf8 k /\ valid_utf8 v) as Hall.
  { intros v (kv & -> & [<- Hin]%list_elem_of_filter)%list_elem_of_fmap. by apply Hv. }
  split; [|by apply Forall_forall; intros; apply Hall].
  destruct (values_of k kvs) as [|v ?]; [done|]. apply (Hall v). set_solver.
Qed.

(** The files of reducer [r], one per map task, decode and merge into the
    grouping of the whole intermediate data restricted to [r]'s keys. *)
Lemma reduction_map_buckets n r (kvss : list (list KeyValue)) pre :
  Forall valid_kvs kvss ->
  reduction_map ((fun kvs => marshal (bucket n kvs r)) <$> kvss) (bucket n pre r) =
  Some (bucket n (pre ++ concat kvss) r).
Proof using Type.
  clear create_ok write_ok.
  revert pre. induction kvss as [|kvs kvss IH]; intros pre Hv; simpl.
  - by rewrite app_nil_r.
  - apply Forall_cons in Hv as [Hv1 Hv2]. rewrite bucket_roundtrip by done. simpl.
    rewrite <-bucket_app. by rewrite IH, app_assoc.
Qed.
End Files.

(** ** The sequential program groups by key *)

Definition key_le (kv1 kv2 : KeyValue) : Prop := String.le (Key kv1) (Key kv2).

(** In a sorted list the run is all of the key's values. *)
Lemma key_run_sorted kv l :
  StronglySorted key_le (kv :: l) ->
  (key_run (Key kv) l).1 = values_of (Key kv) l /\
  StronglySorted key_le (key_run (Key kv) l).2 /\
  length (key_run (Key kv) l).2 <= length l /\
  (forall k, k <> Key kv -> values_of k (key_run (Key kv) l).2 = values_of k l) /\
  values_of (Key kv) (key_run (Key kv) l).2 = [].
Proof.
  remember (Key kv) as key eqn:Hkey. intros Hs. apply StronglySorted_inv in Hs as [Hs Hle].
  assert (Forall (fun kv' => String.le key (Key kv')) l) as Hle'.
  { eapply Forall_impl; [exact Hle|]. intros kv'. unfold key_le. by rewrite Hkey. }
  clear Hle Hkey kv. induction l as [|kv l IH]; simpl.
  - split_and!; [done|constructor|lia|done|done].
  - apply StronglySorted_inv in Hs as [Hs Hhd]. apply Forall_cons in Hle' as [Hkv Hle'].
    destruct IH as (I1 & I2 & I3 & I4 & I5); [done..|]. rewrite values_of_cons. case_decide as Hk.
    + destruct (key_run key l) as [vs rest]. simpl in *. split_and!; [by rewrite I1|done|lia| |done].
      intros k Hne. rewrite I4 by done. rewrite values_of_cons. rewrite decide_False; [done|congruence].
    + assert (values_of key (kv :: l) = []) as Hnil.
      { unfold values_of. destruct (filter _ (kv :: l)) as [|kv' l'] eqn:Hf; [done|].
        assert (kv' ∈ filter (fun kv => Key kv = key) (kv :: l)) as Hin by (rewrite Hf; set_solver).
        apply list_elem_of_filter in Hin as [Hk' [-> | Hin]%elem_of_cons]; [done|].
        rewrite Forall_forall in Hhd. specialize (Hhd kv' Hin). unfold key_le in Hhd. rewrite Hk' in Hhd.
        destruct Hk. by apply (anti_symm String.le). }
      simpl. split_and!; [|by constructor|simpl; lia|done|done].
      rewrite values_of_cons, decide_False in Hnil by done. by symmetry.
Qed.

Lemma seq_groups_spec fuel l :
  length l <= fuel -> StronglySorted key_le l ->
  NoDup (seq_groups fuel l).*1 /\
  forall k vs, (k, vs) ∈ seq_groups fuel l <-> vs = values_of k l /\ vs <> [].
Proof.
  revert l. induction fuel as [|fuel IH]; intros l Hl Hs.
  { destruct l; [|simpl in Hl; lia]. simpl. split; [constructor|]. intros k vs. split; [set_solver|].
    by intros [-> ?]. }
  destruct l as [|kv l]; simpl.
  { split; [constructor|]. intros k vs. split; [set_solver|]. by intros [-> ?]. }
  destruct (key_run_sorted kv l Hs) as (H1 & H2 & H3 & H4 & H5).
  destruct (key_run (Key kv) l) as [vs rest] eqn:Hrun. simpl in *.
  destruct (IH rest) as [Hnd Hin]; [lia|done|]. split.
  - apply NoDup_cons. split; [|done]. intros ([k vs'] & Hk & Hin')%list_elem_of_fmap. simpl in Hk. subst k.
    apply Hin in Hin' as [-> Hne]. by rewrite H5 in Hne.
  - intros k vs'. rewrite elem_of_cons, Hin, values_of_cons. split.
    + intros [[= -> ->]|[-> Hne]].
      * rewrite decide_True by done. by rewrite H1.
      * destruct (decide (Key kv = k)) as [<-|]; [by rewrite H5 in Hne|]. by rewrite H4 in * by done.
    + intros [-> Hne]. destruct (decide (Key kv = k)) as [<-|].
      * left. by rewrite H1.
      * right. simpl in *. by rewrite H4 by done.
Qed.

Lemma seq_groups_group l :
  StronglySorted key_le l -> seq_groups (length l) l ≡ₚ map_to_list (group l).
Proof.
  intros Hs. destruct (seq_groups_spec (length l) l) as [Hnd Hin]; [lia|done|].
  apply NoDup_Permutation.
  - by eapply NoDup_fmap_1.
  - apply NoDup_map_to_list.
  - intros [k vs]. rewrite Hin, elem_of_map_to_list, group_lookup.
    split; [intros [-> ?]; by destruct (values_of k l)|].
    intros Hg. destruct (values_of k l) eqn:E; simpl in Hg; simplify_eq. done.
Qed.
(** ** Lines of output *)

(** Reduce functions that do not look at the order of the values. *)
Class PermReduce (reducef : string -> list string -> string) : Prop :=
  perm_reduce k vs1 vs2 : vs1 ≡ₚ vs2 -> reducef k vs1 = reducef k vs2.

Lemma sort_strings_Permutation l1 l2 : l1 ≡ₚ l2 -> sort_strings l1 = sort_strings l2.
Proof.
  intros Hp. unfold sort_strings. apply (Sorted_unique String.le); [apply Sorted_merge_sort, _..|].
  by rewrite !merge_sort_Permutation.
Qed.

#[export] Instance wc_Reduce_perm : PermReduce wc_Reduce.
Proof. intros k vs1 vs2 H. unfold wc_Reduce. by rewrite H. Qed.
#[export] Instance early_exit_Reduce_perm : PermReduce early_exit_Reduce.
Proof. intros k vs1 vs2 H. unfold early_exit_Reduce. by rewrite H. Qed.
#[export] Instance crash_Reduce_perm : PermReduce crash_Reduce.
Proof. intros k vs1 vs2 H. unfold crash_Reduce. by rewrite (sort_strings_Permutation _ _ H). Qed.
#[export] Instance indexer_Reduce_perm : PermReduce indexer_Reduce.
Proof.
  intros k vs1 vs2 H. unfold indexer_Reduce. rewrite (sort_strings_Permutation _ _ H). by rewrite H.
Qed.

Definition lines (reducef : string -> list string -> string) (es : list (string * list string))
    : list (string * string) := (fun kv => (kv.1, reducef kv.1 kv.2)) <$> es.

#[export] Instance lines_proper reducef : Proper ((≡ₚ) ==> (≡ₚ)) (lines reducef).
Proof. intros l1 l2 H. unfold lines. by rewrite H. Qed.

Lemma NoDup_lines reducef (m : contents_t) : NoDup (lines reducef (map_to_list m)).
Proof.
  apply (NoDup_fmap_1 fst). unfold lines. rewrite <-list_fmap_compose.
  apply NoDup_fst_map_to_list.
Qed.

Lemma elem_of_lines reducef (m : contents_t) k o :
  (k, o) ∈ lines reducef (map_to_list m) <-> exists vs, m !! k = Some vs /\ o = reducef k vs.
Proof.
  unfold lines. rewrite list_elem_of_fmap. split.
  - intros ([k' vs] & [= -> ->] & H%elem_of_map_to_list). eauto.
  - intros (vs & H & ->). exists (k, vs). split; [done|]. by apply elem_of_map_to_list.
Qed.

Lemma lines_perm reducef l1 l2 :
  PermReduce reducef -> l1 ≡ₚ l2 ->
  lines reducef (map_to_list (group l1)) ≡ₚ lines reducef (map_to_list (group l2)).
Proof.
  intros Hp. assert (forall l1 l2 x, l1 ≡ₚ l2 -> x ∈ lines reducef (map_to_list (group l1)) ->
    x ∈ lines reducef (map_to_list (group l2))) as Hsub.
  { clear l1 l2. intros l1 l2 [k o] Hl. rewrite !elem_of_lines. intros (vs & [-> Hne]%group_elem & ->).
    pose proof (values_of_Permutation k _ _ Hl) as Hv. exists (values_of k l2). split.
    - rewrite group_lookup. destruct (values_of k l2); [|done].
      by apply Permutation_nil_r in Hv.
    - by apply Hp. }
  intros Hl. apply NoDup_Permutation; [apply NoDup_lines..|]. intros x. by split; apply Hsub.
Qed.

(** Splitting a list by a function into [0 .. n-1]. *)
Lemma partition_seq {A} (h : A -> nat) (l : list A) n :
  concat ((fun r => filter (fun x => h x = r) l) <$> seq 0 n) ≡ₚ filter (fun x => h x < n) l.
Proof.
  induction n as [|n IH].
  - simpl. induction l as [|x l IHl]; [done|]. by rewrite filter_cons, decide_False by lia.
  - rewrite seq_S, fmap_app, concat_app, IH. simpl. rewrite app_nil_r. clear IH.
    induction l as [|x l IHl]; [done|]. rewrite !filter_cons.
    destruct (decide (h x < n)), (decide (h x = n)), (decide (h x < S n)); try lia; simpl.
    + by rewrite <-IHl.
    + by rewrite <-Permutation_middle, IHl.
    + done.
Qed.

Lemma map_to_list_bucket n kvs r :
  map_to_list (bucket n kvs r) ≡ₚ
  filter (fun kv : string * list string => reducer_of n kv.1 = r) (map_to_list (group kvs)).
Proof.
  apply NoDup_Permutation; [apply NoDup_map_to_list|apply NoDup_filter, NoDup_map_to_list|].
  intros [k vs]. unfold bucket.
  rewrite list_elem_of_filter, !elem_of_map_to_list, map_lookup_filter_Some. naive_solver.
Qed.

Lemma lines_partition reducef n kvs :
  0 < n ->
  concat ((fun r => lines reducef (map_to_list (bucket n kvs r))) <$> seq 0 n) ≡ₚ
  lines reducef (map_to_list (group kvs)).
Proof.
  intros Hn. pose (h := fun kv : string * list string => reducer_of n kv.1).
  transitivity (lines reducef (concat ((fun r => filter (fun kv => h kv = r) (map_to_list (group kvs))) <$> seq 0 n))).
  - generalize (seq 0 n). intros rs. induction rs as [|r rs IH]; [done|]. simpl.
    unfold lines at 3. rewrite fmap_app. fold (lines reducef). apply Permutation_app; [|exact IH].
    apply lines_proper. apply map_to_list_bucket.
  - apply lines_proper. rewrite partition_seq.
    assert (forall l : list (string * list string), filter (fun x => h x < n) l = l) as Hall; [|by rewrite Hall].
    intros l. induction l as [|x l IHl]; [done|]. rewrite filter_cons, decide_True; [by rewrite IHl|].
    by apply reducer_of_lt.
Qed.

(** Reducers that each output the lines of their bucket output, together, the
    lines of [mrsequential]. *)
Lemma outputs_sequential reducef n kvs sorted (out : nat -> list (string * string)) :
  PermReduce reducef -> 0 < n -> sorted ≡ₚ kvs -> StronglySorted key_le sorted ->
  (forall r, r < n -> out r ≡ₚ lines reducef (map_to_list (bucket n kvs r))) ->
  concat (out <$> seq 0 n) ≡ₚ mrsequential reducef sorted.
Proof.
  intros Hperm Hn Hp Hs Hout. transitivity (lines reducef (map_to_list (group kvs))).
  - rewrite <-(lines_partition reducef n kvs Hn).
    assert (Hall : Forall (fun r => r < n) (seq 0 n)) by (apply Forall_seq; lia).
    induction Hall as [|r rs Hr _ IH]; [done|]. simpl. apply Permutation_app; [by apply Hout|done].
  - rewrite (lines_perm reducef kvs sorted) by done. unfold mrsequential. fold (lines reducef).
    apply lines_proper. by rewrite seq_groups_group.
Qed.

(** ** A whole job *)

Section Job.
Context `{Json}.
Context (create_ok write_ok : string -> bool).
Context (mapf : string -> string -> list KeyValue) (reducef : string -> list string -> string).
Context (n : nat).                                   (* number of reducers *)
Context (rnd : nat -> nat -> string).                (* random bytes per task and reducer *)
Context (map_order : list nat) (red_order : contents_t -> list (string * list string)).

Notation task := (worker_task create_ok write_ok mapf reducef).

(** The coordinator's map tasks, each carried out by some worker; the
    coordinator hands an unacknowledged task out again, so a job stops
    here at one. *)
Fixpoint run_maps (tid : nat) (files : list string) (fs : fs_t) (acks : list CompleteTaskArgs)
    : outcome (fs_t * list CompleteTaskArgs) :=
  match files with
  | [] => Ret (fs, acks)
  | f :: rest =>
      r ← task (rnd tid) map_order red_order (mkReply TaskTypeMap tid f n []) fs;
      match r with
      | (fs', Some a) => run_maps (S tid) rest fs' (acks ++ [a])
      | (_, None) => Fatal "task not acknowledged"
      end
  end.

Fixpoint run_reduces (rs : list nat) (acks : list CompleteTaskArgs) (fs : fs_t) : outcome fs_t :=
  match rs with
  | [] => Ret fs
  | r :: rest =>
      res ← task (rnd r) map_order red_order
        (mkReply TaskTypeReduce r "" 0 (files_for (acks ≫= a_MapFiles) r)) fs;
      match res with
      | (fs', Some _) => run_reduces rest acks fs'
      | (_, None) => Fatal "task not acknowledged"
      end
  end.

Definition run_job (files : list string) (fs : fs_t) : outcome fs_t :=
  r ← run_maps 0 files fs [];
  run_reduces (seq 0 n) r.2 r.1.

Hypothesis Hcreate : forall f, create_ok f = true.
Hypothesis Hwrite : forall f, write_ok f = true.
Hypothesis Hn : 0 < n.
Hypothesis Hmap_order : map_order ≡ₚ seq 0 n.
Hypothesis Hred_order : forall m, red_order m ≡ₚ map_to_list m.

Definition gen (i r : nat) : string := generateUniqueIntermediateFilename i r (rnd i r).

Lemma map_task_ok tid f c fs :
  fs !! f = Some c ->
  exists fs', task (rnd tid) map_order red_order (mkReply TaskTypeMap tid f n []) fs =
      Ret (fs', Some (map_ack_args tid (map_names tid n (rnd tid)))) /\
    map_output (mapf f c) tid n (rnd tid) fs fs'.
Proof.
  intros Hf. unfold worker_task. simpl. rewrite Hf.
  destruct (doMap_ok create_ok write_ok mapf f c tid n (rnd tid) map_order fs) as [fs' Hd]; [done..|].
  rewrite Hd. simpl. exists fs'. split; [done|]. by eapply doMap_output.
Qed.

(** After the map phase every bucket of every task is in its file. *)
Lemma run_maps_ok files contents tid fs acks :
  Forall2 (fun f c => fs !! f = Some c) files contents ->
  (forall f i r b, f ∈ files -> f <> generateUniqueIntermediateFilename i r b) ->
  exists fs', run_maps tid files fs acks =
      Ret (fs', acks ++ imap (fun i _ => map_ack_args (tid + i) (map_names (tid + i) n (rnd (tid + i)))) files) /\
    (forall i f c, files !! i = Some f -> contents !! i = Some c ->
       forall r, r < n -> fs' !! gen (tid + i) r = Some (marshal (bucket n (mapf f c) r))) /\
    (forall i r, i < tid -> fs' !! gen i r = fs !! gen i r).
Proof.
  revert contents tid fs acks. induction files as [|f files IH]; intros contents tid fs acks Hc Hnames.
  - apply Forall2_nil_inv_l in Hc as ->. exists fs. simpl. by rewrite app_nil_r.
  - apply Forall2_cons_inv_l in Hc as (c & cs & Hf & Hcs & ->).
    destruct (map_task_ok tid f c fs Hf) as (fs1 & Ht & Hout & Hframe).
    assert (forall f', f' ∈ files -> fs1 !! f' = fs !! f') as Hin.
    { intros f' Hf'. apply Hframe. intros r _. apply Hnames. set_solver. }
    destruct (IH cs (S tid) fs1 (acks ++ [map_ack_args tid (map_names tid n (rnd tid))]))
      as (fs' & Hr & Hb & Hlow).
    + apply Forall2_same_length_lookup in Hcs as [Hlen Hcs]. apply Forall2_same_length_lookup.
      split; [done|]. intros i f' c' Hi Hi'. rewrite Hin by (by eapply list_elem_of_lookup_2).
      by eapply Hcs.
    + intros f' i r b Hf'. apply Hnames. set_solver.
    + exists fs'. simpl. simpl in Ht. rewrite Ht. simpl. rewrite Hr. split_and!.
      * rewrite <-app_assoc. simpl. rewrite Nat.add_0_r. f_equal. f_equal. f_equal. f_equal.
        apply imap_ext. intros. simpl. by rewrite Nat.add_succ_r.
      * intros [|i] f' c' Hi Hi' r Hr'; simpl in Hi, Hi'; simplify_eq.
        { rewrite Nat.add_0_r, Hlow by lia. by apply Hout. }
        rewrite Nat.add_succ_r. by eapply (Hb i).
      * intros i r Hi. rewrite Hlow by lia. apply Hframe. intros r' _ Heq. apply gen_name_task in Heq. lia.
Qed.

Lemma files_for_ack tid r :
  r < n -> files_for (a_MapFiles (map_ack_args tid (map_names tid n (rnd tid)))) r = [gen tid r].
Proof.
  intros Hr. unfold map_ack_args, map_names. simpl.
  assert (forall k m, files_for (imap (fun i nm => (Z.of_nat (k + i), nm))
    ((fun r => gen tid r) <$> seq k m)) r = if decide (k <= r < k + m) then [gen tid r] else []) as Hk.
  { intros k m. revert k. induction m as [|m IH]; intros k.
    - simpl. rewrite decide_False by lia. done.
    - unfold files_for in *. cbn [seq]. rewrite fmap_cons, imap_cons, filter_cons. cbn [fst].
      rewrite (imap_ext _ (fun i nm => (Z.of_nat (S k + i), nm))) by (intros; simpl; f_equal; lia).
      specialize (IH (S k)).
      destruct (decide (Z.of_nat (k + 0) = Z.of_nat r)) as [Hd|Hd]; rewrite ?fmap_cons, IH;
        destruct (decide (S k <= r < S k + m)), (decide (k <= r < k + S m)); try done; try lia.
      simpl. rewrite Nat.add_0_r in Hd. apply Nat2Z.inj in Hd. by subst. }
  specialize (Hk 0 n). simpl in Hk. unfold gen in Hk. rewrite Hk. by rewrite decide_True by lia.
Qed.

Lemma files_for_app fs1 fs2 r : files_for (fs1 ++ fs2) r = files_for fs1 r ++ files_for fs2 r.
Proof. unfold files_for. by rewrite filter_app, fmap_app. Qed.

Lemma files_for_acks (files : list string) tid r :
  r < n ->
  files_for (imap (fun i _ => map_ack_args (tid + i) (map_names (tid + i) n (rnd (tid + i)))) files
    ≫= a_MapFiles) r = (fun i => gen i r) <$> seq tid (length files).
Proof.
  intros Hr. revert tid. induction files as [|f files IH]; intros tid; [done|].
  cbn [imap]. rewrite bind_cons, files_for_app, Nat.add_0_r, files_for_ack by done. simpl. f_equal.
  rewrite <-IH. f_equal. f_equal. apply imap_ext. intros. simpl. by rewrite Nat.add_succ_r.
Qed.

Lemma read_inputs_ok fs files contents r tid :
  length files = length contents ->
  (forall i f c, files !! i = Some f -> contents !! i = Some c ->
     fs !! gen (tid + i) r = Some (marshal (bucket n (mapf f c) r))) ->
  read_inputs fs ((fun i => gen i r) <$> seq tid (length files)) =
  (fun kvs => marshal (bucket n kvs r)) <$> zip_with mapf files contents.
Proof.
  revert contents tid. induction files as [|f files IH]; intros [|c contents] tid Hlen Hfs; try done.
  simpl. specialize (Hfs 0 f c eq_refl eq_refl) as H0. rewrite Nat.add_0_r in H0.
  unfold read_inputs in *. simpl. rewrite H0. f_equal. apply IH; [simpl in Hlen; lia|].
  intros i f' c' Hi Hc. specialize (Hfs (S i) f' c' Hi Hc). by rewrite Nat.add_succ_r in Hfs.
Qed.

Lemma run_reduces_ok rs acks fs files contents :
  NoDup rs -> (forall r, r ∈ rs -> r < n) ->
  (forall r, r ∈ rs -> files_for (acks ≫= a_MapFiles) r = (fun i => gen i r) <$> seq 0 (length files)) ->
  length files = length contents ->
  Forall valid_kvs (zip_with mapf files contents) ->
  (forall i f c, files !! i = Some f -> contents !! i = Some c ->
     forall r, r < n -> fs !! gen i r = Some (marshal (bucket n (mapf f c) r))) ->
  exists fs', run_reduces rs acks fs = Ret fs' /\
    (forall r, r ∈ rs -> fs' !! out_name r =
       Some (out_file (lines reducef (red_order (bucket n (concat (zip_with mapf files contents)) r))))) /\
    (forall r, r ∉ rs -> fs' !! out_name r = fs !! out_name r).
Proof.
  revert fs. induction rs as [|r rs IH]; intros fs Hnd Hlt Hfiles Hlen Hv Hfs.
  { exists fs. split_and!; [done|set_solver|done]. }
  apply NoDup_cons in Hnd as [Hr Hnd]. assert (r < n) as Hrn by (apply Hlt; set_solver).
  set (m := bucket n (concat (zip_with mapf files contents)) r).
  assert (reduction_map (read_inputs fs (files_for (acks ≫= a_MapFiles) r)) ∅ = Some m) as Hm.
  { rewrite Hfiles by set_solver. rewrite (read_inputs_ok fs files contents r 0 Hlen).
    2: { intros i f c Hi Hc. by apply (Hfs i f c Hi Hc). }
    pose proof (reduction_map_buckets n r (zip_with mapf files contents) [] Hv) as HR.
    assert (bucket n [] r = ∅) as E by apply map_filter_empty. rewrite E in HR. exact HR. }
  destruct (IH (<[out_name r := out_file (lines reducef (red_order m))]> fs)) as (fs' & Hrun & Hout & Hoth);
    [done|set_solver|set_solver|done|done| |].
  { intros i f c Hi Hc r' Hr'. rewrite lookup_insert_ne; [by apply (Hfs i f c)|].
    apply out_name_not_intermediate. }
  exists fs'. split_and!.
  - cbn [run_reduces]. unfold worker_task. cbn [p_Type p_Files p_Tid]. simpl (_ =? _)%Z.
    unfold doReduce. rewrite Hm, Hcreate. exact Hrun.
  - intros r' [-> | Hr']%elem_of_cons; [|by apply Hout]. rewrite Hoth by done.
    by rewrite lookup_insert_eq.
  - intros r' Hr'. rewrite Hoth by set_solver. rewrite lookup_insert_ne; [done|].
    intros Heq%out_name_inj. subst. set_solver.
Qed.

Lemma seq_intermediate_contents fs files kvs :
  seq_intermediate mapf fs files = Ret kvs ->
  exists contents, Forall2 (fun f c => fs !! f = Some c) files contents /\
    kvs = concat (zip_with mapf files contents).
Proof.
  revert kvs. induction files as [|f files IH]; intros kvs; simpl.
  - intros [= <-]. exists []. by split.
  - destruct (fs !! f) as [c|] eqn:Hf; [|done].
    destruct (seq_intermediate mapf fs files) as [kvs'| |]; simpl; try done.
    intros [= <-]. destruct (IH kvs' eq_refl) as (cs & Hcs & ->). exists (c :: cs). split; [by constructor|done].
Qed.

(** the distributed job computes what the sequential program computes.
    Whatever the order in which Go iterates over its maps, the random
    bytes and the way the sequential program's unstable sort orders equal
    keys: when the reduce function does not depend on the order of its
    values, the job finishes and its output files together hold exactly
    the lines of [mrsequential], each key's line in the file of one
    reducer. *)
Theorem job_matches_sequential files fs kvs sorted :
  PermReduce reducef ->
  (forall f i r b, f ∈ files -> f <> generateUniqueIntermediateFilename i r b) ->
  seq_intermediate mapf fs files = Ret kvs -> valid_kvs kvs ->
  sorted ≡ₚ kvs -> StronglySorted key_le sorted ->
  exists fs' out, run_job files fs = Ret fs' /\
    (forall r, r < n -> fs' !! out_name r = Some (out_file (out r))) /\
    concat (out <$> seq 0 n) ≡ₚ mrsequential reducef sorted /\
    (forall r k o, r < n -> (k, o) ∈ out r -> reducer_of n k = r).
Proof.
  intros Hperm Hnames Hseq Hv Hp Hs.
  destruct (seq_intermediate_contents _ _ _ Hseq) as (contents & Hc & ->).
  set (kvs := concat (zip_with mapf files contents)) in *.
  pose proof (Forall2_length _ _ _ Hc) as Hlen.
  destruct (run_maps_ok files contents 0 fs [] Hc Hnames) as (fs1 & Hm & Hfs1 & _). simpl in Hm.
  destruct (run_reduces_ok (seq 0 n) (imap (fun i _ => map_ack_args i (map_names i n (rnd i))) files)
    fs1 files contents) as (fs' & Hr & Hout & _).
  - apply NoDup_seq.
  - intros r Hr%elem_of_seq. lia.
  - intros r Hr%elem_of_seq. apply (files_for_acks files 0). lia.
  - done.
  - unfold valid_kvs in *. apply Forall_concat. exact Hv.
  - done.
  - exists fs', (fun r => lines reducef (red_order (bucket n kvs r))). split_and!.
    + unfold run_job. rewrite Hm. simpl. exact Hr.
    + intros r Hrn. apply Hout. apply elem_of_seq. lia.
    + apply (outputs_sequential reducef n kvs); [done..|]. intros r _. apply lines_proper, Hred_order.
    + intros r k o Hrn Hin. rewrite (lines_proper reducef _ _ (Hred_order _)) in Hin.
      apply elem_of_lines in Hin as (vs & Hb & _). rewrite bucket_lookup in Hb. by case_decide.
Qed.
End Job.

(** ** Acknowledgements *)

(** the coordinator's assumption on its workers ([job_can_finish]) is
    what the worker's code does: the ack it sends for a task is one for that
    task, and for a map task it names exactly one file per reducer, all
    written with that reducer's part of the map output. *)
Theorem worker_acks_its_task `{Json} create_ok write_ok mapf reducef rnd map_order red_order
    c t reply fs fs' a :
  0 < nReduce c -> map_order ≡ₚ seq 0 (nReduce c) ->
  ReqTask c t = Ret (reply, true) ->
  worker_task create_ok write_ok mapf reducef rnd map_order red_order reply fs = Ret (fs', Some a) ->
  ack_for (nReduce c) a t = true /\
  (taskType t = coordinatorStateMap -> exists content,
    fs !! p_File reply = Some content /\
    forall r, r < nReduce c -> exists f, a_MapFiles a !! r = Some (Z.of_nat r, f) /\
      fs' !! f = Some (marshal (bucket (nReduce c) (mapf (p_File reply) content) r))).
Proof.
  intros Hn Ho Hreq. unfold ReqTask in Hreq. case_decide; [|done].
  destruct (taskType t) eqn:Ht; [| |done].
  - destruct (mapTaskState c !! tid t) as [mt|]; [|done]. injection Hreq as <-.
    unfold worker_task. simpl. destruct (fs !! m_inputFile mt) as [content|] eqn:Hf; [|done].
    destruct (doMap _ _ _ _ _ _ _ _ _ _) as [[fs1 [names|]]| |] eqn:Hd; simpl; try done.
    intros [= <- <-]. apply doMap_output in Hd as (-> & Hout & _); [|done..].
    assert (forall r, r < nReduce c -> map_names (tid t) (nReduce c) rnd !! r =
      Some (generateUniqueIntermediateFilename (tid t) r (rnd r))) as Hnames.
    { intros r Hr. unfold map_names. by rewrite lookup_fmap_seq, decide_True. }
    split.
    + unfold ack_for. rewrite Ht. simpl. rewrite Z.eqb_refl. simpl. apply bool_decide_eq_true.
      apply list_eq. intros r. rewrite list_lookup_fmap, list_lookup_imap, lookup_fmap_seq.
      unfold map_names. rewrite lookup_fmap_seq. by case_decide.
    + intros _. exists content. split; [done|]. intros r Hr. eexists. split; [|by apply Hout].
      simpl. rewrite list_lookup_imap, Hnames by done. done.
  - destruct (reduceTaskState c !! tid t) as [rt|]; [|done]. injection Hreq as <-.
    unfold worker_task. simpl. destruct (doReduce _ _ _ _ _ _) as [fs1 []]; [|done].
    intros [= <- <-]. split; [|done]. unfold ack_for. rewrite Ht. simpl. apply Z.eqb_refl.
Qed.

(** the loop that reads a reducer's inputs drops an unreadable file and
    goes on: the task is carried out and acknowledged exactly as if the
    coordinator had not named that file, although its comment promises that
    the task will be retried. *)
Theorem reduce_skips_unreadable `{Json} create_ok write_ok mapf reducef rnd map_order red_order
    tid files1 f files2 fs :
  fs !! f = None ->
  worker_task create_ok write_ok mapf reducef rnd map_order red_order
    (mkReply TaskTypeReduce tid "" 0 (files1 ++ f :: files2)) fs =
  worker_task create_ok write_ok mapf reducef rnd map_order red_order
    (mkReply TaskTypeReduce tid "" 0 (files1 ++ files2)) fs.
Proof.
  intros Hf. unfold worker_task. simpl. unfold read_inputs. rewrite !omap_app. simpl. by rewrite Hf.
Qed.

(** ** Witnesses, with a concrete codec in place of JSON *)

Program Definition bit_json : Json := {|
  valid_utf8 _ := True;
  marshal m := pos_bits (encode m);
  unmarshal s := bits_pos s ≫= decode |}.
Next Obligation. intros m _. simpl. rewrite bits_pos_bits. simpl. apply decode_encode. Qed.

#[export] Instance key_le_dec : RelDecision key_le.
Proof. intros kv1 kv2. unfold key_le. apply _. Defined.
#[export] Instance key_le_total : Total key_le.
Proof. intros kv1 kv2. unfold key_le. apply (total String.le). Qed.
#[export] Instance key_le_trans : Transitive key_le.
Proof. intros kv1 kv2 kv3. unfold key_le. apply transitivity. Qed.

Definition demo_fs : fs_t := <["in-0" := "hello"]> (<["in-1" := "wide world"]> ∅).
Definition demo_files : list string := ["in-0"; "in-1"].
Definition demo_kvs : list KeyValue := crash_Map "in-0" "hello" ++ crash_Map "in-1" "wide world".

Lemma job_matches_sequential_witness :
  exists fs' out, run_job (H := bit_json) (fun _ => true) (fun _ => true) crash_Map crash_Reduce 3
      (fun _ _ => "0123456789abcdef") [2; 0; 1] map_to_list demo_files demo_fs = Ret fs' /\
    (forall r, r < 3 -> fs' !! out_name r = Some (out_file (out r))) /\
    concat (out <$> seq 0 3) ≡ₚ mrsequential crash_Reduce (merge_sort key_le demo_kvs) /\
    (forall r k o, r < 3 -> (k, o) ∈ out r -> reducer_of 3 k = r).
Proof.
  apply (job_matches_sequential (H := bit_json) (fun _ => true) (fun _ => true) crash_Map crash_Reduce 3
    (fun _ _ => "0123456789abcdef") [2; 0; 1] map_to_list) with (kvs := demo_kvs).
  - done.
  - done.
  - lia.
  - apply (bool_decide_unpack _). by vm_compute.
  - done.
  - apply _.
  - intros f i r b Hf. unfold demo_files in Hf. rewrite !elem_of_cons in Hf.
    unfold generateUniqueIntermediateFilename. by destruct Hf as [-> | [-> | Hf%elem_of_nil]].
  - by vm_compute.
  - apply Forall_forall. done.
  - apply merge_sort_Permutation.
  - apply Sorted_StronglySorted; [apply _|]. apply Sorted_merge_sort, _.
Defined.

Definition demo_c : coord :=
  mkCoord 2 demo_files (imap (new_map_task 2) demo_files) (new_reduce_task <$> seq 0 2)
    [mkTask 0 coordinatorStateMap; mkTask 1 coordinatorStateMap] [] coordinatorStateMap MapWait 2 [] [].

Definition acked (o : outcome (fs_t * option CompleteTaskArgs)) : bool :=
  match o with Ret (_, Some _) => true | _ => false end.

Lemma worker_acks_its_task_witness :
  exists c reply fs' a, MakeCoordinator demo_files 2 = Some c /\
    ReqTask c (mkTask 1 coordinatorStateMap) = Ret (reply, true) /\
    worker_task (H := bit_json) (fun _ => true) (fun _ => true) crash_Map wc_Reduce (fun _ => "x") [1; 0]
      map_to_list reply demo_fs = Ret (fs', Some a) /\
    ack_for 2 a (mkTask 1 coordinatorStateMap) = true.
Proof.
  assert (Hok : acked (worker_task (H := bit_json) (fun _ => true) (fun _ => true) crash_Map wc_Reduce
    (fun _ => "x") [1; 0] map_to_list (mkReply TaskTypeMap 1 "in-1" 2 []) demo_fs) = true) by by vm_compute.
  destruct (worker_task _ _ _ _ _ _ _ _ _) as [[fs' [a|]]| |] eqn:Hw; try discriminate Hok.
  eexists demo_c, _, fs', a. split_and!; [done|done|exact Hw|].
  refine (proj1 (worker_acks_its_task (H := bit_json) _ _ _ _ _ _ _ demo_c (mkTask 1 coordinatorStateMap) _ _ _ _ _ _ _ Hw)).
  - simpl. lia.
  - apply (bool_decide_unpack _). by vm_compute.
  - done.
Defined.

Lemma reduce_skips_unreadable_witness :
  exists fs', worker_task (H := bit_json) (fun _ => true) (fun _ => true) crash_Map wc_Reduce (fun _ => "x") [0]
      map_to_list (mkReply TaskTypeReduce 4 "" 0 ["lost"]) demo_fs = Ret (fs', Some (reduce_ack_args 4)) /\
    fs' !! "mr-out-4" = Some "".
Proof.
  exists (<["mr-out-4" := ""]> demo_fs). split; [|done].
  etransitivity; [apply (reduce_skips_unreadable (H := bit_json) _ _ _ _ _ _ _ 4 [] "lost" []); done|].
  done.
Defined.
End MrWorker.
