(* ===== verification/MrJob.v ===== *)
(** * MrJob: a MapReduce job, coordinator and workers together

    [MrCoordinator]'s coordinator with any number of workers running the loop
    of [Worker] ([src/src/mr/worker.go]) over one file system.  Workers ask for
    tasks, execute them, acknowledge them, and may die at any moment; a task can
    be handed out again while its first worker is still at it.  A map task
    writes files nobody else knows of, so it is one step; a reduce task creates
    its output file and writes it line by line, a step each. *)

From S2P Require Import Prelude MrCoordinator MrWorker.
From stdpp Require Import base gmap list strings sorting.
From Stdlib Require Import ZArith Lia Ascii.
From stdpp Require Import list.

Module MrJob.
Import MrCoordinator MrWorker.

(** ** Files *)

Fixpoint drop_str (n : nat) (s : string) : string :=
  match n, s with
  | S n, String _ s => drop_str n s
  | _, _ => s
  end.

(** [write(2)] of [d] at a descriptor's offset; a gap is filled with NUL. *)
Fixpoint write_at (off : nat) (d s : string) : string :=
  match off, s with
  | 0, _ => d +:+ drop_str (String.length d) s
  | S off, EmptyString => String "000" (write_at off d EmptyString)
  | S off, String c s => String c (write_at off d s)
  end.

(** ** Workers *)

(** Where a worker is: asking for a task, with one, in [doReduce]'s loop (the
    offset of its descriptor and the lines still to write), about to call
    [CompleteTask]. *)
Inductive wstate :=
  | WIdle
  | WTask (p : ReqTaskReply)
  | WWriting (r off : nat) (todo : list (string * string))
  | WAck (a : CompleteTaskArgs).

(** For the proofs: how the last execution of a reduce task that created the
    output file went. *)
Inductive attempt := Running (w : nat) | Finished | Crashed.

#[export] Instance attempt_eq_dec : EqDecision attempt.
Proof. solve_decision. Defined.

Record job := mkJob {
  j_c : coord; j_fs : fs_t; j_ws : list wstate; j_last : gmap nat attempt }.

(** [JReq]: the reply of handler [i] reaches worker [w], or nobody. *)
Inductive job_event :=
  | JRecv
  | JTimer (i : nat)
  | JMain
  | JReq (w : option nat) (i : nat)
  | JMap (w : nat) (create_ok write_ok : string -> bool) (rnd : nat -> string) (order : list nat)
  | JReduce (w : nat) (create_ok : bool) (order : list (string * list string))
  | JWrite (w : nat)
  | JClose (w : nat)
  | JAck (w : nat)
  | JCrash (w : nat).

Create HintDb job discriminated.

Section Job.
Context `{Json} (mapf : string -> string -> list KeyValue) (reducef : string -> list string -> string).

Definition set_coord (s : job) (c : coord) : job := mkJob c (j_fs s) (j_ws s) (j_last s).
Definition set_worker (s : job) (w : nat) (st : wstate) : job := mkJob (j_c s) (j_fs s) (<[w := st]> (j_ws s)) (j_last s).
Definition set_fs (s : job) (fs : fs_t) : job := mkJob (j_c s) fs (j_ws s) (j_last s).
Definition set_last (s : job) (r : nat) (a : attempt) : job := mkJob (j_c s) (j_fs s) (j_ws s) (<[r := a]> (j_last s)).

(** The task in a reply, if it is not to sleep. *)
Definition take_task (c : coord) (t : task) : wstate :=
  match ReqTask c t with
  | Ret (p, _) => if (p_Type p =? TaskTypeSleep)%Z then WIdle else WTask p
  | _ => WIdle
  end.

(** [rand.Read] does not give the bytes of a file that exists. *)
Definition fresh_names (fs : fs_t) (tid n : nat) (rnd : nat -> string) : bool :=
  forallb (fun f => bool_decide (f ∉ dom fs)) (map_names tid n rnd).

Definition map_step (s : job) (w : nat) (p : ReqTaskReply) (create_ok write_ok : string -> bool)
    (rnd : nat -> string) (order : list nat) : job :=
  match worker_task create_ok write_ok mapf reducef rnd order map_to_list p (j_fs s) with
  | Ret (fs, Some a) => set_worker (set_fs s fs) w (WAck a)
  | Ret (fs, None) => set_worker (set_fs s fs) w WIdle
  | _ => set_worker s w WIdle
  end.

(** [doReduce] up to [os.Create]; [order]: the entries of the reduction map as
    Go ranges over them. *)
Definition reduce_step (s : job) (w : nat) (p : ReqTaskReply) (create_ok : bool)
    (order : list (string * list string)) : option job :=
  match reduction_map (read_inputs (j_fs s) (p_Files p)) ∅ with
  | None => Some (set_worker s w WIdle)
  | Some m =>
      if negb create_ok then Some (set_worker s w WIdle)
      else if decide (order ≡ₚ map_to_list m) then
        Some (set_last (set_worker (set_fs s (<[out_name (p_Tid p) := ""]> (j_fs s))) w
                (WWriting (p_Tid p) 0 (lines reducef order))) (p_Tid p) (Running w))
      else None
  end.

Definition job_exec (e : job_event) (s : job) : option job :=
  match e with
  | JRecv => set_coord s <$> exec EvReqRecv (j_c s)
  | JTimer i => set_coord s <$> exec (EvTimer i) (j_c s)
  | JMain => set_coord s <$> exec EvMain (j_c s)
  | JReq None i => set_coord s <$> exec (EvReqLock i) (j_c s)
  | JReq (Some w) i =>
      match j_ws s !! w, handlers (j_c s) !! i with
      | Some WIdle, Some t =>
          (fun c => set_worker (set_coord s c) w (take_task (j_c s) t)) <$> exec (EvReqLock i) (j_c s)
      | _, _ => None
      end
  | JMap w create_ok write_ok rnd order =>
      match j_ws s !! w with
      | Some (WTask p) =>
          if (p_Type p =? TaskTypeMap)%Z && fresh_names (j_fs s) (p_Tid p) (p_NReduce p) rnd &&
             bool_decide (order ≡ₚ seq 0 (p_NReduce p))
          then Some (map_step s w p create_ok write_ok rnd order) else None
      | _ => None
      end
  | JReduce w create_ok order =>
      match j_ws s !! w with
      | Some (WTask p) => if (p_Type p =? TaskTypeReduce)%Z then reduce_step s w p create_ok order else None
      | _ => None
      end
  | JWrite w =>
      match j_ws s !! w with
      | Some (WWriting r off (l :: todo)) =>
          let content := default "" (j_fs s !! out_name r) in
          Some (set_worker (set_fs s (<[out_name r := write_at off (out_line l) content]> (j_fs s))) w
                  (WWriting r (off + String.length (out_line l)) todo))
      | _ => None
      end
  | JClose w =>
      match j_ws s !! w with
      | Some (WWriting r off []) => Some (set_last (set_worker s w (WAck (reduce_ack_args r))) r Finished)
      | _ => None
      end
  | JAck w =>
      match j_ws s !! w with
      | Some (WAck a) => (fun c => set_worker (set_coord s c) w WIdle) <$> exec (EvComplete a) (j_c s)
      | _ => None
      end
  | JCrash w =>
      match j_ws s !! w with
      | Some (WWriting r off todo) => Some (set_last (set_worker s w WIdle) r Crashed)
      | Some _ => Some (set_worker s w WIdle)
      | None => None
      end
  end.

(** No reduce task is executed twice at the same time: a worker opens an output
    file only when no live worker is writing it. *)
Definition exclusive (e : job_event) (s : job) : bool :=
  match e with
  | JReduce w _ _ =>
      match j_ws s !! w with
      | Some (WTask p) => match j_last s !! p_Tid p with Some (Running _) => false | _ => true end
      | _ => true
      end
  | _ => true
  end.
Definition job_exec_x (e : job_event) (s : job) : option job := if exclusive e s then job_exec e s else None.

Definition job_init (c : coord) (fs : fs_t) (workers : nat) : job := mkJob c fs (replicate workers WIdle) ∅.

(** ** What the files and messages hold *)

Section Correctness.
Context (files contents : list string) (n : nat) (fs0 : fs_t).

(** The map outputs, one list per input file. *)
Definition kvss : list (list KeyValue) := zip_with mapf files contents.

Definition out_lines (r : nat) (l : list (string * string)) : Prop :=
  l ≡ₚ lines reducef (map_to_list (bucket n (concat kvss) r)).

Definition holds (fs : fs_t) (nm : string) (kvs : list KeyValue) (r : nat) : Prop :=
  fs !! nm = Some (marshal (bucket n kvs r)) /\ forall r', nm <> out_name r'.

(** The files named by an acknowledgement of map task [i], and those a reduce
    task is given. *)
Definition good_map (fs : fs_t) (i : nat) (names : list string) : Prop :=
  length names = n /\ exists kvs, kvss !! i = Some kvs /\ forall r nm, names !! r = Some nm -> holds fs nm kvs r.
Definition good_files (fs : fs_t) (r : nat) (fl : list string) : Prop :=
  Forall2 (fun kvs nm => holds fs nm kvs r) kvss fl.

Definition good_ack (fs : fs_t) (last : gmap nat attempt) (a : CompleteTaskArgs) : Prop :=
  (exists i names, a = map_ack_args i names /\ i < length files /\ good_map fs i names) \/
  (exists r, r < n /\ a = reduce_ack_args r /\ is_Some (last !! r)).
Definition good_task (fs : fs_t) (p : ReqTaskReply) : Prop :=
  (exists i f, p = mkReply TaskTypeMap i f n [] /\ files !! i = Some f) \/
  (exists r fl, p = mkReply TaskTypeReduce r "" 0 fl /\ r < n /\ good_files fs r fl).

Definition inter_files (names : list string) : list IntermediateFile := imap (fun r nm => (Z.of_nat r, nm)) names.

Definition worker_ok (fs : fs_t) (last : gmap nat attempt) (w : nat) (st : wstate) : Prop :=
  match st with
  | WIdle => True
  | WTask p => good_task fs p
  | WWriting r off todo =>
      r < n /\ last !! r = Some (Running w) /\
      exists l, fs !! out_name r = Some (out_file l) /\ off = String.length (out_file l) /\ out_lines r (l ++ todo)
  | WAck a => good_ack fs last a
  end.

Record coord_ok (fs : fs_t) (last : gmap nat attempt) (c : coord) : Prop := {
  co_inv : inv files n c;
  co_queue a : a ∈ completionQueue c -> good_ack fs last a;
  co_maps i m : mapTaskState c !! i = Some m -> m_done m = true ->
    exists names, m_intermediateFiles m = inter_files names /\ good_map fs i names;
  co_reds r rt : reduceTaskState c !! r = Some rt -> r_done rt = true -> is_Some (last !! r) }.

(** Neither an intermediate file nor a reducer's output. *)
Definition other_file (f : string) : Prop :=
  (forall i r b, f <> generateUniqueIntermediateFilename i r b) /\ forall r, r < n -> f <> out_name r.

Record job_ok (s : job) : Prop := {
  jo_coord : coord_ok (j_fs s) (j_last s) (j_c s);
  jo_ws w st : j_ws s !! w = Some st -> worker_ok (j_fs s) (j_last s) w st;
  jo_last r : j_last s !! r = Some Finished ->
    exists l, j_fs s !! out_name r = Some (out_file l) /\ out_lines r l;
  jo_frame f : other_file f -> j_fs s !! f = fs0 !! f }.

(** *** Later files and attempts *)

Definition keeps (fs fs' : fs_t) : Prop :=
  forall nm v, (forall r, nm <> out_name r) -> fs !! nm = Some v -> fs' !! nm = Some v.
Definition grows (last last' : gmap nat attempt) : Prop := forall r, is_Some (last !! r) -> is_Some (last' !! r).

Lemma holds_mono fs fs' nm kvs r : keeps fs fs' -> holds fs nm kvs r -> holds fs' nm kvs r.
Proof. intros Hk [Hf Ho]. split; [by apply Hk|done]. Qed.

Lemma good_map_mono fs fs' i names : keeps fs fs' -> good_map fs i names -> good_map fs' i names.
Proof.
  intros Hk (Hl & kvs & Hi & Hh). split; [done|]. exists kvs. split; [done|].
  intros r nm Hr. eapply holds_mono; [done|by apply Hh].
Qed.

Lemma good_files_mono fs fs' r fl : keeps fs fs' -> good_files fs r fl -> good_files fs' r fl.
Proof. intros Hk Hf. eapply Forall2_impl; [exact Hf|]. intros kvs nm. by apply holds_mono. Qed.

Lemma good_ack_mono fs fs' last last' a :
  keeps fs fs' -> grows last last' -> good_ack fs last a -> good_ack fs' last' a.
Proof.
  intros Hk Hg [(i & names & -> & Hi & Hm)|(r & Hr & -> & Hl)]; [left|right].
  - exists i, names. split; [done|]. split; [done|]. by eapply good_map_mono.
  - exists r. split; [done|]. split; [done|by apply Hg].
Qed.

Lemma good_task_mono fs fs' p : keeps fs fs' -> good_task fs p -> good_task fs' p.
Proof.
  intros Hk [Hm|(r & fl & -> & Hr & Hf)]; [by left|right]. exists r, fl. split; [done|]. split; [done|].
  by eapply good_files_mono.
Qed.

Lemma coord_ok_mono fs fs' last last' c : keeps fs fs' -> grows last last' -> coord_ok fs last c -> coord_ok fs' last' c.
Proof.
  intros Hk Hg [C1 C2 C3 C4]. split; [done| | |].
  - intros a Ha. eapply good_ack_mono; [done..|by apply C2].
  - intros i m Hi Hd. destruct (C3 i m Hi Hd) as (names & Hn & Hm). exists names. split; [done|]. by eapply good_map_mono.
  - intros r rt Hr Hd. apply Hg. by eapply C4.
Qed.

Lemma worker_ok_mono fs fs' last last' w st :
  keeps fs fs' -> grows last last' ->
  (forall r off todo, st = WWriting r off todo -> last' !! r = last !! r /\ fs' !! out_name r = fs !! out_name r) ->
  worker_ok fs last w st -> worker_ok fs' last' w st.
Proof.
  intros Hk Hg Hw. destruct st as [|p|r off todo|a]; cbn.
  - done.
  - by apply good_task_mono.
  - destruct (Hw r off todo eq_refl) as [-> ->]. done.
  - by apply good_ack_mono.
Qed.

Lemma keeps_refl fs : keeps fs fs.
Proof. by intros nm v _. Qed.
Lemma attempts_refl last : grows last last.
Proof. by intros r. Qed.
Lemma grows_insert last r a : grows last (<[r := a]> last).
Proof. intros r' [b Hb]. destruct (decide (r = r')) as [<-|]; [rewrite lookup_insert_eq|rewrite lookup_insert_ne by done]; by eexists. Qed.
Lemma keeps_out fs r v : keeps fs (<[out_name r := v]> fs).
Proof. intros nm v' Hn Hf. rewrite lookup_insert_ne; [done|]. intros <-. by apply (Hn r). Qed.

#[local] Hint Resolve keeps_refl attempts_refl grows_insert keeps_out : job.

(** *** The coordinator *)

Lemma good_ack_copy fs last a : good_ack fs last a -> deepCopy a = a.
Proof. by intros [(i & names & -> & _)|(r & _ & -> & _)]. Qed.

Lemma same_core_ok fs last c c' : coord_ok fs last c -> inv files n c' -> same_core c c' -> coord_ok fs last c'.
Proof. intros [C1 C2 C3 C4] Hinv (q & h & tm & ->). by split. Qed.

Lemma map_accepted_ok fs last c a t mt q :
  coord_ok fs last (set_completions c q) -> good_ack fs last a ->
  mapTaskState c !! t = Some mt -> a_Type a = TaskTypeMap -> a_Tid a = Z.of_nat t ->
  forall i m, <[t := mkMapTask (m_tid mt) true (m_inputFile mt) (a_MapFiles a)]> (mapTaskState c) !! i = Some m ->
    m_done m = true -> exists names, m_intermediateFiles m = inter_files names /\ good_map fs i names.
Proof.
  intros [C1 C2 C3 C4] Ha Ht Hty Htid i m. rewrite list_lookup_insert_Some. intros [(<- & <- & _)|[_ Hi]]; [|by apply C3].
  intros _. destruct Ha as [(i & names & -> & Hi & Hm)|(r & _ & -> & _)]; [|done].
  cbn in Htid. apply Nat2Z.inj in Htid as ->. by exists names.
Qed.

Lemma coord_step fs last e c c' :
  coord_ok fs last c -> exec e c = Some c' ->
  (forall a, e = EvComplete a -> good_ack fs last a) -> coord_ok fs last c'.
Proof.
  intros Hok He Ha. pose proof Hok as [C1 C2 C3 C4]. pose proof (inv_exec _ _ _ _ _ C1 He) as Hinv.
  destruct (list_event e) eqn:Hl.
  { eapply same_core_ok; [done..|]. by eapply list_event_core. }
  unfold exec in He. destruct (crashed c); [done|]. destruct e; try done.
  - unfold CompleteTask in He. case_match; [|done]. injection He as <-. split; cbn; [done| |done|done].
    intros b. rewrite elem_of_app, list_elem_of_singleton. intros [Hb| ->]; [by apply C2|].
    pose proof (Ha _ eq_refl) as Hg. by rewrite (good_ack_copy _ _ _ Hg).
  - unfold mapReduce in He. destruct (pc c) eqn:Hpc.
    + case_match; [|injection He as <-; by split]. destruct (completionQueue c) as [|a q] eqn:Hq; [done|]. injection He as <-.
      assert (Hok' : coord_ok fs last (set_completions c q)).
      { split; cbn; [by apply inv_completions| |done..]. intros b Hb. apply C2. by right. }
      destruct (map_ack_spec files n (set_completions c q) a (co_inv _ _ _ Hok')) as [|t Ht|t mt Ht Hd Hty Htid _].
      * done.
      * destruct Hok'. by split.
      * split; cbn; [done| | |done].
        { intros b Hb. apply C2. by right. }
        apply (map_accepted_ok fs last c a t mt q); [done| |done..]. apply C2. by left.
    + destruct (send_task c _) as [c1|] eqn:Hs; [|done]. injection He as <-. unfold send_task in Hs.
      case_match; [|done]. injection Hs as <-. by split.
    + case_match.
      * destruct (send_task c _) as [c1|] eqn:Hs; [|done]. injection He as <-. unfold send_task in Hs.
        case_match; [|done]. injection Hs as <-. by split.
      * destruct (assign_files _ _) as [rs| |] eqn:Has; injection He as <-; [|by split..].
        split; cbn; [done|done|done|]. intros r rt Hr Hd. apply assign_files_spec in Has as [Hlen Has].
        destruct (lookup_lt_is_Some_2 (reduceTaskState c) r) as [r0 Hr0].
        { rewrite <-Hlen. by eapply lookup_lt_Some. }
        rewrite (Has _ _ Hr0) in Hr. injection Hr as <-. by apply (C4 r r0).
    + case_match; [|injection He as <-; by split]. destruct (completionQueue c) as [|a q] eqn:Hq; [done|]. injection He as <-.
      assert (Hok' : coord_ok fs last (set_completions c q)).
      { split; cbn; [by apply inv_completions| |done..]. intros b Hb. apply C2. by right. }
      destruct (reduce_ack_spec files n (set_completions c q) a (co_inv _ _ _ Hok')) as [|t rt Ht Hd Hty Htid]; [done|].
      split; cbn; [done| |done|].
      { intros b Hb. apply C2. by right. }
      intros r rt'. rewrite list_lookup_insert_Some. intros [(<- & <- & _)|[_ Hr]]; [|by apply C4].
      intros _. destruct (C2 a) as [(i & names & -> & _)|(r & _ & -> & Hr)]; [by left|done|].
      cbn in Htid. by apply Nat2Z.inj in Htid as ->.
    + done.
    + done.
Qed.

(** *** Handing out tasks *)

Lemma files_for_imap k (names : list string) r :
  files_for (imap (fun i nm => (Z.of_nat (k + i), nm)) names) r =
  if decide (k <= r) then match names !! (r - k) with Some nm => [nm] | None => [] end else [].
Proof.
  unfold files_for. revert k. induction names as [|nm names IH]; intros k; cbn [imap].
  - by destruct (decide (k <= r)).
  - rewrite filter_cons. cbn [fst]. rewrite (imap_ext _ (fun i nm => (Z.of_nat (S k + i), nm))) by (intros; cbn; f_equal; lia).
    destruct (decide (Z.of_nat (k + 0) = Z.of_nat r)) as [Hd|Hd]; rewrite ?fmap_cons, IH.
    + rewrite decide_False, decide_True by lia. by replace (r - k) with 0 by lia.
    + destruct (decide (S k <= r)), (decide (k <= r)); try lia; try done. by replace (r - k) with (S (r - S k)) by lia.
Qed.

Lemma reducer_input_good fs r (ms : list mapTask) (ks : list (list KeyValue)) :
  r < n -> length ms = length ks ->
  (forall i m kvs, ms !! i = Some m -> ks !! i = Some kvs ->
     exists names, m_intermediateFiles m = inter_files names /\ length names = n /\
       forall r nm, names !! r = Some nm -> holds fs nm kvs r) ->
  Forall2 (fun kvs nm => holds fs nm kvs r) ks (reducer_input ms r).
Proof.
  intros Hr. revert ks. induction ms as [|m ms IH]; intros [|kvs ks] Hlen Hall; try done.
  destruct (Hall 0 m kvs eq_refl eq_refl) as (names & Hm & Hln & Hh).
  unfold reducer_input. rewrite bind_cons, files_for_app, Hm. unfold inter_files.
  rewrite (files_for_imap 0), decide_True, Nat.sub_0_r by lia.
  destruct (lookup_lt_is_Some_2 names r) as [nm Hnm]; [lia|]. rewrite Hnm. cbn. constructor; [by apply Hh|].
  apply IH; [cbn in Hlen; lia|]. intros i m' kvs' Hi Hk. by apply (Hall (S i)).
Qed.

Lemma length_kvss : length files = length contents -> length kvss = length files.
Proof. intros Hlen. unfold kvss. rewrite length_zip_with. lia. Qed.

Lemma take_task_ok fs last c t w :
  length files = length contents -> coord_ok fs last c -> in_flight c t -> worker_ok fs last w (take_task c t).
Proof.
  intros Hlen [C1 C2 C3 C4] Hfl. unfold take_task, ReqTask. destruct (decide (taskType t = coordinatorState c)) as [Heq|]; [|done].
  pose proof (inv_tasks _ _ _ C1 t Hfl) as Ht. unfold task_ok in Ht. destruct (taskType t) eqn:Hty; [| |done].
  - destruct (mapTaskState c !! tid t) as [mt|] eqn:Hm; [|done]. cbn. left. exists (tid t), (m_inputFile mt).
    rewrite (inv_n _ _ _ C1). split; [done|]. by apply (inv_map _ _ _ C1 _ _ Hm).
  - destruct (reduceTaskState c !! tid t) as [rt|] eqn:Hr; [|done]. cbn. right. exists (tid t), (r_intermediateFiles rt).
    rewrite (inv_n _ _ _ C1) in Ht. split; [done|]. split; [done|].
    pose proof (inv_pc _ _ _ C1) as Hpc. unfold pc_ok in Hpc.
    assert (Hin : inputs_assigned c /\ all_maps_done c).
    { destruct (pc c); rewrite <-Heq in Hpc; try (by destruct Hpc); by destruct Hpc as (_ & ? & _ & ? & _). }
    destruct Hin as [Hin Hdone]. unfold good_files. rewrite (Hin _ _ Hr).
    apply reducer_input_good; [done|by rewrite (inv_maps _ _ _ C1), length_kvss|].
    intros i m kvs Hi Hk. destruct (C3 i m Hi (done_all_maps _ _ _ Hdone Hi)) as (names & Hm & Hl & kvs' & Hk' & Hh).
    rewrite Hk in Hk'. injection Hk' as <-. by exists names.
Qed.

(** *** Files of a map task *)

Lemma create_files_frame ok names fs fs' b f :
  create_files ok names fs = (fs', b) -> f ∉ names -> fs' !! f = fs !! f.
Proof.
  revert fs. induction names as [|nm names IH]; intros fs; cbn; [by intros [= <- <-]|].
  rewrite elem_of_cons. intros Hc Hf. destruct (ok nm); [|by injection Hc as <- <-].
  rewrite (IH _ Hc) by tauto. rewrite lookup_insert_ne; [done|]. intros <-. tauto.
Qed.

Lemma write_buckets_frame ok names buckets order fs fs' b f :
  write_buckets ok names buckets order fs = (fs', b) -> f ∉ names -> fs' !! f = fs !! f.
Proof.
  revert fs. induction order as [|r order IH]; intros fs; cbn; [by intros [= <- <-]|].
  destruct (names !! r) as [nm|] eqn:Hn; [|by intros [= <- <-]]. destruct (buckets !! r); [|by intros [= <- <-]].
  destruct (ok nm); [|by intros [= <- <-]]. intros Hw Hf. rewrite (IH _ Hw Hf), lookup_insert_ne; [done|].
  intros ->. apply Hf. by eapply list_elem_of_lookup_2.
Qed.

Lemma doMap_frame create_ok write_ok f0 c i m rnd order fs fs' o f :
  doMap create_ok write_ok mapf f0 c i m rnd order fs = Ret (fs', o) -> f ∉ map_names i m rnd -> fs' !! f = fs !! f.
Proof.
  unfold doMap. fold (map_names i m rnd). destruct (create_files _ _ _) as [fs1 b1] eqn:Hc.
  destruct b1; [|intros [= <- _] Hf; by eapply create_files_frame].
  destruct (sort_results _ _) as [bs| |]; [|done..]. cbn. destruct (write_buckets _ _ _ _ _) as [fs2 b2] eqn:Hw.
  intros [= <- _] Hf. rewrite (write_buckets_frame _ _ _ _ _ _ _ _ Hw) by done. by eapply create_files_frame.
Qed.

Lemma fresh_names_keeps fs fs' i m rnd :
  fresh_names fs i m rnd = true -> (forall f, f ∉ map_names i m rnd -> fs' !! f = fs !! f) -> keeps fs fs'.
Proof.
  unfold fresh_names. rewrite forallb_forall. intros Hfr Hf nm v _ Hnm. rewrite Hf; [done|].
  intros Hin%list_elem_of_In. apply Hfr, bool_decide_eq_true, not_elem_of_dom in Hin. congruence.
Qed.

(** *** Every step keeps the invariant *)

Context (Hlen : length files = length contents) (Hn : 0 < n) (Hv : Forall valid_kvs kvss).
Context (Hin : Forall2 (fun f c => fs0 !! f = Some c) files contents).
Context (Hnames : forall f, f ∈ files -> other_file f).

(** One worker moves on, with new files and attempts. *)
Lemma job_ok_update s s' w st :
  job_ok s -> j_c s' = j_c s -> j_ws s' = <[w := st]> (j_ws s) ->
  keeps (j_fs s) (j_fs s') -> grows (j_last s) (j_last s') ->
  worker_ok (j_fs s') (j_last s') w st ->
  (forall w' r off todo, w' <> w -> j_ws s !! w' = Some (WWriting r off todo) ->
     j_last s' !! r = j_last s !! r /\ j_fs s' !! out_name r = j_fs s !! out_name r) ->
  (forall r, j_last s' !! r = Some Finished -> exists l, j_fs s' !! out_name r = Some (out_file l) /\ out_lines r l) ->
  (forall f, other_file f -> j_fs s' !! f = j_fs s !! f) -> job_ok s'.
Proof.
  intros [J1 J2 J3 J4] Hc Hws Hk Hg Hw Ho Hl Hf. split; [rewrite Hc; by eapply coord_ok_mono| |done|].
  - intros w' st'. rewrite Hws, list_lookup_insert_Some. intros [(<- & <- & _)|[Hne Hw']]; [done|].
    eapply worker_ok_mono; [done|done| |by apply J2]. intros r off todo ->. by eapply (Ho w').
  - intros f Hof. rewrite Hf by done. by apply J4.
Qed.

Lemma job_ok_worker s w st : job_ok s -> worker_ok (j_fs s) (j_last s) w st -> job_ok (set_worker s w st).
Proof.
  intros Hok Hw. eapply (job_ok_update s _ w st Hok); cbn; eauto with job. apply Hok.
Qed.

Lemma job_ok_coord s e c :
  job_ok s -> exec e (j_c s) = Some c -> (forall a, e = EvComplete a -> good_ack (j_fs s) (j_last s) a) ->
  job_ok (set_coord s c).
Proof. intros [J1 J2 J3 J4] He Ha. split; cbn; [by eapply coord_step|done..]. Qed.

Lemma input_there s i f :
  job_ok s -> files !! i = Some f -> exists c, j_fs s !! f = Some c /\ kvss !! i = Some (mapf f c).
Proof.
  intros Hok Hf. apply Forall2_same_length_lookup in Hin as [_ Hin'].
  destruct (lookup_lt_is_Some_2 contents i) as [c Hc]; [rewrite <-Hlen; by eapply lookup_lt_Some|].
  exists c. rewrite (jo_frame _ Hok) by (apply Hnames; by eapply list_elem_of_lookup_2). split; [by eapply Hin'|].
  unfold kvss. rewrite lookup_zip_with, Hf. cbn. by rewrite Hc.
Qed.

Lemma map_names_inter i m rnd f : f ∈ map_names i m rnd -> exists r b, f = generateUniqueIntermediateFilename i r b.
Proof. intros (r & -> & _)%list_elem_of_fmap. by exists r, (rnd r). Qed.

(** New files of a map task that has failed, or succeeded. *)
Lemma job_ok_map_files s w fs' st i rnd :
  job_ok s -> fresh_names (j_fs s) i n rnd = true ->
  (forall f, f ∉ map_names i n rnd -> fs' !! f = j_fs s !! f) -> worker_ok fs' (j_last s) w st ->
  job_ok (set_worker (set_fs s fs') w st).
Proof.
  intros Hok Hfr Hf Hw.
  assert (Hout : forall r, fs' !! out_name r = j_fs s !! out_name r).
  { intros r. apply Hf. intros (r' & b & Heq)%map_names_inter. by apply out_name_not_intermediate in Heq. }
  eapply (job_ok_update s _ w st Hok); cbn; eauto with job.
  - by eapply fresh_names_keeps.
  - intros r Hr. rewrite Hout. by apply Hok.
  - intros f [Hi _]. apply Hf. intros (r & b & ->)%map_names_inter. by eapply Hi.
Qed.

Lemma job_ok_map s w p create_ok write_ok rnd order :
  job_ok s -> j_ws s !! w = Some (WTask p) -> (p_Type p =? TaskTypeMap)%Z = true ->
  fresh_names (j_fs s) (p_Tid p) (p_NReduce p) rnd = true -> order ≡ₚ seq 0 (p_NReduce p) ->
  job_ok (map_step s w p create_ok write_ok rnd order).
Proof.
  intros Hok Hw Ht Hfr Ho. pose proof (jo_ws _ Hok _ _ Hw) as [(i & f & -> & Hf)|(r & fl & -> & _)]; [|done].
  cbn in Hfr, Ho. destruct (input_there s i f Hok Hf) as (c & Hc & Hk).
  unfold map_step, worker_task. cbn [p_Type p_File p_Tid p_NReduce]. rewrite Z.eqb_refl, Hc.
  destruct (doMap _ _ _ _ _ _ _ _ _ _) as [[fs' [names|]]| |] eqn:Hd; cbn; [|
    by apply (job_ok_map_files s w fs' WIdle i rnd); [| |intros g; apply (doMap_frame _ _ _ _ _ _ _ _ _ _ _ _ Hd)|]|
    by apply job_ok_worker..].
  destruct (doMap_output _ _ _ _ _ _ _ _ _ _ _ _ Hn Ho Hd) as [-> [Hout _]].
  apply (job_ok_map_files s w fs' _ i rnd); [done|done|intros g; apply (doMap_frame _ _ _ _ _ _ _ _ _ _ _ _ Hd)|].
  left. exists i, (map_names i n rnd). split; [done|]. split; [by eapply lookup_lt_Some|].
  split; [unfold map_names; by rewrite length_fmap, length_seq|]. exists (mapf f c). split; [done|].
  intros r nm Hr. unfold map_names in Hr. rewrite list_lookup_fmap_Some in Hr.
  destruct Hr as (r' & -> & [-> Hlt]%lookup_seq). split; [by apply Hout|].
  intros r'' Heq. by apply eq_sym, out_name_not_intermediate in Heq.
Qed.

(** The reduction map is the bucket of the whole map output. *)
Lemma read_good_files s r fl :
  good_files (j_fs s) r fl -> reduction_map (read_inputs (j_fs s) fl) ∅ = Some (bucket n (concat kvss) r).
Proof.
  intros Hf. assert (read_inputs (j_fs s) fl = (fun kvs => marshal (bucket n kvs r)) <$> kvss) as ->.
  { clear Hv. unfold good_files in Hf. unfold read_inputs. induction Hf as [|kvs nm ks fl [Hh _] _ IH]; [done|]. cbn. by rewrite Hh, IH. }
  pose proof (reduction_map_buckets n r kvss [] Hv) as HR.
  assert (bucket n [] r = ∅) as E by apply map_filter_empty. by rewrite E in HR.
Qed.

Lemma job_ok_reduce s w p ok order s' :
  job_ok s -> j_ws s !! w = Some (WTask p) -> (p_Type p =? TaskTypeReduce)%Z = true ->
  (forall w', j_last s !! p_Tid p <> Some (Running w')) -> reduce_step s w p ok order = Some s' -> job_ok s'.
Proof.
  intros Hok Hw Ht Hex. pose proof (jo_ws _ Hok _ _ Hw) as [(i & f & -> & _)|(r & fl & -> & Hr & Hf)]; [done|].
  unfold reduce_step. cbn [p_Files p_Tid] in *. rewrite (read_good_files s r fl Hf).
  destruct ok; cbn; [|intros [= <-]; by apply job_ok_worker]. case_decide as Ho; [|done]. intros [= <-].
  eapply (job_ok_update s _ w _ Hok); cbn; eauto with job.
  - split; [done|]. split; [by rewrite lookup_insert_eq|]. exists []. rewrite lookup_insert_eq. split; [done|]. split; [done|].
    unfold out_lines. cbn. by apply lines_proper.
  - intros w' r' off todo Hne Hw'. pose proof (jo_ws _ Hok _ _ Hw') as (_ & Hl & _).
    assert (r <> r') by (intros <-; by apply (Hex w')). rewrite !lookup_insert_ne; [done| |done]. by intros ?%out_name_inj.
  - intros r'. destruct (decide (r = r')) as [<-|Hne]; [by rewrite lookup_insert_eq|].
    rewrite !lookup_insert_ne; [by apply Hok|by intros ?%out_name_inj|done].
  - intros f [_ Ho']. rewrite lookup_insert_ne; [done|]. intros <-. by apply (Ho' r).
Qed.

Lemma drop_str_all d : drop_str (String.length d) "" = "".
Proof. by destruct d. Qed.

Lemma write_at_end s d : write_at (String.length s) d s = s +:+ d.
Proof.
  induction s as [|c s IH]; cbn; [|by rewrite IH]. by rewrite drop_str_all, append_nil_r.
Qed.

Lemma out_file_snoc l x : out_file (l ++ [x]) = out_file l +:+ out_line x.
Proof.
  induction l as [|y l IH]; [exact (append_nil_r (out_line x))|].
  change (out_line y +:+ out_file (l ++ [x]) = (out_line y +:+ out_file l) +:+ out_line x). by rewrite IH, append_assoc.
Qed.

Lemma job_ok_write s w r off l todo :
  job_ok s -> j_ws s !! w = Some (WWriting r off (l :: todo)) ->
  job_ok (set_worker (set_fs s (<[out_name r := write_at off (out_line l) (default "" (j_fs s !! out_name r))]> (j_fs s))) w
    (WWriting r (off + String.length (out_line l)) todo)).
Proof.
  intros Hok Hw. pose proof (jo_ws _ Hok _ _ Hw) as (Hr & Hl & done & Hd & -> & Hp). rewrite Hd. cbn [default from_option id].
  rewrite write_at_end, <-out_file_snoc. eapply (job_ok_update s _ w _ Hok); cbn; eauto with job.
  - split; [done|]. split; [done|]. exists (done ++ [l]). rewrite lookup_insert_eq. split; [done|].
    split; [by rewrite out_file_snoc, length_append|by rewrite <-app_assoc].
  - intros w' r' off todo' Hne Hw'. split; [done|]. pose proof (jo_ws _ Hok _ _ Hw') as (_ & Hl' & _).
    rewrite lookup_insert_ne; [done|]. intros <-%out_name_inj. congruence.
  - intros r' Hr'. assert (r <> r') by (intros <-; congruence). rewrite lookup_insert_ne; [by apply Hok|]. by intros ?%out_name_inj.
  - intros f [_ Ho']. rewrite lookup_insert_ne; [done|]. intros <-. by apply (Ho' r).
Qed.

(** The writer of [r] closes the file, or dies. *)
Lemma job_ok_end s w r off todo a st :
  job_ok s -> j_ws s !! w = Some (WWriting r off todo) -> (a = Finished -> todo = []) -> (forall w', a <> Running w') ->
  worker_ok (j_fs s) (<[r := a]> (j_last s)) w st -> job_ok (set_last (set_worker s w st) r a).
Proof.
  intros Hok Hw Ha Hnr Hst. pose proof (jo_ws _ Hok _ _ Hw) as (Hr & Hl & done & Hd & -> & Hp).
  eapply (job_ok_update s _ w _ Hok); cbn; eauto with job.
  - intros w' r' off todo' Hne Hw'. pose proof (jo_ws _ Hok _ _ Hw') as (_ & Hl' & _). split; [|done].
    rewrite lookup_insert_ne; [done|]. intros <-. congruence.
  - intros r'. destruct (decide (r = r')) as [<-|Hne]; [|rewrite lookup_insert_ne by done; apply Hok].
    rewrite lookup_insert_eq. intros [= ->]. exists done. split; [done|]. by rewrite (Ha eq_refl), app_nil_r in Hp.
Qed.

Lemma job_ok_step e s s' : job_ok s -> job_exec_x e s = Some s' -> job_ok s'.
Proof.
  intros Hok. unfold job_exec_x. destruct (exclusive e s) eqn:Hex; [|done].
  destruct e as [|i| |[w|] i|w co wo rnd order|w co order|w|w|w|w]; cbn [job_exec].
  - intros (c & He & ->)%fmap_Some. by eapply job_ok_coord.
  - intros (c & He & ->)%fmap_Some. by eapply job_ok_coord.
  - intros (c & He & ->)%fmap_Some. by eapply job_ok_coord.
  - destruct (j_ws s !! w) as [[]|] eqn:Hw; try done. destruct (handlers (j_c s) !! i) as [t|] eqn:Hh; [|done].
    intros (c & He & ->)%fmap_Some. apply job_ok_worker; [by eapply job_ok_coord|]. cbn.
    apply take_task_ok; [done|apply Hok|]. right; left. by eapply list_elem_of_lookup_2.
  - intros (c & He & ->)%fmap_Some. by eapply job_ok_coord.
  - destruct (j_ws s !! w) as [[|p| |]|] eqn:Hw; try done. destruct (_ && _) eqn:Hg; [|done]. intros [= <-].
    rewrite !andb_true_iff, bool_decide_eq_true in Hg. destruct Hg as [[H1 H2] H3]. by apply job_ok_map.
  - cbn in Hex. destruct (j_ws s !! w) as [[|p| |]|] eqn:Hw; try done. destruct (p_Type p =? TaskTypeReduce)%Z eqn:Ht; [|done].
    intros Hr. eapply (job_ok_reduce s w p); [done..| |exact Hr]. intros w' Hl. by rewrite Hl in Hex.
  - destruct (j_ws s !! w) as [[| |r off [|l todo]|]|] eqn:Hw; try done. intros [= <-]. by apply job_ok_write.
  - destruct (j_ws s !! w) as [[| |r off [|l todo]|]|] eqn:Hw; try done. intros [= <-].
    apply (job_ok_end s w r off []); [done..|]. right. exists r. rewrite lookup_insert_eq.
    pose proof (jo_ws _ Hok _ _ Hw) as (Hr & _). split; [done|]. split; [done|by eexists].
  - destruct (j_ws s !! w) as [[| | |a]|] eqn:Hw; try done. intros (c & He & ->)%fmap_Some.
    apply job_ok_worker; [|done]. eapply job_ok_coord; [done|exact He|]. intros b [= <-]. by apply (jo_ws _ Hok _ _ Hw).
  - destruct (j_ws s !! w) as [[| |r off todo|]|] eqn:Hw; try done; intros [= <-]; try by apply job_ok_worker.
    by apply (job_ok_end s w r off todo).
Qed.

Lemma job_ok_init c0 workers : MakeCoordinator files n = Some c0 -> job_ok (job_init c0 fs0 workers).
Proof.
  intros Hc. pose proof (inv_init _ _ _ Hc) as Hinv. unfold MakeCoordinator in Hc.
  apply bind_Some in Hc as (q & _ & Hc). injection Hc as <-. split; cbn.
  - split; cbn; [done| | |].
    + intros a Ha. by apply elem_of_nil in Ha.
    + intros i m. rewrite list_lookup_imap. destruct (files !! i); cbn; [|done]. by intros [= <-].
    + intros r rt. rewrite list_lookup_fmap. destruct (seq 0 n !! r); cbn; [|done]. by intros [= <-].
  - intros w st [-> _]%lookup_replicate. done.
  - intros r. by rewrite lookup_empty.
  - done.
Qed.

Lemma job_done c fs last r : coord_ok fs last c -> Done c = true -> r < n -> is_Some (last !! r).
Proof.
  intros [C1 _ _ C4] Hd%bool_decide_eq_true Hr. pose proof (inv_pc _ _ _ C1) as Hpc. unfold pc_ok in Hpc.
  assert (Hall : all_reduces_done c).
  { destruct (pc c); rewrite Hd in Hpc; try (by destruct Hpc). by destruct Hpc as (_ & _ & ? & _). }
  destruct (lookup_lt_is_Some_2 (reduceTaskState c) r) as [rt Hrt]; [by rewrite (inv_reduces _ _ _ C1)|].
  apply (C4 r rt Hrt). by eapply done_all_reduces.
Qed.

End Correctness.

Lemma job_run_ok files n fs0 c0 workers es s kvs :
  0 < n -> (forall f, f ∈ files -> other_file n f) -> seq_intermediate mapf fs0 files = Ret kvs -> valid_kvs kvs ->
  MakeCoordinator files n = Some c0 -> run job_exec_x es (job_init c0 fs0 workers) = Some s ->
  exists contents, kvs = concat (kvss files contents) /\ job_ok files contents n fs0 s.
Proof.
  intros Hn Hnames Hseq Hv Hc Hr.
  destruct (seq_intermediate_contents mapf fs0 files kvs Hseq) as (contents & Hin & ->).
  pose proof (Forall2_length _ _ _ Hin) as Hlen. exists contents. split; [done|].
  assert (Hvs : Forall valid_kvs (kvss files contents)) by (unfold valid_kvs in *; by apply Forall_concat).
  apply (run_invariant job_exec_x (job_ok files contents n fs0)) with (3 := Hr).
  - intros e s1 s2. by apply job_ok_step.
  - by apply job_ok_init.
Qed.

Lemma job_ok_outputs files contents n fs0 s sorted :
  PermReduce reducef -> 0 < n -> job_ok files contents n fs0 s ->
  sorted ≡ₚ concat (kvss files contents) -> StronglySorted key_le sorted ->
  (forall r, r < n -> j_last s !! r = Some Finished) ->
  exists out, (forall r, r < n -> j_fs s !! out_name r = Some (out_file (out r))) /\
    concat (out <$> seq 0 n) ≡ₚ mrsequential reducef sorted.
Proof.
  intros Hperm Hn Hok Hp Hs Hfin.
  destruct (finite_choice (fun r l => j_fs s !! out_name r = Some (out_file l) /\ out_lines files contents n r l) n)
    as [out Hout]; [intros r Hr'; by apply Hok, Hfin|].
  exists out. split; [intros r Hr'; by apply Hout|].
  apply (outputs_sequential reducef n (concat (kvss files contents))); [done..|]. intros r Hr'. by apply Hout.
Qed.


(** [doReduce] as [MrWorker] has it is the sequence of these steps. *)
Lemma writes_run w r todo done c fs ws last :
  ws !! w = Some (WWriting r (String.length (out_file done)) todo) -> fs !! out_name r = Some (out_file done) ->
  run job_exec ((fun _ => JWrite w) <$> todo) (mkJob c fs ws last) =
  Some (mkJob c (<[out_name r := out_file (done ++ todo)]> fs)
    (<[w := WWriting r (String.length (out_file (done ++ todo))) []]> ws) last).
Proof.
  revert done fs ws. induction todo as [|l todo IH]; intros done fs ws Hw Hf; cbn.
  - rewrite app_nil_r, insert_id by done. by rewrite list_insert_id.
  - rewrite Hw. cbn. rewrite Hf. cbn [default from_option id]. rewrite write_at_end, <-out_file_snoc, <-length_append, <-out_file_snoc.
    set (ws' := <[w := WWriting r (String.length (out_file (done ++ [l]))) todo]> ws). set (fs' := <[out_name r := _]> fs).
    assert (ws' !! w = Some (WWriting r (String.length (out_file (done ++ [l]))) todo)) as Hw'
      by (apply list_lookup_insert_eq; by eapply lookup_lt_Some).
    assert (fs' !! out_name r = Some (out_file (done ++ [l]))) as Hf' by apply lookup_insert_eq.
    etrans; [exact (IH _ _ _ Hw' Hf')|]. unfold ws', fs'. rewrite <-app_assoc. cbn [app].
    by rewrite insert_insert_eq, list_insert_insert_eq.
Qed.

Lemma doReduce_steps s w p order (red_order : contents_t -> list (string * list string)) create_ok m :
  j_ws s !! w = Some (WTask p) -> p_Type p = TaskTypeReduce ->
  reduction_map (read_inputs (j_fs s) (p_Files p)) ∅ = Some m -> red_order m = order -> order ≡ₚ map_to_list m ->
  create_ok (out_name (p_Tid p)) = true ->
  exists s', run job_exec (JReduce w true order :: ((fun _ => JWrite w) <$> lines reducef order) ++ [JClose w]) s = Some s' /\
    doReduce create_ok reducef (read_inputs (j_fs s) (p_Files p)) (p_Tid p) red_order (j_fs s) = (j_fs s', true) /\
    j_ws s' !! w = Some (WAck (reduce_ack_args (p_Tid p))).
Proof.
  intros Hw Ht Hm Ho Hp Hok. pose proof (lookup_lt_Some _ _ _ Hw) as Hlt.
  cbn [run job_exec]. rewrite Hw, Ht, Z.eqb_refl. unfold reduce_step. rewrite Hm, decide_True by done. cbn [mbind option_bind negb].
  rewrite run_app. unfold set_last, set_worker, set_fs. cbn [j_c j_fs j_ws j_last].
  rewrite (writes_run w (p_Tid p) (lines reducef order) []);
    [|by apply list_lookup_insert_eq|by apply lookup_insert_eq].
  cbn. rewrite list_lookup_insert_eq by (by rewrite length_insert). eexists. split; [done|]. cbn. split.
  - unfold doReduce. rewrite Hm, Hok, Ho. by rewrite insert_insert_eq.
  - apply list_lookup_insert_eq. by rewrite !length_insert.
Qed.

End Job.

(** ** A job with a crash and a retry *)

#[local] Existing Instance bit_json.

Definition demo_rnd (r : nat) : string := "0123456789abcdef".
Definition demo_rnd' (r : nat) : string := "fedcba9876543210".
Definition all_ok (f : string) : bool := true.

(** Worker [w] executes reduce task [r] to the end. *)
Definition demo_reduce (w r : nat) : list job_event :=
  [JReduce w true (map_to_list (bucket 2 demo_kvs r)); JWrite w; JWrite w; JClose w].

(** Worker 0 dies with its map task; worker 1 dies in the middle of its reduce
    task.  Both tasks are handed out again after their timeouts. *)
Definition demo_job : list job_event :=
  [JRecv; JReq (Some 0) 0; JRecv; JReq (Some 1) 0; JCrash 0; JTimer 0; JRecv; JReq (Some 0) 0;
   JMap 1 all_ok all_ok demo_rnd [1; 0]; JAck 1; JMap 0 all_ok all_ok demo_rnd' [0; 1]; JAck 0;
   JMain; JMain; JMain; JMain; JMain; JMain; JRecv; JReq (Some 0) 0; JRecv; JReq (Some 1) 0;
   JReduce 1 true (map_to_list (bucket 2 demo_kvs 1)); JWrite 1; JCrash 1; JTimer 3; JRecv] ++
  demo_reduce 0 0 ++ [JAck 0; JReq (Some 0) 0] ++ demo_reduce 0 1 ++ [JAck 0; JMain; JMain; JMain].

(** A job with two workers, and its end. *)
Definition demo_end mapf reducef (n : nat) (files : list string) (fs : fs_t) (es : list job_event) : option job :=
  c ← MakeCoordinator files n; run (job_exec_x mapf reducef) es (job_init c fs 2).

(** The coordinator is done, and the last execution of every reduce task has
    finished. *)
Definition j_all_done (n : nat) (s : job) : bool :=
  Done (j_c s) && forallb (fun r => bool_decide (j_last s !! r = Some Finished)) (seq 0 n).

Lemma demo_end_run mapf reducef n files fs es :
  match demo_end mapf reducef n files fs es with Some s => j_all_done n s | None => false end = true ->
  exists c s, MakeCoordinator files n = Some c /\ run (job_exec_x mapf reducef) es (job_init c fs 2) = Some s /\
    Done (j_c s) = true /\ forall r, r < n -> j_last s !! r = Some Finished.
Proof.
  unfold demo_end. destruct (MakeCoordinator files n) as [c|]; [|done]. cbn [mbind option_bind].
  destruct (run _ _ _) as [s|] eqn:E; [|done]. intros [Hd Hf]%andb_true_iff. exists c, s. split; [done|]. split; [done|].
  split; [done|]. intros r Hr. rewrite forallb_forall in Hf. eapply bool_decide_eq_true, Hf, list_elem_of_In, elem_of_seq. lia.
Qed.


(** The reduce task is handed out a second time; the second worker starts when
    the first has finished, and truncates the output of a job that is done. *)
Definition late_job : list job_event :=
  [JRecv; JReq (Some 0) 0; JMap 0 all_ok all_ok demo_rnd [0]; JAck 0; JMain; JMain; JMain; JMain;
   JRecv; JReq (Some 0) 0; JTimer 1; JRecv; JReq (Some 1) 0;
   JReduce 0 true (map_to_list (bucket 1 (early_exit_Map "in-0" "hello") 0)); JWrite 0; JClose 0; JAck 0;
   JMain; JMain; JReduce 1 true (map_to_list (bucket 1 (early_exit_Map "in-0" "hello") 0))].

Lemma late_worker_truncates :
  (fun s => (Done (j_c s), j_fs s !! out_name 0)) <$> demo_end early_exit_Map early_exit_Reduce 1 ["in-0"] demo_fs (take 19 late_job) =
    Some (true, Some (out_line ("in-0", "1"))) /\
  (fun s => (Done (j_c s), j_fs s !! out_name 0)) <$> demo_end early_exit_Map early_exit_Reduce 1 ["in-0"] demo_fs late_job =
    Some (true, Some "").
Proof. split; by vm_compute. Qed.

(** Two workers executing the same reduce task at the same time, ranging over
    its keys in different orders: the file has bytes of both. *)
Definition clash_Map (filename contents : string) : list KeyValue := [mkKV "a" "1"; mkKV "bb" "1"].
Definition clash_a : string * list string := ("a", ["1"]).
Definition clash_b : string * list string := ("bb", ["1"]).
Definition clash_job : list job_event :=
  [JRecv; JReq (Some 0) 0; JMap 0 all_ok all_ok demo_rnd [0]; JAck 0; JMain; JMain; JMain; JMain;
   JRecv; JReq (Some 0) 0; JTimer 1; JRecv; JReq (Some 1) 0;
   JReduce 0 true [clash_a; clash_b]; JReduce 1 true [clash_b; clash_a]; JWrite 0; JWrite 1; JWrite 0; JClose 0; JAck 0;
   JMain; JMain].

Lemma clashing_reducers :
  (fun s => (Done (j_c s), j_fs s !! out_name 0)) <$>
    (c ← MakeCoordinator ["in-0"] 1; run (job_exec clash_Map early_exit_Reduce) clash_job (job_init c demo_fs 2)) =
  Some (true, Some ("bb 1" +:+ out_line ("bb", "1"))).
Proof. by vm_compute. Qed.

End MrJob.
