(* ===== verification/MrTest.v ===== *)
(** * MrTest: the MapReduce tests

    [src/src/mr/util.go]: how a test finds the output files, makes the correct
    output with the sequential program, merges the output of a job and compares
    the two; what [src/src/mr/mr_test.go] counts in the output; and the
    applications that observe how they are run, [mrapps/jobcount.go] and
    [mrapps/mtiming.go].  The programs a test calls ([find], [sort], [cmp]) are
    a type class with their documented behaviour as laws.  Names are relative
    to the test's directory [tmp]; the test itself runs one level up. *)

From S2P Require Import Prelude MrCoordinator MrWorker MrJob.
From stdpp Require Import base gmap list strings pretty sorting.
From Stdlib Require Import ZArith Lia Ascii.
From stdpp Require Import list.

Module MrTest.
Import MrCoordinator MrWorker MrJob.

#[local] Arguments bool_decide _ {_} : simpl never.

Notation newline := (Ascii.ascii_of_nat 10).

(** ** Strings *)

(** [unicode.IsSpace] on ASCII. *)
Definition spaces : list ascii := ["009"; "010"; "011"; "012"; "013"; " "]%char.
Definition is_space (c : ascii) : bool := bool_decide (c ∈ spaces).

Fixpoint trim_left (s : string) : string :=
  match s with
  | String c s' => if is_space c then trim_left s' else s
  | EmptyString => ""
  end.
Fixpoint trim_right (s : string) : string :=
  match s with
  | String c s' =>
      match trim_right s' with
      | EmptyString => if is_space c then "" else String c ""
      | t => String c t
      end
  | EmptyString => ""
  end.
Definition TrimSpace (s : string) : string := trim_right (trim_left s).

(** [strings.Split(s, sep)] for a separator of one byte. *)
Fixpoint split (sep : ascii) (s : string) : list string :=
  match s with
  | EmptyString => [""]
  | String c s' =>
      if bool_decide (c = sep) then "" :: split sep s'
      else match split sep s' with x :: r => String c x :: r | [] => [String c ""] end
  end.

(** A file of lines, and the lines of a file; the last may lack its newline. *)
Definition unlines (l : list string) : string := foldr (fun x acc => x +:+ String newline acc) "" l.
Fixpoint lines_of (s : string) : list string :=
  match s with
  | EmptyString => []
  | String c s' =>
      if bool_decide (c = newline) then "" :: lines_of s'
      else match lines_of s' with x :: r => String c x :: r | [] => [String c ""] end
  end.

Definition no_space (s : string) : Prop := forall c, c ∈ spaces -> has_char c s = false.

Lemma no_space_head c s : no_space (String c s) -> is_space c = false.
Proof.
  intros H. apply bool_decide_eq_false. intros Hc. specialize (H c Hc). cbn in H. by rewrite bool_decide_true in H.
Qed.
Lemma no_space_tail c s : no_space (String c s) -> no_space s.
Proof. intros H d Hd. specialize (H d Hd). cbn in H. by apply orb_false_iff in H as [_ H]. Qed.
Lemma no_space_app a b : no_space a -> no_space b -> no_space (a +:+ b).
Proof. intros Ha Hb c Hc. by rewrite has_char_app, Ha, Hb. Qed.
Lemma no_space_newline s : no_space s -> has_char newline s = false.
Proof. intros H. apply H. by right; left. Qed.
Lemma no_space_lit s : forallb (fun c => negb (has_char c s)) spaces = true -> no_space s.
Proof.
  rewrite forallb_forall. intros H c Hc. apply list_elem_of_In in Hc. specialize (H c Hc). by apply negb_true_iff in H.
Qed.
Lemma no_space_itoa n : no_space (itoa n).
Proof.
  intros c Hc. apply itoa_no_char. intros x Hx. unfold pretty_N_char in Hx.
  repeat case_match; subst; apply (bool_decide_pack _) in Hc; by vm_compute in Hc.
Qed.

Lemma trim_right_app a b : trim_right b <> "" -> trim_right (a +:+ b) = a +:+ trim_right b.
Proof.
  intros Hb. induction a as [|c a IH]; [done|]. change (String c a +:+ b) with (String c (a +:+ b)). cbn [trim_right].
  rewrite IH. change (String c a +:+ trim_right b) with (String c (a +:+ trim_right b)). by destruct a, (trim_right b).
Qed.

Lemma trim_right_word x s : no_space x -> trim_right s = "" -> trim_right (x +:+ s) = x.
Proof.
  intros Hx Hs. induction x as [|c x IH]; [done|]. change (String c x +:+ s) with (String c (x +:+ s)). cbn [trim_right].
  rewrite IH by by eapply no_space_tail. destruct x; [|done]. by rewrite (no_space_head c "").
Qed.

Definition nl_join (l : list string) : string := String.concat (String newline "") l.

Lemma trim_right_unlines l :
  l <> [] -> Forall (fun x => no_space x /\ x <> "") l -> trim_right (unlines l) = nl_join l /\ nl_join l <> "".
Proof.
  intros Hl Hall. induction Hall as [|x l [Hx Hne] Hall IH]; [done|]. destruct l as [|y l].
  - split; [|done]. by apply trim_right_word.
  - destruct IH as [IH Hnn]; [done|]. split; [|by destruct x].
    change (unlines (x :: y :: l)) with (x +:+ (String newline "" +:+ unlines (y :: l))).
    rewrite <-append_assoc, trim_right_app by by rewrite IH. by rewrite IH, append_assoc.
Qed.

Lemma trim_unlines l :
  l <> [] -> Forall (fun x => no_space x /\ x <> "") l -> TrimSpace (unlines l) = nl_join l.
Proof.
  intros Hl Hall. unfold TrimSpace. destruct Hall as [|x l [Hx Hne] Hall]; [done|].
  assert (trim_left (unlines (x :: l)) = unlines (x :: l)) as ->.
  { destruct x as [|c x]; [done|]. change (trim_left (unlines (String c x :: l))) with
      (if is_space c then trim_left (x +:+ String newline (unlines l)) else unlines (String c x :: l)).
    by rewrite (no_space_head c x). }
  apply trim_right_unlines; [done|by constructor].
Qed.

Lemma split_word sep x : has_char sep x = false -> split sep x = [x].
Proof.
  induction x as [|c x IH]; [done|]. cbn. intros [Hc Hx]%orb_false_iff. rewrite IH by done.
  apply bool_decide_eq_false in Hc. by rewrite bool_decide_false by congruence.
Qed.

Lemma split_app sep x s : has_char sep x = false -> split sep (x +:+ String sep s) = x :: split sep s.
Proof.
  induction x as [|c x IH]; intros Hx.
  - change (split sep (String sep s) = "" :: split sep s). cbn [split]. by rewrite bool_decide_true.
  - cbn in Hx. apply orb_false_iff in Hx as [Hc Hx]. apply bool_decide_eq_false in Hc.
    change (String c x +:+ String sep s) with (String c (x +:+ String sep s)). cbn [split].
    rewrite IH by done. by rewrite bool_decide_false by congruence.
Qed.

(** [strings.Split] undoes [strings.Join]. *)
Lemma split_join l : l <> [] -> Forall (fun x => no_space x /\ x <> "") l -> split newline (nl_join l) = l.
Proof.
  intros Hl Hall. induction Hall as [|x l [Hx _] Hall IH]; [done|]. apply no_space_newline in Hx.
  destruct l as [|y l]; [by apply split_word|].
  change (nl_join (x :: y :: l)) with (x +:+ String newline (nl_join (y :: l))). by rewrite split_app, IH.
Qed.

Lemma lines_of_app a b :
  lines_of (a +:+ String newline b) = lines_of (a +:+ String newline "") ++ lines_of b.
Proof.
  induction a as [|c a IH]; [done|].
  change (lines_of (String c (a +:+ String newline b)) = lines_of (String c (a +:+ String newline "")) ++ lines_of b).
  cbn [lines_of]. rewrite IH. case_bool_decide; [done|].
  assert (lines_of (a +:+ String newline "") <> []).
  { destruct a as [|d a]; [done|]. change (lines_of (String d (a +:+ String newline "")) <> []). cbn [lines_of].
    case_bool_decide; [done|]. by case_match. }
  by destruct (lines_of (a +:+ String newline "")).
Qed.

Lemma lines_of_out_file l : lines_of (out_file l) = concat ((fun kv => lines_of (out_line kv)) <$> l).
Proof.
  induction l as [|kv l IH]; [done|]. cbn [out_file foldr fmap list_fmap concat]. fold (out_file l). rewrite <-IH.
  unfold out_line. set (x := kv.1 +:+ " " +:+ kv.2). assert (E : forall s, (kv.1 +:+ " " +:+ kv.2 +:+ String newline s) = x +:+ String newline s).
  { intros s. unfold x. by rewrite !append_assoc. }
  rewrite (E ""). rewrite append_assoc. apply lines_of_app.
Qed.

(** ** The programs a test runs *)

Definition out_pattern : string := "mr-out-[0-9]".

(** [fnmatch]: does a file name match the pattern of [find -name];
    [dir_order]: the order [find] meets the files in; [line_le], [sort_lines]:
    the order of [sort] and its result on the lines of all its files; [cmp]:
    its exit status is zero. *)
Class Tools := {
  fnmatch : string -> string -> bool;
  dir_order : list string -> list string;
  line_le : string -> string -> Prop;
  sort_lines : list string -> list string;
  cmp : string -> string -> bool;
  fnmatch_out f : fnmatch out_pattern f = true <-> exists d, d < 10 /\ f = out_name d;
  dir_order_perm l : dir_order l ≡ₚ l;
  line_le_trans : Transitive line_le;
  line_le_anti : AntiSymm (=) line_le;
  sort_lines_perm l : sort_lines l ≡ₚ l;
  sort_lines_sorted l : StronglySorted line_le (sort_lines l);
  cmp_equal a b : cmp a b = true <-> a = b }.

#[export] Existing Instances line_le_trans line_le_anti.

(** [filepath.Join(tmp, f)] *)
Definition in_dir (tmp f : string) : string := tmp +:+ "/" +:+ f.

(** The file in [tmp] a path stands for. *)
Definition strip_dir (tmp p : string) : option string :=
  if String.prefix (in_dir tmp "") p then Some (drop_str (String.length (in_dir tmp "")) p) else None.

(** [b]: what [crand.Read] put into the [2*n] bytes; the slice may be out of
    range. *)
Definition RandString (n : nat) (b : string) : outcome string :=
  let s := base64url b in
  if decide (n <= String.length s) then Ret (String.substring 0 n s) else Panic "slice bounds out of range".

(** [coordinatorSock] and [mkOut] *)
Definition coordinatorSock (b : string) : outcome string := r ← RandString 20 b; Ret ("/tmp/5840-mr-" +:+ r).
Definition mkOut (b : string) : outcome (string * fs_t) := r ← RandString 8 b; Ret ("mr-tmp-" +:+ r, ∅).

Section Test.
Context `{Tools}.

Definition find_output (tmp pat : string) (fs : fs_t) : string :=
  unlines (in_dir tmp <$> dir_order (filter (fun f => fnmatch pat f = true) (elements (dom fs)))).

Definition findFiles (tmp pat : string) (fs : fs_t) : list string :=
  let s1 := TrimSpace (find_output tmp pat fs) in
  if decide (s1 = "") then [] else split newline s1.

(** [pre] is not used. *)
Definition findFilesPre (dir pat pre : string) (fs : fs_t) : list string := in_dir ".." <$> findFiles dir pat fs.

Definition open_path (tmp : string) (fs : fs_t) (p : string) : option string := f ← strip_dir tmp p; fs !! f.

(** [sort f ...] *)
Definition sort_output (contents : list string) : string := unlines (sort_lines (concat (lines_of <$> contents))).

(** [sorting]: the [sort.Sort] of [mrsequential]. *)
Definition mkCorrectOutput (mapf : string -> string -> list KeyValue) (reducef : string -> list string -> string)
    (sorting : list KeyValue -> list KeyValue) (tmp : string) (files : list string) (out : string) (fs : fs_t)
    : outcome fs_t :=
  kvs ← seq_intermediate mapf fs files;
  let fs1 := <["mr-out-0" := out_file (mrsequential reducef (sorting kvs))]> fs in
  let fs2 := <[out := ""]> fs1 in
  match open_path tmp fs2 (in_dir tmp "mr-out-0") with
  | None => Fatal "sort failed"
  | Some content => Ret (delete "mr-out-0" (<[out := sort_output [content]]> fs2))
  end.

Definition mergeOutput (tmp out : string) (fs : fs_t) : outcome fs_t :=
  match findFiles tmp out_pattern fs with
  | [] => Fatal "reduce created no mr-out-X output files!"
  | files =>
      let fs1 := <[out := ""]> fs in
      match mapM (open_path tmp fs1) files with
      | None => Fatal "sort failed"
      | Some contents => Ret (<[out := sort_output contents]> fs1)
      end
  end.

Definition runCmp (f1 f2 : string) (fs : fs_t) : bool :=
  match fs !! f1, fs !! f2 with Some a, Some b => cmp a b | _, _ => false end.

(** The files removed; the directory goes when it is empty. *)
Definition cleanup (tmp : string) (fs : fs_t) : option fs_t :=
  let fs' := foldl (fun fs p => match strip_dir tmp p with Some f => delete f fs | None => fs end) fs (findFiles tmp "mr-*" fs) in
  if decide (fs' = ∅) then None else Some fs'.

(** *** Random names *)

Lemma RandString_ok n b : n <= String.length b ->
  exists s, RandString n b = Ret s /\ String.length s = n /\ forall c, has_char c b64_alphabet = false -> c <> "="%char -> has_char c s = false.
Proof.
  intros Hn. pose proof (base64url_length b). unfold RandString. rewrite decide_True by lia. eexists. split; [done|].
  split; [apply length_substring; lia|]. intros c Hc Hp. by apply has_char_substring, base64url_chars.
Qed.

(** The directory of a test has no white space and no slash in its name. *)
Lemma mkOut_ok b : String.length b = 16 ->
  exists tmp, mkOut b = Ret (tmp, ∅) /\ no_space tmp /\ has_char "/"%char tmp = false.
Proof.
  intros Hb. destruct (RandString_ok 8 b) as (s & E & _ & Hs); [lia|]. exists ("mr-tmp-" +:+ s). unfold mkOut. rewrite E.
  split; [done|]. split; [|rewrite has_char_app; by apply Hs].
  apply no_space_app; [by apply no_space_lit|]. intros c Hc. unfold spaces in Hc.
  rewrite !elem_of_cons in Hc. destruct_or! Hc; subst; try by apply Hs. by apply elem_of_nil in Hc.
Qed.

(** *** Finding and opening the output files *)

Lemma prefix_app a b : String.prefix a (a +:+ b) = true.
Proof.
  induction a as [|c a IH]; [by destruct b|].
  change ((if ascii_dec c c then String.prefix a (a +:+ b) else false) = true). by destruct (ascii_dec c c).
Qed.
Lemma drop_str_app a b : drop_str (String.length a) (a +:+ b) = b.
Proof. induction a as [|c a IH]; [by destruct b|]. exact IH. Qed.

Lemma strip_in_dir tmp f : strip_dir tmp (in_dir tmp f) = Some f.
Proof.
  unfold strip_dir. assert (in_dir tmp f = in_dir tmp "" +:+ f) as -> by (unfold in_dir; by rewrite append_assoc).
  by rewrite prefix_app, drop_str_app.
Qed.

Lemma open_in_dir tmp fs f : open_path tmp fs (in_dir tmp f) = fs !! f.
Proof. unfold open_path. by rewrite strip_in_dir. Qed.

(** What [find] prints is read back as the list of matching files. *)
Lemma findFiles_spec tmp pat fs :
  no_space tmp -> (forall f, fnmatch pat f = true -> no_space f) ->
  findFiles tmp pat fs = in_dir tmp <$> dir_order (filter (fun f => fnmatch pat f = true) (elements (dom fs))).
Proof.
  intros Ht Hp. unfold findFiles, find_output. set (l := dir_order _).
  assert (Hall : Forall (fun x => no_space x /\ x <> "") (in_dir tmp <$> l)).
  { apply Forall_fmap, Forall_forall. intros f Hf. unfold l in Hf. rewrite dir_order_perm in Hf.
    apply list_elem_of_filter in Hf as [Hf _]. cbn. split; [|by destruct tmp].
    apply no_space_app; [done|]. apply no_space_app; [by apply no_space_lit|by apply Hp]. }
  destruct (decide (in_dir tmp <$> l = [])) as [->|Hne]; [by rewrite decide_True|].
  rewrite trim_unlines by done. destruct (trim_right_unlines _ Hne Hall) as [_ Hj].
  rewrite decide_False by done. by apply split_join.
Qed.

Lemma no_space_out d : no_space (out_name d).
Proof. apply no_space_app; [by apply no_space_lit|apply no_space_itoa]. Qed.

(** The output files of [n] reducers, and no others, are found. *)
Lemma find_outputs tmp fs n :
  no_space tmp -> n <= 10 -> (forall d, d < 10 -> is_Some (fs !! out_name d) <-> d < n) ->
  findFiles tmp out_pattern fs ≡ₚ in_dir tmp <$> (out_name <$> seq 0 n).
Proof.
  intros Ht Hn Hfs. rewrite findFiles_spec; [|done|].
  2: { intros f (d & _ & ->)%fnmatch_out. apply no_space_out. }
  apply fmap_Permutation. rewrite dir_order_perm. apply NoDup_Permutation.
  - apply NoDup_filter, NoDup_elements.
  - apply NoDup_fmap_2_strong; [|apply NoDup_seq]. intros d d' _ _. apply out_name_inj.
  - intros f. rewrite list_elem_of_filter, elem_of_elements, elem_of_dom, list_elem_of_fmap, fnmatch_out.
    setoid_rewrite elem_of_seq. split.
    + intros [(d & Hd & ->) Hs]. exists d. split; [done|]. apply Hfs in Hs; lia.
    + intros (d & -> & Hd). split; [exists d; split; [lia|done]|]. apply Hfs; lia.
Qed.

Lemma sort_output_perm cs cs' : concat (lines_of <$> cs) ≡ₚ concat (lines_of <$> cs') -> sort_output cs = sort_output cs'.
Proof.
  intros Hp. unfold sort_output. f_equal.
  apply (StronglySorted_unique line_le); [apply sort_lines_sorted..|]. by rewrite !sort_lines_perm.
Qed.

Lemma concat_fmap_perm {A B} (f : A -> list B) l l' : l ≡ₚ l' -> concat (f <$> l) ≡ₚ concat (f <$> l').
Proof.
  induction 1 as [|x l l' _ IH|x y l|l1 l2 l3 _ IH1 _ IH2]; cbn; [done|by rewrite IH| |by etrans].
  by rewrite !app_assoc, (Permutation_app_comm (f x)).
Qed.

Lemma mapM_all {A B} (f : A -> option B) (g : A -> B) l : (forall x, x ∈ l -> f x = Some (g x)) -> mapM f l = Some (g <$> l).
Proof.
  induction l as [|x l IH]; intros Hf; [done|]. cbn. rewrite Hf by by left. cbn. rewrite IH; [done|].
  intros y Hy. apply Hf. by right.
Qed.

(** The merged output depends only on the lines of the outputs. *)
Lemma mergeOutput_lines tmp all fs n (out : nat -> list (string * string)) :
  no_space tmp -> 0 < n <= 10 -> other_file 10 all ->
  (forall r, r < n -> fs !! out_name r = Some (out_file (out r))) ->
  (forall d, n <= d < 10 -> fs !! out_name d = None) ->
  mergeOutput tmp all fs = Ret (<[all := sort_output [out_file (concat (out <$> seq 0 n))]]> (<[all := ""]> fs)).
Proof.
  intros Ht Hn [_ Hall] Hout Hnone. unfold mergeOutput.
  assert (Hfind : findFiles tmp out_pattern fs ≡ₚ in_dir tmp <$> (out_name <$> seq 0 n)).
  { apply find_outputs; [done|lia|]. intros d Hd. destruct (decide (d < n)) as [|].
    - rewrite Hout by done. split; [done|by eexists].
    - rewrite Hnone by lia. split; [by intros [? [=]]|done]. }
  destruct (findFiles tmp out_pattern fs) as [|p ps] eqn:E.
  { apply Permutation_nil in Hfind. by destruct n; [lia|]. }
  set (g := fun p => default "" (open_path tmp (<[all := ""]> fs) p)).
  assert (Hg : forall r, r < n -> open_path tmp (<[all := ""]> fs) (in_dir tmp (out_name r)) = Some (out_file (out r))).
  { intros r Hr. rewrite open_in_dir, lookup_insert_ne; [by apply Hout|]. apply Hall. lia. }
  rewrite (mapM_all _ g).
  2: { intros q Hq. rewrite Hfind in Hq. rewrite !list_elem_of_fmap in Hq. destruct Hq as (f & -> & Hf).
    apply list_elem_of_fmap in Hf as (r & -> & Hr%elem_of_seq). unfold g. by rewrite Hg by lia. }
  f_equal. f_equal. apply sort_output_perm. rewrite Hfind, <-!list_fmap_compose. cbn [fmap list_fmap concat].
  rewrite app_nil_r, lines_of_out_file.
  assert (Hseq : Forall (fun r => r < n) (seq 0 n)) by (apply Forall_seq; lia).
  clear Hfind. induction Hseq as [|r rs Hr _ IH]; [done|]. cbn [fmap list_fmap concat]. rewrite fmap_app, concat_app.
  apply Permutation_app; [|exact IH]. unfold compose, g. rewrite Hg by done. cbn [default from_option id]. by rewrite lines_of_out_file.
Qed.

Lemma seq_intermediate_ext mapf fs fs' files :
  (forall f, f ∈ files -> fs' !! f = fs !! f) -> seq_intermediate mapf fs' files = seq_intermediate mapf fs files.
Proof.
  induction files as [|f files IH]; intros Hf; [done|]. cbn. rewrite Hf by by left. rewrite IH; [done|].
  intros g Hg. apply Hf. by right.
Qed.

Lemma mkCorrectOutput_spec mapf reducef sorting tmp files correct fs fs1 :
  correct <> out_name 0 -> mkCorrectOutput mapf reducef sorting tmp files correct fs = Ret fs1 ->
  exists kvs, seq_intermediate mapf fs files = Ret kvs /\
    fs1 !! correct = Some (sort_output [out_file (mrsequential reducef (sorting kvs))]) /\
    fs1 !! out_name 0 = None /\ forall f, f <> correct -> f <> out_name 0 -> fs1 !! f = fs !! f.
Proof.
  intros Hne. unfold mkCorrectOutput. destruct (seq_intermediate mapf fs files) as [kvs| |] eqn:Hs; [|done..].
  cbn [mbind outcome_bind]. rewrite open_in_dir. change "mr-out-0" with (out_name 0).
  rewrite lookup_insert_ne, lookup_insert_eq by done. intros [= <-]. exists kvs. split; [done|].
  rewrite lookup_delete_ne, lookup_insert_eq by done. split; [done|]. split; [apply lookup_delete_eq|].
  intros f Hc Ho. by rewrite lookup_delete_ne, !lookup_insert_ne by done.
Qed.


End Test.

(** ** Counting in the output *)

(** The expressions the tests use: bytes, ranges and [.*].  None of them
    matches the empty string. *)
Inductive re_atom := RLit (c : ascii) | RRange (lo hi : ascii) | RDotStar.

(** [.*] takes what it can of the line and gives back if what follows does not
    match. *)
Fixpoint dot_star (k : string -> option string) (s : string) : option string :=
  match s with
  | String c s' =>
      if bool_decide (c = newline) then k s
      else match dot_star k s' with Some r => Some r | None => k s end
  | EmptyString => k s
  end.

(** What follows a match at the start. *)
Fixpoint match_here (re : list re_atom) (s : string) : option string :=
  match re with
  | [] => Some s
  | RDotStar :: re => dot_star (match_here re) s
  | a :: re =>
      match s with
      | String c s' =>
          let ok := match a with
            | RLit d => bool_decide (c = d)
            | RRange lo hi => (Ascii.N_of_ascii lo <=? Ascii.N_of_ascii c)%N && (Ascii.N_of_ascii c <=? Ascii.N_of_ascii hi)%N
            | RDotStar => false end in
          if ok then match_here re s' else None
      | EmptyString => None
      end
  end.

(** [len(re.FindAllString(s, -1))], leftmost matches one after the other; the
    length of [s] is enough fuel. *)
Fixpoint find_all (fuel : nat) (re : list re_atom) (s : string) : nat :=
  match fuel, s with
  | S fuel, String _ s' =>
      match match_here re s with
      | Some rest => S (find_all fuel re rest)
      | None => find_all fuel re s'
      end
  | _, _ => 0
  end.

Definition re_lits (s : string) : list re_atom := RLit <$> String.list_ascii_of_string s.
Definition re_times : list re_atom := re_lits "times-".
Definition re_parallel : list re_atom := re_lits "parallel" ++ [RDotStar].
Definition re_two : list re_atom := RRange "a" "z" :: re_lits " 2".
Definition re_eight : list re_atom := re_lits "a 8".

Definition countPatternFile (open : string -> option string) (f : string) (re : list re_atom) : outcome nat :=
  match open f with
  | None => Fatal "Open failed"
  | Some data => Ret (find_all (String.length data) re data)
  end.

Definition countPattern (open : string -> option string) (files : list string) (re : list re_atom) : outcome nat :=
  foldo (fun n f => k ← countPatternFile open f re; Ret (n + k)) 0 files.

Lemma match_lits l s : match_here (re_lits l) (l +:+ s) = Some s.
Proof. induction l as [|c l IH]; [done|]. change (String c l +:+ s) with (String c (l +:+ s)). cbn. by rewrite bool_decide_true. Qed.

Lemma match_app re1 re2 s s' r : match_here re1 s = Some s' -> match_here re2 s' = Some r ->
  Forall (fun a => a <> RDotStar) re1 -> match_here (re1 ++ re2) s = Some r.
Proof.
  intros H1 H2 Hall. revert s H1. induction Hall as [|a re1 Ha _ IH]; intros s H1; [by injection H1 as ->|].
  destruct a; [| |done]; cbn in *; destruct s as [|d s]; try done; case_match; try done; by apply IH.
Qed.

Lemma dot_star_all s : exists r, dot_star (match_here []) s = Some r.
Proof. induction s as [|c s [r IH]]; [by eexists|]. cbn [dot_star]. case_match; [by eexists|]. rewrite IH. by eexists. Qed.

(** Where there is something to find, something is found. *)
Lemma find_all_pos re a b r : match_here re b = Some r -> b <> "" -> 0 < find_all (String.length (a +:+ b)) re (a +:+ b).
Proof.
  intros Hm Hb. induction a as [|c a IH].
  - destruct b as [|c b]; [done|]. change ("" +:+ String c b) with (String c b). cbn [find_all String.length]. rewrite Hm. lia.
  - change (String c a +:+ b) with (String c (a +:+ b)). cbn [find_all String.length]. case_match; [lia|exact IH].
Qed.

Lemma countPattern_ge open files re n f data :
  countPattern open files re = Ret n -> f ∈ files -> open f = Some data -> find_all (String.length data) re data <= n.
Proof.
  unfold countPattern. intros Hc Hf Ho. apply list_elem_of_split in Hf as (l1 & l2 & ->). rewrite foldo_app in Hc.
  assert (Hs : countPatternFile open f re = Ret (find_all (String.length data) re data)) by (unfold countPatternFile; by rewrite Ho).
  destruct (foldo _ 0 l1) as [k| |]; [|done..]. cbn [foldo mbind outcome_bind] in Hc. rewrite Hs in Hc. cbn [mbind outcome_bind] in Hc.
  set (j := find_all _ _ _) in *. assert (k + j <= n); [|lia].
  apply (foldo_inv (fun m => k + j <= m)) with (3 := Hc); [|done]. intros m g m' Hm. unfold countPatternFile.
  destruct (open g); [|done]. cbn. intros [= <-]. lia.
Qed.

(** [TestMapParallel]'s check of [parallel.*] cannot fail: whatever number the
    map function saw, its line matches. *)
Lemma parallel_always_found open files f l pid v n :
  f ∈ files -> open f = Some (out_file l) -> ("parallel-" +:+ pid, v) ∈ l ->
  countPattern open files re_parallel = Ret n -> n <> 0.
Proof.
  intros Hf Ho Hl Hc. pose proof (countPattern_ge _ _ _ _ _ _ Hc Hf Ho) as Hge.
  apply list_elem_of_split in Hl as (l1 & l2 & ->).
  assert (exists a b, out_file (l1 ++ ("parallel-" +:+ pid, v) :: l2) = a +:+ ("parallel" +:+ b)) as (a & b & E).
  { exists (out_file l1), ("-" +:+ pid +:+ " " +:+ v +:+ String newline "" +:+ out_file l2). clear. induction l1 as [|x l1 IH].
    - cbn [app out_file foldr]. unfold out_line. cbn [fst snd]. by rewrite !append_assoc.
    - cbn [app out_file foldr]. fold (out_file l1). fold (out_file (l1 ++ ("parallel-" +:+ pid, v) :: l2)).
      rewrite IH. by rewrite append_assoc. }
  rewrite E in Hge. destruct (dot_star_all b) as [r Hr].
  pose proof (find_all_pos re_parallel a ("parallel" +:+ b) r) as Hp. assert (0 < n); [|lia].
  eapply Nat.lt_le_trans; [apply Hp|exact Hge]; [|done].
  apply (match_app _ [RDotStar] _ b); [apply match_lits|exact Hr|by repeat constructor].
Qed.

(** ** [mrapps/jobcount.go] *)

(** The directory, and [count] in each worker process. *)
Record jc_state := mkJc { jc_fs : fs_t; jc_count : gmap nat nat }.

Definition jobcount_file (me count : nat) : string := "mr-worker-jobcount-" +:+ itoa me +:+ "-" +:+ itoa count.

(** [write_ok]: the file can be written. *)
Definition jobcount_Map (write_ok : bool) (me : nat) (s : jc_state) : outcome (jc_state * list KeyValue) :=
  let c := default 0 (jc_count s !! me) in
  if write_ok then
    Ret (mkJc (<[jobcount_file me c := "x"]> (jc_fs s)) (<[me := S c]> (jc_count s)), [mkKV "a" "x"])
  else Panic "open".

Definition jobcount_Reduce (s : jc_state) (key : string) (values : list string) : string :=
  itoa (length (filter (fun f => String.prefix "mr-worker-jobcount" f = true) (elements (dom (jc_fs s))))).

(** Map tasks executed by the processes [ps], one after the other. *)
Definition jobcount_run (ps : list nat) (s : jc_state) : outcome jc_state :=
  foldo (fun s me => r ← jobcount_Map true me s; Ret r.1) s ps.

(** The marker files there are: one per call counted by its process. *)
Definition jc_inv (k : nat) (s : jc_state) : Prop :=
  exists l : list (nat * nat), length l = k /\ NoDup l /\
    (forall me c, (me, c) ∈ l -> c < default 0 (jc_count s !! me)) /\
    (forall f, is_Some (jc_fs s !! f) /\ String.prefix "mr-worker-jobcount" f = true <-> exists me c, (me, c) ∈ l /\ f = jobcount_file me c).

Lemma jobcount_file_inj me c me' c' : jobcount_file me c = jobcount_file me' c' -> me = me' /\ c = c'.
Proof.
  intros H. apply (inj (String.append "mr-worker-jobcount-")) in H.
  apply split_at_inj in H as [H1 H2]; [|apply itoa_no_dash..]. by apply (inj itoa) in H1, H2.
Qed.

Lemma jc_inv_map k s me s' kvs : jc_inv k s -> jobcount_Map true me s = Ret (s', kvs) -> jc_inv (S k) s'.
Proof.
  intros (l & Hk & Hnd & Hlt & Hf). unfold jobcount_Map. set (c := default 0 _). intros [= <- _].
  assert (Hnew : (me, c) ∉ l) by (intros Hin; apply Hlt in Hin; fold c in Hin; lia).
  exists ((me, c) :: l). split; [by cbn; rewrite Hk|]. split; [by constructor|]. cbn [jc_fs jc_count]. split.
  - intros me' c'. rewrite elem_of_cons. destruct (decide (me' = me)) as [->|Hne].
    + rewrite lookup_insert_eq. intros [[= ->]|Hin]; cbn; [lia|]. apply Hlt in Hin. fold c in Hin. lia.
    + rewrite lookup_insert_ne by done. intros [[= ? ?]|Hin]; [done|]. by apply Hlt.
  - intros f. destruct (decide (f = jobcount_file me c)) as [->|Hne].
    + rewrite lookup_insert_eq. split; [|split; [by eexists|done]]. intros _. exists me, c. split; [by left|done].
    + rewrite lookup_insert_ne, Hf by done. split; intros (me' & c' & Hin & ->); exists me', c'; (split; [|done]); [by right|].
      apply elem_of_cons in Hin as [[= -> ->]|Hin]; done.
Qed.

Lemma jc_inv_reduce k s key values : jc_inv k s -> jobcount_Reduce s key values = itoa k.
Proof.
  intros (l & Hk & Hnd & _ & Hf). unfold jobcount_Reduce. f_equal. rewrite <-Hk, <-(length_fmap (fun p => jobcount_file p.1 p.2) l).
  apply Permutation_length, NoDup_Permutation.
  - apply NoDup_filter, NoDup_elements.
  - apply NoDup_fmap_2_strong; [|done]. intros [m1 c1] [m2 c2] _ _ E. cbn in E. apply jobcount_file_inj in E as [-> ->]. done.
  - intros f. rewrite list_elem_of_filter, elem_of_elements, elem_of_dom, list_elem_of_fmap.
    transitivity (exists me c, (me, c) ∈ l /\ f = jobcount_file me c); [rewrite <-Hf; tauto|]. split.
    + intros (me & c & Hin & ->). by exists (me, c).
    + intros ([me c] & -> & Hin). by exists me, c.
Qed.

(** [TestJobCount] reads the number of map task executions: after [k] of them,
    by any worker processes, reducing any key gives [k]. *)
Lemma jobcount_counts ps fs s :
  (forall f, String.prefix "mr-worker-jobcount" f = true -> fs !! f = None) ->
  jobcount_run ps (mkJc fs ∅) = Ret s -> forall key values, jobcount_Reduce s key values = itoa (length ps).
Proof.
  intros Hfs Hr key values. apply jc_inv_reduce. revert Hr.
  assert (Hinit : jc_inv 0 (mkJc fs ∅)).
  { exists []. split; [done|]. split; [constructor|]. split; [intros ? ? ?%elem_of_nil; done|]. intros f. split.
    - intros [[v Hv] Hp]. cbn in Hv. by rewrite Hfs in Hv.
    - by intros (? & ? & ?%elem_of_nil & _). }
  assert (Hgen : forall k s0, jc_inv k s0 -> jobcount_run ps s0 = Ret s -> jc_inv (k + length ps) s); [|exact (Hgen 0 _ Hinit)].
  clear. induction ps as [|me ps IH]; intros k s0 Hk; cbn [jobcount_run foldo length].
  - intros [= <-]. by rewrite Nat.add_0_r.
  - destruct (jobcount_Map true me s0) as [[s1 kvs]| |] eqn:E; [|done..]. cbn [mbind outcome_bind fst]. intros Hr.
    rewrite Nat.add_succ_r. apply (IH (S k) s1); [by eapply jc_inv_map|exact Hr].
Qed.

(** ** [mrapps/mtiming.go] and [mrapps/rtiming.go] *)

(** Where a process is in [nparallel]: its file is written; in the loop over
    the names read, with the names left and the processes counted, [ret] being
    their number.  It sleeps when no names are left. *)
Inductive np_pc := NpWritten | NpScan (todo counted : list nat).

(** Files named after the process, for one phase; the processes there are. *)
Record np := mkNp { np_files : gset nat; np_alive : gset nat; np_pcs : gmap nat np_pc }.

Inductive np_event :=
  | NpSpawn (p : nat)
  | NpDie (p : nat)
  | NpWrite (p : nat)
  | NpRead (p : nat) (names : list nat)
  | NpKill (p : nat)
  | NpRemove (p : nat).

Definition np_set (s : np) (p : nat) (x : np_pc) : np := mkNp (np_files s) (np_alive s) (<[p := x]> (np_pcs s)).

(** [names]: the directory in the order [Readdirnames] gives it.  A process
    that dies leaves its file. *)
Definition nparallel_exec (e : np_event) (s : np) : option np :=
  match e with
  | NpSpawn p => if decide (p ∈ np_alive s) then None else Some (mkNp (np_files s) ({[p]} ∪ np_alive s) (np_pcs s))
  | NpDie p => Some (mkNp (np_files s) (np_alive s ∖ {[p]}) (delete p (np_pcs s)))
  | NpWrite p =>
      match np_pcs s !! p with
      | None => if decide (p ∈ np_alive s)
                then Some (np_set (mkNp ({[p]} ∪ np_files s) (np_alive s) (np_pcs s)) p NpWritten) else None
      | Some _ => None
      end
  | NpRead p names =>
      match np_pcs s !! p with
      | Some NpWritten => if decide (names ≡ₚ elements (np_files s)) then Some (np_set s p (NpScan names [])) else None
      | _ => None
      end
  | NpKill p =>
      match np_pcs s !! p with
      | Some (NpScan (x :: todo) counted) =>
          Some (np_set s p (NpScan todo (if decide (x ∈ np_alive s) then x :: counted else counted)))
      | _ => None
      end
  | NpRemove p =>
      match np_pcs s !! p with
      | Some (NpScan [] counted) =>
          if decide (p ∈ np_files s)
          then Some (mkNp (np_files s ∖ {[p]}) (np_alive s) (delete p (np_pcs s))) else None
      | _ => None
      end
  end.

Definition np_init : np := mkNp ∅ ∅ ∅.

Definition mtiming_Map (pid : nat) (ts : string) (n : nat) (filename contents : string) : list KeyValue :=
  [mkKV ("times-" +:+ itoa pid) ts; mkKV ("parallel-" +:+ itoa pid) (itoa n)].
Definition mtiming_Reduce (key : string) (values : list string) : string := String.concat " " (sort_strings values).
Definition rtiming_Map (filename contents : string) : list KeyValue :=
  (fun k => mkKV k "1") <$> ["a"; "b"; "c"; "d"; "e"; "f"; "g"; "h"; "i"; "j"].
Definition rtiming_Reduce (n : nat) (key : string) (values : list string) : string := itoa n.

(** [q] is counted by [p], or will be if it lives. *)
Definition np_sees (pc : np_pc) (q : nat) : Prop :=
  match pc with NpWritten => False | NpScan todo counted => q ∈ todo \/ q ∈ counted end.

Definition np_pair (p q : nat) (x y : np_pc) : Prop :=
  x = NpWritten \/ y = NpWritten \/ np_sees x q \/ np_sees y p.

Record np_inv (s : np) : Prop := {
  ni_active p x : np_pcs s !! p = Some x -> p ∈ np_alive s /\ p ∈ np_files s;
  ni_self p x : np_pcs s !! p = Some x -> x = NpWritten \/ np_sees x p;
  ni_pair p q x y : np_pcs s !! p = Some x -> np_pcs s !! q = Some y -> np_pair p q x y }.

Lemma np_pair_sym p q x y : np_pair p q x y -> np_pair q p y x.
Proof. unfold np_pair. tauto. Qed.

(** A process moves on, seeing all it has to. *)
Lemma np_inv_set s p x x' :
  np_inv s -> np_pcs s !! p = Some x -> (x = NpWritten -> forall q, is_Some (np_pcs s !! q) -> np_sees x' q) ->
  (forall q, is_Some (np_pcs s !! q) -> np_sees x q -> np_sees x' q) -> np_inv (np_set s p x').
Proof.
  intros [I1 I2 I3] Hp Hw Hs.
  assert (Hself : np_sees x' p).
  { destruct (I2 p x Hp) as [->|]; [by apply Hw; [|eexists]|apply Hs; [by eexists|done]]. }
  assert (Hpair : forall q y, np_pcs s !! q = Some y -> np_pair p q x' y).
  { intros q y Hq. destruct (I3 p q x y Hp Hq) as [->|[->|[H|H]]]; [|by right; left| |by do 3 right].
    - right; right; left. apply Hw; [done|by eexists].
    - right; right; left. apply Hs; [by eexists|done]. }
  split; cbn.
  - intros q y. destruct (decide (p = q)) as [<-|]; [intros _; by eapply I1|]. rewrite lookup_insert_ne by done. by apply I1.
  - intros q y. destruct (decide (p = q)) as [<-|]; [rewrite lookup_insert_eq; intros [= <-]; by right|].
    rewrite lookup_insert_ne by done. by apply I2.
  - intros q r y z. destruct (decide (p = q)) as [<-|]; [|destruct (decide (p = r)) as [<-|]].
    + rewrite lookup_insert_eq. intros [= <-]. destruct (decide (p = r)) as [<-|].
      * rewrite lookup_insert_eq. intros [= <-]. by right; right; left.
      * rewrite lookup_insert_ne by done. apply Hpair.
    + rewrite lookup_insert_eq, lookup_insert_ne by done. intros Hq [= <-]. by apply np_pair_sym, Hpair.
    + rewrite !lookup_insert_ne by done. apply I3.
Qed.

(** A process leaves; only its own file may go. *)
Lemma np_inv_delete s p fs al :
  np_inv s -> (forall q, q <> p -> q ∈ np_files s -> q ∈ fs) -> (forall q, q <> p -> q ∈ np_alive s -> q ∈ al) ->
  np_inv (mkNp fs al (delete p (np_pcs s))).
Proof.
  intros [I1 I2 I3] Hf Ha. split; cbn.
  - intros q y [Hne Hq]%lookup_delete_Some. destruct (I1 q y Hq). auto.
  - intros q y [_ Hq]%lookup_delete_Some. by apply I2.
  - intros q r y z [_ Hq]%lookup_delete_Some [_ Hr]%lookup_delete_Some. by apply I3.
Qed.

Lemma np_inv_step e s s' : np_inv s -> nparallel_exec e s = Some s' -> np_inv s'.
Proof.
  intros Hi. pose proof Hi as [I1 I2 I3]. destruct e as [p|p|p|p names|p|p]; cbn.
  - case_decide as Hp; [done|]. intros [= <-]. split; cbn; [|done..]. intros q y Hq. destruct (I1 q y Hq). set_solver.
  - intros [= <-]. apply np_inv_delete; [done|done|]. set_solver.
  - destruct (np_pcs s !! p) eqn:Hp; [done|]. case_decide as Ha; [|done]. intros [= <-]. split; cbn.
    + intros q y. rewrite lookup_insert_Some. intros [[<- _]|[_ Hq]]; [set_solver|]. destruct (I1 q y Hq). set_solver.
    + intros q y. rewrite lookup_insert_Some. intros [[_ <-]|[_ Hq]]; [by left|by apply I2].
    + intros q r y z. rewrite !lookup_insert_Some. intros [[<- <-]|[_ Hq]]; [by left|].
      intros [[<- <-]|[_ Hr]]; [by right; left|by apply I3].
  - destruct (np_pcs s !! p) as [[]|] eqn:Hp; try done. case_decide as Hn; [|done]. intros [= <-].
    eapply np_inv_set; [done..| |done]. intros _ q [y Hq]. left. rewrite Hn. apply elem_of_elements. by eapply I1.
  - destruct (np_pcs s !! p) as [[|[|x todo] counted]|] eqn:Hp; try done. intros [= <-]. eapply np_inv_set; [done..|].
    intros q [y Hq] [[->|Hin]%elem_of_cons|Hin].
    + right. destruct (I1 _ _ Hq) as [Ha _]. rewrite decide_True by done. by left.
    + by left.
    + right. case_decide; [by right|done].
  - destruct (np_pcs s !! p) as [[|[|x todo] counted]|] eqn:Hp; try done. case_decide; [|done]. intros [= <-].
    apply np_inv_delete; [done| |done]. set_solver.
Qed.

(** [nparallel] detects workers that run at the same time: when two processes
    have both scanned the directory and neither has removed its file, one of
    them has counted two or more, whatever other processes start and die. *)
Theorem nparallel_detects es s p q cp cq :
  run nparallel_exec es np_init = Some s -> p <> q ->
  np_pcs s !! p = Some (NpScan [] cp) -> np_pcs s !! q = Some (NpScan [] cq) -> 2 <= length cp \/ 2 <= length cq.
Proof.
  intros Hr Hne Hp Hq. assert (Hi : np_inv s).
  { apply (run_invariant nparallel_exec np_inv) with (3 := Hr); [intros e s1 s2; apply np_inv_step|]. by split. }
  assert (Hlen : forall l : list nat, p ∈ l -> q ∈ l -> 2 <= length l).
  { intros [|x [|y l]] H1 H2; cbn; [by apply elem_of_nil in H1| |lia].
    apply list_elem_of_singleton in H1, H2. by subst. }
  destruct (ni_self _ Hi _ _ Hp) as [|[?%elem_of_nil|Hpp]]; [done..|].
  destruct (ni_self _ Hi _ _ Hq) as [|[?%elem_of_nil|Hqq]]; [done..|].
  destruct (ni_pair _ Hi _ _ _ _ Hp Hq) as [|[|[[?%elem_of_nil|H]|[?%elem_of_nil|H]]]]; try done.
  - left. by apply Hlen.
  - right. by apply Hlen.
Qed.

(** The names the tests give their files. *)
Lemma test_file_other n x rest c :
  has_char "-"%char x = false -> not_digit c -> has_char c x = true -> x <> "out" -> other_file n ("mr-" +:+ x +:+ String "-" rest).
Proof.
  intros Hx Hc Hcx Hout. split.
  - intros i r b Heq. unfold generateUniqueIntermediateFilename in Heq. apply (inj (String.append "mr-")) in Heq.
    apply split_at_inj in Heq as [-> _]; [|done|apply itoa_no_dash]. by rewrite (itoa_no_char c i Hc) in Hcx.
  - intros r _ Heq. unfold out_name in Heq. change ("mr-out-" +:+ itoa r) with ("mr-" +:+ ("out" +:+ String "-" (itoa r))) in Heq.
    apply (inj (String.append "mr-")) in Heq. by apply split_at_inj in Heq as [-> _].
Qed.

(** Process 8 starts while 7 is at it, and counts both. *)
Definition demo_np : list np_event :=
  [NpSpawn 7; NpWrite 7; NpRead 7 [7]; NpSpawn 8; NpDie 9; NpWrite 8; NpKill 7; NpRead 8 [8; 7]; NpKill 8; NpKill 8].

Lemma nparallel_detects_witness : exists s, run nparallel_exec demo_np np_init = Some s /\
  (2 <= length [7] \/ 2 <= length [7; 8]).
Proof.
  destruct (run nparallel_exec demo_np np_init) as [s|] eqn:E; [|by vm_compute in E].
  exists s. split; [done|]. apply (nparallel_detects demo_np s 7 8); [exact E|done|..].
  - refine (demo_read (fun s => np_pcs s !! 7) _ _ _ E _). by vm_compute.
  - refine (demo_read (fun s => np_pcs s !! 8) _ _ _ E _). by vm_compute.
Defined.

#[local] Existing Instance bit_json.

(** GNU's programs in the C locale, for two patterns. *)
Definition demo_fnmatch (pat f : string) : bool :=
  if decide (pat = out_pattern) then bool_decide (f ∈ out_name <$> seq 0 10) else String.prefix "mr-" f.

Lemma demo_fnmatch_out f : demo_fnmatch out_pattern f = true <-> exists d, d < 10 /\ f = out_name d.
Proof.
  unfold demo_fnmatch. rewrite decide_True by done. rewrite bool_decide_eq_true, list_elem_of_fmap. setoid_rewrite elem_of_seq.
  split; intros (d & H1 & H2); exists d; split; done || lia.
Qed.

Lemma sort_strings_sorted l : StronglySorted String.le (sort_strings l).
Proof. apply Sorted_StronglySorted; [apply _|]. apply Sorted_merge_sort, _. Qed.

#[local] Instance demo_tools : Tools := {|
  fnmatch := demo_fnmatch; dir_order l := reverse l; line_le := String.le; sort_lines := sort_strings;
  cmp a b := bool_decide (a = b); fnmatch_out := demo_fnmatch_out;
  dir_order_perm l := reverse_Permutation l; line_le_trans := _; line_le_anti := _;
  sort_lines_perm := merge_sort_Permutation String.le;
  sort_lines_sorted := sort_strings_sorted; cmp_equal a b := bool_decide_eq_true _ |}.

Definition ret_test {A} (f : A -> bool) (o : outcome A) : bool := match o with Ret a => f a | _ => false end.
Lemma ret_test_true {A} (f : A -> bool) o : ret_test f o = true -> exists a, o = Ret a /\ f a = true.
Proof. destruct o; [|done..]. intros H. by eexists. Qed.

Definition zeros : string := "AAAAAAAAAAAAAAAA".
Definition demo_sorting : list KeyValue -> list KeyValue := merge_sort key_le.

Definition demo_correct : outcome fs_t :=
  mkCorrectOutput crash_Map crash_Reduce demo_sorting "mr-tmp-QUFBQUFB" demo_files "mr-crash-correct.txt" demo_fs.

Lemma demo_correct_run : exists fs1 c s, demo_correct = Ret fs1 /\ MakeCoordinator demo_files 2 = Some c /\
  run (job_exec_x crash_Map crash_Reduce) demo_job (job_init c fs1 2) = Some s /\ Done (j_c s) = true /\
  forall r, r < 2 -> j_last s !! r = Some Finished.
Proof.
  assert (Hrun : ret_test (fun fs1 => match demo_end crash_Map crash_Reduce 2 demo_files fs1 demo_job with
    | Some s => j_all_done 2 s | None => false end) demo_correct = true) by by vm_compute.
  apply ret_test_true in Hrun as (fs1 & Hc & Hrun). apply demo_end_run in Hrun as (c & s & Hrun). by exists fs1, c, s.
Qed.


End MrTest.
