(* ===== verification/MrApps.v ===== *)
(** * MrApps: the applications that look at words, and the worker's loop

    [src/src/mrapps/wc.go], [indexer.go]: words are runs of letters in the
    contents read as UTF-8; [crash.go]: random exits and delays; and the loop of
    [src/src/mr/worker.go], [Worker], with its RPCs.  [unicode.IsLetter] is the
    parameter [IsLetter]: nothing here depends on its tables.  The theorems say
    what a whole job, as [MrJob] has it, leaves in the output files for these
    two applications. *)

From S2P Require Import Prelude MrCoordinator MrWorker MrJob.
From stdpp Require Import base gmap list strings pretty sorting.
From Stdlib Require Import ZArith Lia Ascii.
From stdpp Require Import list.

Module MrApps.
Import MrCoordinator MrWorker MrJob.

#[local] Arguments bool_decide _ {_} : simpl never.

(** ** Runes: [for i, r := range s] *)

Definition RuneError : Z := 0xFFFD.

Definition byte (a : ascii) : Z := Z.of_N (N_of_ascii a).
Definition within (lo hi : Z) (a : ascii) : bool := (lo <=? byte a)%Z && (byte a <=? hi)%Z.
Definition continuation (a : ascii) : bool := within 0x80 0xBF a.
Definition low6 (a : ascii) : Z := Z.land (byte a) 0x3F.

(** The encodings of two, three and four bytes.  The second byte is restricted
    so that no rune has two encodings, and none is a surrogate or too large. *)
Definition two (a b : ascii) : bool := within 0xC2 0xDF a && continuation b.
Definition three (a b c : ascii) : bool :=
  within 0xE0 0xEF a &&
  within (if (byte a =? 0xE0)%Z then 0xA0 else 0x80) (if (byte a =? 0xED)%Z then 0x9F else 0xBF) b && continuation c.
Definition four (a b c d : ascii) : bool :=
  within 0xF0 0xF4 a &&
  within (if (byte a =? 0xF0)%Z then 0x90 else 0x80) (if (byte a =? 0xF4)%Z then 0x8F else 0xBF) b &&
  continuation c && continuation d.

Definition rune2 (a b : ascii) : Z := Z.lor (Z.shiftl (Z.land (byte a) 0x1F) 6) (low6 b).
Definition rune3 (a b c : ascii) : Z :=
  Z.lor (Z.lor (Z.shiftl (Z.land (byte a) 0x0F) 12) (Z.shiftl (low6 b) 6)) (low6 c).
Definition rune4 (a b c d : ascii) : Z :=
  Z.lor (Z.lor (Z.lor (Z.shiftl (Z.land (byte a) 0x07) 18) (Z.shiftl (low6 b) 12)) (Z.shiftl (low6 c) 6)) (low6 d).

Definition str1 (a : ascii) : string := String a "".
Definition str2 (a b : ascii) : string := String a (str1 b).
Definition str3 (a b c : ascii) : string := String a (str2 b c).
Definition str4 (a b c d : ascii) : string := String a (str3 b c d).

(** The runes of a string, each with its bytes.  A byte that starts no encoding
    is a [RuneError] of its own. *)
Notation rune_at := (Z * string)%type.

Fixpoint runes (s : string) : list rune_at :=
  match s with
  | EmptyString => []
  | String a t =>
      if (byte a <? 0x80)%Z then (byte a, str1 a) :: runes t
      else
        match t with
        | String b t2 =>
            if two a b then (rune2 a b, str2 a b) :: runes t2
            else
              match t2 with
              | String c t3 =>
                  if three a b c then (rune3 a b c, str3 a b c) :: runes t3
                  else
                    match t3 with
                    | String d t4 =>
                        if four a b c d then (rune4 a b c d, str4 a b c d) :: runes t4
                        else (RuneError, str1 a) :: runes t
                    | EmptyString => (RuneError, str1 a) :: runes t
                    end
              | EmptyString => (RuneError, str1 a) :: runes t
              end
        | EmptyString => [(RuneError, str1 a)]
        end
  end.

Definition bytes_of (rs : list rune_at) : string := foldr (fun rb acc => rb.2 +:+ acc) "" rs.

(** [utf8.ValidString] *)
Definition invalid (rb : rune_at) : bool := (rb.1 =? RuneError)%Z && (String.length rb.2 =? 1).
Definition ValidString (s : string) : bool := forallb (fun rb => negb (invalid rb)) (runes s).

(** ** [strings.FieldsFunc] *)

(** [start]: the bytes since [start], when a field is open. *)
Fixpoint fields (f : Z -> bool) (start : option string) (rs : list rune_at) : list string :=
  match rs with
  | [] => option_list start
  | rb :: rs =>
      if f rb.1 then option_list start ++ fields f None rs
      else fields f (Some (default "" start +:+ rb.2)) rs
  end.
Definition FieldsFunc (s : string) (f : Z -> bool) : list string := fields f None (runes s).

(** ** The applications *)

Section Apps.
Context (IsLetter : Z -> bool).

Definition words (contents : string) : list string := FieldsFunc contents (fun r => negb (IsLetter r)).

Definition wc_Map (filename contents : string) : list KeyValue := (fun w => mkKV w "1") <$> words contents.

(** [order]: the keys of the map [m] as Go ranges over them. *)
Definition indexer_Map (order : gset string -> list string) (document value : string) : list KeyValue :=
  (fun w => mkKV w document) <$> order (list_to_set (words value)).
End Apps.

(** [rr] is below 1000 and [ms] below 10,000: the process exits ([None]), or goes
    on after so many milliseconds. *)
Definition maybeCrash (rr ms : Z) : option Z :=
  if (rr <? 330)%Z then None else if (rr <? 660)%Z then Some ms else Some 0%Z.

(** ** Decoding *)

(** A string starts with a rune; a valid one is read the same in front of any
    other string. *)
Definition decodes (rb : rune_at) : Prop :=
  rb.2 <> "" /\ (invalid rb = false -> forall u, runes (rb.2 +:+ u) = rb :: runes u).

Lemma runes_head a t :
  exists rb rest, runes (String a t) = rb :: runes rest /\ String a t = rb.2 +:+ rest /\ decodes rb.
Proof.
  assert (Herr : decodes (RuneError, str1 a)) by done.
  cbn [runes]. destruct (byte a <? 0x80)%Z eqn:Ha.
  { exists (byte a, str1 a), t. split; [done|]. split; [done|]. split; [done|]. intros _ u.
    change (runes (String a u) = (byte a, str1 a) :: runes u). cbn [runes]. by rewrite Ha. }
  destruct t as [|b t2]; [by exists (RuneError, str1 a), ""|]. destruct (two a b) eqn:H2.
  { exists (rune2 a b, str2 a b), t2. split; [done|]. split; [done|]. split; [done|]. intros _ u.
    change (runes (String a (String b u)) = (rune2 a b, str2 a b) :: runes u). cbn [runes]. by rewrite Ha, H2. }
  destruct t2 as [|c t3]; [by exists (RuneError, str1 a), (String b "")|]. destruct (three a b c) eqn:H3.
  { exists (rune3 a b c, str3 a b c), t3. split; [done|]. split; [done|]. split; [done|]. intros _ u.
    change (runes (String a (String b (String c u))) = (rune3 a b c, str3 a b c) :: runes u). cbn [runes].
    by rewrite Ha, H2, H3. }
  destruct t3 as [|d t4]; [by exists (RuneError, str1 a), (String b (String c ""))|]. destruct (four a b c d) eqn:H4.
  { exists (rune4 a b c d, str4 a b c d), t4. split; [done|]. split; [done|]. split; [done|]. intros _ u.
    change (runes (String a (String b (String c (String d u)))) = (rune4 a b c d, str4 a b c d) :: runes u). cbn [runes].
    by rewrite Ha, H2, H3, H4. }
  by exists (RuneError, str1 a), (String b (String c (String d t4))).
Qed.

Lemma runes_ind (P : string -> list rune_at -> Prop) :
  P "" [] -> (forall rb s, decodes rb -> P s (runes s) -> P (rb.2 +:+ s) (rb :: runes s)) -> forall s, P s (runes s).
Proof.
  intros H0 Hs s. remember (String.length s) as n eqn:Hn. revert s Hn.
  induction (lt_wf n) as [n _ IH]. intros [|a t] Hn; [done|].
  destruct (runes_head a t) as (rb & rest & -> & He & Hd). rewrite He. apply Hs; [done|].
  apply (IH (String.length rest)); [|done]. rewrite Hn, He, length_append. destruct Hd as [Hne _].
  destruct rb as [r [|x b]]; [done|]. cbn. lia.
Qed.

Lemma bytes_of_cons rb l : bytes_of (rb :: l) = rb.2 +:+ bytes_of l.
Proof. done. Qed.

(** The bytes of the runes are the string. *)
Lemma bytes_of_runes s : bytes_of (runes s) = s.
Proof. apply (runes_ind (fun s rs => bytes_of rs = s)); [done|]. intros rb t _ IH. by rewrite bytes_of_cons, IH. Qed.

Lemma runes_decode s : Forall decodes (runes s).
Proof. apply (runes_ind (fun s rs => Forall decodes rs)); [constructor|]. intros rb t Hd IH. by constructor. Qed.

Lemma bytes_of_app l1 l2 : bytes_of (l1 ++ l2) = bytes_of l1 +:+ bytes_of l2.
Proof. induction l1 as [|rb l1 IH]; [done|]. cbn [app]. by rewrite !bytes_of_cons, IH, append_assoc. Qed.

(** Valid runes decode to themselves. *)
Lemma runes_bytes_of l : Forall decodes l -> Forall (fun rb => invalid rb = false) l -> runes (bytes_of l) = l.
Proof.
  intros Hd. induction Hd as [|rb l [_ Hd] _ IH]; intros Hi; [done|]. apply Forall_cons in Hi as [Hi Hl].
  by rewrite bytes_of_cons, Hd, IH.
Qed.

(** ** Fields *)

Section Fields.
Context (f : Z -> bool).
Notation sep := (fun rb : rune_at => f rb.1 = true).
Notation lettr := (fun rb : rune_at => f rb.1 = false).

(** Fields and the separators after each. *)
Definition fields_of (l : list (list rune_at * list rune_at)) : list string := (fun wg => bytes_of wg.1) <$> l.
Definition runes_of (l : list (list rune_at * list rune_at)) : list rune_at := concat ((fun wg => wg.1 ++ wg.2) <$> l).

(** Maximal runs: fields are not empty, and separated. *)
Fixpoint separated (l : list (list rune_at * list rune_at)) : Prop :=
  match l with
  | [] => True
  | wg :: l => wg.1 <> [] /\ Forall lettr wg.1 /\ Forall sep wg.2 /\ (l <> [] -> wg.2 <> []) /\ separated l
  end.

Lemma fields_go rs :
  (exists gap l, rs = gap ++ runes_of l /\ Forall sep gap /\ separated l /\ fields f None rs = fields_of l) /\
  (forall W, W <> [] -> Forall lettr W -> exists l, W ++ rs = runes_of l /\ separated l /\ fields f (Some (bytes_of W)) rs = fields_of l).
Proof.
  induction rs as [|rb rs [(gap & l & Hrs & Hgap & Hl & Hf) IHs]].
  - split; [by exists [], []|]. intros W HW Hlet. exists [(W, [])]. unfold runes_of, fields_of. cbn.
    split; [by rewrite !app_nil_r|]. by repeat split.
  - cbn [fields]. destruct (f rb.1) eqn:Hrb; cbn [option_list default app].
    + split; [exists (rb :: gap), l; split_and!; [by rewrite Hrs|by constructor|done|done]|].
      intros W HW Hlet. exists ((W, rb :: gap) :: l). split; [|split].
      * unfold runes_of. cbn [fmap list_fmap concat fst snd]. rewrite Hrs, <-app_assoc. done.
      * cbn [separated fst snd]. split_and!; [done|done|by constructor|done|done].
      * cbn [fields_of fmap list_fmap fst app]. by rewrite Hf.
    + assert (H : forall W, Forall lettr W -> exists l, W ++ rb :: rs = runes_of l /\ separated l /\
        fields f (Some (bytes_of W +:+ rb.2)) rs = fields_of l).
      { intros W HW. destruct (IHs (W ++ [rb])) as (l' & H1 & H2 & H3); [by destruct W|apply Forall_app; auto|].
        exists l'. rewrite <-app_assoc in H1. split; [done|]. split; [done|]. rewrite <-H3, bytes_of_app.
        rewrite bytes_of_cons. change (bytes_of []) with "". by rewrite append_nil_r. }
      split; [|intros W _ HW; by apply H].
      destruct (H [] ltac:(constructor)) as (l' & H1 & H2 & H3). exists [], l'. by split_and!; [|constructor| |].
Qed.

(** [FieldsFunc]: the string's runes are separators and fields, alternating, and
    the result is the bytes of the fields. *)
Lemma FieldsFunc_spec s :
  exists gap l, runes s = gap ++ runes_of l /\ Forall sep gap /\ separated l /\ FieldsFunc s f = fields_of l.
Proof. apply fields_go. Qed.

Lemma separated_field l w : separated l -> w ∈ fields_of l -> exists W, w = bytes_of W /\ W <> [] /\ Forall lettr W /\ W ⊆ runes_of l.
Proof.
  induction l as [|wg l IH]; [by intros _ Hw%not_elem_of_nil|]. intros (Hne & Hlet & _ & _ & Hl).
  unfold fields_of. cbn. rewrite elem_of_cons. intros [->|Hw].
  - exists wg.1. split_and!; [done..|]. unfold runes_of. cbn. set_solver.
  - destruct (IH Hl Hw) as (W & -> & HW & HF & Hsub). exists W. split_and!; [done..|]. unfold runes_of in *. cbn. set_solver.
Qed.

(** A field reads as letters. *)
Lemma FieldsFunc_field s w :
  f RuneError = true -> w ∈ FieldsFunc s f -> w <> "" /\ Forall lettr (runes w) /\ ValidString w = true.
Proof.
  intros Herr Hw. destruct (FieldsFunc_spec s) as (gap & l & Hrs & _ & Hsep & Hf). rewrite Hf in Hw.
  destruct (separated_field l w Hsep Hw) as (W & -> & HW & Hlet & Hsub).
  assert (Hdec : Forall decodes W).
  { apply Forall_forall. intros rb Hin. pose proof (runes_decode s) as Hd. rewrite Forall_forall in Hd. apply Hd.
    rewrite Hrs. apply elem_of_app. right. by apply Hsub. }
  assert (Hval : Forall (fun rb => invalid rb = false) W).
  { eapply Forall_impl; [exact Hlet|]. intros rb Hrb. unfold invalid. destruct (Z.eqb_spec rb.1 RuneError) as [He|]; [|done].
    cbn in Hrb. rewrite He, Herr in Hrb. done. }
  rewrite (runes_bytes_of W) by done. split_and!; [|done|].
  - destruct W as [|[r b] W]; [done|]. apply Forall_cons in Hdec as [[Hb _] _]. cbn in *. by destruct b.
  - unfold ValidString. rewrite runes_bytes_of by done. apply forallb_forall. intros rb Hin%list_elem_of_In.
    rewrite Forall_forall in Hval. by rewrite Hval.
Qed.
End Fields.

(** ** What a job writes *)

Section Job.
Context `{Json} (mapf : string -> string -> list KeyValue) (reducef : string -> list string -> string).

(** One line per key that some map task emitted. *)
Lemma elem_of_group_lines kvs k o :
  (k, o) ∈ lines reducef (map_to_list (group kvs)) <-> values_of k kvs <> [] /\ o = reducef k (values_of k kvs).
Proof.
  rewrite elem_of_lines. split.
  - intros (vs & [-> Hne]%group_elem & ->). done.
  - intros [Hne ->]. exists (values_of k kvs). rewrite group_lookup. by destruct (values_of k kvs).
Qed.

Lemma seq_intermediate_ok fs files contents :
  Forall2 (fun f c => fs !! f = Some c) files contents ->
  seq_intermediate mapf fs files = Ret (concat (zip_with mapf files contents)).
Proof. induction 1 as [|f c files contents Hf _ IH]; [done|]. cbn. by rewrite Hf, IH. Qed.

(** The output of a finished job, line by line. *)
Lemma job_lines files contents n fs0 c0 workers es s kvs :
  PermReduce reducef -> 0 < n -> (forall f, f ∈ files -> other_file n f) ->
  Forall2 (fun f c => fs0 !! f = Some c) files contents -> kvs = concat (zip_with mapf files contents) -> valid_kvs kvs ->
  MakeCoordinator files n = Some c0 -> run (job_exec_x mapf reducef) es (job_init c0 fs0 workers) = Some s ->
  (forall r, r < n -> j_last s !! r = Some Finished) ->
  exists out, (forall r, r < n -> j_fs s !! out_name r = Some (out_file (out r))) /\
    NoDup (concat (out <$> seq 0 n)).*1 /\
    forall k o, (k, o) ∈ concat (out <$> seq 0 n) <-> values_of k kvs <> [] /\ o = reducef k (values_of k kvs).
Proof.
  intros Hperm Hn Hnames Hin -> Hv Hc Hr Hfin.
  destruct (job_run_ok mapf reducef files n fs0 c0 workers es s _ Hn Hnames (seq_intermediate_ok _ _ _ Hin) Hv Hc Hr)
    as (contents' & Heq & Hok).
  set (kvs := concat (zip_with mapf files contents)) in *.
  assert (Hs : StronglySorted key_le (merge_sort key_le kvs)) by (apply Sorted_StronglySorted, Sorted_merge_sort; apply _).
  pose proof (merge_sort_Permutation key_le kvs) as Hp.
  destruct (job_ok_outputs mapf reducef files contents' n fs0 s (merge_sort key_le kvs)) as (out & Hout & Hcat); try done.
  { by rewrite Hp, Heq. }
  assert (Hl : concat (out <$> seq 0 n) ≡ₚ lines reducef (map_to_list (group kvs))).
  { rewrite Hcat, (lines_perm reducef kvs (merge_sort key_le kvs)) by done.
    unfold mrsequential. fold (lines reducef). apply lines_proper. by rewrite seq_groups_group. }
  exists out. split; [done|]. split.
  - rewrite Hl. unfold lines. rewrite <-list_fmap_compose. apply NoDup_fst_map_to_list.
  - intros k o. by rewrite Hl, elem_of_group_lines.
Qed.
End Job.

(** ** wc *)

Section Wc.
Context `{Json} (IsLetter : Z -> bool).
Notation words := (words IsLetter).

Lemma wc_values w filename contents : values_of w (wc_Map IsLetter filename contents) = (fun _ => "1") <$> filter (fun x => x = w) (words contents).
Proof.
  unfold wc_Map. induction (words contents) as [|x l IH]; [done|]. cbn [fmap list_fmap].
  rewrite values_of_cons, filter_cons, IH. cbn. by case_decide.
Qed.

Definition all_words (contents : list string) : list string := concat (words <$> contents).
Definition occurrences (w : string) (l : list string) : nat := length (filter (fun x => x = w) l).

Lemma wc_all_values w files contents :
  length files = length contents ->
  values_of w (concat (zip_with (wc_Map IsLetter) files contents)) = (fun _ => "1") <$> filter (fun x => x = w) (all_words contents).
Proof.
  intros Hlen. apply Forall2_same_length in Hlen. unfold all_words.
  induction Hlen as [|f c files contents _ _ IH]; [done|]. cbn [zip_with fmap list_fmap concat].
  by rewrite values_of_app, IH, wc_values, filter_app, fmap_app.
Qed.

(** Every word is valid UTF-8: JSON keeps it as it is. *)
Lemma wc_valid files contents :
  IsLetter RuneError = false -> (forall s, ValidString s = true -> valid_utf8 s) ->
  valid_kvs (concat (zip_with (wc_Map IsLetter) files contents)).
Proof.
  intros Herr Hutf. unfold valid_kvs. apply Forall_concat. apply Forall_forall. intros kvs Hin.
  apply list_elem_of_lookup in Hin as [i Hi]. apply lookup_zip_with_Some in Hi as (f & c & -> & _ & _).
  apply Forall_forall. intros kv (w & -> & Hw)%list_elem_of_fmap. cbn. split; apply Hutf; [|done].
  apply (FieldsFunc_field (fun r => negb (IsLetter r)) c w); [by rewrite Herr|done].
Qed.

End Wc.

(** ** indexer *)

Section Indexer.
Context `{Json} (IsLetter : Z -> bool) (order : gset string -> list string).
Context (Horder : forall m, order m ≡ₚ elements m).
Notation words := (words IsLetter).

Lemma indexer_values w document contents :
  values_of w (indexer_Map IsLetter order document contents) = if decide (w ∈ words contents) then [document] else [].
Proof using Horder.
  unfold indexer_Map. set (m := list_to_set (words contents) : gset string).
  assert (Hm : w ∈ words contents <-> w ∈ order m).
  { rewrite Horder, elem_of_elements. unfold m. by rewrite elem_of_list_to_set. }
  assert (Hnd : NoDup (order m)) by (rewrite Horder; apply NoDup_elements).
  rewrite (decide_ext _ _ _ _ Hm). clear Hm. induction Hnd as [|x l Hx Hnd IH]; [done|].
  cbn [fmap list_fmap]. rewrite values_of_cons, IH. cbn. destruct (decide (x = w)) as [->|Hne].
  - rewrite decide_False by done. by rewrite decide_True by by left.
  - cbn. apply decide_ext. rewrite elem_of_cons. naive_solver.
Qed.

(** The documents a word is in, with repetitions if a document is given twice. *)
Definition documents (w : string) (files contents : list string) : list string :=
  fst <$> filter (fun dc : string * string => w ∈ words dc.2) (zip files contents).

Lemma indexer_all_values w files contents :
  values_of w (concat (zip_with (indexer_Map IsLetter order) files contents)) = documents w files contents.
Proof using Horder.
  unfold documents. revert contents. induction files as [|f files IH]; intros [|c contents]; try done.
  cbn [zip_with concat zip]. rewrite values_of_app, IH, indexer_values, filter_cons. cbn [snd]. by case_decide.
Qed.

Lemma indexer_valid files contents :
  IsLetter RuneError = false -> (forall s, ValidString s = true -> valid_utf8 s) -> Forall valid_utf8 files ->
  valid_kvs (concat (zip_with (indexer_Map IsLetter order) files contents)).
Proof using Horder.
  intros Herr Hutf Hfiles. unfold valid_kvs. apply Forall_concat. apply Forall_forall. intros kvs Hin.
  apply list_elem_of_lookup in Hin as [i Hi]. apply lookup_zip_with_Some in Hi as (f & c & -> & Hf & _).
  apply Forall_forall. intros kv (w & -> & Hw)%list_elem_of_fmap. cbn.
  rewrite Horder, elem_of_elements, elem_of_list_to_set in Hw. split; [|by eapply Forall_lookup_1 in Hf].
  apply Hutf. apply (FieldsFunc_field (fun r => negb (IsLetter r)) c w); [by rewrite Herr|done].
Qed.

(** the index.  When a distributed job with [indexer.go] has finished every
    reduce task, the output files together have one line for each word of the
    inputs: the number of documents it is in, and their names, sorted.  The order
    in which the application ranges over its map of words does not show. *)
Theorem indexer_job_lists files contents n fs0 c0 workers es s :
  IsLetter RuneError = false -> (forall s, ValidString s = true -> valid_utf8 s) -> Forall valid_utf8 files ->
  0 < n -> (forall f, f ∈ files -> other_file n f) -> Forall2 (fun f c => fs0 !! f = Some c) files contents ->
  MakeCoordinator files n = Some c0 ->
  run (job_exec_x (indexer_Map IsLetter order) indexer_Reduce) es (job_init c0 fs0 workers) = Some s ->
  (forall r, r < n -> j_last s !! r = Some Finished) ->
  exists out, (forall r, r < n -> j_fs s !! out_name r = Some (out_file (out r))) /\
    NoDup (concat (out <$> seq 0 n)).*1 /\
    forall w o, (w, o) ∈ concat (out <$> seq 0 n) <->
      let docs := documents w files contents in
      docs <> [] /\ o = itoa (length docs) +:+ " " +:+ String.concat "," (sort_strings docs).
Proof using Horder.
  intros Herr Hutf Hfiles Hn Hnames Hin Hc Hr Hfin.
  destruct (job_lines (indexer_Map IsLetter order) indexer_Reduce files contents n fs0 c0 workers es s _ _ Hn Hnames Hin
    eq_refl (indexer_valid _ _ Herr Hutf Hfiles) Hc Hr Hfin) as (out & Hout & Hnd & Hl).
  exists out. split; [done|]. split; [done|]. intros w o. by rewrite Hl, indexer_all_values.
Qed.
End Indexer.

(** A run may range over the map in another order at every call: no file, and
    so no step of [MrJob], depends on it. *)
Lemma indexer_order_irrelevant `{Json} create_ok write_ok IsLetter o1 o2 document contents tid n rnd order fs :
  (forall m, o1 m ≡ₚ elements m) -> (forall m, o2 m ≡ₚ elements m) -> 0 < n ->
  doMap create_ok write_ok (indexer_Map IsLetter o1) document contents tid n rnd order fs =
  doMap create_ok write_ok (indexer_Map IsLetter o2) document contents tid n rnd order fs.
Proof.
  intros H1 H2 Hn. unfold doMap. rewrite !sort_results_spec by done.
  assert (Hg : group (indexer_Map IsLetter o1 document contents) = group (indexer_Map IsLetter o2 document contents)).
  { apply map_eq. intros k. by rewrite !group_lookup, (indexer_values IsLetter o1 H1), (indexer_values IsLetter o2 H2). }
  unfold bucket. by rewrite Hg.
Qed.

(** ** The worker's loop *)

(** What becomes of an RPC: the coordinator's socket does not answer, the call
    fails after that, or a reply comes back. *)
Inductive rpc (A : Type) := DialFails | CallFails | Replies (a : A).
Arguments DialFails {A}.
Arguments CallFails {A}.
Arguments Replies {A}.

Definition call {A} (r : rpc A) : outcome (option A) :=
  match r with
  | DialFails => Fatal "dialing:"
  | CallFails => Ret None
  | Replies a => Ret (Some a)
  end.

(** A reply or an error. *)
Definition CallReqTask (r : rpc ReqTaskReply) : outcome (ReqTaskReply + string) :=
  ok ← call r; Ret (match ok with Some reply => inl reply | None => inr "failed to call ReqTask on coordinator" end).
Definition CallCompleteTask (r : rpc unit) : outcome (unit + string) :=
  ok ← call r; Ret (match ok with Some reply => inl reply | None => inr "failed to call CompleteTask on coordinator" end).

Section Loop.
Context `{Json} (mapf : string -> string -> list KeyValue) (reducef : string -> list string -> string).

(** One turn of the loop: the fate of its two RPCs, what other processes have
    done to the files since the last turn, and the arguments of the task. *)
Record turn := mkTurn {
  tu_req : rpc ReqTaskReply; tu_others : fs_t -> fs_t; tu_ack : rpc unit;
  tu_create : string -> bool; tu_write : string -> bool; tu_rnd : nat -> string;
  tu_map_order : list nat; tu_red_order : contents_t -> list (string * list string) }.

(** The files, the acks the coordinator has got, and whether [Worker] returned. *)
Record wloop := mkLoop { wl_fs : fs_t; wl_acks : list CompleteTaskArgs; wl_returned : bool }.

Definition Worker_turn (t : turn) (w : wloop) : outcome wloop :=
  req ← CallReqTask (tu_req t);
  match req with
  | inr _ => Ret (mkLoop (wl_fs w) (wl_acks w) true)
  | inl task =>
      r ← worker_task (tu_create t) (tu_write t) mapf reducef (tu_rnd t) (tu_map_order t) (tu_red_order t) task
            (tu_others t (wl_fs w));
      match r with
      | (fs, None) => Ret (mkLoop fs (wl_acks w) false)
      | (fs, Some args) =>
          ack ← CallCompleteTask (tu_ack t);
          match ack with
          | inr _ => Ret (mkLoop fs (wl_acks w) true)
          | inl _ => Ret (mkLoop fs (wl_acks w ++ [args]) false)
          end
      end
  end.

(** The loop, for as many turns as are given. *)
Fixpoint Worker (turns : list turn) (w : wloop) : outcome wloop :=
  match turns with
  | [] => Ret w
  | t :: turns => w ← Worker_turn t w; if wl_returned w then Ret w else Worker turns w
  end.

(** The coordinator answers every call of the turn. *)
Definition answered (t : turn) : Prop := (exists p, tu_req t = Replies p /\ (p_Type p = TaskTypeMap -> 0 < p_NReduce p)) /\ tu_ack t = Replies tt.
(** Nobody listens on the coordinator's socket any more. *)
Definition coordinator_gone (t : turn) : Prop := tu_req t = DialFails /\ tu_ack t = DialFails.

Lemma worker_task_ret create_ok write_ok rnd mo ro p fs :
  (p_Type p = TaskTypeMap -> 0 < p_NReduce p) -> exists r, worker_task create_ok write_ok mapf reducef rnd mo ro p fs = Ret r.
Proof.
  intros Hn. unfold worker_task. destruct (Z.eqb_spec (p_Type p) TaskTypeMap) as [Hp|_].
  - specialize (Hn Hp). destruct (fs !! _); [|by eexists]. unfold doMap. destruct (create_files _ _ _) as [fs1 []]; cbn [mbind outcome_bind]; [|by eexists].
    rewrite sort_results_spec by done. cbn [mbind outcome_bind]. destruct (write_buckets _ _ _ _ _) as [fs2 []]; by eexists.
  - destruct (_ =? TaskTypeReduce)%Z; [|by eexists]. destruct (doReduce _ _ _ _ _ _) as [fs1 []]; by eexists.
Qed.

(** While the coordinator answers, the worker goes on, whatever fails in its
    tasks. *)
Lemma Worker_goes_on turns w :
  wl_returned w = false -> Forall answered turns -> exists w', Worker turns w = Ret w' /\ wl_returned w' = false.
Proof.
  intros Hw Hall. revert w Hw. induction Hall as [|t turns [(p & Hreq & Hn) Hack] _ IH]; intros w Hw; [by exists w|].
  cbn [Worker]. unfold Worker_turn. rewrite Hreq, Hack. cbn [CallReqTask call mbind outcome_bind].
  destruct (worker_task_ret (tu_create t) (tu_write t) (tu_rnd t) (tu_map_order t) (tu_red_order t) p (tu_others t (wl_fs w)) Hn)
    as [[fs [args|]] ->]; cbn [CallCompleteTask call mbind outcome_bind wl_returned]; by apply IH.
Qed.

Lemma Worker_app turns1 turns2 w w' :
  Worker turns1 w = Ret w' -> wl_returned w' = false -> Worker (turns1 ++ turns2) w = Worker turns2 w'.
Proof.
  revert w. induction turns1 as [|t turns1 IH]; intros w; cbn; [by intros [= ->]|].
  destruct (Worker_turn t w) as [w1| |]; cbn [mbind outcome_bind]; try done.
  destruct (wl_returned w1) eqn:E; [intros [= ->]; by rewrite E|]. by apply IH.
Qed.

(** how a worker ends: it goes on as long as the coordinator answers.  Failed tasks do not stop it.  When the coordinator
    has exited, the next call cannot dial and the process is killed by
    [log.Fatal]: the loop's "assume the coordinator is done" and the [false] that
    [call] documents are only for a coordinator that exits during a call. *)
Theorem Worker_ends turns t rest w :
  wl_returned w = false -> Forall answered turns ->
  (coordinator_gone t -> Worker (turns ++ t :: rest) w = Fatal "dialing:") /\
  (tu_req t = CallFails -> exists w', Worker (turns ++ t :: rest) w = Ret w' /\ wl_returned w' = true).
Proof.
  intros Hw Hall. destruct (Worker_goes_on turns w Hw Hall) as (w1 & H1 & Hr1).
  rewrite (Worker_app turns (t :: rest) w w1) by done. cbn [Worker]. unfold Worker_turn. split.
  - intros [-> _]. done.
  - intros ->. eexists. split; [done|]. done.
Qed.
End Loop.

(** ** crash.go *)

(** The applications of [crash.go] when the process survives, and how long it
    sleeps first. *)
Definition crash_go_Map (rr ms : Z) (filename contents : string) : option (Z * list KeyValue) :=
  ms ← maybeCrash rr ms; Some (ms, crash_Map filename contents).
Definition crash_go_Reduce (rr ms : Z) (key : string) (values : list string) : option (Z * string) :=
  ms ← maybeCrash rr ms; Some (ms, crash_Reduce key values).

(** A worker that does not exit computes what [nocrash.go] does, late by less
    than the coordinator's timeout. *)
Lemma crash_go_delays rr ms key values d v :
  (0 <= ms < 10 * 1000)%Z -> crash_go_Reduce rr ms key values = Some (d, v) ->
  v = crash_Reduce key values /\ (0 <= d < 10 * 1000)%Z /\ (330 <= rr)%Z.
Proof.
  intros Hms. unfold crash_go_Reduce, maybeCrash. destruct (Z.ltb_spec rr 330); [done|].
  destruct (rr <? 660)%Z; cbn; intros [= <- <-]; (split; [done|]; lia).
Qed.

(** ** Witnesses *)

#[local] Existing Instance bit_json.

(** [unicode.IsLetter] on ASCII. *)
Definition ascii_letter (r : Z) : bool := ((65 <=? r) && (r <=? 90) || (97 <=? r) && (r <=? 122))%Z.

Example runes_mixed : (fun rb => rb.1) <$> runes ("a" +:+ String "195" (String "169" (String "255" "b"))) = [97; 233; RuneError; 98]%Z.
Proof. reflexivity. Qed.
Example words_ascii : words ascii_letter "it's a dog; a  dog" = ["it"; "s"; "a"; "dog"; "a"; "dog"].
Proof. reflexivity. Qed.

Definition text_fs : fs_t := <["in-0" := "a dog, a cat"]> (<["in-1" := "the dog"]> ∅).
Definition text_files : list string := ["in-0"; "in-1"].
Definition texts : list string := ["a dog, a cat"; "the dog"].

(** Worker 0 dies with its map task, which worker 1 then gets. *)
Definition text_job (order : list (string * list string)) : list job_event :=
  [JRecv; JReq (Some 0) 0; JCrash 0; JRecv; JReq (Some 1) 0; JMap 1 all_ok all_ok demo_rnd [0]; JAck 1;
   JTimer 0; JRecv; JReq (Some 1) 0; JMap 1 all_ok all_ok demo_rnd [0]; JAck 1; JMain; JMain; JMain; JMain; JMain;
   JRecv; JReq (Some 1) 0; JReduce 1 true order] ++ ((fun _ => JWrite 1) <$> order) ++ [JClose 1; JAck 1; JMain; JMain].

Definition wc_order : list (string * list string) := map_to_list (group (concat (zip_with (wc_Map ascii_letter) text_files texts))).
Definition indexer_order : list (string * list string) :=
  map_to_list (group (concat (zip_with (indexer_Map ascii_letter elements) text_files texts))).

Lemma text_names f : f ∈ text_files -> other_file 1 f.
Proof.
  unfold text_files. rewrite !elem_of_cons. unfold other_file, generateUniqueIntermediateFilename, out_name.
  by intros [-> | [-> | Hf%elem_of_nil]].
Qed.

Lemma text_inputs : Forall2 (fun f c => text_fs !! f = Some c) text_files texts.
Proof. by repeat constructor. Qed.


Lemma indexer_job_lists_witness :
  exists c s, MakeCoordinator text_files 1 = Some c /\
  run (job_exec_x (indexer_Map ascii_letter elements) indexer_Reduce) (text_job indexer_order) (job_init c text_fs 2) = Some s /\
  exists out, (forall r, r < 1 -> j_fs s !! out_name r = Some (out_file (out r))) /\
    NoDup (concat (out <$> seq 0 1)).*1 /\
    forall w o, (w, o) ∈ concat (out <$> seq 0 1) <->
      let docs := documents ascii_letter w text_files texts in
      docs <> [] /\ o = itoa (length docs) +:+ " " +:+ String.concat "," (sort_strings docs).
Proof.
  destruct (demo_end_run (indexer_Map ascii_letter elements) indexer_Reduce 1 text_files text_fs (text_job indexer_order))
    as (c & s & Hc & Hs & _ & Hf); [by vm_compute|].
  exists c, s. split; [exact Hc|]. split; [exact Hs|].
  apply (indexer_job_lists ascii_letter elements (fun m => reflexivity _) text_files texts 1 text_fs c 2 (text_job indexer_order) s).
  - reflexivity.
  - intros x _. exact I.
  - by repeat constructor.
  - lia.
  - exact text_names.
  - exact text_inputs.
  - exact Hc.
  - exact Hs.
  - exact Hf.
Defined.

Definition demo_turn (req : rpc ReqTaskReply) (ack : rpc unit) : turn :=
  mkTurn req id ack all_ok all_ok demo_rnd [0] map_to_list.
Definition demo_w : wloop := mkLoop text_fs [] false.

Lemma Worker_ends_witness :
  Worker (wc_Map ascii_letter) wc_Reduce
    [demo_turn (Replies (mkReply TaskTypeMap 0 "in-0" 1 [])) (Replies tt); demo_turn DialFails DialFails] demo_w = Fatal "dialing:".
Proof.
  refine (proj1 (Worker_ends (wc_Map ascii_letter) wc_Reduce
    [demo_turn (Replies (mkReply TaskTypeMap 0 "in-0" 1 [])) (Replies tt)] (demo_turn DialFails DialFails) [] demo_w eq_refl _) _).
  - apply Forall_singleton. split; [|reflexivity]. eexists. split; [reflexivity|]. intros _. cbn. lia.
  - by split.
Defined.
End MrApps.
