(* ===== verification/TestRun.v ===== *)
(** * TestRun: servers killed and restarted by the Raft and RSM testers

    [src/src/raft1/test.go], [raft1/proxy.go] and [src/src/kvraft1/rsm/test.go]:
    the tester keeps, for each server, a proxy that sends RPCs to the server's
    daemon.  A daemon that is killed is not the daemon that is started in its
    place: [gens] numbers them, and a proxy is to one daemon.  The groups are
    [Config]'s and [Tester]'s; the checks whose input is made here are
    [RaftTest]'s and [Rsm]'s. *)

From S2P Require Import Prelude LabRpc Tester Config Rsm RaftTest.
From stdpp Require Import base gmap list strings.
From Stdlib Require Import ZArith Lia.
From stdpp Require Import list.

Module TestRun.
Import LabRpc Tester Config.

#[local] Arguments connect : simpl never.
#[local] Arguments disconnect : simpl never.
#[local] Arguments bool_decide _ {_} : simpl never.

(** ** Daemons and proxies *)

(** [daemons]: how many daemons server [i] has had. *)
Record procs := mkProcs { grp : state; gens : list nat }.

Definition running (p : procs) (i : nat) : bool := match srvs (grp p).2 !! i with Some s => bool_decide (is_Some (dc s)) | None => false end.
Definition gen (p : procs) (i : nat) : nat := default 0 (gens p !! i).

(** [ServerGrp.DaemonClnt]: the daemon's number, or nil. *)
Definition DaemonClnt (p : procs) (i : nat) : option nat := if running p i then Some (gen p i) else None.

(** [ServerGrp.StartSrvs] starts a new daemon for each server of the list. *)
Definition StartSrvs (starts : nat -> list string * nat) (l : list nat) (p : procs) : outcome procs :=
  st ← Config.StartSrvs starts l (grp p); Ret (mkProcs st (foldr (alter S) (gens p) l)).
Definition on_grp (f : state -> outcome state) (p : procs) : outcome procs := st ← f (grp p); Ret (mkProcs st (gens p)).

(** [dc.Call]: whether the RPC gets to a daemon that runs; a proxy made from a
    nil client has nothing to call. *)
Definition dc_Call (p : procs) (i : nat) (d : option nat) : outcome bool :=
  match d with
  | Some g => Ret (running p i && (g =? gen p i))
  | None => Panic "nil pointer dereference"
  end.

(** ** raft1/test.go *)

(** The tester and its proxies: [None] is a nil [rfsrv], for a server that was
    killed. *)
Record rtest := mkRT { rt_procs : procs; rt_rfsrv : list (option (option nat)) }.

Definition newRfproxy (d : option nat) : option nat := d.

Definition mksrv (i : nat) (t : rtest) : rtest :=
  mkRT (rt_procs t) (<[i := Some (newRfproxy (DaemonClnt (rt_procs t) i))]> (rt_rfsrv t)).

Definition GRP0 : Z := 0.

(** [names] and [starts]: the ends the group is made and started with. *)
Definition makeTest (names : list (list string)) (starts : nat -> list string * nat) (net : Network) : outcome rtest :=
  ng ← MakeGroupStart GRP0 names starts (net, ∅);
  match ng.2 !! GRP0 with
  | Some sg =>
      let n := length names in
      Ret (foldl (fun t i => mksrv i t) (mkRT (mkProcs (ng.1, sg) (replicate n 1)) (replicate n None)) (seq 0 n))
  | None => Panic "nil pointer dereference"
  end.

Definition kill (l : list nat) (t : rtest) : outcome rtest :=
  p ← on_grp (Kill l) (rt_procs t); Ret (mkRT p (foldl (fun r i => <[i := None]> r) (rt_rfsrv t) l)).

(** The loop of [restart] for one server. *)
Definition restart_one (t : rtest) (i : nat) : outcome rtest :=
  let t := mksrv i t in p ← on_grp (ConnectOne i) (rt_procs t); Ret (mkRT p (rt_rfsrv t)).
Definition restart (starts : nat -> list string * nat) (l : list nat) (t : rtest) : outcome rtest :=
  p ← StartSrvs starts l (rt_procs t); foldo restart_one (mkRT p (rt_rfsrv t)) l.

(** What a test does to its servers. *)
Inductive op :=
  | OKill (l : list nat)
  | ORestart (starts : nat -> list string * nat) (l : list nat)
  | ODisconnectAll (i : nat)
  | OConnectOne (i : nat).

Definition rt_exec (t : rtest) (o : op) : outcome rtest :=
  match o with
  | OKill l => kill l t
  | ORestart starts l => restart starts l t
  | ODisconnectAll i => p ← on_grp (DisconnectAll i) (rt_procs t); Ret (mkRT p (rt_rfsrv t))
  | OConnectOne i => p ← on_grp (ConnectOne i) (rt_procs t); Ret (mkRT p (rt_rfsrv t))
  end.

(** [ts.srvs[i].rfsrv.GetState()]: [reply] is what the daemon answers; an RPC
    that fails leaves the reply zero. *)
Definition GetState (t : rtest) (i : nat) (reply : Z * bool) : outcome (Z * bool) :=
  d ← idx (rt_rfsrv t) i;
  match d with
  | None => Panic "nil pointer dereference"
  | Some d => ok ← dc_Call (rt_procs t) i d; Ret (if ok : bool then reply else (0%Z, false))
  end.

(** The loop that [checkOneLeader], [checkTerms] and [checkNoLeader] share: every
    connected server is asked. *)
Definition ask (t : rtest) (reply : nat -> Z * bool) (i : nat) : outcome (option (Z * bool)) :=
  b ← IsConnected (grp (rt_procs t)).2 i;
  if b : bool then r ← GetState t i (reply i); Ret (Some r) else Ret None.
Definition ask_all (t : rtest) (reply : nat -> Z * bool) (n : nat) : outcome (list (option (Z * bool))) :=
  mapM (ask t reply) (seq 0 n).

(** *** wait *)

(** One iteration: what the tester has been told at its poll, and the answers to
    [GetState]. *)
Notation poll V := (RaftTest.test V * (nat -> Z * bool))%type.

(** Some server's term is beyond [startTerm]. *)
Fixpoint moved_on (t : rtest) (reply : nat -> Z * bool) (startTerm : Z) (l : list nat) : outcome bool :=
  match l with
  | [] => Ret false
  | i :: l => r ← GetState t i (reply i); if (startTerm <? r.1)%Z then Ret true else moved_on t reply startTerm l
  end.

(** The loop, with the milliseconds slept: [Some]: returned -1. *)
Fixpoint wait_loop {V} `{!RaftTest.Command V} (t : rtest) (polls : list (poll V)) (index : Z) (n : nat) (startTerm : Z)
    (to slept : Z) : outcome (bool * Z) :=
  match polls with
  | [] => Ret (false, slept)
  | (ts, reply) :: polls =>
      nd ← RaftTest.nCommitted ts index;
      if n <=? nd.1 then Ret (false, slept)
      else
        let slept := (slept + to)%Z in
        let to := (if decide (to < 1000) then to * 2 else to)%Z in
        m ← (if (-1 <? startTerm)%Z then moved_on t reply startTerm (seq 0 (length (rt_rfsrv t))) else Ret false);
        if m : bool then Ret (true, slept) else wait_loop t polls index n startTerm to slept
  end.

(** [wait]'s result: -1 because a server has moved on, or the command. *)
Inductive waited (V : Type) := MovedOn | Command (cmd : option V).
Arguments MovedOn {V}.
Arguments Command {V}.

Definition wait {V} `{!RaftTest.Command V} (t : rtest) (polls : list (poll V)) (last : RaftTest.test V) (index : Z) (n : nat)
    (startTerm : Z) : outcome (waited V * Z) :=
  r ← wait_loop t (take 30 polls) index n startTerm 10 0;
  if r.1 : bool then Ret (MovedOn, r.2)
  else
    nd ← RaftTest.nCommitted last index;
    if nd.1 <? n then Fatal "servers decided for index; wanted more" else Ret (Command nd.2, r.2).

(** ** kvraft1/rsm/test.go *)

(** The RSM's proxies are never nil: [kill] keeps them. *)
Record rsm_test := mkRsmT { rsm_procs : procs; rsm_srvs : list (option nat); rsm_leader : nat }.

Definition rsm_mksrv (i : nat) (t : rsm_test) : rsm_test :=
  mkRsmT (rsm_procs t) (<[i := DaemonClnt (rsm_procs t) i]> (rsm_srvs t)) (rsm_leader t).
Definition rsm_kill (l : list nat) (t : rsm_test) : outcome rsm_test :=
  p ← on_grp (Kill l) (rsm_procs t); Ret (mkRsmT p (rsm_srvs t) (rsm_leader t)).
Definition rsm_restart (starts : nat -> list string * nat) (l : list nat) (t : rsm_test) : outcome rsm_test :=
  p ← StartSrvs starts l (rsm_procs t);
  p ← on_grp ConnectAll p;
  Ret (foldl (fun t i => rsm_mksrv i t) (mkRsmT p (rsm_srvs t) (rsm_leader t)) l).
Definition disconnectLeader (t : rsm_test) : outcome (rsm_test * nat) :=
  p ← on_grp (DisconnectAll (rsm_leader t)) (rsm_procs t); Ret (mkRsmT p (rsm_srvs t) (rsm_leader t), rsm_leader t).
Definition rsm_connect (i : nat) (t : rsm_test) : outcome rsm_test :=
  p ← on_grp (ConnectOne i) (rsm_procs t); Ret (mkRsmT p (rsm_srvs t) (rsm_leader t)).
Definition getLeader (t : rsm_test) : nat := rsm_leader t.

(** [RSMproxy.GetCounter]: zero when the RPC fails. *)
Definition rsm_GetCounter (t : rsm_test) (i : nat) (reply : Z) : outcome Z :=
  d ← idx (rsm_srvs t) i; ok ← dc_Call (rsm_procs t) i d; Ret (if ok : bool then reply else 0%Z).

(** ** Groups whose servers are killed and started *)

Record procs_ok (n : nat) (p : procs) : Prop := {
  po_wf : grp_wf (grp p).2;
  po_N : N (grp p).2 = n;
  po_gens : length (gens p) = n;
  po_names a b e : name (grp p).2 a b = Some e -> e ∈ ends (grp p).1 }.

Lemma all_N n sg i : N sg = n -> i ∈ all sg <-> i < n.
Proof. intros <-. unfold all. rewrite elem_of_seq. lia. Qed.

Lemma shutdown_twice s : shutdownServer (shutdownServer s) = shutdownServer s.
Proof. unfold shutdownServer. by destruct (dc s) eqn:E; cbn; rewrite ?E. Qed.

Lemma endNames_shutdown s : endNames (shutdownServer s) = endNames s.
Proof. unfold shutdownServer. by destruct (dc s). Qed.

Lemma Kill_full l net sg :
  grp_wf sg -> (forall i, i ∈ l -> i < N sg) ->
  exists net' sg', Kill l (net, sg) = Ret (net', sg') /\ grp_wf sg' /\ N sg' = N sg /\ ends net' = ends net /\
    (forall a b, name sg' a b = name sg a b) /\
    (forall i, conn sg' i = if decide (i ∈ l) then false else conn sg i) /\
    (forall i, srvs sg' !! i = if decide (i ∈ l) then shutdownServer <$> srvs sg !! i else srvs sg !! i).
Proof.
  revert net sg. induction l as [|i l IH]; intros net sg Hwf Hl.
  { exists net, sg. split_and!; try done; intros j; by rewrite decide_False by set_solver. }
  assert (Hi : i < N sg) by (apply Hl; by left). destruct (lookup_lt_is_Some_2 (srvs sg) i Hi) as [s Hs].
  destruct (ShutdownServer_spec i net sg s Hwf Hs) as (n1 & E1 & He1 & _).
  set (sg1 := set_srvs (set_connected sg i false) (<[i := shutdownServer s]> (srvs sg))) in *.
  assert (Hn1 : forall a b, name sg1 a b = name sg a b).
  { intros a b. unfold sg1, set_srvs. change (gid (set_connected sg i false)) with (gid sg). rewrite name_upd by done.
    case_decide; [subst|done]. rewrite endNames_shutdown. unfold name. by rewrite Hs. }
  assert (HN1 : N sg1 = N sg) by (unfold N; cbn; by rewrite length_insert).
  assert (Hwf1 : grp_wf sg1).
  { destruct Hwf as [H1 H2 H3]. split.
    - cbn. rewrite !length_insert. exact H1.
    - intros a b. rewrite HN1, Hn1. apply H2.
    - intros a b a' b' e. rewrite !Hn1. apply H3. }
  destruct (IH (DeleteServer (ServerName (gid sg) i) n1) sg1 Hwf1) as (n2 & sg2 & E2 & Hwf2 & HN2 & He2 & Hn2 & Hc2 & Hs2).
  { intros j Hj. rewrite HN1. apply Hl. by right. }
  exists n2, sg2. split; [unfold Kill in *; cbn [foldo]; by rewrite E1|]. split; [done|]. split; [congruence|].
  split; [by rewrite He2|]. split; [intros a b; by rewrite Hn2|]. split; intros j.
  - rewrite Hc2. unfold conn at 1. cbn. destruct (decide (j = i)) as [->|Hji].
    + rewrite (decide_True (P := i ∈ i :: l)) by by left. case_decide; [done|]. rewrite list_lookup_insert_eq; [done|].
      by rewrite (wf_conn sg Hwf).
    + rewrite list_lookup_insert_ne by done. apply decide_ext. rewrite elem_of_cons. naive_solver.
  - rewrite Hs2. cbn. destruct (decide (j = i)) as [->|Hji].
    + rewrite (decide_True (P := i ∈ i :: l)), list_lookup_insert_eq, Hs by (by left || done). cbn. case_decide; [by rewrite shutdown_twice|done].
    + rewrite list_lookup_insert_ne by done. apply decide_ext. rewrite elem_of_cons. naive_solver.
Qed.

(** The names a restart supplies: a full set for each server, none in use. *)
Record starts_ok (starts : nat -> list string * nat) (l : list nat) (n : nat) (net : Network) : Prop := {
  st_nodup : NoDup l;
  st_range i : i ∈ l -> i < n;
  st_len i : i ∈ l -> length (starts i).1 = n;
  st_names : NoDup (start_names starts l);
  st_fresh e : e ∈ start_names starts l -> e ∉ ends net }.

Lemma elem_of_start_names starts l e : e ∈ start_names starts l <-> exists i, i ∈ l /\ e ∈ (starts i).1.
Proof.
  unfold start_names. rewrite list_elem_of_join. split.
  - intros (x & He & (i & -> & Hi)%list_elem_of_fmap). by exists i.
  - intros (i & Hi & He). exists (starts i).1. split; [done|]. apply list_elem_of_fmap. by exists i.
Qed.

Lemma start_names_inj starts l i j b b' e :
  NoDup (start_names starts l) -> i ∈ l -> j ∈ l -> (starts i).1 !! b = Some e -> (starts j).1 !! b' = Some e -> i = j /\ b = b'.
Proof.
  induction l as [|x l IH]; [by intros _ H%not_elem_of_nil|]. unfold start_names. cbn. fold (start_names starts l).
  intros (H1 & Hd & H2)%NoDup_app Hi Hj Hb Hb'. apply elem_of_cons in Hi, Hj.
  pose proof (list_elem_of_lookup_2 _ _ _ Hb) as Hin. pose proof (list_elem_of_lookup_2 _ _ _ Hb') as Hin'.
  destruct Hi as [-> |Hi], Hj as [-> |Hj].
  - split; [done|]. exact (NoDup_lookup _ _ _ _ H1 Hb Hb').
  - destruct (Hd e Hin). apply elem_of_start_names. by exists j.
  - destruct (Hd e Hin'). apply elem_of_start_names. by exists i.
  - by apply IH.
Qed.

Lemma gens_alter l (g : list nat) i :
  NoDup l -> foldr (alter S) g l !! i = if decide (i ∈ l) then S <$> g !! i else g !! i.
Proof.
  induction 1 as [|x l Hx _ IH]; [by rewrite decide_False by set_solver|]. cbn. destruct (decide (i = x)) as [->|Hne].
  - rewrite list_lookup_alter_eq, IH, decide_False by done. by rewrite decide_True by by left.
  - rewrite list_lookup_alter_ne, IH by done. apply decide_ext. rewrite elem_of_cons. naive_solver.
Qed.

Lemma length_gens l (g : list nat) : length (foldr (alter S) g l) = length g.
Proof. induction l as [|x l IH]; [done|]. cbn. by rewrite length_alter. Qed.

Lemma StartSrvs_ok starts l n p :
  procs_ok n p -> starts_ok starts l n (grp p).1 ->
  exists p', StartSrvs starts l p = Ret p' /\ procs_ok n p' /\ (forall i, conn (grp p').2 i = conn (grp p).2 i) /\
    (forall i, i < n -> running p' i = if decide (i ∈ l) then true else running p i) /\
    (forall i, i < n -> gen p' i = if decide (i ∈ l) then S (gen p i) else gen p i).
Proof.
  intros [Hwf HN Hg Hnm] [Hnd Hr Hlen Hnames Hfresh]. destruct p as [[net sg] g]. cbn [grp gens fst snd] in *.
  destruct (StartSrvs_spec starts l net sg Hnd) as (net' & sg' & E & _ & Hc & Hs & He & _ & _); [intros i Hi; rewrite HN; auto|done..|].
  exists (mkProcs (net', sg') (foldr (alter S) g l)). split; [unfold StartSrvs; cbn [grp]; by rewrite E|].
  assert (HN' : N sg' = N sg).
  { unfold N. apply Nat.le_antisymm; apply Nat.nlt_ge; intros Hlt; apply lookup_lt_is_Some_2 in Hlt as [s Hs'].
    - rewrite Hs in Hs'. assert (Hx : srvs sg !! length (srvs sg) = None) by by apply lookup_ge_None_2. rewrite Hx in Hs'. by case_decide.
    - assert (Hx : srvs sg' !! length (srvs sg') = None) by by apply lookup_ge_None_2. rewrite Hs, Hs' in Hx. by case_decide. }
  assert (Hn' : forall a b, a < n -> name sg' a b = if decide (a ∈ l) then (starts a).1 !! b else name sg a b).
  { intros a b Ha. unfold name. rewrite Hs. destruct (lookup_lt_is_Some_2 (srvs sg) a) as [s Hs0]; [fold (N sg); lia|].
    rewrite Hs0. by case_decide. }
  assert (Hdom : forall a b e, name sg' a b = Some e -> a < n).
  { intros a b e H. unfold name in H. destruct (srvs sg' !! a) eqn:Ha; [|done]. apply lookup_lt_Some in Ha. fold (N sg') in Ha. lia. }
  split; [split; cbn [grp gens fst snd]|split; [|split]].
  - split.
    + by rewrite Hc, HN', (wf_conn sg Hwf).
    + intros a b. rewrite HN', HN. intros Ha Hb. rewrite Hn' by done. case_decide; [|apply (wf_name sg Hwf); lia].
      apply lookup_lt_is_Some_2. rewrite Hlen; auto.
    + intros a b a' b' e H1 H2. pose proof (Hdom _ _ _ H1) as Ha. pose proof (Hdom _ _ _ H2) as Ha'.
      rewrite Hn' in H1, H2 by done. repeat case_decide.
      * by apply (start_names_inj starts l a a' b b' e).
      * exfalso. apply (Hfresh e); [|exact (Hnm _ _ _ H1)]. apply elem_of_start_names. exists a'. split; [done|]. exact (list_elem_of_lookup_2 _ _ _ H2).
      * exfalso. apply (Hfresh e); [|exact (Hnm _ _ _ H2)]. apply elem_of_start_names. exists a. split; [done|]. exact (list_elem_of_lookup_2 _ _ _ H1).
      * exact (wf_inj sg Hwf _ _ _ _ _ H1 H2).
  - congruence.
  - by rewrite length_gens.
  - intros a b e H. rewrite He. pose proof (Hdom _ _ _ H) as Ha. rewrite Hn' in H by done. apply elem_of_union. case_decide.
    + left. apply elem_of_list_to_set, elem_of_start_names. exists a. split; [done|]. exact (list_elem_of_lookup_2 _ _ _ H).
    + right. exact (Hnm _ _ _ H).
  - intros i. unfold conn. cbn. by rewrite Hc.
  - intros i Hi. unfold running. cbn. rewrite Hs. destruct (lookup_lt_is_Some_2 (srvs sg) i) as [s Hs0]; [fold (N sg); lia|].
    rewrite Hs0. case_decide; [|done]. cbn. by apply bool_decide_eq_true.
  - intros i Hi. unfold gen. cbn. rewrite gens_alter by done. destruct (lookup_lt_is_Some_2 g i) as [x Hx]; [lia|].
    rewrite Hx. by case_decide.
Qed.

(** Connecting and disconnecting change the connections only. *)
Record same_daemons (p p' : procs) : Prop := {
  sd_running i : running p' i = running p i;
  sd_gens : gens p' = gens p }.

Lemma procs_ok_set n net net' sg g i v :
  procs_ok n (mkProcs (net, sg) g) -> ends net' = ends net -> procs_ok n (mkProcs (net', set_connected sg i v) g).
Proof.
  intros [H1 H2 H3 H4] He. split; cbn in *; [by apply wf_set_connected|done..|].
  intros a b e. rewrite name_set_connected, He. apply H4.
Qed.

Lemma ConnectOne_ok n p i :
  procs_ok n p -> i < n ->
  exists p', on_grp (ConnectOne i) p = Ret p' /\ procs_ok n p' /\ same_daemons p p' /\
    forall j, conn (grp p').2 j = if decide (j = i) then true else conn (grp p).2 j.
Proof.
  destruct p as [[net sg] g]. intros Hok Hi. pose proof (po_wf _ _ Hok) as Hwf. pose proof (po_N _ _ Hok) as HN. cbn in *.
  destruct (connect_spec i (all sg) net sg Hwf) as (net' & E & _); [lia|intros j; rewrite (all_N n) by done; lia|].
  exists (mkProcs (net', set_connected sg i true) g). split; [unfold on_grp, ConnectOne; cbn; by rewrite E|].
  split; [eapply procs_ok_set; [done|]; by apply (connect_names _ _ _ _ _ _ E)|]. split; [done|].
  intros j. apply conn_set; [done|lia].
Qed.

Lemma DisconnectAll_ok n p i :
  procs_ok n p -> i < n ->
  exists p', on_grp (DisconnectAll i) p = Ret p' /\ procs_ok n p' /\ same_daemons p p' /\
    forall j, conn (grp p').2 j = if decide (j = i) then false else conn (grp p).2 j.
Proof.
  destruct p as [[net sg] g]. intros Hok Hi. pose proof (po_wf _ _ Hok) as Hwf. pose proof (po_N _ _ Hok) as HN. cbn in *.
  destruct (disconnect_spec i (all sg) net sg Hwf) as (net' & E & He & _); [lia|intros j; rewrite (all_N n) by done; lia|].
  exists (mkProcs (net', set_connected sg i false) g). split; [unfold on_grp, DisconnectAll; cbn; by rewrite E|].
  split; [by eapply procs_ok_set|]. split; [done|]. intros j. apply conn_set; [done|lia].
Qed.

Lemma Kill_ok n p l :
  procs_ok n p -> (forall i, i ∈ l -> i < n) ->
  exists p', on_grp (Kill l) p = Ret p' /\ procs_ok n p' /\ gens p' = gens p /\
    (forall j, running p' j = if decide (j ∈ l) then false else running p j) /\
    forall j, conn (grp p').2 j = if decide (j ∈ l) then false else conn (grp p).2 j.
Proof.
  destruct p as [[net sg] g]. intros [Hwf HN Hg Hnm] Hl. cbn in *.
  destruct (Kill_full l net sg Hwf) as (net' & sg' & E & Hwf' & HN' & He & Hn & Hc & Hs); [intros i Hi; rewrite HN; auto|].
  exists (mkProcs (net', sg') g). split; [unfold on_grp; cbn; by rewrite E|]. split.
  { split; cbn; [done|congruence|done|]. intros a b e. rewrite Hn, He. apply Hnm. }
  split; [done|]. split; [|exact Hc]. intros j. unfold running. cbn. rewrite Hs. case_decide; [|done].
  destruct (srvs sg !! j) as [s|]; [|done]. cbn. unfold shutdownServer. destruct (dc s) eqn:Hd; cbn; [|rewrite Hd]; by apply bool_decide_eq_false; intros [].
Qed.

(** ** The Raft tester's invariant *)

(** A server was killed, is cut off and has no proxy, or its proxy is to the
    daemon that runs. *)
Definition srv_ok (t : rtest) (i : nat) : Prop :=
  (rt_rfsrv t !! i = Some None /\ conn (grp (rt_procs t)).2 i = false /\ running (rt_procs t) i = false) \/
  (rt_rfsrv t !! i = Some (Some (Some (gen (rt_procs t) i))) /\ running (rt_procs t) i = true).

Record rt_ok (n : nat) (t : rtest) : Prop := {
  rt_group : procs_ok n (rt_procs t);
  rt_len : length (rt_rfsrv t) = n;
  rt_srv i : i < n -> srv_ok t i }.

Lemma gen_same p p' i : gens p' = gens p -> gen p' i = gen p i.
Proof. unfold gen. by intros ->. Qed.

(** Nothing about server [i] changes but its connection. *)
Lemma srv_ok_keep t p i :
  running p i = running (rt_procs t) i -> gen p i = gen (rt_procs t) i ->
  (running p i = true \/ conn (grp p).2 i = conn (grp (rt_procs t)).2 i) ->
  srv_ok t i -> srv_ok (mkRT p (rt_rfsrv t)) i.
Proof. unfold srv_ok. cbn. intros -> -> Hc [(H1 & H2 & H3)|(H1 & H2)]; [left|by right]. destruct Hc as [Hc| ->]; [congruence|done]. Qed.

(** Filling a table entry by entry. *)
Lemma lookup_fill {A} (f : nat -> A) (l : list nat) (r : list A) i :
  i < length r -> foldl (fun r i => <[i := f i]> r) r l !! i = if decide (i ∈ l) then Some (f i) else r !! i.
Proof.
  revert r. induction l as [|x l IH]; intros r Hi; [by rewrite decide_False by set_solver|]. cbn. rewrite IH by by rewrite length_insert.
  destruct (decide (i = x)) as [->|Hne].
  - rewrite (decide_True (P := x ∈ x :: l)) by by left. case_decide; [done|]. by apply list_lookup_insert_eq.
  - rewrite list_lookup_insert_ne by done. apply decide_ext. rewrite elem_of_cons. naive_solver.
Qed.

Lemma length_fill {A} (f : nat -> A) (l : list nat) (r : list A) : length (foldl (fun r i => <[i := f i]> r) r l) = length r.
Proof. revert r. induction l as [|x l IH]; intros r; [done|]. cbn. by rewrite IH, length_insert. Qed.

Lemma kill_ok n t l : rt_ok n t -> (forall i, i ∈ l -> i < n) -> exists t', kill l t = Ret t' /\ rt_ok n t'.
Proof.
  intros [Hg Hl Hs] Hr. destruct (Kill_ok n (rt_procs t) l Hg Hr) as (p & E & Hp & Hgen & Hrun & Hc).
  eexists. split; [unfold kill; by rewrite E|]. split; cbn; [done|by rewrite (length_fill (fun _ => None))|].
  intros i Hi. unfold srv_ok. cbn. rewrite (lookup_fill (fun _ => None)) by by rewrite Hl. rewrite Hc, Hrun, (gen_same _ _ i Hgen).
  case_decide; [by left|]. exact (Hs i Hi).
Qed.

(** The loop of [restart]: the servers still to do run and have no current
    proxy yet. *)
Lemma restart_loop n l t :
  procs_ok n (rt_procs t) -> length (rt_rfsrv t) = n -> (forall i, i ∈ l -> i < n /\ running (rt_procs t) i = true) ->
  (forall i, i < n -> i ∉ l -> srv_ok t i) ->
  exists t', foldo restart_one t l = Ret t' /\ rt_ok n t'.
Proof.
  revert t. induction l as [|x l IH]; intros t Hg Hlen Hl Hs.
  { exists t. split; [done|]. split; [done..|]. intros i Hi. apply Hs; [done|set_solver]. }
  destruct (Hl x) as [Hx Hrun]; [by left|]. destruct (ConnectOne_ok n (rt_procs t) x Hg Hx) as (p & E & Hp & [Hr Hgen] & Hc).
  set (t1 := mkRT p (<[x := Some (Some (gen p x))]> (rt_rfsrv t))).
  assert (E1 : restart_one t x = Ret t1).
  { unfold restart_one, mksrv. cbn [rt_procs]. rewrite E. unfold newRfproxy, DaemonClnt. cbn. rewrite Hrun. unfold t1. by rewrite (gen_same _ p x Hgen). }
  destruct (IH t1) as (t' & E' & Ht'); cbn; [done|by rewrite length_insert| | |].
  - intros i Hi. rewrite Hr. apply Hl. by right.
  - intros i Hi Hni. destruct (decide (i = x)) as [->|Hne].
    + right. cbn. split; [apply list_lookup_insert_eq; lia|by rewrite Hr].
    + assert (Hsi : srv_ok (mkRT p (rt_rfsrv t)) i).
      { apply srv_ok_keep; [apply Hr|by apply gen_same|right; by rewrite Hc, decide_False|]. apply Hs; [done|]. set_solver. }
      unfold srv_ok in *. cbn in *. by rewrite list_lookup_insert_ne.
  - exists t'. split; [cbn [foldo]; by rewrite E1|done].
Qed.

Lemma restart_ok n t starts l :
  rt_ok n t -> starts_ok starts l n (grp (rt_procs t)).1 -> exists t', restart starts l t = Ret t' /\ rt_ok n t'.
Proof.
  intros [Hg Hlen Hs] Hst. destruct (StartSrvs_ok starts l n (rt_procs t) Hg Hst) as (p & E & Hp & Hc & Hr & Hgen).
  unfold restart. rewrite E. cbn [mbind outcome_bind]. apply (restart_loop n l (mkRT p (rt_rfsrv t))); cbn; [done..| |].
  - intros i Hi. pose proof (st_range _ _ _ _ Hst i Hi) as Hlt. by rewrite Hr, decide_True.
  - intros i Hi Hni. apply srv_ok_keep; [by rewrite Hr, decide_False|by rewrite Hgen, decide_False|by right|by apply Hs].
Qed.

(** What the tests check before they connect or restart a server. *)
Definition op_ok (n : nat) (o : op) (t : rtest) : Prop :=
  match o with
  | OKill l => forall i, i ∈ l -> i < n
  | ORestart starts l => starts_ok starts l n (grp (rt_procs t)).1
  | ODisconnectAll i => i < n
  | OConnectOne i => i < n /\ rt_rfsrv t !! i <> Some None
  end.

Lemma rt_exec_ok n t o : rt_ok n t -> op_ok n o t -> exists t', rt_exec t o = Ret t' /\ rt_ok n t'.
Proof.
  intros Hok Ho. destruct o as [l|starts l|i|i]; cbn in *.
  - by apply kill_ok.
  - by apply restart_ok.
  - destruct Hok as [Hg Hlen Hs]. destruct (DisconnectAll_ok n _ i Hg Ho) as (p & E & Hp & [Hr Hgen] & Hc). rewrite E.
    eexists. split; [done|]. split; cbn; [done..|]. intros j Hj. specialize (Hs j Hj).
    destruct Hs as [(H1 & H2 & H3)|(H1 & H2)]; [left|right]; cbn; rewrite Hr; [|by rewrite (gen_same _ _ j Hgen)].
    split_and!; [done| |done]. rewrite Hc. by case_decide.
  - destruct Ho as [Hi Hnil]. destruct Hok as [Hg Hlen Hs]. destruct (ConnectOne_ok n _ i Hg Hi) as (p & E & Hp & [Hr Hgen] & Hc). rewrite E.
    eexists. split; [done|]. split; cbn; [done..|]. intros j Hj. apply srv_ok_keep; [apply Hr|by apply gen_same| |by apply Hs].
    rewrite Hr, Hc. case_decide as Hji; [subst j|by right]. left. destruct (Hs i Hi) as [(H1 & _)|(_ & H2)]; [done|done].
Qed.

(** The names of a new group, as [MakeGroupStart] needs them. *)
Definition fresh_group (names : list (list string)) (starts : nat -> list string * nat) (net : Network) : Prop :=
  NoDup (group_names names starts) /\ (forall e, e ∈ group_names names starts -> e ∉ ends net) /\
  forall i, i < length names -> length (starts i).1 = length names.

Lemma mksrvs p l r :
  foldl (fun t i => mksrv i t) (mkRT p r) l = mkRT p (foldl (fun r i => <[i := Some (DaemonClnt p i)]> r) r l).
Proof. revert r. induction l as [|i l IH]; intros r; [done|]. exact (IH _). Qed.

(** A group that has just been made and started. *)
Lemma new_procs names starts net :
  fresh_group names starts net ->
  exists net' sg, MakeGroupStart GRP0 names starts (net, ∅) = Ret (net', {[GRP0 := sg]}) /\
    let p := mkProcs (net', sg) (replicate (length names) 1) in
    procs_ok (length names) p /\ forall i, i < length names -> conn sg i = true /\ running p i = true /\ gen p i = 1.
Proof.
  intros (Hnd & Hf & Hlen). destruct (MakeGroupStart_full GRP0 names starts net ∅ Hnd Hf Hlen)
    as (net' & sg & E & (Hwf & HN & _) & _ & He & _ & _ & Hnm & Hs).
  exists net', sg. split; [exact E|]. split.
  - split; cbn; [done..|by rewrite length_replicate|]. intros a b e H. rewrite He. apply elem_of_union_l, elem_of_list_to_set. exact (Hnm _ _ _ H).
  - intros i Hi. destruct (Hs i Hi) as [Hc Hsrv]. split; [done|]. split.
    + unfold running. cbn. rewrite Hsrv. by apply bool_decide_eq_true.
    + unfold gen. cbn. by rewrite lookup_replicate_2.
Qed.

Lemma makeTest_ok names starts net :
  fresh_group names starts net -> exists t, makeTest names starts net = Ret t /\ rt_ok (length names) t.
Proof.
  intros Hf. destruct (new_procs names starts net Hf) as (net' & sg & E & Hp & Hs). cbn zeta in Hp, Hs.
  eexists. unfold makeTest. rewrite E. cbn [mbind outcome_bind fst snd]. rewrite lookup_singleton_eq, mksrvs. split; [done|].
  split; cbn; [done|by rewrite length_fill, length_replicate|]. intros i Hi. right. cbn. destruct (Hs i Hi) as (_ & Hr & Hg).
  rewrite lookup_fill by by rewrite length_replicate. rewrite decide_True by (apply elem_of_seq; lia).
  unfold DaemonClnt. by rewrite Hr.
Qed.

(** The operations of a test, each made when it is allowed. *)
Fixpoint ops_ok (n : nat) (os : list op) (t : rtest) : Prop :=
  match os with
  | [] => True
  | o :: os => op_ok n o t /\ forall t', rt_exec t o = Ret t' -> ops_ok n os t'
  end.

Lemma rt_run_ok n os t : rt_ok n t -> ops_ok n os t -> exists t', foldo rt_exec t os = Ret t' /\ rt_ok n t'.
Proof.
  revert t. induction os as [|o os IH]; intros t Hok; [by exists t|]. intros [Ho Hos].
  destruct (rt_exec_ok n t o Hok Ho) as (t1 & E & Hok1). destruct (IH t1 Hok1 (Hos t1 E)) as (t' & E' & Hok').
  exists t'. split; [cbn [foldo]; by rewrite E|done].
Qed.

Lemma GetState_ok n t i reply :
  rt_ok n t -> i < n ->
  GetState t i reply = if running (rt_procs t) i then Ret reply else Panic "nil pointer dereference".
Proof.
  intros [Hg Hlen Hs] Hi. unfold GetState. destruct (Hs i Hi) as [(H1 & H2 & H3)|(H1 & H2)]; rewrite (idx_Some _ _ _ H1); cbn [mbind outcome_bind].
  - by rewrite H3.
  - cbn. by rewrite H2, Nat.eqb_refl.
Qed.

Lemma mapM_Ret {A B} (f : A -> outcome B) (g : A -> B) l : (forall x, x ∈ l -> f x = Ret (g x)) -> mapM f l = Ret (g <$> l).
Proof.
  induction l as [|x l IH]; intros H; [done|]. cbn [mapM]. rewrite H by by left. cbn [mbind outcome_bind].
  rewrite IH by (intros y Hy; apply H; by right). done.
Qed.

(** C17: whatever servers a Raft test kills, restarts, cuts off and connects, its
    checks follow no nil pointer and are answered by exactly the connected
    servers, each by the daemon that runs now and not by one that was killed; a
    server has no proxy exactly while it is down. *)
Theorem checks_ask_running names starts net os reply :
  fresh_group names starts net ->
  (forall t0, makeTest names starts net = Ret t0 -> ops_ok (length names) os t0) ->
  exists t0 t, makeTest names starts net = Ret t0 /\ foldo rt_exec t0 os = Ret t /\
    ask_all t reply (length names) =
      Ret ((fun i => if conn (grp (rt_procs t)).2 i then Some (reply i) else None) <$> seq 0 (length names)) /\
    forall i, i < length names -> rt_rfsrv t !! i = Some None <-> running (rt_procs t) i = false.
Proof.
  intros Hf Hos. set (n := length names) in *. destruct (makeTest_ok names starts net Hf) as (t0 & E0 & Hok0). fold n in Hok0.
  destruct (rt_run_ok n os t0 Hok0 (Hos t0 E0)) as (t & E & Hok). exists t0, t. split; [done|]. split; [done|]. split.
  - apply mapM_Ret. intros i Hi. apply elem_of_seq in Hi. assert (Hlt : i < n) by lia. unfold ask, IsConnected.
    pose proof (rt_group _ _ Hok) as Hp. destruct (lookup_lt_is_Some_2 (connected (grp (rt_procs t)).2) i) as [b Hb].
    { rewrite (wf_conn _ (po_wf _ _ Hp)), (po_N _ _ Hp). done. }
    rewrite (idx_Some _ _ _ Hb). cbn [mbind outcome_bind]. rewrite (GetState_ok n) by done.
    unfold conn. rewrite Hb. cbn. destruct b; [|done]. destruct (rt_srv _ _ Hok i Hlt) as [(_ & Hc & _)|(_ & ->)]; [|done].
    unfold conn in Hc. by rewrite Hb in Hc.
  - intros i Hi. destruct (rt_srv _ _ Hok i Hi) as [(-> & _ & ->)|(-> & ->)]; [done|]. by split.
Qed.

(** ** wait *)

Section Wait.
Context {V : Type} `{!RaftTest.Command V}.
Implicit Types (polls : list (poll V)) (last : RaftTest.test V).

(** The time the loop sleeps, [Rsm.pauses], grows with the number of turns. *)
Lemma pauses_mono k k' to : (0 <= to)%Z -> k <= k' -> (Rsm.pauses k to <= Rsm.pauses k' to)%Z.
Proof.
  revert k to. induction k' as [|k' IH]; intros k to Hto Hk; [by replace k with 0 by lia|].
  destruct k as [|k]; [by apply (Rsm.pauses_nonneg (S k'))|]. cbn [Rsm.pauses].
  specialize (IH k (if decide (to < 1000) then to * 2 else to)%Z). case_decide; lia.
Qed.

Lemma moved_on_ok n t reply startTerm l :
  rt_ok n t -> (forall i, i ∈ l -> i < n) ->
  match moved_on t reply startTerm l with
  | Ret b => b = true -> exists i, i < n /\ running (rt_procs t) i = true /\ (startTerm < (reply i).1)%Z
  | Fatal _ => False
  | Panic _ => exists i, i < n /\ running (rt_procs t) i = false
  end.
Proof.
  intros Hok. induction l as [|i l IH]; intros Hl; [done|]. cbn [moved_on]. assert (Hi : i < n) by (apply Hl; by left).
  rewrite (GetState_ok n) by done. destruct (running (rt_procs t) i) eqn:Hr; cbn [mbind outcome_bind]; [|by exists i].
  destruct (Z.ltb_spec startTerm (reply i).1); [intros _; by exists i|]. apply IH. intros j Hj. apply Hl. by right.
Qed.

(** How the loop can end. *)
Lemma wait_loop_ok n t polls index want startTerm to slept :
  rt_ok n t -> (0 <= to)%Z ->
  match wait_loop t polls index want startTerm to slept with
  | Ret (moved, ms) =>
      (slept <= ms <= slept + Rsm.pauses (length polls) to)%Z /\
      (moved = true -> (-1 < startTerm)%Z /\ exists ts reply i, (ts, reply) ∈ polls /\ i < n /\
         running (rt_procs t) i = true /\ (startTerm < (reply i).1)%Z)
  | Fatal _ => exists ts reply, (ts, reply) ∈ polls /\ is_ret (RaftTest.nCommitted ts index) = false
  | Panic _ => (-1 < startTerm)%Z /\ exists i, i < n /\ running (rt_procs t) i = false
  end.
Proof.
  intros Hok. revert to slept. induction polls as [|[ts reply] polls IH]; intros to slept Hto; [cbn; split; [lia|done]|].
  cbn [wait_loop length Rsm.pauses]. pose proof (RaftTest.nCommitted_ok ts index) as Hn. set (to' := (if decide (to < 1000) then to * 2 else to)%Z) in *.
  assert (Hto' : (0 <= to')%Z) by (unfold to'; case_decide; lia). pose proof (Rsm.pauses_nonneg (length polls) to' Hto').
  destruct (RaftTest.nCommitted ts index) as [[nd cmd]|e|e] eqn:En; cbn [mbind outcome_bind fst]; [|done|exists ts, reply; split; [by left|by rewrite En]].
  destruct (want <=? nd); [cbn; split; [lia|done]|].
  assert (Hm : match (if (-1 <? startTerm)%Z then moved_on t reply startTerm (seq 0 (length (rt_rfsrv t))) else Ret false) with
    | Ret b => b = true -> (-1 < startTerm)%Z /\ exists i, i < n /\ running (rt_procs t) i = true /\ (startTerm < (reply i).1)%Z
    | Fatal _ => False
    | Panic _ => (-1 < startTerm)%Z /\ exists i, i < n /\ running (rt_procs t) i = false
    end).
  { destruct (Z.ltb_spec (-1) startTerm); [|done].
    pose proof (moved_on_ok n t reply startTerm (seq 0 (length (rt_rfsrv t))) Hok) as Hmo.
    destruct (moved_on _ _ _ _) as [b|e|e]; [|..|].
    - intros ->. split; [done|]. apply Hmo; [|done]. intros i Hi%elem_of_seq. rewrite (rt_len _ _ Hok) in Hi. lia.
    - split; [done|]. apply Hmo. intros i Hi%elem_of_seq. rewrite (rt_len _ _ Hok) in Hi. lia.
    - apply Hmo. intros i Hi%elem_of_seq. rewrite (rt_len _ _ Hok) in Hi. lia. }
  destruct (if (-1 <? startTerm)%Z then _ else _) as [b|e|e]; cbn [mbind outcome_bind]; [|done..].
  destruct b; [cbn; split; [lia|]|].
  - intros _. destruct (Hm eq_refl) as (Hs & i & Hi). split; [done|]. exists ts, reply, i. split; [by left|done].
  - specialize (IH to' (slept + to)%Z Hto'). destruct (wait_loop _ _ _ _ _ _ _) as [[moved ms]|e|e]; [|done|].
    + destruct IH as [Ht IH]. split; [lia|]. intros Hmv. destruct (IH Hmv) as (Hs & ts' & reply' & i & Hin & Hi).
      split; [done|]. exists ts', reply', i. split; [by right|done].
    + destruct IH as (ts' & reply' & Hin & He). exists ts', reply'. split; [by right|done].
Qed.

End Wait.

(** ** The RSM tester *)

Definition rsm_makeTest (names : list (list string)) (starts : nat -> list string * nat) (net : Network) : outcome rsm_test :=
  ng ← MakeGroupStart GRP0 names starts (net, ∅);
  match ng.2 !! GRP0 with
  | Some sg =>
      let n := length names in
      Ret (foldl (fun t i => rsm_mksrv i t) (mkRsmT (mkProcs (ng.1, sg) (replicate n 1)) (replicate n None) 0) (seq 0 n))
  | None => Panic "nil pointer dereference"
  end.

(** [RSubmitted]: a request was answered by this server. *)
Inductive rsm_op :=
  | RKill (l : list nat)
  | RRestart (starts : nat -> list string * nat) (l : list nat)
  | RDisconnectLeader
  | RConnect (i : nat)
  | RSubmitted (i : nat).

Definition rsm_exec (t : rsm_test) (o : rsm_op) : outcome rsm_test :=
  match o with
  | RKill l => rsm_kill l t
  | RRestart starts l => rsm_restart starts l t
  | RDisconnectLeader => r ← disconnectLeader t; Ret r.1
  | RConnect i => rsm_connect i t
  | RSubmitted i => Ret (mkRsmT (rsm_procs t) (rsm_srvs t) i)
  end.

(** [countValue]'s loop, up to the comparison. *)
Definition counters (t : rsm_test) (reply : nat -> Z) (n : nat) : outcome (list Z) :=
  mapM (fun i => rsm_GetCounter t i (reply i)) (seq 0 n).

(** Every server has a proxy, to the daemon that runs if one does. *)
Record rsm_ok (n : nat) (t : rsm_test) : Prop := {
  ro_group : procs_ok n (rsm_procs t);
  ro_len : length (rsm_srvs t) = n;
  ro_leader : rsm_leader t < n;
  ro_srv i : i < n -> exists g, rsm_srvs t !! i = Some (Some g) /\ (running (rsm_procs t) i = true -> g = gen (rsm_procs t) i) }.

Lemma rsm_mksrvs p l r ld :
  foldl (fun t i => rsm_mksrv i t) (mkRsmT p r ld) l = mkRsmT p (foldl (fun r i => <[i := DaemonClnt p i]> r) r l) ld.
Proof. revert r. induction l as [|i l IH]; intros r; [done|]. exact (IH _). Qed.

Lemma ConnectAll_ok n p :
  procs_ok n p ->
  exists p', on_grp ConnectAll p = Ret p' /\ procs_ok n p' /\ same_daemons p p' /\ forall i, i < n -> conn (grp p').2 i = true.
Proof.
  intros Hok. assert (H : forall l p, procs_ok n p -> (forall i, i ∈ l -> i < n) ->
    exists p', on_grp (fun st => foldo (fun st i => ConnectOne i st) st l) p = Ret p' /\ procs_ok n p' /\ same_daemons p p' /\
      forall i, conn (grp p').2 i = if decide (i ∈ l) then true else conn (grp p).2 i).
  { clear. induction l as [|i l IH]; intros p Hok Hl.
    { exists p. split; [by destruct p|]. split; [done|]. split; [done|]. intros j. by rewrite decide_False by set_solver. }
    destruct (ConnectOne_ok n p i Hok) as (p1 & E1 & Hok1 & [Hr1 Hg1] & Hc1); [apply Hl; by left|].
    destruct (IH p1 Hok1) as (p2 & E2 & Hok2 & [Hr2 Hg2] & Hc2); [intros j Hj; apply Hl; by right|].
    exists p2. split; [|split; [done|split; [split; [intros j; by rewrite Hr2|congruence]|]]].
    - unfold on_grp in *. cbn [foldo]. destruct (ConnectOne i (grp p)) as [st| |]; [|done..]. cbn [mbind outcome_bind] in *.
      injection E1 as <-. exact E2.
    - intros j. rewrite Hc2, Hc1. destruct (decide (j = i)) as [->|Hne].
      + rewrite (decide_True (P := i ∈ i :: l)) by by left. by case_decide.
      + apply decide_ext. rewrite elem_of_cons. naive_solver. }
  destruct (H (all (grp p).2) p Hok) as (p' & E & Hok' & Hs & Hc); [intros i; by rewrite (all_N n) by apply Hok|].
  exists p'. split; [exact E|]. split; [done|]. split; [done|]. intros i Hi. rewrite Hc, decide_True; [done|]. by rewrite (all_N n) by apply Hok.
Qed.

Definition rsm_op_ok (n : nat) (o : rsm_op) (t : rsm_test) : Prop :=
  match o with
  | RKill l => forall i, i ∈ l -> i < n
  | RRestart starts l => starts_ok starts l n (grp (rsm_procs t)).1
  | RDisconnectLeader => True
  | RConnect i | RSubmitted i => i < n
  end.

Lemma rsm_exec_ok n t o : rsm_ok n t -> rsm_op_ok n o t -> exists t', rsm_exec t o = Ret t' /\ rsm_ok n t'.
Proof.
  intros [Hg Hlen Hld Hs] Ho. destruct o as [l|starts l| |i|i]; cbn in *.
  - destruct (Kill_ok n _ l Hg Ho) as (p & E & Hp & Hgen & Hr & _). unfold rsm_kill. rewrite E. eexists. split; [done|].
    split; cbn; [done..|]. intros i Hi. destruct (Hs i Hi) as (g & H1 & H2). exists g. split; [done|].
    rewrite Hr, (gen_same _ _ i Hgen). by case_decide.
  - destruct (StartSrvs_ok starts l n _ Hg Ho) as (p & E & Hp & _ & Hr & Hgen). destruct (ConnectAll_ok n p Hp) as (p' & E' & Hp' & [Hr' Hgen'] & _).
    unfold rsm_restart. rewrite E. cbn [mbind outcome_bind]. rewrite E'. cbn [mbind outcome_bind]. rewrite rsm_mksrvs. eexists. split; [done|].
    split; cbn; [done|by rewrite length_fill|done|]. intros i Hi. rewrite lookup_fill by by rewrite Hlen.
    rewrite Hr', (gen_same _ _ i Hgen'), Hr, Hgen by done. case_decide as Hin; [|by apply Hs].
    exists (gen p' i). split; [|intros _; by rewrite (gen_same _ _ i Hgen'), Hgen, decide_True by done].
    unfold DaemonClnt. by rewrite Hr', Hr, decide_True by done.
  - destruct (DisconnectAll_ok n _ _ Hg Hld) as (p & E & Hp & [Hr Hgen] & _). unfold disconnectLeader. rewrite E. eexists. split; [done|].
    split; cbn; [done..|]. intros i Hi. rewrite Hr, (gen_same _ _ i Hgen). by apply Hs.
  - destruct (ConnectOne_ok n _ i Hg Ho) as (p & E & Hp & [Hr Hgen] & _). unfold rsm_connect. rewrite E. eexists. split; [done|].
    split; cbn; [done..|]. intros j Hj. rewrite Hr, (gen_same _ _ j Hgen). by apply Hs.
  - eexists. split; [done|]. by split.
Qed.

Lemma rsm_makeTest_ok names starts net :
  0 < length names -> fresh_group names starts net -> exists t, rsm_makeTest names starts net = Ret t /\ rsm_ok (length names) t.
Proof.
  intros Hpos Hf. destruct (new_procs names starts net Hf) as (net' & sg & E & Hp & Hs). cbn zeta in Hp, Hs.
  eexists. unfold rsm_makeTest. rewrite E. cbn [mbind outcome_bind fst snd]. rewrite lookup_singleton_eq, rsm_mksrvs. split; [done|].
  split; cbn; [done|by rewrite length_fill, length_replicate|done|]. intros i Hi. destruct (Hs i Hi) as (_ & Hr & Hg).
  rewrite lookup_fill by by rewrite length_replicate. rewrite decide_True by (apply elem_of_seq; lia). unfold DaemonClnt. rewrite Hr. by eexists.
Qed.

Fixpoint rsm_ops_ok (n : nat) (os : list rsm_op) (t : rsm_test) : Prop :=
  match os with
  | [] => True
  | o :: os => rsm_op_ok n o t /\ forall t', rsm_exec t o = Ret t' -> rsm_ops_ok n os t'
  end.

Lemma rsm_run_ok n os t : rsm_ok n t -> rsm_ops_ok n os t -> exists t', foldo rsm_exec t os = Ret t' /\ rsm_ok n t'.
Proof.
  revert t. induction os as [|o os IH]; intros t Hok; [by exists t|]. intros [Ho Hos].
  destruct (rsm_exec_ok n t o Hok Ho) as (t1 & E & Hok1). destruct (IH t1 Hok1 (Hos t1 E)) as (t' & E' & Hok').
  exists t'. split; [cbn [foldo]; by rewrite E|done].
Qed.

(** The counters that [checkCounter] compares, after any kills, restarts and
    disconnections: what each running daemon answers, and zero for a server that
    is down. *)
Theorem rsm_counters names starts net os reply :
  0 < length names -> fresh_group names starts net ->
  (forall t0, rsm_makeTest names starts net = Ret t0 -> rsm_ops_ok (length names) os t0) ->
  exists t0 t, rsm_makeTest names starts net = Ret t0 /\ foldo rsm_exec t0 os = Ret t /\
    counters t reply (length names) = Ret ((fun i => if running (rsm_procs t) i then reply i else 0%Z) <$> seq 0 (length names)).
Proof.
  intros Hpos Hf Hos. destruct (rsm_makeTest_ok names starts net Hpos Hf) as (t0 & E0 & Hok0).
  destruct (rsm_run_ok _ os t0 Hok0 (Hos t0 E0)) as (t & E & Hok). exists t0, t. split; [done|]. split; [done|].
  apply mapM_Ret. intros i Hi. apply elem_of_seq in Hi. destruct (ro_srv _ _ Hok i) as (g & H1 & H2); [lia|].
  unfold rsm_GetCounter. rewrite (idx_Some _ _ _ H1). cbn. destruct (running (rsm_procs t) i); [|done].
  by rewrite (H2 eq_refl), Nat.eqb_refl.
Qed.

(** ** Witnesses *)

#[local] Existing Instance RaftTest.string_command.

Definition starts_okb (starts : nat -> list string * nat) (l : list nat) (n : nat) (net : Network) : bool :=
  bool_decide (NoDup l) && forallb (fun i => (i <? n) && (length (starts i).1 =? n)) l &&
  bool_decide (NoDup (start_names starts l)) && forallb (fun e => bool_decide (e ∉ ends net)) (start_names starts l).

Lemma starts_okb_ok starts l n net : starts_okb starts l n net = true -> starts_ok starts l n net.
Proof.
  unfold starts_okb. rewrite !andb_true_iff, !bool_decide_eq_true, !forallb_forall. intros [[[H1 H2] H3] H4].
  assert (H2' : forall i, i ∈ l -> i < n /\ length (starts i).1 = n).
  { intros i Hi. apply list_elem_of_In, H2, andb_true_iff in Hi as [Ha%Nat.ltb_lt Hb%Nat.eqb_eq]. done. }
  split; [done|by apply H2'|by apply H2'|done|]. intros e He. apply list_elem_of_In in He. eapply bool_decide_eq_true, H4, He.
Qed.

Definition op_okb (n : nat) (o : op) (t : rtest) : bool :=
  match o with
  | OKill l => forallb (fun i => i <? n) l
  | ORestart starts l => starts_okb starts l n (grp (rt_procs t)).1
  | ODisconnectAll i => i <? n
  | OConnectOne i => (i <? n) && bool_decide (rt_rfsrv t !! i <> Some None)
  end.
Fixpoint ops_okb (n : nat) (os : list op) (t : rtest) : bool :=
  match os with
  | [] => true
  | o :: os => op_okb n o t && match rt_exec t o with Ret t' => ops_okb n os t' | _ => true end
  end.

Lemma range_okb n l : forallb (fun i => i <? n) l = true -> forall i, i ∈ l -> i < n.
Proof. rewrite forallb_forall. intros H i Hi. apply Nat.ltb_lt, H. by apply list_elem_of_In. Qed.

Lemma ops_okb_ok n os t : ops_okb n os t = true -> ops_ok n os t.
Proof.
  revert t. induction os as [|o os IH]; intros t; [done|]. cbn [ops_okb ops_ok]. intros [Ho Hos]%andb_true_iff. split.
  - destruct o; cbn in *; [by apply range_okb|by apply starts_okb_ok|by apply Nat.ltb_lt|].
    apply andb_true_iff in Ho as [H1%Nat.ltb_lt H2%bool_decide_eq_true]. done.
  - intros t' E. rewrite E in Hos. by apply IH.
Qed.

Definition rsm_op_okb (n : nat) (o : rsm_op) (t : rsm_test) : bool :=
  match o with
  | RKill l => forallb (fun i => i <? n) l
  | RRestart starts l => starts_okb starts l n (grp (rsm_procs t)).1
  | RDisconnectLeader => true
  | RConnect i | RSubmitted i => i <? n
  end.
Fixpoint rsm_ops_okb (n : nat) (os : list rsm_op) (t : rsm_test) : bool :=
  match os with
  | [] => true
  | o :: os => rsm_op_okb n o t && match rsm_exec t o with Ret t' => rsm_ops_okb n os t' | _ => true end
  end.

Lemma rsm_ops_okb_ok n os t : rsm_ops_okb n os t = true -> rsm_ops_ok n os t.
Proof.
  revert t. induction os as [|o os IH]; intros t; [done|]. cbn [rsm_ops_okb rsm_ops_ok]. intros [Ho Hos]%andb_true_iff. split.
  - destruct o; cbn in *; [by apply range_okb|by apply starts_okb_ok|done|by apply Nat.ltb_lt..].
  - intros t' E. rewrite E in Hos. by apply IH.
Qed.

Definition demo_ends (c : string) (i : nat) : list string * nat := ((fun j => c +:+ itoa i +:+ itoa j) <$> seq 0 3, i).
Definition demo_group : list (list string) := (fun i => (demo_ends "a" i).1) <$> seq 0 3.

Lemma demo_fresh : fresh_group demo_group (demo_ends "b") MakeNetwork.
Proof.
  split; [apply (bool_decide_unpack _); by vm_compute|]. split; [intros e _; set_solver|].
  intros i _. unfold demo_ends. cbn [fst]. by rewrite length_fmap, length_seq.
Qed.

(** Server 1 is killed and started again, server 2 killed, server 0 cut off. *)
Definition demo_ops : list op := [OKill [1]; ORestart (demo_ends "c") [1]; ODisconnectAll 0; OKill [2]].

Lemma checks_ask_running_witness :
  exists t0 t, makeTest demo_group (demo_ends "b") MakeNetwork = Ret t0 /\ foldo rt_exec t0 demo_ops = Ret t /\
    ask_all t (fun i => (Z.of_nat i, false)) 3 =
      Ret ((fun i => if conn (grp (rt_procs t)).2 i then Some (Z.of_nat i, false) else None) <$> seq 0 3) /\
    forall i, i < 3 -> rt_rfsrv t !! i = Some None <-> running (rt_procs t) i = false.
Proof.
  apply (checks_ask_running demo_group (demo_ends "b") MakeNetwork demo_ops (fun i => (Z.of_nat i, false)) demo_fresh).
  intros t0 E. apply ops_okb_ok.
  assert (H : match makeTest demo_group (demo_ends "b") MakeNetwork with Ret t => ops_okb 3 demo_ops t | _ => false end = true)
    by by vm_compute.
  rewrite E in H. exact H.
Defined.

Example demo_answers :
  (t0 ← makeTest demo_group (demo_ends "b") MakeNetwork; t ← foldo rt_exec t0 demo_ops; ask_all t (fun i => (Z.of_nat i, false)) 3) =
  Ret [None; Some (1%Z, false); None].
Proof. by vm_compute. Qed.

(** A server that was killed makes [wait] follow a nil pointer, which none of
    the checks above does. *)
Lemma wait_killed_panics :
  (t0 ← makeTest demo_group (demo_ends "b") MakeNetwork; t ← kill [2] t0;
   wait t [(RaftTest.makeTest 3 : RaftTest.test string, fun i => (1%Z, false))] (RaftTest.makeTest 3) 1 3 1) =
  Panic "nil pointer dereference".
Proof. by vm_compute. Qed.


Definition demo_rsm_ops : list rsm_op := [RKill [0; 1; 2]; RRestart (demo_ends "c") [0; 1; 2]; RSubmitted 1; RDisconnectLeader; RKill [2]].

Lemma rsm_counters_witness :
  exists t0 t, rsm_makeTest demo_group (demo_ends "b") MakeNetwork = Ret t0 /\ foldo rsm_exec t0 demo_rsm_ops = Ret t /\
    counters t (fun _ => 7%Z) 3 = Ret ((fun i => if running (rsm_procs t) i then 7%Z else 0%Z) <$> seq 0 3).
Proof.
  apply (rsm_counters demo_group (demo_ends "b") MakeNetwork demo_rsm_ops (fun _ => 7%Z)); [cbn; lia|exact demo_fresh|].
  intros t0 E. apply rsm_ops_okb_ok.
  assert (H : match rsm_makeTest demo_group (demo_ends "b") MakeNetwork with Ret t => rsm_ops_okb 3 demo_rsm_ops t | _ => false end = true)
    by by vm_compute.
  rewrite E in H. exact H.
Defined.

(** Killed servers count as servers whose counter is zero. *)
Lemma killed_count_as_zero :
  (t0 ← rsm_makeTest demo_group (demo_ends "b") MakeNetwork; t ← rsm_kill [0; 2] t0;
   l ← counters t (fun _ => 7%Z) 3; Ret (Rsm.countValue 0 l)) = Ret 2.
Proof. by vm_compute. Qed.
End TestRun.
