(* ===== verification/KvRun.v ===== *)
(** * KvRun: the set-up of the key/value tests, and the check that data is sharded

    [src/src/kvraft1/test.go], [kvsrv1/test.go] and the constructors of
    [kvtest1/kvtest.go]: the clerks the tests make, on clients that may be
    confined to some servers; and, of [shardkv1/test.go], [checkShutdownSharding],
    which shuts a group down and expects some of the keys to be out of reach.
    Its goroutines and the tester's loop are interleaved steps; the clerks' Gets
    return when and what they like. *)

From S2P Require Import Prelude LabRpc Tester Config ShardTest TestRun.
From stdpp Require Import base gmap list strings.
From Stdlib Require Import ZArith Lia Ascii.
From stdpp Require Import list.

Module KvRun.
Import LabRpc Tester Config TestRun.

#[local] Arguments bool_decide _ {_} : simpl never.
#[local] Arguments lcount : simpl never.

(** ** Clerks *)

(** [TestClerk]: the client and the servers its clerk is given. *)
Record TestClerk := mkTestClerk { Clnt_id : nat; ck_servers : list string }.

Definition SrvName (sg : ServerGrp) (i : nat) : string := ServerName (gid sg) i.
Definition SrvNamesTo (sg : ServerGrp) (to : list nat) : outcome (list string) :=
  mapM (fun i => if i <? N sg then Ret (SrvName sg i) else Panic "index out of range") to.

(** [id]: the client object that is made. *)
Definition kvraft_MakeClerk (id : nat) (sg : ServerGrp) (st : cstate) : outcome (cstate * TestClerk) :=
  st ← MakeClient id st; Ret (st, mkTestClerk id (ShardTest.SrvNames sg)).
Definition kvraft_MakeClerkTo (id : nat) (sg : ServerGrp) (to : list nat) (st : cstate) : outcome (cstate * TestClerk) :=
  ns ← SrvNamesTo sg to; st ← MakeClientTo id (Some ns) st; Ret (st, mkTestClerk id (ShardTest.SrvNames sg)).
Definition kvsrv_MakeClerk (id : nat) (st : cstate) : outcome (cstate * TestClerk) :=
  st ← MakeClient id st; Ret (st, mkTestClerk id [ServerName GRP0 0]).
(** [order]: the client's ends, as they are deleted. *)
Definition DeleteClerk (order : list (string * string)) (ck : TestClerk) (st : cstate) : outcome cstate :=
  DeleteClient (Clnt_id ck) order st.

Definition killall (p : procs) : outcome procs := on_grp Shutdown p.
Definition restartall (starts : nat -> list string * nat) (p : procs) : outcome procs :=
  p ← StartSrvs starts (all (grp p).2) p; on_grp ConnectAll p.

Record kv_test := mkKvTest {
  part : string; nclients : nat; nservers : nat; crash : bool; partitions : bool; maxraftstate : Z; randomkeys : bool }.

Definition makeTitle (ts : kv_test) : string :=
  let title := "Test: " in
  let title := if crash ts then title +:+ "restarts, " else title in
  let title := if partitions ts then title +:+ "partitions, " else title in
  let title := if (maxraftstate ts =? -1)%Z then title else title +:+ "snapshots, " in
  let title := if randomkeys ts then title +:+ "random keys, " else title in
  let title := if 1 <? nclients ts then title +:+ "many clients" else title +:+ "one client" in
  title +:+ " (" +:+ part ts +:+ ")".

(** [RandValue]; [draws] are the values of [rand.Int63]. *)
Definition letterBytes : string := "abcdefghijklmnopqrstuvwxyzABCDEFGHIJKLMNOPQRSTUVWXYZ".
Definition RandValue (draws : list Z) : string :=
  foldr (fun d s => String (default "a"%char (String.get (Z.to_nat (d mod Z.of_nat (String.length letterBytes))) letterBytes)) s) "" draws.

(** ** checkShutdownSharding *)

(** A goroutine: in [Get]; with its answer, before it looks at [done]; sending
    its verdict; and at its end, having reported or having found [done] set. *)
Inductive getter :=
  | InGet
  | Got (v : string)
  | Sending (err : string)
  | Reported
  | Gone.

(** The tester: in [select]; after [done] is set; failed or returned. *)
Inductive check_pc := Selecting | TimedOut | CheckFailed (err : string) | CheckReturned.

#[export] Instance getter_eq_dec : EqDecision getter.
Proof. solve_decision. Defined.
#[export] Instance check_pc_eq_dec : EqDecision check_pc.
Proof. solve_decision. Defined.

Record check := mkCheck {
  c_procs : procs; c_getters : list getter; c_done : bool; c_ndone : nat; c_pc : check_pc }.

Inductive check_event :=
  | EGet (i : nat) (v : string)
  | ELoad (i : nat)
  | ERecv (i : nat)
  | ETimeout
  | EFinish (starts : nat -> list string * nat).

Section Check.
Context (ka va : list string).

Definition set_getter (i : nat) (g : getter) (s : check) : check :=
  mkCheck (c_procs s) (<[i := g]> (c_getters s)) (c_done s) (c_ndone s) (c_pc s).

(** The error a goroutine sends, empty when the value is the expected one. *)
Definition get_verdict (i : nat) (v : string) : string :=
  if decide (va !! i = Some v) then "" else "Get(" +:+ default "" (ka !! i) +:+ "): expected another value, received " +:+ v.

(** [ts.Group(down).Shutdown()] and the goroutines. *)
Definition check_start (p : procs) : outcome check :=
  p ← on_grp Shutdown p; Ret (mkCheck p (replicate (length ka) InGet) false 0 Selecting).

Definition check_exec (e : check_event) (s : check) : option check :=
  match e with
  | EGet i v =>
      match c_getters s !! i with Some InGet => Some (set_getter i (Got v) s) | _ => None end
  | ELoad i =>
      match c_getters s !! i with
      | Some (Got v) => Some (set_getter i (if c_done s then Gone else Sending (get_verdict i v)) s)
      | _ => None
      end
  | ERecv i =>
      match c_pc s, c_getters s !! i with
      | Selecting, Some (Sending err) =>
          let s := set_getter i Reported s in
          if decide (err = "") then Some (mkCheck (c_procs s) (c_getters s) (c_done s) (S (c_ndone s)) Selecting)
          else Some (mkCheck (c_procs s) (c_getters s) (c_done s) (c_ndone s) (CheckFailed err))
      | _, _ => None
      end
  | ETimeout =>
      match c_pc s with Selecting => Some (mkCheck (c_procs s) (c_getters s) true (c_ndone s) TimedOut) | _ => None end
  | EFinish starts =>
      match c_pc s with
      | TimedOut =>
          if length ka <=? c_ndone s then
            Some (mkCheck (c_procs s) (c_getters s) (c_done s) (c_ndone s) (CheckFailed "expected less completions"))
          else
            match p ← StartSrvs starts (all (grp (c_procs s)).2) (c_procs s); on_grp ConnectAll p with
            | Ret p => Some (mkCheck p (c_getters s) (c_done s) (c_ndone s) CheckReturned)
            | _ => Some (mkCheck (c_procs s) (c_getters s) (c_done s) (c_ndone s) (CheckFailed "panic"))
            end
      | _ => None
      end
  end.
End Check.

(** [shutdownLeader]: [Leader] is what the clerk of group [gid] says, if the
    clerk has one for the group. *)
Definition shutdownLeader (GetClerk : Z -> option nat) (gid : Z) (p : procs) : outcome (procs * nat) :=
  match GetClerk gid with
  | None => Fatal "shutdownLeader: no shardgrp clerk"
  | Some l => p ← on_grp (ShutdownServer l) p; Ret (p, l)
  end.

(** ** Clerks: properties *)

Lemma SrvNamesTo_ok sg to : (forall i, i ∈ to -> i < N sg) -> SrvNamesTo sg to = Ret (SrvName sg <$> to).
Proof. intros H. apply mapM_Ret. intros i Hi. apply H, Nat.ltb_lt in Hi. by rewrite Hi. Qed.

(** A clerk on some servers: whatever server its client calls first, the new end
    works exactly when the server is one of them. *)
Lemma MakeClerkTo_confined id sg to st name server :
  (forall i, i ∈ to -> i < N sg) -> is_Some (clerks st.2) -> name ∉ ends st.1 ->
  exists st' ck st2, kvraft_MakeClerkTo id sg to st = Ret (st', ck) /\ client_end id name server st' = Ret st2 /\
    is_enabled st2.1 name = bool_decide (server ∈ SrvName sg <$> to).
Proof.
  intros Hto [cs Hcs] Hn. destruct (MakeEnd_fresh name st.1 Hn) as (net & E & _ & _).
  set (ns := SrvName sg <$> to). set (cl := mkClnts (<[id := makeClntTo (Some ns)]> (heap st.2)) (Some ({[id]} ∪ cs))).
  exists (st.1, cl), (mkTestClerk id (ShardTest.SrvNames sg)). eexists. split; [|split].
  - unfold kvraft_MakeClerkTo. rewrite SrvNamesTo_ok by done. cbn [mbind outcome_bind]. unfold MakeClientTo. by rewrite Hcs.
  - unfold client_end. cbn [fst snd]. unfold cl at 1. cbn [heap]. rewrite lookup_insert_eq. unfold makeEnd, makeClntTo. cbn [cends].
    rewrite lookup_empty, E. done.
  - cbn [fst]. rewrite is_enabled_Enable, decide_True by done. unfold allowedL. cbn [allowed]. apply eq_bool_prop_intro.
    rewrite bool_decide_spec, Is_true_true, existsb_exists. split.
    + intros (x & Hx & He). apply bool_decide_eq_true in He as ->. by apply list_elem_of_In.
    + intros Hs. exists server. split; [by apply list_elem_of_In|by apply bool_decide_eq_true].
Qed.

(** ** The sharding check *)

Lemma starts_ok_ends starts l n net net' : ends net' = ends net -> starts_ok starts l n net -> starts_ok starts l n net'.
Proof. intros He [H1 H2 H3 H4 H5]. split; [done..|]. intros e. rewrite He. apply H5. Qed.

Section Checking.
Context (ka va : list string).
Notation exec := (check_exec ka va).

Lemma verdict_ok i v : get_verdict ka va i v = "" <-> va !! i = Some v.
Proof. unfold get_verdict. by case_decide. Qed.

(** Whether the group runs: not while the tester waits. *)
Definition group_at (m : nat) (s : check) : Prop :=
  procs_ok m (c_procs s) /\
  match c_pc s with
  | Selecting | TimedOut => forall i, i < m -> running (c_procs s) i = false /\ conn (grp (c_procs s)).2 i = false
  | CheckReturned => forall i, i < m -> running (c_procs s) i = true /\ conn (grp (c_procs s)).2 i = true
  | CheckFailed _ => True
  end.

(** What goroutine [i] has to do with the answer [v] it got. *)
Definition answer_at (s : check) (i : nat) (v : string) : Prop :=
  match c_getters s !! i with
  | Some (Got v') => v' = v
  | Some (Sending err) => err = get_verdict ka va i v
  | Some Reported => match c_pc s with CheckFailed _ => True | _ => va !! i = Some v end
  | Some Gone => True
  | _ => False
  end.

(** Where what goroutine [i] holds comes from. *)
Definition source (es : list check_event) (i : nat) (x : getter) : Prop :=
  match x with
  | Got v => EGet i v ∈ es
  | Sending err => exists v, EGet i v ∈ es /\ err = get_verdict ka va i v
  | _ => True
  end.

(** Why the check fails. *)
Definition failure (es : list check_event) (s : check) : Prop :=
  (exists i v, EGet i v ∈ es /\ va !! i <> Some v) \/ c_ndone s = length ka.

Record check_ok (net : Network) (m : nat) (es : list check_event) (s : check) : Prop := {
  ck_len : length (c_getters s) = length ka;
  ck_count : match c_pc s with CheckFailed _ => True | _ => c_ndone s = lcount (fun g => g = Reported) (c_getters s) end;
  ck_ret : c_pc s = CheckReturned -> c_ndone s < length ka;
  ck_done : c_pc s = Selecting -> c_done s = false;
  ck_group : group_at m s;
  ck_ends : (match c_pc s with Selecting | TimedOut => ends (grp (c_procs s)).1 = ends net | _ => True end);
  ck_get i v : EGet i v ∈ es -> answer_at s i v;
  ck_src i x : c_getters s !! i = Some x -> source es i x;
  ck_fail : (match c_pc s with CheckFailed _ => failure es s | _ => True end) }.

Lemma source_snoc es e i x : source es i x -> source (es ++ [e]) i x.
Proof.
  destruct x as [|v|err| |]; [done| | |done..]; unfold source; rewrite ?elem_of_app; [by left|].
  intros (v & Hv & ->). exists v. rewrite elem_of_app. auto.
Qed.

Lemma failure_snoc es e s : failure es s -> failure (es ++ [e]) s.
Proof. intros [(i & v & Hv & Hne)|?]; [left; exists i, v; rewrite elem_of_app; auto|by right]. Qed.

Lemma lcount_set i g x s :
  c_getters s !! i = Some x -> x <> Reported ->
  lcount (fun g => g = Reported) (<[i := g]> (c_getters s)) =
  (if decide (g = Reported) then 1 else 0) + lcount (fun g => g = Reported) (c_getters s).
Proof.
  intros Hx Hne. pose proof (lcount_insert (fun g => g = Reported) (c_getters s) i x g Hx) as H.
  rewrite (decide_False (P := x = Reported)) in H by done. lia.
Qed.

Lemma answer_other s i g j v : j <> i -> answer_at (set_getter i g s) j v = answer_at s j v.
Proof. intros Hne. unfold answer_at. cbn. by rewrite list_lookup_insert_ne. Qed.

(** One goroutine moves and nothing else. *)
Lemma check_ok_getter net m es e s i x g :
  check_ok net m es s -> c_getters s !! i = Some x -> x <> Reported -> g <> Reported ->
  (forall j v, EGet j v ∈ es ++ [e] -> j <> i -> EGet j v ∈ es) ->
  (forall v, EGet i v ∈ es ++ [e] -> answer_at (set_getter i g s) i v) -> source (es ++ [e]) i g ->
  check_ok net m (es ++ [e]) (set_getter i g s).
Proof.
  intros [K1 K2 K3 K4 K5 K6 K7 K8 K9] Hx Hne Hg Hj Hi Hsrc. split; cbn; try done.
  - by rewrite length_insert.
  - destruct (c_pc s); try done; by rewrite (lcount_set i g x), decide_False by done.
  - intros j v Hin. destruct (decide (j = i)) as [->|Hji]; [by apply Hi|]. rewrite answer_other by done. by apply K7, Hj.
  - intros j y. destruct (decide (j = i)) as [->|Hji].
    + rewrite list_lookup_insert_eq by by eapply lookup_lt_Some. by intros [= <-].
    + rewrite list_lookup_insert_ne by done. intros Hy. by apply source_snoc, K8.
  - destruct (c_pc s); try done. by apply failure_snoc.
Qed.

(** Which events are answers. *)
Lemma EGet_snoc es e j v : EGet j v ∈ es ++ [e] -> EGet j v ∈ es \/ e = EGet j v.
Proof. intros [?|Hin%list_elem_of_singleton]%elem_of_app; auto. Qed.

Lemma finish_ok net m s starts :
  procs_ok m (c_procs s) -> ends (grp (c_procs s)).1 = ends net -> starts_ok starts (seq 0 m) m net ->
  exists p, (p ← StartSrvs starts (all (grp (c_procs s)).2) (c_procs s); on_grp ConnectAll p) = Ret p /\ procs_ok m p /\
    forall i, i < m -> running p i = true /\ conn (grp p).2 i = true.
Proof.
  intros Hok He Hst. assert (Hall : all (grp (c_procs s)).2 = seq 0 m) by (unfold all; by rewrite (po_N _ _ Hok)). rewrite Hall.
  destruct (StartSrvs_ok starts (seq 0 m) m _ Hok) as (p1 & E1 & Hok1 & _ & Hr & _); [by eapply starts_ok_ends|].
  destruct (ConnectAll_ok m p1 Hok1) as (p & E & Hok2 & [Hr2 _] & Hc). exists p. rewrite E1. split; [exact E|]. split; [done|].
  intros i Hi. split; [|by apply Hc]. rewrite Hr2, Hr, decide_True; [done|apply elem_of_seq; lia|done].
Qed.

Lemma EGet_old es e j v : (forall j v, e <> EGet j v) -> EGet j v ∈ es ++ [e] -> EGet j v ∈ es.
Proof. intros Hne [?|Heq]%EGet_snoc; [done|by destruct (Hne j v)]. Qed.

Lemma check_finish net m es s starts s' :
  starts_ok starts (seq 0 m) m net -> check_ok net m es s -> exec (EFinish starts) s = Some s' ->
  check_ok net m (es ++ [EFinish starts]) s'.
Proof.
  intros Hfin [K1 K2 K3 K4 K5 K6 K7 K8 K9] He. cbn in He.
  assert (Hsrc : forall j y, c_getters s !! j = Some y -> source (es ++ [EFinish starts]) j y) by (intros; by apply source_snoc, K8).
  destruct (c_pc s) eqn:Hpc; try done. destruct K5 as [Hp _].
  assert (Hans : forall pc p, (pc = CheckReturned \/ exists x, pc = CheckFailed x) -> forall j w, EGet j w ∈ es ++ [EFinish starts] ->
    answer_at (mkCheck p (c_getters s) (c_done s) (c_ndone s) pc) j w).
  { intros pc p Hpc' j w Hin. apply EGet_old in Hin; [|done]. apply K7 in Hin. unfold answer_at in *. cbn. rewrite Hpc in Hin.
    destruct (c_getters s !! j) as [[]|]; try done. destruct Hpc' as [->|[x ->]]; done. }
  destruct (Nat.leb_spec (length ka) (c_ndone s)) as [Hle|Hlt].
  { injection He as <-. split; cbn; try done; [apply Hans; right; by eexists|].
    right. cbn. pose proof (lcount_le_length (fun g => g = Reported) (c_getters s)). lia. }
  destruct (finish_ok net m s starts Hp) as (p & E & Hp' & Hrun); [exact K6|done|].
  rewrite E in He. injection He as <-. split; cbn; try done. apply Hans. by left.
Qed.

Lemma check_step net m es e s s' :
  (forall starts, e = EFinish starts -> starts_ok starts (seq 0 m) m net) ->
  check_ok net m es s -> exec e s = Some s' -> check_ok net m (es ++ [e]) s'.
Proof.
  intros Hfin Hok He. pose proof Hok as [K1 K2 K3 K4 K5 K6 K7 K8 K9].
  assert (Hsrc : forall j y, c_getters s !! j = Some y -> source (es ++ [e]) j y) by (intros; by apply source_snoc, K8).
  assert (Hrep : forall i j y, <[i := Reported]> (c_getters s) !! j = Some y -> source (es ++ [e]) j y).
  { intros i j y [(-> & <- & _)|[_ Hy]]%list_lookup_insert_Some; [done|by apply Hsrc]. }
  destruct e as [i v|i|i| |starts]; cbn in He.
  - destruct (c_getters s !! i) as [[| | | |]|] eqn:Hi; simplify_eq. apply (check_ok_getter net m es _ s i InGet); try done.
    + intros j w [?|[= -> ->]]%EGet_snoc ?; done.
    + intros w [Hin|[= ->]]%EGet_snoc; [apply K7 in Hin; unfold answer_at in Hin; by rewrite Hi in Hin|].
      unfold answer_at. cbn. by rewrite list_lookup_insert_eq by by eapply lookup_lt_Some.
    + apply elem_of_app. right. by left.
  - destruct (c_getters s !! i) as [[|v| | |]|] eqn:Hi; simplify_eq. apply (check_ok_getter net m es _ s i (Got v)); try done.
    + by destruct (c_done s).
    + intros j w Hin _. by apply EGet_old in Hin.
    + intros w Hin. apply EGet_old in Hin; [|done]. apply K7 in Hin. unfold answer_at in *. rewrite Hi in Hin. subst w.
      cbn. rewrite list_lookup_insert_eq by by eapply lookup_lt_Some. by destruct (c_done s).
    + apply Hsrc in Hi. destruct (c_done s); [done|]. by exists v.
  - destruct (c_pc s) eqn:Hpc; try done. destruct (c_getters s !! i) as [[| |err| |]|] eqn:Hi; try done.
    pose proof (lookup_lt_Some _ _ _ Hi) as Hlt.
    assert (Hans : forall j w, EGet j w ∈ es ++ [ERecv i] -> answer_at s j w).
    { intros j w Hin. apply EGet_old in Hin; [|done]. by apply K7 in Hin. }
    assert (Hi' : forall w, EGet i w ∈ es ++ [ERecv i] -> err = get_verdict ka va i w).
    { intros w Hin%Hans. unfold answer_at in Hin. by rewrite Hi in Hin. }
    case_decide as Herr; injection He as <-; split; cbn; rewrite ?length_insert; try done.
    + rewrite (lcount_set i Reported (Sending err)), K2 by done. by rewrite decide_True.
    + unfold group_at in *. cbn. by rewrite Hpc in K5.
    + intros j w Hin. unfold answer_at. cbn. destruct (decide (j = i)) as [->|Hji].
      * rewrite list_lookup_insert_eq by done. apply verdict_ok. by rewrite <-(Hi' w Hin).
      * rewrite list_lookup_insert_ne by done. apply Hans in Hin. unfold answer_at in Hin. by rewrite Hpc in Hin.
    + exact (Hrep i).
    + unfold group_at in *. by destruct K5.
    + intros j w Hin. unfold answer_at. cbn. destruct (decide (j = i)) as [->|Hji].
      * by rewrite list_lookup_insert_eq.
      * rewrite list_lookup_insert_ne by done. apply Hans in Hin. unfold answer_at in Hin. rewrite Hpc in Hin.
        by destruct (c_getters s !! j) as [[]|].
    + exact (Hrep i).
    + left. destruct (Hsrc i _ Hi) as (v & Hv & ->). exists i, v. split; [done|]. by rewrite <-verdict_ok.
  - destruct (c_pc s) eqn:Hpc; try done. injection He as <-. split; cbn; try done.
    + unfold group_at in *. cbn. by rewrite Hpc in K5.
    + intros j w Hin. apply EGet_old in Hin; [|done]. apply K7 in Hin. unfold answer_at in *. cbn. by rewrite Hpc in Hin.
  - apply (check_finish net m es s starts s'); [by apply Hfin|exact Hok|exact He].
Qed.

(** The check as a whole. *)
Lemma check_run_ok m p es s0 s :
  procs_ok m p -> (forall starts, EFinish starts ∈ es -> starts_ok starts (seq 0 m) m (grp p).1) ->
  check_start ka p = Ret s0 -> run exec es s0 = Some s -> check_ok (grp p).1 m es s.
Proof.
  intros Hp Hst H0. revert s. induction es as [|e es IH] using rev_ind; intros s Hr.
  - injection Hr as <-. unfold check_start, Shutdown in H0.
    destruct (Kill_ok m p (all (grp p).2) Hp) as (p' & E & Hp' & _ & Hrun & Hc); [intros i; by rewrite (all_N m) by apply Hp|].
    unfold on_grp in *. rewrite E in H0. injection H0 as <-. split; cbn; try done.
    + by rewrite length_replicate.
    + assert (Hz : lcount (fun g => g = Reported) (replicate (length ka) InGet) = 0); [|by rewrite Hz].
      apply lcount_zero, Forall_forall. by intros g [-> _]%elem_of_replicate.
    + split; [done|]. intros i Hi. rewrite Hrun, Hc, !decide_True; [done|by apply (all_N m); apply Hp || done..].
    + destruct p as [[net sg] g]. destruct Hp as [Hwf HN _ _]. cbn in *.
      destruct (Kill_full (all sg) net sg Hwf) as (net' & sg' & E' & _ & _ & He & _); [intros i; unfold all; rewrite elem_of_seq; lia|].
      rewrite E' in E. by injection E as <-.
    + by intros i v ?%not_elem_of_nil.
    + by intros i x [-> _]%lookup_replicate.
  - apply run_snoc in Hr as (s1 & H1 & H2). apply (check_step _ _ es e s1); [| |done].
    + intros starts ->. apply Hst, elem_of_app. right. by left.
    + apply IH; [|done]. intros starts Hin. apply Hst, elem_of_app. by left.
Qed.

(** C23: [checkShutdownSharding], in every interleaving of its goroutines with the
    tester.  The group is down and cut off while the tester waits for Gets.  When
    the check returns, at least one Get was not reported, those that were had the
    expected values, and the group runs and is connected again; it fails only
    because some Get returned another value or because all of them completed. *)
Theorem shutdown_check m p es s0 s :
  procs_ok m p -> (forall starts, EFinish starts ∈ es -> starts_ok starts (seq 0 m) m (grp p).1) ->
  check_start ka p = Ret s0 -> run exec es s0 = Some s ->
  match c_pc s with
  | Selecting | TimedOut => forall i, i < m -> running (c_procs s) i = false /\ conn (grp (c_procs s)).2 i = false
  | CheckReturned =>
      (exists i, i < length ka /\ c_getters s !! i <> Some Reported) /\
      (forall i v, EGet i v ∈ es -> c_getters s !! i = Some Reported -> va !! i = Some v) /\
      (forall i, i < m -> running (c_procs s) i = true /\ conn (grp (c_procs s)).2 i = true)
  | CheckFailed _ => (exists i v, EGet i v ∈ es /\ va !! i <> Some v) \/ c_ndone s = length ka
  end.
Proof.
  intros Hp Hst H0 Hr. destruct (check_run_ok m p es s0 s Hp Hst H0 Hr) as [K1 K2 K3 K4 [_ K5] K6 K7 K8 K9].
  destruct (c_pc s) eqn:Hpc; [done|done|exact K9|]. split; [|split; [|done]].
  - assert (Hlt : lcount (fun g => g = Reported) (c_getters s) < length (c_getters s)) by (rewrite <-K2, K1; by apply K3).
    destruct (decide (Forall (fun g => g = Reported) (c_getters s))) as [Hall|Hno].
    + exfalso. assert (H : lcount (fun g => g = Reported) (c_getters s) = length (c_getters s)); [|lia].
      clear -Hall. induction Hall as [|g l -> _ IH]; [done|]. rewrite lcount_cons, decide_True by done. cbn. by rewrite IH.
    + apply not_Forall_Exists, Exists_exists in Hno as (g & Hin & Hg); [|apply _]. apply list_elem_of_lookup in Hin as [i Hi].
      exists i. rewrite <-K1. split; [by eapply lookup_lt_Some|]. rewrite Hi. intros [= ->]. by apply Hg.
  - intros i v Hin Hi. apply K7 in Hin. unfold answer_at in Hin. by rewrite Hi, Hpc in Hin.
Qed.

(** A goroutine that has looked at [done] before the timeout and not sent yet is
    blocked for ever: nobody receives any more. *)
Lemma late_getter_blocked i err es s s' :
  c_pc s <> Selecting -> c_getters s !! i = Some (Sending err) -> run exec es s = Some s' -> c_getters s' !! i = Some (Sending err).
Proof.
  intros Hpc Hi Hr. refine (proj2 (run_invariant exec (fun s => c_pc s <> Selecting /\ c_getters s !! i = Some (Sending err)) _ es s s' (conj Hpc Hi) Hr)).
  clear. intros e s s' [Hpc Hi] He. destruct e as [j v|j|j| |starts]; cbn in He.
  - destruct (c_getters s !! j) as [[| | | |]|] eqn:Hj; simplify_eq. split; [done|]. cbn. rewrite list_lookup_insert_ne; [done|congruence].
  - destruct (c_getters s !! j) as [[| | | |]|] eqn:Hj; simplify_eq. split; [done|]. cbn. rewrite list_lookup_insert_ne; [done|congruence].
  - by destruct (c_pc s).
  - by destruct (c_pc s).
  - destruct (c_pc s); try done. destruct (_ <=? _); [by injection He as <-|]. destruct (StartSrvs _ _ _); cbn in He; [destruct (on_grp _ _)|..]; by injection He as <-.
Qed.
End Checking.

(** ** Witnesses *)

Definition demo_keys : list string := ["x"; "y"].
Definition demo_vals : list string := ["1"; "2"].

(** Key x is found in another group; nothing is heard of key y, which returns
    just when the tester stops waiting. *)
Definition demo_check (last : list check_event) : list check_event :=
  [EGet 0 "1"; ELoad 0; ERecv 0; EGet 1 "2"; ELoad 1; ETimeout; EFinish (demo_ends "d")] ++ last.

Definition demo_procs : outcome procs :=
  t ← makeTest demo_group (demo_ends "b") MakeNetwork; Ret (rt_procs t).

Definition demo_end : outcome (option (check_pc * list getter)) :=
  p ← demo_procs; s0 ← check_start demo_keys p;
  Ret ((fun s => (c_pc s, c_getters s)) <$> run (check_exec demo_keys demo_vals) (demo_check []) s0).

Example demo_check_returns : demo_end = Ret (Some (CheckReturned, [Reported; Sending ""])).
Proof. by vm_compute. Qed.

Lemma demo_procs_ok p : demo_procs = Ret p -> procs_ok 3 p.
Proof.
  destruct (makeTest_ok demo_group (demo_ends "b") MakeNetwork demo_fresh) as (t & E & Hok). unfold demo_procs. rewrite E.
  intros [= <-]. exact (rt_group _ _ Hok).
Qed.

Lemma shutdown_check_witness :
  exists p s0 s, demo_procs = Ret p /\ check_start demo_keys p = Ret s0 /\ run (check_exec demo_keys demo_vals) (demo_check []) s0 = Some s /\
  match c_pc s with
  | Selecting | TimedOut => forall i, i < 3 -> running (c_procs s) i = false /\ conn (grp (c_procs s)).2 i = false
  | CheckReturned =>
      (exists i, i < length demo_keys /\ c_getters s !! i <> Some Reported) /\
      (forall i v, EGet i v ∈ demo_check [] -> c_getters s !! i = Some Reported -> demo_vals !! i = Some v) /\
      (forall i, i < 3 -> running (c_procs s) i = true /\ conn (grp (c_procs s)).2 i = true)
  | CheckFailed _ => (exists i v, EGet i v ∈ demo_check [] /\ demo_vals !! i <> Some v) \/ c_ndone s = length demo_keys
  end.
Proof.
  pose proof demo_check_returns as H. unfold demo_end in H. destruct demo_procs as [p| |] eqn:Ep; [|discriminate H..].
  cbn [mbind outcome_bind] in H. destruct (check_start demo_keys p) as [s0| |] eqn:E0; [|discriminate H..]. cbn [mbind outcome_bind] in H.
  destruct (run _ _ s0) as [s|] eqn:Er; [|discriminate H]. exists p, s0, s. split; [exact eq_refl|]. split; [exact E0|]. split; [exact Er|].
  apply (shutdown_check demo_keys demo_vals 3 p (demo_check []) s0 s (demo_procs_ok p Ep)); [|exact E0|exact Er].
  intros starts Hin.
  assert (Hall : Forall (fun e => match e with EFinish st => st = demo_ends "d" | _ => True end) (demo_check [])) by by repeat constructor.
  rewrite Forall_forall in Hall. pose proof (Hall _ Hin) as Heq. cbn in Heq.
  rewrite Heq. apply starts_okb_ok.
  assert (Hb : match demo_procs with Ret p => starts_okb (demo_ends "d") (seq 0 3) 3 (grp p).1 | _ => false end = true) by by vm_compute.
  rewrite Ep in Hb. exact Hb.
Defined.
End KvRun.
