(* ===== verification/CtrlTest.v ===== *)
(** * CtrlTest: the tests in which shard controllers compete

    [src/src/shardkv1/test.go], [concurCtrler] and [partitionCtrler]: goroutines
    that make groups join and leave, each with a controller of its own, over one
    stored configuration, interleaved step by step.  The controller is
    [ShardTest]'s interface.  "While the controller changes the configuration it
    may be superseded by another controller": a call of [ChangeConfigTo] takes
    effect at most once, at any time before it returns or not at all, and only
    for the configuration that comes after the stored one ([Apply]); a recovery
    by another controller is such a time too.  [joinGroups] and [leaveGroups] are
    taken apart into their calls; their sleeps are the steps of the others. *)

From S2P Require Import Prelude LabRpc Tester Config ShardCfg ShardTest TestRun.
From stdpp Require Import base gmap list strings.
From Stdlib Require Import ZArith Lia.
From stdpp Require Import list.

Module CtrlTest.
Import LabRpc ShardCfg ShardTest.

#[local] Arguments bool_decide _ {_} : simpl never.
#[local] Arguments JoinBalance : simpl never.
#[local] Arguments LeaveBalance : simpl never.

(** ** A goroutine *)

(** Where it is: at the head of its loop; with a new number; before
    [MakeGroupStart]; before the [Query] of [join]; in [ChangeConfigTo]; before
    [joinGroups]'s and its own [checkMember]; before the [Query] of [leave]; in
    [ChangeConfigTo]; before [leaveGroups]'s [checkMember] and [ExitGroup]. *)
Inductive pc :=
  | PNew
  | PGot (gid : Z)
  | PMake (gid : Z)
  | PJoin (gid : Z) (srvs : list string)
  | PChangeJ (gid : Z) (new : ShardConfig)
  | PCheckJ (gid : Z)
  | PCheck (gid : Z)
  | PLeave (gid : Z)
  | PChangeL (gid : Z) (new : ShardConfig)
  | PCheckL (gid : Z)
  | PExit (gid : Z)
  | PStopped
  | PFailed (msg : string).

Section Ctrlers.
Context {C : Type} `{!Ctrler C, !Supply}.
Implicit Types (t : test C).

(** [partitionCtrler]'s goroutine returns when its group is no member
    ([stops]); [concurCtrler]'s goes on with the next one. *)
Definition go_step (stops : bool) (p : pc) t : option (outcome (test C * pc)) :=
  match p with
  | PNew => let '(t, gid) := newGid t in Some (Ret (t, PGot gid))
  | PGot gid => Some (Ret (t, PMake gid))
  | PMake gid => Some (t ← MakeGroupStart gid t; srvs ← Group_SrvNames gid t; Ret (t, PJoin gid srvs))
  | PJoin gid srvs =>
      let '(c, cfg) := Query (t_sck t) in
      Some (r ← JoinBalance [(gid, srvs)] (copy_config cfg);
        if r.1 : bool then Ret (set_sck c t, PChangeJ gid r.2) else Fatal "join: group is already present")
  | PChangeJ gid _ => Some (Ret (t, PCheckJ gid))
  | PCheckJ gid => let '(t, _) := checkMember gid t in Some (Ret (t, PCheck gid))
  | PCheck gid =>
      let '(t, ok) := checkMember gid t in
      Some (Ret (t, if ok : bool then PLeave gid else if stops then PStopped else PNew))
  | PLeave gid =>
      let '(c, cfg) := Query (t_sck t) in
      Some (r ← LeaveBalance [gid] (copy_config cfg);
        if r.1 : bool then Ret (set_sck c t, PChangeL gid r.2) else Fatal "leave: group is already not present")
  | PChangeL gid _ => Some (Ret (t, PCheckL gid))
  | PCheckL gid => let '(t, ok) := checkMember gid t in Some (Ret (t, if ok : bool then PNew else PExit gid))
  | PExit gid => Some (ng ← Config.ExitGroup gid (t_net t, t_groups t); Ret (set_groups ng t, PNew))
  | PStopped | PFailed _ => None
  end.

(** The configuration a call of [ChangeConfigTo] is to store. *)
Definition changing (p : pc) : option ShardConfig :=
  match p with PChangeJ _ new | PChangeL _ new => Some new | _ => None end.

(** ** concurCtrler *)

Record world := mkWorld { w_t : test C; w_pcs : list pc }.

(** [Stop]: the goroutine receives from [ch] at the head of its loop. *)
Inductive event := Go (i : nat) | Apply (i : nat) | Stop (i : nat).

Definition run_go (stops : bool) (i : nat) (w : world) : option world :=
  p ← w_pcs w !! i;
  o ← go_step stops p (w_t w);
  Some (match o with
        | Ret (t, p) => mkWorld t (<[i := p]> (w_pcs w))
        | Panic msg | Fatal msg => mkWorld (w_t w) (<[i := PFailed msg]> (w_pcs w))
        end).

Definition run_apply (i : nat) (w : world) : option world :=
  p ← w_pcs w !! i;
  new ← changing p;
  let c := t_sck (w_t w) in
  if decide (Num new = (Num (current c) + 1)%Z)
  then Some (mkWorld (set_sck (ChangeConfigTo new c) (w_t w)) (w_pcs w))
  else None.

Definition concur_exec (e : event) (w : world) : option world :=
  match e with
  | Go i => run_go false i w
  | Apply i => run_apply i w
  | Stop i => match w_pcs w !! i with Some PNew => Some (mkWorld (w_t w) (<[i := PStopped]> (w_pcs w))) | _ => None end
  end.

(** [n] goroutines. *)
Definition concur_start (n : nat) t : world := mkWorld t (replicate n PNew).

(** ** partitionCtrler *)

Definition JOIN : Z := 1.
Definition LEAVE : Z := 2.

(** The tester: its goroutine runs; the servers of the group [down] are shut
    down; the first controller is cut off; the servers run again and the second
    controller is in [InitController]; the check has passed and a group is to
    leave; done; the first controller is connected again; failed. *)
Inductive main_pc := MRunning | MDown | MCut | MBack | MLeaving | MPassed | MHealed | MFailed (msg : string).

#[export] Instance main_pc_eq_dec : EqDecision main_pc.
Proof. solve_decision. Defined.

(** The goroutine, and the variables it shares with the tester. *)
Record part := mkPart { p_w : world; p_ngid : Z; p_state : Z; p_num : Z; p_main : main_pc }.

Inductive part_event := EGo | EApply | EShutdown | ECut | EStart (starts : nat -> list string * nat) | ECheck | ELeave | EHeal.

(** Whether the first controller's calls get through. *)
Definition connected_main (m : main_pc) : bool := match m with MRunning | MDown | MHealed => true | _ => false end.
Definition calls (p : pc) : bool :=
  match p with PJoin _ _ | PChangeJ _ _ | PCheckJ _ | PCheck _ | PLeave _ | PChangeL _ _ | PCheckL _ => true | _ => false end.

(** What a step from [p] to [p'] assigns to [ngid] and [state]. *)
Definition set_vars (p p' : pc) t (v : Z * Z) : Z * Z :=
  match p, p' with
  | PNew, _ => (t_ngid t, v.2)
  | PGot _, _ => (v.1, JOIN)
  | PCheck _, PLeave _ => (v.1, LEAVE)
  | _, _ => v
  end.

(** The tester's conditions on the configuration it finds: whether it has to
    clean up. *)
Definition recovered (num state ngid : Z) (cfg : ShardConfig) : outcome bool :=
  if (Num cfg <=? num)%Z then Fatal "didn't recover"
  else
    let present := IsMember cfg ngid in
    if (state =? JOIN)%Z && negb present || (state =? LEAVE)%Z && present then Fatal "didn't recover correctly"
    else Ret ((state =? JOIN)%Z && present).

Definition set_main (m : main_pc) (s : part) : part := mkPart (p_w s) (p_ngid s) (p_state s) (p_num s) m.
(** What the tester does to the groups and the controller. *)
Definition on_t (o : outcome (test C)) (m : main_pc) (s : part) : part :=
  match o with
  | Ret t => mkPart (mkWorld t (w_pcs (p_w s))) (p_ngid s) (p_state s) (p_num s) m
  | Panic msg | Fatal msg => set_main (MFailed msg) s
  end.
Definition with_group (gid : Z) (f : Tester.state -> outcome Tester.state) t : outcome (test C) :=
  ng ← Config.on_group gid f (t_net t, t_groups t); Ret (set_groups ng t).

(** [down]: the group the tester shuts down; [partition]: [ts.partition]. *)
Definition part_exec (down : Z) (partition : bool) (e : part_event) (s : part) : option part :=
  let t := w_t (p_w s) in
  match e, p_main s with
  | EGo, m =>
      p ← w_pcs (p_w s) !! 0;
      if calls p && negb (connected_main m) then None
      else
        w ← run_go true 0 (p_w s);
        p' ← w_pcs w !! 0;
        let v := set_vars p p' t (p_ngid s, p_state s) in Some (mkPart w v.1 v.2 (p_num s) m)
  | EApply, m => w ← run_apply 0 (p_w s); Some (mkPart w (p_ngid s) (p_state s) (p_num s) m)
  | EShutdown, MRunning => Some (on_t (with_group down Tester.Shutdown t) MDown s)
  | ECut, MDown => Some (set_main MCut s)
  | EStart starts, MCut => Some (on_t (with_group down (Config.StartServers starts) t) MBack s)
  | ECheck, MBack =>
      let '(c, cfg) := Query (t_sck t) in
      let s := on_t (Ret (set_sck c t)) MBack s in
      Some (set_main (match recovered (p_num s) (p_state s) (p_ngid s) cfg with
                      | Ret true => MLeaving
                      | Ret false => MPassed
                      | Panic msg | Fatal msg => MFailed msg
                      end) s)
  | ELeave, MLeaving => Some (on_t (r ← leaveGroups [p_ngid s] t; Ret r.1) MPassed s)
  | EHeal, MPassed => if partition then Some (set_main MHealed s) else None
  | _, _ => None
  end.

(** [num]: the configuration when the test starts. *)
Definition part_start t : part := let '(c, cfg) := Query (t_sck t) in mkPart (mkWorld (set_sck c t) [PNew]) 0 0 (Num cfg) MRunning.

End Ctrlers.
Arguments world : clear implicits.
Arguments part : clear implicits.

(** ** The invariant *)

Section Invariant.
Context {C : Type} `{!Ctrler C, !CtrlerLaws C, !Supply}.
Implicit Types (t : test C) (w : world C).

Notation cur t := (current (t_sck t)).
Definition running t (gid : Z) : Prop := is_Some (t_groups t !! gid).
Definition member t (gid : Z) : Prop := is_Some (Groups (cur t) !! gid).
Definition owns t (gid : Z) : Prop := gid ∈ Shards (cur t).
#[export] Instance owns_dec t gid : Decision (owns t gid).
Proof. unfold owns. apply _. Defined.

(** The group a goroutine is at work on, and whether it is still to be made. *)
Definition gid_of (p : pc) : option Z :=
  match p with
  | PGot g | PMake g | PJoin g _ | PChangeJ g _ | PCheckJ g | PCheck g | PLeave g | PChangeL g _ | PCheckL g | PExit g => Some g
  | PNew | PStopped | PFailed _ => None
  end.
Definition unmade (p : pc) : option Z := match p with PGot g | PMake g => Some g | _ => None end.
Definition pend (pcs : list pc) (gid : Z) : Prop := exists i p, pcs !! i = Some p /\ unmade p = Some gid.

(** [new] is at most the next configuration; and if it is the next one, [P]. *)
Definition next_or_old t (new : ShardConfig) (P : Prop) : Prop :=
  (Num new <= Num (cur t) + 1)%Z /\ (Num new = (Num (cur t) + 1)%Z -> good_config new /\ unowned_if_empty new /\ P).

Definition pc_ok t (p : pc) : Prop :=
  (forall g, gid_of p = Some g -> (Gid1 < g < t_ngid t)%Z) /\
  match p with
  | PNew | PStopped | PCheckJ _ | PCheck _ => True
  | PFailed _ => False
  | PGot g | PMake g => ~ running t g
  | PJoin g srvs => running t g /\ ~ member t g /\ srvs = group_srvs g
  | PChangeJ g new =>
      next_or_old t new (running t g /\ ~ member t g /\ Groups new = <[g := group_srvs g]> (Groups (cur t)) /\ keeps (cur t) new)
  | PLeave g => member t g /\ owns t g
  | PChangeL g new =>
      running t g /\ (member t g -> owns t g) /\
      next_or_old t new (Groups new = delete g (Groups (cur t)) /\
        forall g', g' <> g -> member t g' -> owns t g' -> g' ∈ Shards new)
  | PCheckL g => running t g /\ (member t g -> owns t g)
  | PExit g => running t g /\ ~ member t g
  end.

(** [up]: the groups whose servers nobody has shut down: they are on the network
    exactly while the group runs.  [pd]: numbers whose group is not made yet. *)
Record t_ok (up pd : Z -> Prop) t : Prop := {
  tk_good : good_config (cur t);
  tk_unowned : unowned_if_empty (cur t);
  tk_members gid srvs : Groups (cur t) !! gid = Some srvs -> (1 <= gid)%Z /\ srvs = group_srvs gid /\ running t gid;
  tk_groups gid sg : (1 <= gid)%Z -> t_groups t !! gid = Some sg -> (gid < t_ngid t)%Z /\ Config.group_ok gid NSRV sg;
  tk_up gid sn : up gid -> (1 <= gid)%Z -> sn ∈ group_srvs gid -> is_Some (server_at (t_net t) sn) <-> running t gid;
  tk_fresh gid e : (t_ngid t <= gid)%Z \/ pd gid -> e ∈ ends_of gid -> e ∉ ends (t_net t);
  tk_first : member t Gid1;
  tk_ngid : (Gid1 < t_ngid t)%Z }.

Record world_ok (up : Z -> Prop) w : Prop := {
  wo_t : t_ok up (pend (w_pcs w)) (w_t w);
  wo_pcs i p : w_pcs w !! i = Some p -> pc_ok (w_t w) p;
  wo_distinct i j p q g : w_pcs w !! i = Some p -> w_pcs w !! j = Some q -> gid_of p = Some g -> gid_of q = Some g -> i = j }.

(** What a step on group [g] leaves alone. *)
Record moves (g : Z) t t' : Prop := {
  mv_ngid : (t_ngid t <= t_ngid t')%Z;
  mv_cur : cur t' = cur t \/ Num (cur t') = (Num (cur t) + 1)%Z;
  mv_running g' : g' <> g -> running t' g' <-> running t g';
  mv_member g' : g' <> g -> member t' g' <-> member t g';
  mv_owns g' : g' <> g -> member t g' -> owns t g' -> owns t' g' }.

Lemma next_or_old_moves g t t' new (P : Prop) :
  moves g t t' -> next_or_old t new P -> next_or_old t' new (cur t' = cur t /\ P).
Proof.
  intros [_ M2 _ _] [H1 H2]. unfold next_or_old. destruct M2 as [M2|M2]; rewrite M2; [|split; lia]. split; [done|].
  intros Hnum. destruct (H2 Hnum) as (? & ? & ?). by split_and!.
Qed.

Lemma next_or_old_weaken t new (P Q : Prop) : (P -> Q) -> next_or_old t new P -> next_or_old t new Q.
Proof. unfold next_or_old. tauto. Qed.

Lemma pc_ok_frame g t t' q : moves g t t' -> gid_of q <> Some g -> pc_ok t q -> pc_ok t' q.
Proof.
  intros Hm Hq [Hr Hok]. pose proof Hm as [M1 M2 M3 M4 M5]. split; [intros g' Hg'; specialize (Hr g' Hg'); lia|].
  assert (Hown : forall g', g' <> g -> (member t g' -> owns t g') -> member t' g' -> owns t' g').
  { intros g' Hne Ho Hmem. apply M4 in Hmem; [|done]. by apply M5, Ho. }
  assert (Hne : forall g', gid_of q = Some g' -> g' <> g) by (intros g' Hq' ->; congruence).
  destruct q as [|g0|g0|g0 srvs|g0 new|g0|g0|g0|g0 new|g0|g0| |]; cbn in *; try done;
    try (rewrite ?M3, ?M4 by (by apply Hne); done); specialize (Hne g0 eq_refl).
  - eapply next_or_old_weaken; [|exact (next_or_old_moves g t t' new _ Hm Hok)]. intros (-> & ? & ? & ? & ?). by rewrite M3, M4.
  - destruct Hok as [Hmem Ho]. split; [by apply M4|by apply M5].
  - destruct Hok as (Hrun & Ho & Hnext). split; [by apply M3|]. split; [by apply Hown|].
    eapply next_or_old_weaken; [|exact (next_or_old_moves g t t' new _ Hm Hnext)]. intros (Hc & HG & Hk).
    unfold member, owns in *. by rewrite Hc.
  - destruct Hok as [Hrun Ho]. split; [by apply M3|by apply Hown].
Qed.

Lemma t_ok_pend up (pd pd' : Z -> Prop) t : (forall g, pd' g -> pd g) -> t_ok up pd t -> t_ok up pd' t.
Proof. intros Hpd []. split; try done. intros g e [Hg|Hg]; eauto. Qed.

Lemma pend_insert i p p' pcs g :
  pcs !! i = Some p -> pend (<[i := p']> pcs) g -> unmade p' = Some g \/ exists j q, j <> i /\ pcs !! j = Some q /\ unmade q = Some g.
Proof.
  intros Hi (j & q & Hj & Hq). apply list_lookup_insert_Some in Hj as [(-> & -> & _)|[Hne Hj]]; [by left|]. right. by exists j, q.
Qed.

(** A goroutine's step on its group, or on a new one. *)
Lemma world_ok_step up i p p' w t' g :
  world_ok up w -> w_pcs w !! i = Some p -> moves g (w_t w) t' ->
  (forall j q, j <> i -> w_pcs w !! j = Some q -> gid_of q <> Some g) ->
  (gid_of p' = None \/ gid_of p' = Some g) -> pc_ok t' p' -> t_ok up (pend (<[i := p']> (w_pcs w))) t' ->
  world_ok up (mkWorld t' (<[i := p']> (w_pcs w))).
Proof.
  intros [Ht Hp Hd] Hi Hm Ho Hg' Hp' Ht'. split; cbn; [done| |].
  - intros j q Hj. apply list_lookup_insert_Some in Hj as [(-> & -> & _)|[Hne Hj]]; [done|].
    apply (pc_ok_frame g (w_t w)); [done| |by eapply Hp]. eapply Ho; [by apply not_eq_sym|done].
  - intros j k q r g' Hj Hk Hq Hr.
    apply list_lookup_insert_Some in Hj as [(<- & -> & _)|[Hnj Hj]], Hk as [(<- & -> & _)|[Hnk Hk]]; [done| | |by eapply Hd].
    + destruct Hg' as [Hg'|Hg']; [congruence|]. destruct (Ho k r); [done..|congruence].
    + destruct Hg' as [Hg'|Hg']; [congruence|]. destruct (Ho j q); [done..|congruence].
Qed.

Lemma moves_refl g t : moves g t t.
Proof. split; try done. by left. Qed.

Lemma others_distinct up w i p g :
  world_ok up w -> w_pcs w !! i = Some p -> gid_of p = Some g ->
  forall j q, j <> i -> w_pcs w !! j = Some q -> gid_of q <> Some g.
Proof. intros Hok Hi Hp j q Hne Hj Hq. apply Hne. by apply (wo_distinct _ _ Hok j i q p g). Qed.

(** ** The steps on the tester's state *)

Lemma t_ok_newGid up pd t : t_ok up pd t -> t_ok up (fun g => pd g \/ g = t_ngid t) (newGid t).1.
Proof.
  intros [K1 K2 K3 K4 K5 K6 K7 K8]. split; cbn; try done.
  - intros g sg Hg Hsg. destruct (K4 g sg Hg Hsg). split; [lia|done].
  - intros g e Hg. apply K6. destruct Hg as [Hg|[Hg| ->]]; [left; lia|by right|left; lia].
  - lia.
Qed.

Lemma t_ok_sck up pd c t : current c = cur t -> t_ok up pd t -> t_ok up pd (set_sck c t).
Proof. intros Hc [K1 K2 K3 K4 K5 K6 K7 K8]. split; unfold member, running in *; cbn; rewrite ?Hc; done. Qed.

Lemma moves_sck g c t : current c = cur t -> moves g t (set_sck c t).
Proof. intros Hc. split; cbn; [lia|by left|done| |]; intros g' _; unfold member, owns; cbn; by rewrite Hc. Qed.

Lemma pc_ok_sck c t p : current c = cur t -> pc_ok t p -> pc_ok (set_sck c t) p.
Proof. intros Hc. unfold pc_ok, member, owns, running, next_or_old. cbn. by rewrite Hc. Qed.

Lemma t_ok_make up pd g t :
  supply_ok -> t_ok up pd t -> (Gid1 < g < t_ngid t)%Z -> pd g -> ~ running t g ->
  exists t', MakeGroupStart g t = Ret t' /\ Group_SrvNames g t' = Ret (group_srvs g) /\ t_sck t' = t_sck t /\
    t_ngid t' = t_ngid t /\ (forall g', running t' g' <-> g' = g \/ running t g') /\ t_ok up (fun g' => pd g' /\ g' <> g) t'.
Proof.
  intros Hsup [K1 K2 K3 K4 K5 K6 K7 K8] Hg Hpd Hnr. unfold Gid1 in *.
  destruct (Config.MakeGroupStart_spec g (names g) (starts g) (t_net t) (t_groups t)) as (net & sg & E & Hgrp & _ & He & Hup & Hoth).
  { apply Hsup. } { intros e Hin. apply (K6 g); [by right|done]. } { intros i. rewrite (so_len Hsup). apply (so_starts Hsup). }
  rewrite (so_len Hsup) in *.
  assert (Hrun : forall g', is_Some (<[g := sg]> (t_groups t) !! g') <-> g' = g \/ running t g').
  { intros g'. destruct (decide (g = g')) as [<-|Hne]; [rewrite lookup_insert_eq; split; [by left|by eexists]|].
    rewrite lookup_insert_ne by done. split; [by right|by intros [->|?]]. }
  exists (mkTest (t_sck t) net (<[g := sg]> (t_groups t)) (t_ngid t)).
  split; [unfold MakeGroupStart; by rewrite E|]. split; [unfold Group_SrvNames; cbn; rewrite lookup_insert_eq; by rewrite (SrvNames_ok g)|].
  split; [done|]. split; [done|]. split; [exact Hrun|]. split; cbn; try done.
  - intros g' srvs Hm. destruct (K3 g' srvs Hm) as (H1 & H2 & H3). split_and!; [done..|]. apply Hrun. by right.
  - intros g' sg' Hg' [[-> <-]|[_ Hsg]]%lookup_insert_Some; [split; [lia|done]|by apply K4].
  - intros g' sn Hu Hg' Hsn. unfold running. cbn. rewrite Hrun. destruct (decide (g' = g)) as [->|Hne].
    + apply elem_of_group_srvs in Hsn as (i & Hi & ->). rewrite Hup by done. split; [by left|by eexists].
    + rewrite Hoth; [rewrite (K5 g' sn) by done; split; [by right|by intros [|]]|].
      intros i Hi ->. apply Hne, (other_group g' g i); [lia|lia|done|]. apply elem_of_group_srvs in Hsn as (j & Hj & Heq).
      apply ServerName_inj2 in Heq as [<- _]; [|lia|lia]. done.
  - intros g' e Hg' He'. rewrite He, not_elem_of_union, not_elem_of_list_to_set. split.
    + intros Hin. assert (g' = g) as -> by exact (so_disjoint Hsup _ _ _ He' Hin). destruct Hg' as [|[]]; [lia|done].
    + apply (K6 g'); [|done]. destruct Hg' as [|[]]; [by left|by right].
Qed.

Lemma t_ok_exit up pd g t :
  t_ok up pd t -> (Gid1 < g)%Z -> running t g -> ~ member t g ->
  exists ng, Config.ExitGroup g (t_net t, t_groups t) = Ret ng /\ (forall g', running (set_groups ng t) g' <-> g' <> g /\ running t g') /\
    t_ok up pd (set_groups ng t).
Proof.
  intros [K1 K2 K3 K4 K5 K6 K7 K8] Hg [sg Hsg] Hnm. unfold Gid1 in *. destruct (K4 g sg ltac:(lia) Hsg) as [Hlt Hgrp].
  pose proof Hgrp as (_ & HN & _). destruct (Config.ExitGroup_spec g (t_net t) (t_groups t) sg Hsg) as (net & E & He & Hsv); [by rewrite HN|].
  rewrite HN in Hsv. exists (net, delete g (t_groups t)). split; [done|].
  assert (Hrun : forall g', is_Some (delete g (t_groups t) !! g') <-> g' <> g /\ running t g').
  { intros g'. rewrite lookup_delete_is_Some. naive_solver. }
  split; [exact Hrun|]. split; cbn; rewrite ?He; try done.
  - intros g' srvs Hm. destruct (K3 g' srvs Hm) as (H1 & H2 & H3). split_and!; [done..|]. apply Hrun. split; [|done].
    intros ->. apply Hnm. by eexists.
  - intros g' sg' Hg' [_ Hs]%lookup_delete_Some. by apply K4.
  - intros g' sn Hu Hg' Hsn. unfold running. cbn. rewrite Hrun, Hsv. fold (group_srvs g). destruct (decide (g' = g)) as [->|Hne].
    + rewrite decide_True by done. split; [by intros []|naive_solver].
    + rewrite decide_False, (K5 g' sn) by (done || intros Hin; apply Hne, (group_srvs_disjoint g' g sn); lia || done). naive_solver.
Qed.

(** A new configuration is stored. *)
Lemma t_ok_store up pd g c new t :
  t_ok up pd t -> (Gid1 < g)%Z -> current c = new -> good_config new -> unowned_if_empty new ->
  (running t g /\ Groups new = <[g := group_srvs g]> (Groups (cur t)) \/ Groups new = delete g (Groups (cur t))) ->
  t_ok up pd (set_sck c t).
Proof.
  intros [K1 K2 K3 K4 K5 K6 K7 K8] Hg Hc Hgood Hu HG. unfold Gid1 in *. split; unfold member, running in *; cbn; rewrite ?Hc; try done.
  - intros g' srvs Hs. destruct HG as [[Hr HG]|HG]; rewrite HG in Hs.
    + apply lookup_insert_Some in Hs as [[<- <-]|[_ Hs]]; [split; [lia|done]|by apply K3].
    + apply lookup_delete_Some in Hs as [_ Hs]. by apply K3.
  - destruct HG as [[_ ->]| ->]; [by rewrite lookup_insert_ne by (unfold Gid1; lia)|by rewrite lookup_delete_ne by (unfold Gid1; lia)].
Qed.

(** ** A goroutine's steps *)

(** [checkMember] looks for the group among the owners of shards. *)
Lemma checkMember_owns g t : exists c, checkMember g t = (set_sck c t, bool_decide (owns t g)) /\ current c = cur t.
Proof.
  unfold checkMember. destruct (Query (t_sck t)) as [c cfg] eqn:Hq. destruct (Query_current _ _ _ Hq) as [-> Hc].
  exists c. split; [|done]. f_equal. apply eq_bool_prop_intro. rewrite bool_decide_spec. unfold IsMember, owns.
  rewrite Is_true_true, existsb_exists. split.
  - intros (x & Hin & ->%Z.eqb_eq). by apply list_elem_of_In.
  - intros Hin. exists g. split; [by apply list_elem_of_In|apply Z.eqb_refl].
Qed.

Lemma owns_member up pd t g : t_ok up pd t -> owns t g -> member t g.
Proof.
  intros Hok Ho. apply (good_assigned _ (tk_good _ _ _ Hok)); [|done].
  destruct (tk_first _ _ _ Hok) as [s Hs]. destruct (decide (size (Groups (cur t)) = 0)) as [Hz|]; [|lia].
  apply map_size_empty_inv in Hz. by rewrite Hz in Hs.
Qed.

(** What a step at [p] on group [g] does: it ends at [p'] in [t']. *)
Record stepped (up pd : Z -> Prop) (g : Z) (p p' : pc) t t' : Prop := {
  sd_moves : moves g t t';
  sd_gid : gid_of p' = None \/ gid_of p' = Some g;
  sd_pc : pc_ok t' p';
  sd_t : t_ok up (fun g' => pd g' /\ unmade p <> Some g' \/ unmade p' = Some g') t' }.

(** A step that only asks the controller. *)
Lemma stepped_sck up pd g p p' c t :
  t_ok up pd t -> current c = cur t -> (gid_of p' = None \/ gid_of p' = Some g) -> pc_ok t p' ->
  (forall g', unmade p' = Some g' -> pd g') -> stepped up pd g p p' t (set_sck c t).
Proof.
  intros Hok Hc Hg Hp Hpd. split; [by apply moves_sck|done|by apply pc_ok_sck|].
  apply t_ok_sck; [done|]. eapply t_ok_pend; [|exact Hok]. intros g' [[? _]|]; auto.
Qed.

Lemma stepped_same up pd g p p' t :
  t_ok up pd t -> (gid_of p' = None \/ gid_of p' = Some g) -> pc_ok t p' ->
  (forall g', unmade p' = Some g' -> pd g') -> stepped up pd g p p' t t.
Proof.
  intros Hok Hg Hp Hpd. split; [apply moves_refl|done|done|]. eapply t_ok_pend; [|exact Hok]. intros g' [[? _]|]; auto.
Qed.

(** The next configuration, when a group that runs joins or a member leaves. *)
Lemma join_next up pd g t :
  t_ok up pd t -> (Gid1 < g)%Z -> ~ member t g ->
  exists new, JoinBalance [(g, group_srvs g)] (cur t) = Ret (true, new) /\ Num new = (Num (cur t) + 1)%Z /\
    next_or_old t new (Groups new = <[g := group_srvs g]> (Groups (cur t)) /\ keeps (cur t) new).
Proof.
  intros Hok Hg Hnm. unfold Gid1 in Hg. destruct (JoinBalance_one g (group_srvs g) (cur t)) as (new & E & Hgood & HN & HG & Hu & Hk).
  - apply Hok.
  - unfold member in Hnm. by apply eq_None_not_Some.
  - intros g' s x Hs Hx Hx'. destruct (tk_members _ _ _ Hok g' s Hs) as (Hr & -> & _).
    assert (g' = g) as -> by (apply (group_srvs_disjoint g' g x); lia || done). apply Hnm. by eexists.
  - exists new. split; [done|]. split; [done|]. split; [lia|done].
Qed.

Lemma leave_next up pd g t :
  t_ok up pd t -> member t g ->
  exists new, LeaveBalance [g] (cur t) = Ret (true, new) /\ Num new = (Num (cur t) + 1)%Z /\
    next_or_old t new (Groups new = delete g (Groups (cur t)) /\
    forall g', g' <> g -> member t g' -> owns t g' -> g' ∈ Shards new).
Proof.
  intros Hok Hm. destruct (LeaveBalance_one g (cur t)) as (new & E & Hgood & HN & HG & Hu & Hk); [apply Hok|done|].
  exists new. split; [done|]. split; [done|]. split; [lia|done].
Qed.

Lemma go_step_ok stops up pd p t o :
  supply_ok -> t_ok up pd t -> pc_ok t p -> (forall g, unmade p = Some g -> pd g) ->
  go_step stops p t = Some o ->
  exists t' p', o = Ret (t', p') /\ stepped up pd (default (t_ngid t) (gid_of p)) p p' t t'.
Proof.
  intros Hsup Hok [Hr Hp] Hpd Ho.
  assert (Hrange : forall g, gid_of p = Some g -> (Gid1 < g)%Z /\ (g < t_ngid t)%Z) by (intros g Hg; specialize (Hr g Hg); lia).
  destruct p as [|g|g|g srvs|g new|g|g|g|g new|g|g| |msg]; cbn [go_step gid_of unmade default newGid] in *; try done;
    try (destruct (Hrange g eq_refl) as [Hg1 Hg2]); try (simplify_eq; eexists _, _; split; [done|]).
  - pose proof (tk_ngid _ _ _ Hok). split; [split; cbn; [lia|by left|done..]|by right| |].
    + split; [intros g [= <-]; cbn; lia|]. cbn. intros [sg Hsg]. unfold Gid1 in *.
      destruct (tk_groups _ _ _ Hok (t_ngid t) sg); [lia|done|lia].
    + eapply t_ok_pend; [|exact (t_ok_newGid up pd t Hok)]. cbn. intros g [[? _]|[= <-]]; auto.
  - apply stepped_same; [done|by right|by split|]. intros g' [= <-]. by apply Hpd.
  - destruct (t_ok_make up pd g t Hsup Hok) as (t' & E1 & E2 & Hs & Hn & Hrun & Hok'); [by split|by apply Hpd|done|].
    rewrite E1 in Ho. cbn in Ho. rewrite E2 in Ho. simplify_eq. eexists _, _. split; [done|].
    assert (Hnm : ~ member t g) by (intros [s Hm]; by destruct (tk_members _ _ _ Hok g s Hm) as (_ & _ & ?)).
    split; [split; rewrite ?Hn, ?Hs; [lia|by left| | |]|by right| |].
    + intros g' Hne. rewrite Hrun. split; [by intros [|]|by right].
    + intros g' _. unfold member. by rewrite Hs.
    + intros g' _. unfold owns. by rewrite Hs.
    + split; [intros g' [= <-]; rewrite Hn; lia|]. split_and!; [apply Hrun; by left| |done]. unfold member. by rewrite Hs.
    + eapply t_ok_pend; [|exact Hok']. cbn. intros g' [[H1 H2]|]; [|done]. split; [done|]. by intros ->.
  - destruct Hp as (Hrn & Hnm & ->). destruct (Query (t_sck t)) as [c cfg] eqn:Hq. destruct (Query_current _ _ _ Hq) as [-> Hc].
    destruct (join_next up pd g t Hok Hg1 Hnm) as (new & E & _ & Hnext). rewrite copy_config_same, E in Ho. simplify_eq.
    eexists _, _. split; [done|]. apply stepped_sck; [done..|by right| |done]. split; [intros g' [= <-]; lia|].
    cbn. eapply next_or_old_weaken; [|exact Hnext]. intros [HG Hk]. by split_and!.
  - apply stepped_same; [done|by right|by split|done].
  - destruct (checkMember_owns g t) as (c & E & Hc). rewrite E in Ho. simplify_eq. eexists _, _. split; [done|].
    apply stepped_sck; [done..|by right|by split|done].
  - destruct (checkMember_owns g t) as (c & E & Hc). rewrite E in Ho. simplify_eq. eexists _, _. split; [done|].
    apply stepped_sck; [done..| | |]; (case_bool_decide as Ho; [|by destruct stops; first [left|split|intros ?]]); [by right| |done].
    split; [done|]. split; [by eapply owns_member|done].
  - destruct (Query (t_sck t)) as [c cfg] eqn:Hq. destruct (Query_current _ _ _ Hq) as [-> Hc].
    destruct Hp as [Hmem Hown]. destruct (leave_next up pd g t Hok Hmem) as (new & E & _ & Hnext). rewrite copy_config_same, E in Ho. simplify_eq.
    eexists _, _. split; [done|]. apply stepped_sck; [done..|by right| |done]. split; [intros g' [= <-]; lia|].
    cbn. destruct Hmem as [s Hm]. by destruct (tk_members _ _ _ Hok g s Hm) as (_ & _ & ?).
  - destruct Hp as (Hrn & Ho & _). apply stepped_same; [done|by right|by split|done].
  - destruct (checkMember_owns g t) as (c & E & Hc). rewrite E in Ho. simplify_eq. eexists _, _. split; [done|].
    destruct Hp as [Hrn Hown]. apply stepped_sck; try done; case_bool_decide as Ho; try done; try (by right); try (by left).
    split; [done|]. split; [done|]. by intros Hm%Hown.
  - destruct Hp as [Hrn Hnm]. destruct (t_ok_exit up pd g t Hok Hg1 Hrn Hnm) as (ng & E & Hrun & Hok'). rewrite E in Ho. simplify_eq.
    eexists _, _. split; [done|]. split; [split; cbn; [lia|by left| |done|done]|by left|done|].
    + intros g' Hne. rewrite Hrun. naive_solver.
    + eapply t_ok_pend; [|exact Hok']. intros g' [[? _]|]; done.
Qed.

Lemma run_go_ok stops up i w w' :
  supply_ok -> world_ok up w -> run_go stops i w = Some w' -> world_ok up w'.
Proof.
  intros Hsup Hok. unfold run_go. destruct (w_pcs w !! i) as [p|] eqn:Hi; [|done]. cbn.
  destruct (go_step stops p (w_t w)) as [o|] eqn:Ho; [|done]. cbn. pose proof (wo_pcs _ _ Hok i p Hi) as Hp.
  destruct (go_step_ok stops up (pend (w_pcs w)) p (w_t w) o Hsup (wo_t _ _ Hok) Hp) as (t' & p' & -> & [Hm Hg Hp' Ht']); [|done..|].
  { intros g Hg. by exists i, p. }
  intros [= <-]. apply (world_ok_step up i p p' w t' _ Hok Hi Hm); [|done..|].
  - intros j q Hj Hq. destruct (gid_of p) as [g|] eqn:Hpg; cbn; [exact (others_distinct up w i p g Hok Hi Hpg j q Hj Hq)|].
    intros Hq'. destruct (wo_pcs _ _ Hok j q Hq) as [Hr _]. specialize (Hr _ Hq'). lia.
  - eapply t_ok_pend; [|exact Ht']. intros g Hpend. destruct (pend_insert i p p' _ g Hi Hpend) as [Hu|(j & q & Hj & Hq & Hu)]; [by right|].
    left. split; [by exists j, q|]. intros Hpu.
    assert (Hgp : forall x y, unmade x = Some y -> gid_of x = Some y) by (by intros []; cbn).
    apply Hj. symmetry. apply (wo_distinct _ _ Hok i j p q g); auto.
Qed.

Lemma run_apply_ok up i w w' : world_ok up w -> run_apply i w = Some w' -> world_ok up w'.
Proof.
  intros Hok. unfold run_apply. destruct (w_pcs w !! i) as [p|] eqn:Hi; [|done]. cbn.
  destruct (changing p) as [new|] eqn:Hch; [|done]. cbn. case_decide as Hnum; [|done]. intros [= <-].
  set (t := w_t w) in *. set (c := ChangeConfigTo new (t_sck t)).
  assert (Hc : current c = new) by by apply ChangeConfigTo_current.
  pose proof (wo_pcs _ _ Hok i p Hi) as [Hr Hp].
  assert (Hinfo : exists g, gid_of p = Some g /\ good_config new /\ unowned_if_empty new /\
    (running t g /\ Groups new = <[g := group_srvs g]> (Groups (cur t)) \/ Groups new = delete g (Groups (cur t))) /\
    (forall g', g' <> g -> member t g' -> owns t g' -> g' ∈ Shards new) /\ pc_ok (set_sck c t) p).
  { assert (Hlate : forall P, next_or_old (set_sck c t) new P) by (intros P; unfold next_or_old; cbn; rewrite Hc; split; lia).
    destruct p; cbn in Hch, Hp; simplify_eq; cbn [gid_of] in *.
    - destruct Hp as [_ Hp]. destruct (Hp Hnum) as (? & ? & ? & ? & ? & Hk). eexists. split_and!; [done..|by left| |by split].
      intros g' _. apply Hk.
    - destruct Hp as (Hrn & Ho & [_ Hp]). destruct (Hp Hnum) as (? & ? & HG & ?). eexists. split_and!; [done..|by right|done|].
      split; [done|]. split; [done|]. split; [|apply Hlate]. unfold member. cbn. rewrite Hc, HG, lookup_delete_eq. by intros []. }
  destruct Hinfo as (g & Hg & Hgood & Hu & HG & Hk & Hp'). destruct (Hr g Hg) as [Hg1 _].
  rewrite <-(list_insert_id (w_pcs w) i p Hi).
  apply (world_ok_step up i p p w _ g Hok Hi); [|exact (others_distinct up w i p g Hok Hi Hg)|by right|done|].
  - split; cbn; [apply Z.le_refl|right; by rewrite Hc|done| |]; intros g' Hne; unfold member, owns; cbn; rewrite Hc; [|by apply Hk].
    destruct HG as [[_ ->]| ->]; [by rewrite lookup_insert_ne|by rewrite lookup_delete_ne].
  - rewrite list_insert_id by done. apply (t_ok_store up _ g c new); [apply Hok|done..].
Qed.

Lemma run_stop_ok up i w : world_ok up w -> w_pcs w !! i = Some PNew -> world_ok up (mkWorld (w_t w) (<[i := PStopped]> (w_pcs w))).
Proof.
  intros Hok Hi. apply (world_ok_step up i PNew PStopped w _ (t_ngid (w_t w)) Hok Hi); [apply moves_refl| |by left|by split|].
  - intros j q _ Hq Hg. destruct (wo_pcs _ _ Hok j q Hq) as [Hr _]. specialize (Hr _ Hg). lia.
  - eapply t_ok_pend; [|exact (wo_t _ _ Hok)]. intros g Hp. by destruct (pend_insert i PNew PStopped _ g Hi Hp) as [|(j & q & _ & ? & ?)]; [|exists j, q].
Qed.

Lemma concur_exec_ok up e w w' : supply_ok -> world_ok up w -> concur_exec e w = Some w' -> world_ok up w'.
Proof.
  intros Hsup Hok. destruct e as [i|i|i]; cbn; [by apply run_go_ok|by apply run_apply_ok|].
  destruct (w_pcs w !! i) as [[]|] eqn:Hi; try done. intros [= <-]. by apply run_stop_ok.
Qed.

(** As [setupKVService] leaves the tester. *)
Lemma setup_t_ok t : test_ok [] t -> dom (Groups (cur t)) = {[Gid1]} -> t_ok (fun _ => True) (fun _ => False) t.
Proof.
  intros [K1 K2 K3 K4 K5 K6 K7 K8 K9 K10] Hd. assert (Hfirst : member t Gid1) by (apply elem_of_dom; set_solver).
  split; try done.
  - intros g s Hs. destruct (K3 g s Hs) as [Hr ->]. split; [lia|]. split; [done|]. apply K4; [lia|by eexists].
  - intros g sg Hg Hs. destruct (proj2 (K4 g Hg) ltac:(by eexists)) as [srvs Hm]. destruct (K3 g srvs Hm) as [Hr _].
    split; [lia|by apply K5].
  - intros g sn _ Hg Hsn. unfold running. rewrite <-K4 by done. split; [|intros Hm; by apply (K6 g)].
    intros Hs. destruct (Groups (cur t) !! g) eqn:E; [done|]. rewrite (K7 g sn) in Hs by done. by destruct Hs.
  - intros g e [Hg|[]]. apply K8. by left.
  - destruct Hfirst as [s Hs]. destruct (K3 _ _ Hs). lia.
Qed.

Lemma concur_start_ok (n : nat) t :
  t_ok (fun _ => True) (fun _ => False) t -> world_ok (fun _ => True) (mkWorld t (replicate n PNew)).
Proof.
  intros Hok. split; cbn.
  - eapply t_ok_pend; [|exact Hok]. intros g (i & p & [-> _]%lookup_replicate & Hp). done.
  - intros i p [-> _]%lookup_replicate. by split.
  - intros i j p q g [-> _]%lookup_replicate. done.
Qed.

(** What the clients of the service rely on. *)
Record service_ok (up : Z -> Prop) t : Prop := {
  sv_good : good_config (cur t);
  sv_first : member t Gid1;
  sv_owners g : owns t g -> member t g;
  sv_running g : member t g -> running t g;
  sv_servers g sn : up g -> member t g -> sn ∈ group_srvs g -> is_Some (server_at (t_net t) sn) }.

Lemma t_ok_service up pd t : t_ok up pd t -> service_ok up t.
Proof.
  intros Hok. assert (Hrun : forall g, member t g -> running t g) by (intros g [s Hs]; by destruct (tk_members _ _ _ Hok g s Hs) as (_ & _ & ?)).
  split; [exact (tk_good _ _ _ Hok)|exact (tk_first _ _ _ Hok)|intros g; by eapply owns_member|done|].
  intros g sn Hu Hm Hsn. pose proof Hm as [s Hs]. destruct (tk_members _ _ _ Hok g s Hs) as (Hg & _ & _).
  apply (tk_up _ _ _ Hok g sn Hu Hg Hsn). by apply Hrun.
Qed.


(** Where a step leads. *)
Definition next_pc (stops : bool) t (p p' : pc) : Prop :=
  match p with
  | PNew => p' = PGot (t_ngid t)
  | PGot g => p' = PMake g
  | PMake g => exists srvs, p' = PJoin g srvs
  | PJoin g _ => exists new, p' = PChangeJ g new
  | PChangeJ g _ => p' = PCheckJ g
  | PCheckJ g => p' = PCheck g
  | PCheck g => p' = PLeave g \/ p' = (if stops then PStopped else PNew)
  | PLeave g => exists new, p' = PChangeL g new
  | PChangeL g _ => p' = PCheckL g
  | PCheckL g => p' = PNew \/ p' = PExit g
  | PExit _ => p' = PNew
  | PStopped | PFailed _ => False
  end.

Lemma go_step_next stops p t t' p' : go_step stops p t = Some (Ret (t', p')) -> next_pc stops t p p'.
Proof.
  destruct p as [|g|g|g srvs|g new|g|g|g|g new|g|g| |msg]; cbn [go_step next_pc newGid]; intros Ho; try done; try by simplify_eq.
  - destruct (MakeGroupStart g t) as [t1| |]; cbn in Ho; [|done..]. destruct (Group_SrvNames g t1); cbn in Ho; simplify_eq. by eexists.
  - destruct (Query (t_sck t)) as [c cfg]. destruct (JoinBalance _ _) as [[[] new]| |]; cbn in Ho; simplify_eq. by eexists.
  - destruct (checkMember g t) as [t1 ok]. by simplify_eq.
  - destruct (checkMember g t) as [t1 ok]. simplify_eq. destruct ok; auto.
  - destruct (Query (t_sck t)) as [c cfg]. destruct (LeaveBalance _ _) as [[[] new]| |]; cbn in Ho; simplify_eq. by eexists.
  - destruct (checkMember g t) as [t1 ok]. simplify_eq. destruct ok; auto.
  - destruct (Config.ExitGroup g _) as [ng| |]; cbn in Ho; simplify_eq. done.
Qed.

(** How far a goroutine is from the head of its loop. *)
Definition left_to_do (p : pc) : nat :=
  match p with
  | PNew | PStopped | PFailed _ => 0
  | PExit _ => 1 | PCheckL _ => 2 | PChangeL _ _ => 3 | PLeave _ => 4 | PCheck _ => 5 | PCheckJ _ => 6
  | PChangeJ _ _ => 7 | PJoin _ _ => 8 | PMake _ => 9 | PGot _ => 10
  end.

Lemma go_step_closer stops p t t' p' :
  go_step stops p t = Some (Ret (t', p')) -> 0 < left_to_do p -> left_to_do p' < left_to_do p.
Proof. intros Hn%go_step_next Hp. destruct p, stops; cbn in *; try done; first [subst p'|destruct Hn as [? ->]|destruct Hn as [-> | ->]]; cbn; lia. Qed.

Lemma go_step_some stops p t : 0 < left_to_do p -> exists o, go_step stops p t = Some o.
Proof.
  intros Hp. destruct p as [|g|g|g srvs|g new|g|g|g|g new|g|g| |msg]; cbn [go_step left_to_do] in *; try lia;
    try match goal with |- context [Query ?c] => destruct (Query c) | |- context [checkMember ?g ?t] => destruct (checkMember g t) end;
    by eexists.
Qed.

Lemma go_closer stops up i p w :
  supply_ok -> world_ok up w -> w_pcs w !! i = Some p -> 0 < left_to_do p ->
  exists t' p', run_go stops i w = Some (mkWorld t' (<[i := p']> (w_pcs w))) /\ left_to_do p' < left_to_do p.
Proof.
  intros Hsup Hok Hi Hp. destruct (go_step_some stops p (w_t w) Hp) as [o Ho].
  destruct (go_step_ok stops up (pend (w_pcs w)) p (w_t w) o Hsup (wo_t _ _ Hok) (wo_pcs _ _ Hok i p Hi)) as (t' & p' & -> & _); [|done|].
  { intros g Hg. by exists i, p. }
  exists t', p'. split; [unfold run_go; rewrite Hi; cbn; by rewrite Ho|]. by apply (go_step_closer _ _ _ _ _ Ho).
Qed.

(** A goroutine left to itself gets to the head of its loop and stops. *)
Lemma one_stops i p w :
  supply_ok -> world_ok (fun _ => True) w -> w_pcs w !! i = Some p ->
  exists es w', Prelude.run concur_exec es w = Some w' /\ world_ok (fun _ => True) w' /\ w_pcs w' = <[i := PStopped]> (w_pcs w).
Proof.
  intros Hsup. remember (left_to_do p) as n eqn:Hn. revert p w Hn. induction (lt_wf n) as [n _ IH]. intros p w Hn Hok Hi.
  destruct (decide (0 < left_to_do p)) as [Hp|Hp].
  - destruct (go_closer false (fun _ => True) i p w Hsup Hok Hi Hp) as (t' & p' & E & Hlt).
    destruct (IH (left_to_do p') ltac:(lia) p' (mkWorld t' (<[i := p']> (w_pcs w))) eq_refl) as (es & w' & Hr & Hok' & Hw').
    { by apply (run_go_ok false _ i w). } { cbn. by apply list_lookup_insert_eq, (lookup_lt_Some _ _ _ Hi). }
    exists (Go i :: es), w'. split; [cbn; by rewrite E|]. split; [done|]. rewrite Hw'. cbn. by rewrite list_insert_insert_eq.
  - pose proof (wo_pcs _ _ Hok i p Hi) as [_ Hpc]. destruct p; cbn in Hp; try lia; try done.
    + exists [Stop i], (mkWorld (w_t w) (<[i := PStopped]> (w_pcs w))). split; [cbn; by rewrite Hi|]. split; [by apply run_stop_ok|done].
    + exists [], w. split; [done|]. split; [done|]. by rewrite list_insert_id.
Qed.

Lemma all_stop k w :
  supply_ok -> world_ok (fun _ => True) w -> k <= length (w_pcs w) ->
  exists es w', Prelude.run concur_exec es w = Some w' /\ world_ok (fun _ => True) w' /\
    length (w_pcs w') = length (w_pcs w) /\ forall i, i < k -> w_pcs w' !! i = Some PStopped.
Proof.
  intros Hsup Hok. induction k as [|k IH]; intros Hk; [exists [], w; split_and!; try done; lia|].
  destruct IH as (es & w1 & Hr & Hok1 & Hl & Hs); [lia|]. destruct (lookup_lt_is_Some_2 (w_pcs w1) k) as [p Hp]; [lia|].
  destruct (one_stops k p w1 Hsup Hok1 Hp) as (es' & w' & Hr' & Hok' & Hw'). exists (es ++ es'), w'.
  split; [by rewrite Prelude.run_app, Hr|]. split; [done|]. rewrite Hw', length_insert. split; [done|]. intros i Hi.
  destruct (decide (i = k)) as [->|]; [apply list_lookup_insert_eq; lia|]. rewrite list_lookup_insert_ne by done. apply Hs. lia.
Qed.


(** ** The partitioned controller *)

(** The configurations that are about to be stored are the next ones. *)
Lemma go_join up pd g srvs t t' new stops :
  t_ok up pd t -> pc_ok t (PJoin g srvs) -> go_step stops (PJoin g srvs) t = Some (Ret (t', PChangeJ g new)) ->
  Num new = (Num (cur t') + 1)%Z /\ ~ member t' g.
Proof.
  intros Hok [Hr (_ & Hnm & ->)]. cbn [go_step]. destruct (Query (t_sck t)) as [c cfg] eqn:Hq. destruct (Query_current _ _ _ Hq) as [-> Hc].
  destruct (join_next up pd g t Hok) as (new' & E & HN & _); [by destruct (Hr g eq_refl)|done|].
  rewrite copy_config_same, E. intros [= <- <-]. unfold member. cbn. by rewrite Hc.
Qed.

Lemma go_leave up pd g t t' new stops :
  t_ok up pd t -> pc_ok t (PLeave g) -> go_step stops (PLeave g) t = Some (Ret (t', PChangeL g new)) ->
  Num new = (Num (cur t') + 1)%Z /\ owns t' g.
Proof.
  intros Hok [_ [Hm Ho]]. cbn [go_step]. destruct (Query (t_sck t)) as [c cfg] eqn:Hq. destruct (Query_current _ _ _ Hq) as [-> Hc].
  destruct (leave_next up pd g t Hok Hm) as (new' & E & HN & _).
  rewrite copy_config_same, E. intros [= <- <-]. unfold owns. cbn. by rewrite Hc.
Qed.

Lemma go_cur stops p t t' p' : go_step stops p t = Some (Ret (t', p')) -> cur t' = cur t.
Proof.
  assert (Hck : forall g, cur (checkMember g t).1 = cur t).
  { intros g. destruct (checkMember_owns g t) as (c & -> & Hc). exact Hc. }
  assert (Hset : forall ng, cur (set_groups ng t) = cur t) by done.
  destruct p as [|g|g|g srvs|g new|g|g|g|g new|g|g| |msg]; cbn [go_step newGid]; intros Ho; try done; try by simplify_eq.
  - unfold MakeGroupStart in Ho. destruct (Config.MakeGroupStart _ _ _ _) as [ng| |]; cbn [mbind outcome_bind] in Ho; [|done..].
    destruct (Group_SrvNames g _); cbn in Ho; simplify_eq. done.
  - destruct (Query (t_sck t)) as [c cfg] eqn:Hq. destruct (Query_current _ _ _ Hq) as [_ Hc].
    destruct (JoinBalance _ _) as [[[] new]| |]; cbn in Ho; simplify_eq. exact Hc.
  - specialize (Hck g). destruct (checkMember g t) as [t1 ok]. by simplify_eq.
  - specialize (Hck g). destruct (checkMember g t) as [t1 ok]. by simplify_eq.
  - destruct (Query (t_sck t)) as [c cfg] eqn:Hq. destruct (Query_current _ _ _ Hq) as [_ Hc].
    destruct (LeaveBalance _ _) as [[[] new]| |]; cbn in Ho; simplify_eq. exact Hc.
  - specialize (Hck g). destruct (checkMember g t) as [t1 ok]. by simplify_eq.
  - destruct (Config.ExitGroup g _) as [ng| |]; cbn in Ho; simplify_eq. done.
Qed.

(** The tester's own steps. *)
Lemma world_ok_frame up w t' g :
  world_ok up w -> moves g (w_t w) t' -> (forall j q, w_pcs w !! j = Some q -> gid_of q = Some g -> pc_ok t' q) ->
  t_ok up (pend (w_pcs w)) t' -> world_ok up (mkWorld t' (w_pcs w)).
Proof.
  intros [Ht Hp Hd] Hm Hg Ht'. split; cbn; [done| |done]. intros j q Hj.
  destruct (decide (gid_of q = Some g)) as [Hq|Hq]; [by apply (Hg j)|]. apply (pc_ok_frame g (w_t w)); [done..|by eapply Hp].
Qed.

(** Nothing about the configuration changes, and the same groups run. *)
Lemma world_ok_same up w t' :
  world_ok up w -> cur t' = cur (w_t w) -> t_ngid t' = t_ngid (w_t w) -> (forall g, running t' g <-> running (w_t w) g) ->
  t_ok up (pend (w_pcs w)) t' -> world_ok up (mkWorld t' (w_pcs w)).
Proof.
  intros Hok Hc Hn Hr Ht. apply (world_ok_frame up w t' 0 Hok); [|intros j q Hj Hq|done].
  - split; [lia|by left|done| |]; intros g _; unfold member, owns; by rewrite Hc.
  - destruct (wo_pcs _ _ Hok j q Hj) as [Hrg _]. specialize (Hrg _ Hq). unfold Gid1 in Hrg. lia.
Qed.

Lemma with_group_ok up pd t f sg net sg' :
  t_ok up pd t -> (forall g, up g -> g <> Gid1) -> t_groups t !! Gid1 = Some sg -> f (t_net t, sg) = Ret (net, sg') ->
  Config.group_ok Gid1 NSRV sg' -> (forall sn, sn ∉ group_srvs Gid1 -> server_at net sn = server_at (t_net t) sn) ->
  (forall gid e, (1 <= gid)%Z -> e ∈ ends_of gid -> e ∉ ends (t_net t) -> e ∉ ends net) ->
  exists t', with_group Gid1 f t = Ret t' /\ cur t' = cur t /\ t_ngid t' = t_ngid t /\ (forall g, running t' g <-> running t g) /\
    ((forall g, pd g -> (1 <= g)%Z) -> t_ok up pd t').
Proof.
  intros [K1 K2 K3 K4 K5 K6 K7 K8] Hup Hsg Ef Hgrp Hsv Hends.
  assert (Hrun : forall g, is_Some (<[Gid1 := sg']> (t_groups t) !! g) <-> running t g).
  { intros g. destruct (decide (Gid1 = g)) as [<-|Hne]; [rewrite lookup_insert_eq; unfold running; rewrite Hsg; by split|by rewrite lookup_insert_ne]. }
  exists (set_groups (net, <[Gid1 := sg']> (t_groups t)) t).
  split; [unfold with_group, Config.on_group, Config.lookupGroup; cbn [fst snd]; rewrite Hsg, Ef; done|].
  do 3 (split; [done|]). intros Hpd. split; cbn; try done.
  - intros g srvs Hm. destruct (K3 g srvs Hm) as (H1 & H2 & H3). split_and!; [done..|]. by apply Hrun.
  - intros g sg0 Hg [[<- <-]|[_ Hs]]%lookup_insert_Some; [split; [done|exact Hgrp]|by apply K4].
  - intros g sn Hu Hg Hsn. unfold running. cbn. rewrite Hrun, Hsv; [by apply K5|]. intros Hin. apply (Hup g Hu).
    apply (group_srvs_disjoint g Gid1 sn); unfold Gid1 in *; try lia; done.
  - intros g e Hg He. apply (Hends g); [|done|by apply (K6 g)]. destruct Hg as [Hg|Hg]; [unfold Gid1 in K8; lia|by apply Hpd].
Qed.

Lemma first_group up pd t : t_ok up pd t -> exists sg, t_groups t !! Gid1 = Some sg /\ Config.group_ok Gid1 NSRV sg.
Proof.
  intros Hok. destruct (tk_first _ _ _ Hok) as [s Hs]. destruct (tk_members _ _ _ Hok _ _ Hs) as (_ & _ & [sg Hsg]).
  exists sg. split; [done|]. by destruct (tk_groups _ _ _ Hok Gid1 sg ltac:(done) Hsg).
Qed.

Lemma shutdown_ok up pd t :
  t_ok up pd t -> (forall g, up g -> g <> Gid1) -> (forall g, pd g -> (1 <= g)%Z) ->
  exists t', with_group Gid1 Tester.Shutdown t = Ret t' /\ cur t' = cur t /\ t_ngid t' = t_ngid t /\
    (forall g, running t' g <-> running t g) /\ t_ok up pd t'.
Proof.
  intros Hok Hup Hpd. destruct (first_group up pd t Hok) as (sg & Hsg & Hwf & HN & Hg).
  destruct (Config.Kill_spec (Tester.all sg) (t_net t) sg Hwf) as (net & sg' & E & Hgrp & He & Hs);
    [intros i; unfold Tester.all; rewrite elem_of_seq; lia|].
  rewrite Hg in *. rewrite HN in Hgrp.
  destruct (with_group_ok up pd t Tester.Shutdown sg net sg' Hok Hup Hsg E Hgrp) as (t' & Et & Hc & Hn & Hr & Hok'); [| |eauto 10].
  - intros sn Hsn. rewrite Hs, decide_False; [done|]. unfold Tester.all. by rewrite HN.
  - intros gid e _ _. by rewrite He.
Qed.

(** Names that nobody has, for the servers that are started again. *)
Record fresh_start (st : nat -> list string * nat) (net : Network) : Prop := {
  fs_nodup : NoDup (Config.start_names st (seq 0 NSRV));
  fs_len i : i < NSRV -> length (st i).1 = NSRV;
  fs_net e : e ∈ Config.start_names st (seq 0 NSRV) -> e ∉ ends net;
  fs_supply e g : e ∈ Config.start_names st (seq 0 NSRV) -> (1 <= g)%Z -> e ∉ ends_of g }.

Lemma startservers_ok up pd t st :
  t_ok up pd t -> (forall g, up g -> g <> Gid1) -> (forall g, pd g -> (1 <= g)%Z) -> fresh_start st (t_net t) ->
  exists t', with_group Gid1 (Config.StartServers st) t = Ret t' /\ cur t' = cur t /\ t_ngid t' = t_ngid t /\
    (forall g, running t' g <-> running t g) /\ t_ok up pd t'.
Proof.
  intros Hok Hup Hpd [F1 F2 F3 F4]. destruct (first_group up pd t Hok) as (sg & Hsg & Hwf & HN & Hg).
  assert (Hall : Tester.all sg = seq 0 NSRV) by (unfold Tester.all; by rewrite HN).
  destruct (Config.StartServers_spec st (t_net t) sg) as (net & sg' & E & Hgrp & _ & He & _ & Ho & _);
    [by apply Hwf|by rewrite Hall|by rewrite Hall|by rewrite HN|].
  rewrite Hg, HN, Hall in *.
  destruct (with_group_ok up pd t (Config.StartServers st) sg net sg' Hok Hup Hsg E Hgrp) as (t' & Et & Hc & Hn & Hr & Hok'); [| |eauto 10].
  - intros sn Hsn. apply Ho. intros i Hi ->. apply Hsn, elem_of_group_srvs. by exists i.
  - intros gid e Hgid He1 He2. rewrite He, not_elem_of_union, not_elem_of_list_to_set. split; [|done].
    intros Hin. by apply (F4 e gid).
Qed.

(** The second controller makes the group leave. *)
Lemma main_leaves up pd g t :
  t_ok up pd t -> (Gid1 < g)%Z -> owns t g ->
  exists t', leaveGroups [g] t = Ret (t', true) /\ t_ok up pd t' /\ moves g t t' /\ t_ngid t' = t_ngid t /\
    Num (cur t') = (Num (cur t) + 1)%Z /\ ~ owns t' g.
Proof.
  intros Hok Hg Ho. pose proof (owns_member _ _ _ _ Hok Ho) as Hm.
  destruct (Query (t_sck t)) as [c cfg] eqn:Hq. destruct (Query_current _ _ _ Hq) as [-> Hc].
  destruct (leave_next up pd g t Hok Hm) as (new & E & HN & [_ Hnext]). destruct (Hnext HN) as (Hgood & Hu & HG & Hk).
  set (c2 := ChangeConfigTo new c). assert (Hc2 : current c2 = new) by (apply ChangeConfigTo_current; by rewrite Hc).
  assert (Hok2 : t_ok up pd (set_sck c2 t)) by (apply (t_ok_store up pd g c2 new); auto).
  assert (Hnm : ~ member (set_sck c2 t) g) by (unfold member; cbn; rewrite Hc2, HG, lookup_delete_eq; by intros []).
  assert (Hno : ~ owns (set_sck c2 t) g) by (by intros Hx%(owns_member _ _ _ _ Hok2)).
  destruct (checkMember_owns g (set_sck c2 t)) as (c3 & Eck & Hc3). rewrite bool_decide_eq_false_2 in Eck by done.
  set (t3 := set_sck c3 (set_sck c2 t)) in *. assert (Hok3 : t_ok up pd t3) by by apply t_ok_sck.
  destruct Hm as [srvs Hs]. destruct (tk_members _ _ _ Hok g srvs Hs) as (_ & _ & Hrun).
  assert (Hcur3 : cur t3 = new) by (unfold t3; cbn; cbn in Hc3; by rewrite Hc3).
  assert (Hnm3 : ~ member t3 g) by (unfold member; rewrite Hcur3, HG, lookup_delete_eq; by intros []).
  destruct (t_ok_exit up pd g t3 Hok3 Hg Hrun Hnm3) as (ng & Ex & Hr & Hok4).
  exists (set_groups ng t3). split; [|split; [done|]].
  - unfold leaveGroups, leave. rewrite Hq, copy_config_same, E. cbn [mbind outcome_bind fst snd]. fold c2. rewrite Eck. fold t3.
    by rewrite Ex.
  - assert (Hcur4 : cur (set_groups ng t3) = new) by exact Hcur3. split; [|split; [done|split; [by rewrite Hcur4|]]].
    + split; rewrite ?Hcur4; [done|right; done| | |].
      * intros g' Hne. rewrite Hr. naive_solver.
      * intros g' Hne. unfold member. rewrite Hcur4, HG. by rewrite lookup_delete_ne.
      * intros g' Hne Hm' Ho'. unfold owns. rewrite Hcur4. by apply Hk.
    + intros Hx. apply Hnm3. by apply (owns_member up pd).
Qed.

(** The variables follow the goroutine. *)
Definition vars_ok (p : pc) (state ngid : Z) : Prop :=
  match p with
  | PNew => state = 0%Z /\ ngid = 0%Z \/ state = LEAVE
  | PGot g => ngid = g /\ (state = 0%Z \/ state = LEAVE)
  | PMake g | PJoin g _ | PChangeJ g _ | PCheckJ g | PCheck g => ngid = g /\ state = JOIN
  | PLeave g | PChangeL g _ | PCheckL g | PExit g => ngid = g /\ state = LEAVE
  | PStopped => (Gid1 < ngid)%Z /\ state = JOIN
  | PFailed _ => False
  end.

(** With one controller, its change is the next one or the last one. *)
Definition pend_ok t (p : pc) : Prop :=
  match p with
  | PChangeJ g new => (Num new = (Num (cur t) + 1)%Z /\ ~ member t g) \/ (cur t = new /\ member t g)
  | PChangeL g new => (Num new = (Num (cur t) + 1)%Z /\ owns t g) \/ (cur t = new /\ ~ member t g)
  | _ => True
  end.

Definition verdicts : list string := ["didn't recover"; "didn't recover correctly"].

Definition main_ok (s : part C) (p : pc) : Prop :=
  let t := w_t (p_w s) in
  match p_main s with
  | MRunning | MDown | MCut | MBack => pend_ok t p
  | MLeaving => pend_ok t p /\ p_state s = JOIN /\ owns t (p_ngid s) /\ (p_num s < Num (cur t))%Z
  | MPassed =>
      (forall new, changing p = Some new -> (Num new <= Num (cur t))%Z) /\ ~ owns t (p_ngid s) /\ (p_num s < Num (cur t))%Z
  | MHealed => True
  | MFailed msg => msg ∈ verdicts
  end.

Definition up1 (g : Z) : Prop := g <> Gid1.

Record part_ok (s : part C) (p : pc) : Prop := {
  po_w : world_ok up1 (p_w s);
  po_pcs : w_pcs (p_w s) = [p];
  po_vars : vars_ok p (p_state s) (p_ngid s);
  po_main : main_ok s p }.

Lemma go_pend t t' p p' pd :
  t_ok up1 pd t -> pc_ok t p -> go_step true p t = Some (Ret (t', p')) -> pend_ok t' p'.
Proof.
  intros Hok Hp Ho. pose proof (go_step_next _ _ _ _ _ Ho) as Hn. destruct p' as [| | | |g new| | | |g new| | | |]; try done; cbn.
  - destruct p; cbn in Hn; try done; try (by destruct Hn as [? Hn]); try (by destruct Hn as [Hn|Hn]). destruct Hn as [new' [= -> ->]]. left. by eapply go_join.
  - destruct p; cbn in Hn; try done; try (by destruct Hn as [? Hn]); try (by destruct Hn as [Hn|Hn]).
    destruct Hn as [new' [= -> ->]]. left. by eapply go_leave.
Qed.

Lemma go_vars t t' p p' v :
  go_step true p t = Some (Ret (t', p')) -> (forall g, gid_of p = Some g -> (Gid1 < g)%Z) -> vars_ok p v.2 v.1 ->
  vars_ok p' (set_vars p p' t v).2 (set_vars p p' t v).1.
Proof.
  intros Hn%go_step_next Hr Hv. destruct v as [ngid st]. cbn [fst snd] in *.
  destruct p as [|g|g|g srvs|g new|g|g|g|g new|g|g| |msg]; cbn in Hn, Hv; try done.
  - subst. cbn. split; [done|]. destruct Hv as [[? _]|?]; auto.
  - subst. cbn. by destruct Hv.
  - destruct Hn as [? ->]. done.
  - destruct Hn as [? ->]. done.
  - by subst.
  - by subst.
  - destruct Hn as [-> | ->]; cbn; [by destruct Hv|]. destruct Hv as [-> ->]. split; [by apply Hr|done].
  - destruct Hn as [? ->]. done.
  - by subst.
  - destruct Hn as [-> | ->]; cbn; [right; by destruct Hv|done].
  - subst. cbn. right. by destruct Hv.
Qed.

Lemma pcs_one (s : part C) p : w_pcs (p_w s) = [p] -> w_pcs (p_w s) !! 0 = Some p.
Proof. by intros ->. Qed.

Lemma not_owns up pd t g : t_ok up pd t -> ~ running t g -> ~ owns t g.
Proof.
  intros Hok Hr Ho%(owns_member _ _ _ _ Hok). destruct Ho as [srvs Hs].
  by destruct (tk_members _ _ _ Hok _ _ Hs) as (_ & _ & ?).
Qed.

(** The goroutine moves. *)
Lemma part_go (s : part C) p p' t' v :
  supply_ok -> part_ok s p -> go_step true p (w_t (p_w s)) = Some (Ret (t', p')) ->
  calls p && negb (connected_main (p_main s)) = false -> world_ok up1 (mkWorld t' [p']) ->
  v = set_vars p p' (w_t (p_w s)) (p_ngid s, p_state s) ->
  part_ok (mkPart (mkWorld t' [p']) v.1 v.2 (p_num s) (p_main s)) p'.
Proof.
  intros Hsup [Hw Hpcs Hv Hm] Ho Hcalls Hw' ->. set (t := w_t (p_w s)) in *. pose proof (wo_t _ _ Hw) as Hok.
  pose proof (wo_pcs _ _ Hw 0 p (pcs_one s p Hpcs)) as Hp.
  split; cbn [p_w w_pcs p_state p_ngid]; [done..| |].
  - apply (go_vars t t' p p' (p_ngid s, p_state s) Ho); [|done]. intros g Hg. by destruct (proj1 Hp g Hg).
  - pose proof (go_pend t t' p p' _ Hok Hp Ho) as Hpend. pose proof (go_cur _ _ _ _ _ Ho) as Hcur.
    unfold main_ok in *. cbn [p_main p_w w_t p_num p_ngid p_state]. fold t in Hm. rewrite Hcur.
    destruct (p_main s); try done; cbn [connected_main negb] in Hcalls; rewrite andb_true_r in Hcalls.
    + exfalso. destruct Hm as (_ & Hst & Hown & _). unfold t in Hown.
      destruct p as [|g|g|g srvs|g new|g|g|g|g new|g|g| |msg]; cbn in Hcalls, Hv; try done; rewrite Hst in Hv;
        [by destruct Hv as [[Hv _]|Hv]|by destruct Hv as [_ [Hv|Hv]]| |by destruct Hv as [_ Hv]].
      destruct Hv as [Hg _], Hp as [_ Hnr]. rewrite Hg in Hown. by apply (not_owns _ _ _ _ Hok Hnr).
    + destruct Hm as (_ & Hno & Hnum). split; [|split; [|done]].
      * intros new Hch. pose proof (go_step_next _ _ _ _ _ Ho) as Hn.
        destruct p; cbn in Hcalls, Hn; try done; first [subst p'|destruct Hn as [? ->]]; done.
      * assert (Hng : ~ owns t' (p_ngid s)) by (unfold owns in *; by rewrite Hcur).
        destruct p as [|g|g|g srvs|g new|g|g|g|g new|g|g| |msg]; cbn in Hcalls; try done. cbn [set_vars fst].
        apply (not_owns _ _ _ _ (wo_t _ _ Hw')). pose proof (go_step_next _ _ _ _ _ Ho) as Hn. cbn in Hn. subst p'.
        by destruct (wo_pcs _ _ Hw' 0 _ eq_refl) as [_ Hx].
Qed.

Lemma pend_pos up (w : world C) g : world_ok up w -> pend (w_pcs w) g -> (1 <= g)%Z.
Proof.
  intros Hok (i & p & Hi & Hp). destruct (wo_pcs _ _ Hok i p Hi) as [Hr _].
  assert (Hg : gid_of p = Some g) by (destruct p; cbn in *; congruence). specialize (Hr g Hg). unfold Gid1 in Hr. lia.
Qed.

Lemma pend_ok_cur t t' p : cur t' = cur t -> pend_ok t p -> pend_ok t' p.
Proof. intros Hc. unfold pend_ok, member, owns. by rewrite Hc. Qed.

(** A change is stored. *)
Lemma part_apply (s : part C) p w :
  part_ok s p -> run_apply 0 (p_w s) = Some w -> part_ok (mkPart w (p_ngid s) (p_state s) (p_num s) (p_main s)) p.
Proof.
  intros [Hw Hpcs Hv Hm] Ha. pose proof (run_apply_ok _ _ _ _ Hw Ha) as Hw'. unfold run_apply in Ha.
  pose proof (wo_pcs _ _ Hw 0 p (pcs_one s p Hpcs)) as [_ Hp].
  rewrite (pcs_one s p Hpcs) in Ha. cbn in Ha. destruct (changing p) as [new|] eqn:Hch; [|done]. cbn in Ha.
  case_decide as Hnum; [|done]. injection Ha as <-. set (t := w_t (p_w s)) in *.
  assert (Hc : current (ChangeConfigTo new (t_sck t)) = new) by by apply ChangeConfigTo_current.
  split; cbn [p_w w_pcs p_state p_ngid]; [done..|]. unfold main_ok in *. cbn [p_main p_w w_t p_num p_ngid p_state]. fold t in Hm.
  assert (Hpend : pend_ok (set_sck (ChangeConfigTo new (t_sck t)) t) p).
  { destruct p; cbn in Hch, Hp; simplify_eq; cbn; right; unfold member; cbn; rewrite Hc; (split; [done|]).
    - destruct Hp as [_ Hp]. destruct (Hp Hnum) as (_ & _ & _ & _ & -> & _). rewrite lookup_insert_eq. by eexists.
    - destruct Hp as (_ & _ & [_ Hp]). destruct (Hp Hnum) as (_ & _ & -> & _). rewrite lookup_delete_eq. by intros []. }
  destruct (p_main s); try done.
  - exfalso. destruct Hm as (Hpe & Hst & Hown & _). pose proof (owns_member _ _ _ _ (wo_t _ _ Hw) Hown) as Hmem. fold t in Hmem.
    destruct p; cbn in Hch, Hv, Hpe; simplify_eq; rewrite Hst in Hv; destruct Hv as [Hg Hst']; [|done].
    rewrite Hg in Hmem. destruct Hpe as [[_ Hn]|[Hn _]]; [done|]. rewrite Hn in Hnum. lia.
  - destruct Hm as (Hle & _). specialize (Hle new Hch). lia.
Qed.

(** The tester finds what it expects, or fails the test. *)
Lemma part_check (s : part C) p c b :
  part_ok s p -> p_main s = MBack -> current c = cur (w_t (p_w s)) ->
  recovered (p_num s) (p_state s) (p_ngid s) (cur (w_t (p_w s))) = Ret b ->
  main_ok (set_main (if b then MLeaving else MPassed) (mkPart (mkWorld (set_sck c (w_t (p_w s))) (w_pcs (p_w s))) (p_ngid s) (p_state s) (p_num s) MBack)) p.
Proof.
  intros [Hw Hpcs Hv Hm] Hmain Hc Hr. unfold main_ok in *. rewrite Hmain in Hm. set (t := w_t (p_w s)) in *.
  pose proof (wo_pcs _ _ Hw 0 p (pcs_one s p Hpcs)) as [_ Hp]. pose proof (wo_t _ _ Hw) as Hok. fold t in Hok, Hp.
  assert (Hpres : IsMember (cur t) (p_ngid s) = bool_decide (owns t (p_ngid s))).
  { destruct (Query (t_sck t)) as [c' cfg] eqn:Hq. destruct (Query_current _ _ _ Hq) as [-> _].
    destruct (checkMember_owns (p_ngid s) t) as (c2 & E & _). unfold checkMember in E. rewrite Hq in E. by injection E. }
  unfold recovered in Hr. destruct (Z.leb_spec (Num (cur t)) (p_num s)) as [|Hnum]; [done|]. rewrite Hpres in Hr.
  assert (Hcur : cur (set_sck c t) = cur t) by exact Hc.
  destruct b; cbn [set_main p_main p_w w_t p_ngid p_state p_num]; unfold owns; rewrite Hcur; fold (owns t (p_ngid s)).
  - split; [by apply (pend_ok_cur t)|]. destruct (Z.eqb_spec (p_state s) JOIN) as [Hst|]; [|cbn in Hr; by destruct ((p_state s =? LEAVE)%Z && _)].
    case_bool_decide as Ho; [done|]. by rewrite Hst in Hr.
  - destruct (Z.eqb_spec (p_state s) JOIN) as [Hst|Hst]; [exfalso; rewrite Hst in Hr; by case_bool_decide|].
    cbn in Hr.
    assert (Hno : ~ owns t (p_ngid s)).
    { destruct (Z.eqb_spec (p_state s) LEAVE) as [Hl|Hl]; [by case_bool_decide|]. cbn in Hr.
      destruct p as [|g|g|g srvs|g new|g|g|g|g new|g|g| |msg]; cbn in Hv; try done; try (by destruct Hv); try (destruct Hv as [_ Hv]; by destruct Hl).
      - destruct Hv as [[_ ->]|Hv]; [|by destruct Hl]. intros Ho%(owns_member _ _ _ _ Hok). destruct Ho as [srvs Hs].
        destruct (tk_members _ _ _ Hok _ _ Hs). lia.
      - destruct Hv as [-> _]. by apply (not_owns _ _ _ _ Hok). }
    split; [|done]. intros new Hch. destruct p; cbn in Hch, Hv, Hm; simplify_eq; destruct Hv as [Hg Hst']; [done|].
    destruct Hm as [[_ Ho]|[Hn _]]; [by rewrite Hg in Hno|]. by rewrite Hn.
Qed.

(** The second controller's [leaveGroups]. *)
Lemma part_leave (s : part C) p :
  part_ok s p -> p_main s = MLeaving ->
  exists t', leaveGroups [p_ngid s] (w_t (p_w s)) = Ret (t', true) /\
    part_ok (mkPart (mkWorld t' (w_pcs (p_w s))) (p_ngid s) (p_state s) (p_num s) MPassed) p.
Proof.
  intros [Hw Hpcs Hv Hm] Hmain. unfold main_ok in Hm. rewrite Hmain in Hm. destruct Hm as (Hpe & Hst & Hown & Hnum).
  pose proof (wo_pcs _ _ Hw 0 p (pcs_one s p Hpcs)) as [Hr Hp]. pose proof (wo_t _ _ Hw) as Hok.
  set (t := w_t (p_w s)) in *. pose proof (owns_member _ _ _ _ Hok Hown) as Hmem.
  assert (Hg : (Gid1 < p_ngid s)%Z /\ (gid_of p = Some (p_ngid s) \/ gid_of p = None)).
  { rewrite Hst in Hv. destruct p as [|g|g|g srvs|g new|g|g|g|g new|g|g| |msg]; cbn in Hv; try done;
      try (by destruct Hv as [[Hv _]|Hv]); try (by destruct Hv as [_ [Hv|Hv]]); try (by destruct Hv as [_ Hv]);
      [destruct Hv as [-> _]; split; [by apply (Hr g)|by left]..|]. split; [apply Hv|by right]. }
  destruct Hg as [Hg1 Hgid].
  destruct (main_leaves _ _ (p_ngid s) t Hok Hg1 Hown) as (t' & E & Hok' & Hmv & Hn & HN & Hno). exists t'. split; [done|].
  assert (Hold : forall new, changing p = Some new -> Num new = Num (cur t)).
  { intros new Hch. destruct p; cbn in Hch, Hv, Hpe; simplify_eq; destruct Hv as [Hg Hst']; [|by rewrite Hst in Hst'].
    destruct Hpe as [[_ Hx]|[-> _]]; [by rewrite Hg in Hmem|done]. }
  split; cbn [p_w w_pcs p_state p_ngid]; [|done..|].
  - apply (world_ok_frame up1 (p_w s) t' (p_ngid s) Hw Hmv); [|done]. intros j q Hj Hq. rewrite Hpcs in Hj.
    destruct j; [|done]. injection Hj as <-. split; [intros g' Hg'; rewrite Hn; by apply Hr|].
    rewrite Hst in Hv. destruct p as [|g|g|g srvs|g new|g|g|g|g new|g|g| |msg]; cbn in Hv, Hp |- *; try done;
      try (by destruct Hv as [_ [Hv|Hv]]); try (by destruct Hv as [_ Hv]).
    + destruct Hv as [Hg _]. exfalso. apply (not_owns _ _ _ _ Hok Hp). by rewrite <-Hg.
    + destruct Hv as [Hg _]. exfalso. apply Hp. by rewrite <-Hg.
    + specialize (Hold new eq_refl). unfold next_or_old. split; lia.
  - unfold main_ok. cbn. split; [intros new Hch; specialize (Hold new Hch); lia|]. split; [done|lia].
Qed.

Lemma part_main (s : part C) p m : part_ok s p -> main_ok (set_main m s) p -> part_ok (set_main m s) p.
Proof. intros [Hw Hpcs Hv _] Hm. by split. Qed.

Lemma recovered_verdict num state ngid cfg msg :
  recovered num state ngid cfg <> Panic msg /\ (recovered num state ngid cfg = Fatal msg -> msg ∈ verdicts).
Proof.
  unfold recovered, verdicts. destruct (Num cfg <=? num)%Z; [split; [done|intros [= <-]; by left]|].
  cbn zeta. destruct (_ || _); [split; [done|intros [= <-]; right; by left]|done].
Qed.

Lemma part_step partition e (s s' : part C) p :
  supply_ok -> part_ok s p -> (forall st, e = EStart st -> fresh_start st (t_net (w_t (p_w s)))) ->
  part_exec Gid1 partition e s = Some s' -> exists p', part_ok s' p'.
Proof.
  intros Hsup Hpo Hst He. pose proof Hpo as [Hw Hpcs Hv Hm]. pose proof (wo_t _ _ Hw) as Hok.
  assert (Hpd : forall g, pend (w_pcs (p_w s)) g -> (1 <= g)%Z) by (intros g; by eapply pend_pos).
  assert (Hsame : forall t' m, cur t' = cur (w_t (p_w s)) -> t_ngid t' = t_ngid (w_t (p_w s)) ->
    (forall g, running t' g <-> running (w_t (p_w s)) g) -> t_ok up1 (pend (w_pcs (p_w s))) t' ->
    (m = MDown \/ m = MBack) -> pend_ok (w_t (p_w s)) p -> part_ok (on_t (Ret t') m s) p).
  { intros t' m Hc Hn Hr Ht Hmm Hpe. split; cbn; [by apply world_ok_same|done..|].
    unfold main_ok. cbn. destruct Hmm as [-> | ->]; by apply (pend_ok_cur (w_t (p_w s))). }
  unfold part_exec in He. destruct e as [| | | |st| | |].
  - rewrite (pcs_one s p Hpcs) in He. cbn [mbind option_bind] in He. destruct (calls p && _) eqn:Hcalls; [done|].
    destruct (run_go true 0 (p_w s)) as [w|] eqn:Hgo; [|done]. cbn [mbind option_bind] in He.
    pose proof (run_go_ok _ _ _ _ _ Hsup Hw Hgo) as Hw'. unfold run_go in Hgo. rewrite (pcs_one s p Hpcs) in Hgo. cbn in Hgo.
    destruct (go_step true p (w_t (p_w s))) as [o|] eqn:Ho; [|done]. cbn in Hgo.
    destruct (go_step_ok true up1 (pend (w_pcs (p_w s))) p (w_t (p_w s)) o Hsup Hok (wo_pcs _ _ Hw 0 p (pcs_one s p Hpcs)))
      as (t' & p' & -> & _); [|done|]. { intros g Hg. exists 0, p. by rewrite Hpcs. }
    rewrite Hpcs in Hgo. cbn in Hgo. injection Hgo as <-. cbn in He. injection He as <-. exists p'. by apply (part_go s p p' t').
  - destruct (run_apply 0 (p_w s)) as [w|] eqn:Ha; [|done]. cbn in He. injection He as <-. exists p. by apply part_apply.
  - unfold main_ok in Hm. destruct (p_main s); try done. injection He as <-. exists p.
    destruct (shutdown_ok up1 _ (w_t (p_w s)) Hok (fun g Hg => Hg) Hpd) as (t' & -> & Hc & Hn & Hr & Ht). apply Hsame; auto.
  - unfold main_ok in Hm. destruct (p_main s) eqn:Em; try done. injection He as <-. exists p. by apply part_main.
  - unfold main_ok in Hm. destruct (p_main s); try done. injection He as <-. exists p.
    destruct (startservers_ok up1 _ (w_t (p_w s)) st Hok (fun g Hg => Hg) Hpd (Hst st eq_refl)) as (t' & -> & Hc & Hn & Hr & Ht).
    apply Hsame; auto.
  - destruct (p_main s) eqn:Em; try done. destruct (Query _) as [c cfg] eqn:Hq. destruct (Query_current _ _ _ Hq) as [-> Hc].
    injection He as <-. exists p.
    assert (Hback : part_ok (on_t (Ret (set_sck c (w_t (p_w s)))) MBack s) p).
    { unfold main_ok in Hm. rewrite Em in Hm. apply Hsame; try done; [by apply t_ok_sck|by right]. }
    apply part_main; [done|]. destruct (recovered _ _ _ _) as [b|msg|msg] eqn:Er.
    + pose proof (part_check s p c b Hpo Em Hc Er) as Hck. by destruct b.
    + by destruct (proj1 (recovered_verdict (p_num s) (p_state s) (p_ngid s) (cur (w_t (p_w s))) msg)).
    + exact (proj2 (recovered_verdict _ _ _ _ msg) Er).
  - destruct (p_main s) eqn:Em; try done. exists p.
    destruct (part_leave s p Hpo Em) as (t' & E & H'). rewrite E in He. by injection He as <-.
  - destruct (p_main s) eqn:Em; try done. destruct partition; [|done]. injection He as <-. exists p. by apply part_main.
Qed.

(** The names of every restart are new. *)
Fixpoint starts_fresh (partition : bool) (es : list part_event) (s : part C) : Prop :=
  match es with
  | [] => True
  | e :: es =>
      match e with EStart st => fresh_start st (t_net (w_t (p_w s))) | _ => True end /\
      forall s', part_exec Gid1 partition e s = Some s' -> starts_fresh partition es s'
  end.

Lemma part_run partition es (s s' : part C) p :
  supply_ok -> part_ok s p -> starts_fresh partition es s -> Prelude.run (part_exec Gid1 partition) es s = Some s' ->
  exists p', part_ok s' p'.
Proof.
  intros Hsup. revert s p. induction es as [|e es IH]; intros s p Hok Hf Hr; cbn in Hr; [injection Hr as <-; by exists p|].
  destruct Hf as [Hst Hf]. destruct (part_exec Gid1 partition e s) as [s1|] eqn:E; [|done]. cbn in Hr.
  destruct (part_step partition e s s1 p Hsup Hok) as [p1 Hok1]; [by intros st ->|done|]. by apply (IH s1 p1 Hok1 (Hf s1 eq_refl)).
Qed.

Lemma part_start_ok t : t_ok (fun _ => True) (fun _ => False) t -> part_ok (part_start t) PNew.
Proof.
  intros Hok. unfold part_start. destruct (Query (t_sck t)) as [c cfg] eqn:Hq. destruct (Query_current _ _ _ Hq) as [-> Hc].
  assert (Hw : world_ok (fun _ => True) (mkWorld (set_sck c t) (replicate 1 PNew))) by by apply concur_start_ok, t_ok_sck.
  split; cbn; [|done|by left|done]. destruct Hw as [[K1 K2 K3 K4 K5 K6 K7 K8] H2 H3]. split; [|exact H2|exact H3]. by split; auto.
Qed.

(** C34: the partitioned controller.  In every interleaving of [partitionCtrler]'s
    tester with its goroutine, cut off at any moment, whatever the controllers do
    with its last change: the goroutine never aborts the test; the configuration
    stays well formed, every shard's owner runs, and the servers of the groups
    the tester does not stop are on the network; the tester fails only by one of
    its two verdicts on the configuration; and when it has cleaned up, the group
    under way owns nothing and the configuration is newer than at the start. *)
Theorem partition_ctrler_safe partition t es :
  supply_ok -> test_made t ->
  exists t1, setupKVService t = Ret (t1, Gid1) /\ forall s,
    starts_fresh partition es (part_start t1) -> Prelude.run (part_exec Gid1 partition) es (part_start t1) = Some s ->
    (forall i msg, w_pcs (p_w s) !! i <> Some (PFailed msg)) /\ service_ok up1 (w_t (p_w s)) /\
    match p_main s with
    | MFailed msg => msg ∈ verdicts
    | MPassed => ~ owns (w_t (p_w s)) (p_ngid s) /\ (p_num s < Num (cur (w_t (p_w s))))%Z
    | _ => True
    end.
Proof.
  intros Hsup Hm. destruct (setup_ok t Hsup Hm) as (t1 & E & Hok & _ & _ & Hd). exists t1. split; [done|]. intros s Hf Hr.
  destruct (part_run partition es _ s PNew Hsup (part_start_ok t1 (setup_t_ok t1 Hok Hd)) Hf Hr) as [p [Hw Hpcs Hv Hmain]].
  split; [intros i msg Hi; by destruct (wo_pcs _ _ Hw i _ Hi) as [_ []]|]. split; [by eapply t_ok_service, (wo_t _ _ Hw)|].
  unfold main_ok in Hmain. destruct (p_main s); try done. by destruct Hmain.
Qed.

End Invariant.

(** ** Witnesses *)

(** Two goroutines make a group each and ask for the configuration; the first
    one's join takes effect, the second one's is superseded and its group never
    becomes a member. *)
Definition demo_concur : list event :=
  [Go 0; Go 1; Go 0; Go 1; Go 0; Go 1; Go 0; Go 1; Apply 0; Go 1; Go 0; Go 1; Go 0; Go 1; Go 0; Go 0].

Definition demo_world : option (world ShardConfig) :=
  match setupKVService demo_test with
  | Ret (t, _) => Prelude.run concur_exec demo_concur (concur_start 2 t)
  | _ => None
  end.

Example demo_concur_groups :
  (fun w => (size (t_groups (w_t w)), dom (Groups (t_sck (w_t w))), (fun p => gid_of p) <$> w_pcs w)) <$> demo_world =
  Some (3, {[1; 2]}%Z, [Some 2%Z; None]).
Proof. vm_compute. reflexivity. Qed.

Lemma demo_made : test_made demo_test.
Proof. by split. Qed.



(** Group 2 joins; the group 1 is shut down and the controller cut off in the
    middle of the change, which the second controller recovers. *)
Definition demo_starts (i : nat) : list string * nat := (demo_end 0 <$> [3 * i; 3 * i + 1; 3 * i + 2], i).
Definition demo_part : list part_event := [EGo; EGo; EGo; EGo; EShutdown; ECut; EStart demo_starts; EApply].

Lemma demo_starts_name e l : e ∈ Config.start_names demo_starts l -> exists j, e = demo_end 0 j.
Proof.
  intros (i & _ & Hin)%TestRun.elem_of_start_names. unfold demo_starts in Hin. cbn [fst] in Hin.
  apply list_elem_of_fmap in Hin as (j & -> & _). by exists j.
Qed.

(** The check of [starts_fresh] for these names, but for those of other groups. *)
Fixpoint demo_freshb (es : list part_event) (s : part ShardConfig) : bool :=
  match es with
  | [] => true
  | e :: es =>
      match e with
      | EStart _ => forallb (fun e => bool_decide (e ∉ ends (t_net (w_t (p_w s))))) (Config.start_names demo_starts (seq 0 NSRV))
      | _ => true
      end && match part_exec Gid1 true e s with Some s' => demo_freshb es s' | None => true end
  end.

Lemma demo_freshb_ok es s :
  Forall (fun e => match e with EStart st => st = demo_starts | _ => True end) es -> demo_freshb es s = true -> starts_fresh true es s.
Proof.
  intros Hall. revert s. induction Hall as [|e es He _ IH]; intros s; cbn [demo_freshb starts_fresh]; [done|].
  intros [Hb Hn]%andb_true_iff. split.
  - destruct e; try done. subst. rewrite forallb_forall in Hb. split.
    + by apply (bool_decide_unpack _); vm_compute.
    + done.
    + intros e He. eapply bool_decide_eq_true, Hb. by apply list_elem_of_In.
    + intros e g Hin Hg. destruct (demo_starts_name e _ Hin) as [j ->]. rewrite demo_ends, list_elem_of_fmap.
      intros (k & Hj & _). apply demo_end_inj in Hj as [<- _]. lia.
  - intros s' E. rewrite E in Hn. by apply IH.
Qed.

Definition demo_part_ok (es : list part_event) (f : part ShardConfig -> bool) : bool :=
  match setupKVService demo_test with
  | Ret (t, _) =>
      demo_freshb es (part_start t) &&
      match Prelude.run (part_exec Gid1 true) es (part_start t) with Some s => f s | None => false end
  | _ => false
  end.

Lemma demo_part_run es f t1 :
  Forall (fun e => match e with EStart st => st = demo_starts | _ => True end) es -> demo_part_ok es f = true ->
  setupKVService demo_test = Ret (t1, Gid1) ->
  starts_fresh true es (part_start t1) /\
  exists s, Prelude.run (part_exec Gid1 true) es (part_start t1) = Some s /\ f s = true.
Proof.
  intros Hall Hb E. unfold demo_part_ok in Hb. rewrite E in Hb. apply andb_true_iff in Hb as [Hb Hf].
  split; [exact (demo_freshb_ok es _ Hall Hb)|]. destruct (Prelude.run _ _ _) as [s|] eqn:Er; [|discriminate Hf].
  exists s. split; [reflexivity|exact Hf].
Qed.

Lemma partition_ctrler_safe_witness :
  exists t1 s, setupKVService demo_test = Ret (t1, Gid1) /\
    Prelude.run (part_exec Gid1 true) (demo_part ++ [ECheck; ELeave]) (part_start t1) = Some s /\
    p_main s = MPassed /\ ~ owns (w_t (p_w s)) (p_ngid s) /\ (p_num s < Num (t_sck (w_t (p_w s))))%Z.
Proof.
  destruct (partition_ctrler_safe true demo_test (demo_part ++ [ECheck; ELeave]) demo_supply_ok demo_made) as (t1 & E & Hs).
  destruct (demo_part_run (demo_part ++ [ECheck; ELeave]) (fun s => bool_decide (p_main s = MPassed)) t1) as (Hf & s & Er & Hr);
    [by repeat constructor|by vm_compute|exact E|].
  apply bool_decide_eq_true in Hr. exists t1, s. split; [exact E|]. split; [exact Er|]. split; [exact Hr|].
  destruct (Hs s Hf Er) as (_ & _ & Hm). rewrite Hr in Hm. exact Hm.
Defined.

Definition in_change (s : part ShardConfig) : bool :=
  match w_pcs (p_w s) with
  | [PChangeJ g _] => bool_decide (g = 2%Z) && bool_decide (p_main s = MBack) && (size (Groups (t_sck (w_t (p_w s)))) <=? NShards)
  | _ => false
  end.

Lemma in_change_ok s :
  in_change s = true -> p_main s = MBack /\ size (Groups (t_sck (w_t (p_w s)))) <= NShards /\ exists new, w_pcs (p_w s) = [PChangeJ 2 new].
Proof.
  unfold in_change. destruct (w_pcs (p_w s)) as [|[| | | |g new| | | | | | | |] []]; try done.
  intros [[->%bool_decide_eq_true H2%bool_decide_eq_true]%andb_true_iff H3%Nat.leb_le]%andb_true_iff. split; [done|]. split; [done|]. by exists new.
Qed.


Example demo_part_passes :
  demo_part_ok demo_part (fun s =>
    bool_decide (recovered (p_num s) (p_state s) (p_ngid s) (t_sck (w_t (p_w s))) = Ret true)) = true.
Proof. by vm_compute. Qed.

(** Cut off with a new number only: the check fails. *)
Example demo_part_unlucky :
  demo_part_ok [EGo; EGo; EGo; EGo; EApply; EGo; EGo; EGo; EGo; EApply; EGo; EGo; EGo; EGo; EGo; EShutdown; ECut; EStart demo_starts; ECheck]
    (fun s => bool_decide (p_main s = MFailed "didn't recover correctly")) = true.
Proof. by vm_compute. Qed.
End CtrlTest.
