(* ===== verification/Stubs.v ===== *)
(** * Stubs: RPCs between the servers' processes and the tester

    [src/src/tester1/annotator.go], [src/src/raft1/proxy.go], [raft1/server.go],
    [src/src/kvraft1/rsm/proxy.go], [rsm/server.go] and the RPC handlers of
    [raft1/test.go].  A server calls the tester over one connection, which its
    daemon closes when it is shut down, and the tester calls each server over
    another; on both sides a proxy turns a method call into an RPC.  The handlers
    are methods of [LabRpc]'s servers; what an answered call does is the same as
    the call itself, and a failed one leaves the reply zero.  The calls that stop a daemon and
    ask for its sizes go over a third connection ([daemonclnt.go]). *)

From S2P Require Import Prelude LabRpc Demux Tester Annotation RaftTest KvServer Rsm Daemon.
From stdpp Require Import base gmap list strings pretty countable.
From Stdlib Require Import ZArith Lia.
From stdpp Require Import list.

Module Stubs.
Import LabRpc Daemon.

#[local] Arguments bool_decide _ {_} : simpl never.

(** ** Connections *)

(** What becomes of a request on an open connection: the reply comes back; the
    connection is closed after the request was executed, or before it was sent.
    A call that was waiting then fails, and so does every later one
    ([Demux.demux_no_stuck_call]). *)
Inductive fate := Answered | Lost | Unserved.

Section Connection.
Context `{!Demux.ArgsCodec} {W : Type}.
Notation server := (Server (St := W)).

(** The client's connection, open or not, and the server at its other end. *)
Record conn := mkConn { is_open : bool; peer : server }.

(** [RPCClnt.RPC] *)
Definition conn_RPC (f : fate) (clnt method args : string) (c : conn) : outcome (conn * (string * bool)) :=
  if is_open c then
    match f with
    | Answered => r ← RPC clnt method args (peer c); Ret (mkConn true r.1, r.2)
    | Lost => r ← RPC clnt method args (peer c); Ret (mkConn false r.1, Demux.RPC_result "" false true)
    | Unserved => Ret (mkConn false (peer c), Demux.RPC_result "" false true)
    end
  else Ret (c, Demux.RPC_result "" false true).

(** [RPCClnt.RPCMarshall], which [TesterClnt.Call] and [DaemonClnt.Call] are. *)
Definition conn_Call {A R} `{!Gob A, !Gob R} (f : fate) (clnt method : string) (args : A) (c : conn)
    : outcome (conn * option R) :=
  r ← conn_RPC f clnt method (Marshall args) c; unmarshal_reply r.1 r.2.1 r.2.2.

(** A method of a service that [Service.dispatch] calls through [reflect]: the
    arguments are decoded and the reply encoded. *)
Definition handler {A R} `{!Gob A, !Gob R} (f : A -> W -> outcome (W * R)) : Method (St := W) := fun b w =>
  match Unmarshall b with
  | Some args => r ← f args w; Ret (r.1, Marshall r.2)
  | None => Fatal "Unmarshall fatal"
  end.

(** What a call of [f] at the other end is: the effect of [f], and its reply if
    it is answered. *)
Definition remote {A R} (f : fate) (h : A -> W -> outcome (W * R)) (args : A) (c : conn) : outcome (conn * option R) :=
  if is_open c then
    match f with
    | Answered => r ← h args (app (peer c)); Ret (mkConn true (served 1 (peer c) r.1), Some r.2)
    | Lost => r ← h args (app (peer c)); Ret (mkConn false (served 1 (peer c) r.1), None)
    | Unserved => Ret (mkConn false (peer c), None)
    end
  else Ret (c, None).

Lemma RPC_handler {A R} `{!Gob A, !Gob R} `{!GobLaws A} (h : A -> W -> outcome (W * R)) clnt method sn mn
    (svc : Service (St := W)) (a : A) (rs : server) :
  split_svcMeth method = Ret (sn, mn) -> dispatchf rs = None -> services rs !! sn = Some svc ->
  (svc : gmap string Method) !! mn = Some (handler h) ->
  RPC clnt method (Marshall a) rs = (r ← h a (app rs); Ret (served 1 rs r.1, (Marshall r.2, true))).
Proof.
  intros Hm Hd Hs Hh. unfold RPC. rewrite Demux.ServeRequest_dispatch. unfold Server_dispatch. cbn [LabRpc.svcMeth]. rewrite Hm.
  cbn [mbind outcome_bind fst snd dispatchf services app count]. rewrite Hd, Hs. unfold Service_dispatch. change (svc !! mn) with ((svc : gmap string Method) !! mn). rewrite Hh. unfold handler.
  cbn [LabRpc.args]. rewrite Unmarshall_Marshall. destruct (h a (app rs)) as [[w r]| |]; [|done..]. cbn. unfold served. by rewrite Hd.
Qed.

(** A call through a stub is a call of the handler. *)
Lemma conn_Call_remote {A R} `{!Gob A, !Gob R} `{!GobLaws A, !GobLaws R} (h : A -> W -> outcome (W * R)) f clnt method sn mn
    (svc : Service (St := W)) (a : A) c :
  split_svcMeth method = Ret (sn, mn) -> dispatchf (peer c) = None -> services (peer c) !! sn = Some svc ->
  (svc : gmap string Method) !! mn = Some (handler h) -> conn_Call f clnt method a c = remote f h a c.
Proof.
  intros Hm Hd Hs Hh. unfold conn_Call, conn_RPC, remote. destruct c as [[] rs]; cbn [is_open peer] in *; [|done].
  destruct f; [..|done]; rewrite (RPC_handler h clnt method sn mn svc a rs) by done;
    destruct (h a (app rs)) as [[w r]| |]; try done; cbn -[served]. by rewrite Unmarshall_Marshall.
Qed.
End Connection.
Arguments conn : clear implicits.

(** ** The tester's services *)

(** [raft1/test.go] *)
Record CheckLogsArgs (V : Type) := mkCheckLogsArgs { cl_Index : nat; cl_Msg : RaftTest.ApplyMsg V }.
Record CheckLogsReply := mkCheckLogsReply { cl_Err : string; cl_Prevok : bool }.
Record IngestLogArgs (V : Type) := mkIngestLogArgs { il_Index : nat; il_Log : gmap Z V }.
Record ApplyErrArgs := mkApplyErrArgs { ae_Index : nat; ae_Err : string }.
(** [annotator.go] *)
Record PostAnnotatorPointArgs := mkPointArgs { pt_Tag : string; pt_Desp : string; pt_Details : string }.
Record GetAnnotatorTimestampReply := mkTimestampReply { ts_Timestamp : Z }.
Record PostAnnotatorInfoIntervalArgs := mkInfoIntervalArgs { ii_Start : Z; ii_Desp : string; ii_Details : string }.
Arguments mkCheckLogsArgs {V}.
Arguments cl_Index {V}.
Arguments cl_Msg {V}.
Arguments mkIngestLogArgs {V}.
Arguments il_Index {V}.
Arguments il_Log {V}.

(** The codecs of every argument and reply; the empty structs are [unit]. *)
Class Codecs (V : Type) := {
  gob_cl :: Gob (CheckLogsArgs V); gob_clr :: Gob CheckLogsReply; gob_il :: Gob (IngestLogArgs V);
  gob_ae :: Gob ApplyErrArgs; gob_pt :: Gob PostAnnotatorPointArgs; gob_tsr :: Gob GetAnnotatorTimestampReply;
  gob_ii :: Gob PostAnnotatorInfoIntervalArgs; gob_unit :: Gob unit }.
Class CodecsLaws (V : Type) `{!Codecs V} := {
  laws_cl :: GobLaws (CheckLogsArgs V); laws_clr :: GobLaws CheckLogsReply; laws_il :: GobLaws (IngestLogArgs V);
  laws_ae :: GobLaws ApplyErrArgs; laws_pt :: GobLaws PostAnnotatorPointArgs; laws_tsr :: GobLaws GetAnnotatorTimestampReply;
  laws_ii :: GobLaws PostAnnotatorInfoIntervalArgs; laws_unit :: GobLaws unit }.

Section Tester.
Context {V : Type} `{!RaftTest.Command V, !Demux.ArgsCodec, !Codecs V}.

(** The tester's process: what the Raft test keeps, the timeline, the clock. *)
Record tester := mkTester { t_test : RaftTest.test V; t_an : Annotation.state; t_now : Z }.

Definition set_test (ts : RaftTest.test V) (w : tester) : tester := mkTester ts (t_an w) (t_now w).
Definition set_an (an : Annotation.state) (w : tester) : tester := mkTester (t_test w) an (t_now w).

(** The order in which [cleanup] ranges over the open annotations, and the
    variable [VIS_ENABLE]. *)
Context (range : gmap string Annotation.Continuous -> list (string * Annotation.Continuous)) (vis : string).

Definition CheckLogsRPC (args : CheckLogsArgs V) (w : tester) : outcome (tester * CheckLogsReply) :=
  r ← RaftTest.CheckLogs (cl_Index args) (cl_Msg args) (t_test w);
  Ret (set_test r.1 w, mkCheckLogsReply r.2.1 r.2.2).

Definition IngestLogRPC (args : IngestLogArgs V) (w : tester) : outcome (tester * unit) :=
  ts ← RaftTest.IngestLog (il_Index args) (il_Log args) (t_test w); Ret (set_test ts w, tt).

Definition AnnotateCheckerFailureBeforeExit (desp details : string) (w : tester) : outcome tester :=
  an ← Annotation.AnnotateCheckerFailure (t_now w) desp details (t_an w);
  Ret (set_an (Annotation.on_an (fun a =>
    (Annotation.cleanup (t_now w) (t_now w) (range (Annotation.continuous a)) vis true "test failed" a).1) an) w).

Definition ApplyErrRPC (args : ApplyErrArgs) (w : tester) : outcome (tester * unit) :=
  ts ← RaftTest.ApplyErr (ae_Index args) (ae_Err args) (t_test w);
  w ← AnnotateCheckerFailureBeforeExit "apply error" (ae_Err args) (set_test ts w);
  Ret (w, tt).

Definition Test_methods : Service (St := tester) :=
  {[ "CheckLogsRPC" := handler CheckLogsRPC; "IngestLogRPC" := handler IngestLogRPC; "ApplyErrRPC" := handler ApplyErrRPC ]}.

Definition AnnotatePoint (tag desp details : string) (w : tester) : tester :=
  set_an (Annotation.on_an (Annotation.annotatePointColor (t_now w) tag desp details Annotation.COLOR_USER) (t_an w)) w.
Definition AnnotateInfoInterval (start : Z) (desp details : string) (w : tester) : tester :=
  set_an (Annotation.on_an
    (Annotation.annotateIntervalColor (t_now w) Annotation.TAG_INFO start desp details Annotation.COLOR_INFO) (t_an w)) w.

Definition PostAnnotatorPoint (args : PostAnnotatorPointArgs) (w : tester) : outcome (tester * unit) :=
  Ret (AnnotatePoint (pt_Tag args) (pt_Desp args) (pt_Details args) w, tt).
Definition GetAnnotatorTimestamp_method (args : unit) (w : tester) : outcome (tester * GetAnnotatorTimestampReply) :=
  Ret (w, mkTimestampReply (t_now w)).
Definition PostAnnotatorInfoInterval_method (args : PostAnnotatorInfoIntervalArgs) (w : tester) : outcome (tester * unit) :=
  Ret (AnnotateInfoInterval (ii_Start args) (ii_Desp args) (ii_Details args) w, tt).

(** [TesterRPC]'s methods here; [Forward] is [Daemon]'s. *)
Definition TesterRPC_methods : Service (St := tester) :=
  {[ "PostAnnotatorPoint" := handler PostAnnotatorPoint; "GetAnnotatorTimestamp" := handler GetAnnotatorTimestamp_method;
     "PostAnnotatorInfoInterval" := handler PostAnnotatorInfoInterval_method ]}.

(** The tester's RPC server, after [ts.Config.AddService(ts)]. *)
Definition tester_srv (w : tester) : Server (St := tester) :=
  AddService "Test" Test_methods (AddService "TesterRPC" TesterRPC_methods (mkServer ∅ 0 None w)).

(** ** The server's side *)

(** [TesterProxy]; an RPC that fails is answered "ErrRPC", or not looked at. *)
Definition CheckLogs (f : fate) (clnt : string) (i : nat) (m : RaftTest.ApplyMsg V) (c : conn tester)
    : outcome (conn tester * (string * bool)) :=
  r ← conn_Call (R := CheckLogsReply) f clnt "Test.CheckLogsRPC" (mkCheckLogsArgs i m) c;
  Ret (r.1, match r.2 with Some rep => (cl_Err rep, cl_Prevok rep) | None => ("ErrRPC", false) end).
Definition IngestLog (f : fate) (clnt : string) (i : nat) (l : gmap Z V) (c : conn tester) : outcome (conn tester) :=
  r ← conn_Call (R := unit) f clnt "Test.IngestLogRPC" (mkIngestLogArgs i l) c; Ret r.1.
Definition ApplyErr (f : fate) (clnt : string) (i : nat) (err : string) (c : conn tester) : outcome (conn tester) :=
  r ← conn_Call (R := unit) f clnt "Test.ApplyErrRPC" (mkApplyErrArgs i err) c; Ret r.1.

(** [annotator.go]'s stubs *)
Definition Annotate (f : fate) (clnt tag desp details : string) (c : conn tester) : outcome (conn tester) :=
  r ← conn_Call (R := unit) f clnt "TesterRPC.PostAnnotatorPoint" (mkPointArgs tag desp details) c; Ret r.1.
Definition GetAnnotatorTimestamp (f : fate) (clnt : string) (c : conn tester) : outcome (conn tester * Z) :=
  r ← conn_Call (R := GetAnnotatorTimestampReply) f clnt "TesterRPC.GetAnnotatorTimestamp" tt c;
  Ret (r.1, match r.2 with Some rep => ts_Timestamp rep | None => 0%Z end).
Definition PostAnnotatorInfoInterval (f : fate) (clnt : string) (start : Z) (desp details : string) (c : conn tester)
    : outcome (conn tester) :=
  r ← conn_Call (R := unit) f clnt "TesterRPC.PostAnnotatorInfoInterval" (mkInfoIntervalArgs start desp details) c; Ret r.1.

(** [applier] on one message, over the server's connection: [f1] and [f2] are the
    fates of its two RPCs. *)
Definition applier (f1 f2 : fate) (clnt : string) (me : nat) (m : RaftTest.ApplyMsg V) (c : conn tester)
    : outcome (conn tester) :=
  if RaftTest.CommandValid m then
    r ← CheckLogs f1 clnt me m c;
    let '(c, (err, prevok)) := r in
    let err := if (1 <? RaftTest.CommandIndex m)%Z && negb prevok then RaftTest.out_of_order me (RaftTest.CommandIndex m) else err in
    if decide (err = "") then Ret c else ApplyErr f2 clnt me err c
  else Ret c.

(** Time passes in the tester. *)
Definition pass (d : Z) (c : conn tester) : conn tester :=
  let w := app (peer c) in
  mkConn (is_open c) (mkServer (services (peer c)) (count (peer c)) (dispatchf (peer c)) (mkTester (t_test w) (t_an w) (t_now w + d))).

(** The calls of [applierSnap] around [rf.Snapshot], which takes [d]. *)
Definition announce (f1 f2 : fate) (clnt : string) (me : nat) (index : Z) (d : Z) (c : conn tester) : outcome (conn tester) :=
  r ← GetAnnotatorTimestamp f1 clnt c;
  let c := pass d r.1 in
  let desp := "snapshot created by " +:+ itoa me in
  let details := "snapshot created by server " +:+ itoa me +:+ " after applying the command at index " +:+ pretty index in
  PostAnnotatorInfoInterval f2 clnt r.2 desp details c.

(** ** All servers *)

(** [Deliver]: server [i] takes a message from its apply channel; [Restarted]: a
    new daemon of server [i], with a new connection. *)
Inductive event :=
  | Deliver (i : nat) (m : RaftTest.ApplyMsg V) (f1 f2 : fate)
  | Restarted (i : nat).

Record sys := mkSys { s_open : list bool; s_srv : Server (St := tester) }.

(** The servers' end names. *)
Context (name : nat -> string).

Definition exec (s : sys) (e : event) : outcome sys :=
  match e with
  | Deliver i m f1 f2 =>
      b ← idx (s_open s) i;
      c ← applier f1 f2 (name i) i m (mkConn b (s_srv s));
      Ret (mkSys (<[i := is_open c]> (s_open s)) (peer c))
  | Restarted i => Ret (mkSys (<[i := true]> (s_open s)) (s_srv s))
  end.

Definition start (n : nat) (w : tester) : sys := mkSys (replicate n true) (tester_srv w).

End Tester.
Arguments tester : clear implicits.
Arguments sys : clear implicits.
Arguments event : clear implicits.

(** ** The servers' services and the tester's proxies *)

(** [raft1/server.go], [rsm/server.go] *)
Record GetStateReply := mkGetStateReply { gs_Term : Z; gs_Leader : bool }.
Record StartArgs (V : Type) := mkStartArgs { sa_Command : V }.
Record StartReply := mkStartReply { sr_Index : Z; sr_Term : Z; sr_Leader : bool }.
Record SubmitArgs := mkSubmitArgs { su_Req : Rsm.Req }.
Record SubmitReply := mkSubmitReply { su_Err : KvServer.Err; su_Rep : option Rsm.Rep }.
Record GetCounterReply := mkGetCounterReply { gc_Count : Z }.
Arguments mkStartArgs {V}.
Arguments sa_Command {V}.

Section Proxies.
Context `{!Demux.ArgsCodec} {V R M : Type}.
Context `{!Gob unit, !Gob GetStateReply, !Gob (StartArgs V), !Gob StartReply, !Gob SubmitArgs, !Gob SubmitReply, !Gob GetCounterReply}.
(** The Raft library, and [RSM.Submit], which executes operations. *)
Context (raft_Start : V -> R -> R * (Z * Z * bool)) (raft_GetState : R -> Z * bool).
Context (rsm_Submit : Rsm.Req -> M * Rsm.rsmSrv -> outcome (M * Rsm.rsmSrv * (KvServer.Err * option Rsm.Rep))).

(** [rfsrv.Start] and [GetState]; the server's Raft may be nil. *)
Definition rfsrv_Start (command : V) (rf : option R) : outcome (option R * (Z * Z * bool)) :=
  match rf with
  | None => Ret (None, (0%Z, 0%Z, false))
  | Some r => let '(r, x) := raft_Start command r in Ret (Some r, x)
  end.
Definition rfsrv_GetState (rf : option R) : outcome (Z * bool) :=
  match rf with None => Panic "nil pointer dereference" | Some r => Ret (raft_GetState r) end.

Definition StartRPC (args : StartArgs V) (rf : option R) : outcome (option R * StartReply) :=
  r ← rfsrv_Start (sa_Command args) rf; Ret (r.1, mkStartReply r.2.1.1 r.2.1.2 r.2.2).
Definition GetStateRPC (args : unit) (rf : option R) : outcome (option R * GetStateReply) :=
  x ← rfsrv_GetState rf; Ret (rf, mkGetStateReply x.1 x.2).
Definition rfsrv_methods : Service (St := option R) := {[ "StartRPC" := handler StartRPC; "GetStateRPC" := handler GetStateRPC ]}.

(** [Rfproxy]: the reply of an RPC that fails is zero. *)
Definition Rfproxy_GetState (f : fate) (c : conn (option R)) : outcome (conn (option R) * (Z * bool)) :=
  r ← conn_Call (R := GetStateReply) f "tester" "rfsrv.GetStateRPC" tt c;
  Ret (r.1, match r.2 with Some rep => (gs_Term rep, gs_Leader rep) | None => (0%Z, false) end).
Definition Rfproxy_Start (f : fate) (command : V) (c : conn (option R)) : outcome (conn (option R) * (Z * Z * bool)) :=
  r ← conn_Call (R := StartReply) f "tester" "rfsrv.StartRPC" (mkStartArgs command) c;
  Ret (r.1, match r.2 with Some rep => (sr_Index rep, sr_Term rep, sr_Leader rep) | None => (0%Z, 0%Z, false) end).

Definition SubmitRPC (args : SubmitArgs) (d : M * Rsm.rsmSrv) : outcome (M * Rsm.rsmSrv * SubmitReply) :=
  r ← rsm_Submit (su_Req args) d; Ret (r.1, mkSubmitReply r.2.1 r.2.2).
Definition GetCounterRPC (args : unit) (d : M * Rsm.rsmSrv) : outcome (M * Rsm.rsmSrv * GetCounterReply) :=
  Ret (d, mkGetCounterReply (Rsm.GetCounter d.2)).
Definition rsmSrv_methods : Service (St := M * Rsm.rsmSrv) :=
  {[ "SubmitRPC" := handler SubmitRPC; "GetCounterRPC" := handler GetCounterRPC ]}.

(** [RSMproxy] *)
Definition RSMproxy_Submit (f : fate) (req : Rsm.Req) (c : conn (M * Rsm.rsmSrv)) : outcome (conn (M * Rsm.rsmSrv) * (KvServer.Err * option Rsm.Rep)) :=
  r ← conn_Call (R := SubmitReply) f "tester" "rsmSrv.SubmitRPC" (mkSubmitArgs req) c;
  Ret (r.1, match r.2 with Some rep => (su_Err rep, su_Rep rep) | None => ("", None) end).
Definition RSMproxy_GetCounter (f : fate) (c : conn (M * Rsm.rsmSrv)) : outcome (conn (M * Rsm.rsmSrv) * Z) :=
  r ← conn_Call (R := GetCounterReply) f "tester" "rsmSrv.GetCounterRPC" tt c;
  Ret (r.1, match r.2 with Some rep => gc_Count rep | None => 0%Z end).

(** A daemon's server with one of the services. *)
Definition daemon_srv {W} (sn : string) (svc : Service (St := W)) (w : W) : Server (St := W) := AddService sn svc (mkServer ∅ 0 None w).
End Proxies.

(** ** The stubs call the handlers *)

Section Laws.
Context {V : Type} `{!RaftTest.Command V, !Demux.ArgsCodec, !Codecs V, !CodecsLaws V}.
Context (range : gmap string Annotation.Continuous -> list (string * Annotation.Continuous)) (vis : string).
Implicit Types (w : tester V) (c : conn (tester V)) (m : RaftTest.ApplyMsg V).

(** The server at the other end is the tester's. *)
Definition is_tester (rs : Server (St := tester V)) : Prop :=
  services rs = services (tester_srv range vis (app rs)) /\ dispatchf rs = None.

Lemma is_tester_served n rs w : is_tester rs -> is_tester (served n rs w).
Proof. by intros []. Qed.

Lemma is_tester_remote {A R} f (h : A -> tester V -> outcome (tester V * R)) a c c' r :
  is_tester (peer c) -> remote f h a c = Ret (c', r) -> is_tester (peer c').
Proof.
  intros Ht. unfold remote. destruct (is_open c), f; try (by intros [= <- _]);
    destruct (h a (app (peer c))) as [[w rep]| |]; try done; intros [= <- _]; by apply is_tester_served.
Qed.

Local Ltac by_remote :=
  erewrite conn_Call_remote; [reflexivity|reflexivity|by match goal with H : is_tester _ |- _ => apply H end|
    match goal with H : is_tester _ |- _ => rewrite (proj1 H); reflexivity end|reflexivity].

Lemma CheckLogs_remote f clnt i m c : is_tester (peer c) ->
  CheckLogs f clnt i m c =
  (r ← remote f CheckLogsRPC (mkCheckLogsArgs i m) c;
   Ret (r.1, match r.2 with Some rep => (cl_Err rep, cl_Prevok rep) | None => ("ErrRPC", false) end)).
Proof. intros Ht. unfold CheckLogs. by_remote. Qed.

Lemma ApplyErr_remote f clnt i err c : is_tester (peer c) ->
  ApplyErr f clnt i err c = (r ← remote f (ApplyErrRPC range vis) (mkApplyErrArgs i err) c; Ret r.1).
Proof. intros Ht. unfold ApplyErr. by_remote. Qed.

Lemma GetAnnotatorTimestamp_remote f clnt c : is_tester (peer c) ->
  GetAnnotatorTimestamp f clnt c =
  (r ← remote f GetAnnotatorTimestamp_method tt c; Ret (r.1, match r.2 with Some rep => ts_Timestamp rep | None => 0%Z end)).
Proof. intros Ht. unfold GetAnnotatorTimestamp. by_remote. Qed.

Lemma PostAnnotatorInfoInterval_remote f clnt start desp details c : is_tester (peer c) ->
  PostAnnotatorInfoInterval f clnt start desp details c =
  (r ← remote f PostAnnotatorInfoInterval_method (mkInfoIntervalArgs start desp details) c; Ret r.1).
Proof. intros Ht. unfold PostAnnotatorInfoInterval. by_remote. Qed.

(** ** What applying a message does *)

(** Nothing goes through a closed connection. *)
Lemma applier_closed f1 f2 clnt i m rs : is_tester rs -> applier f1 f2 clnt i m (mkConn false rs) = Ret (mkConn false rs).
Proof.
  intros Ht. unfold applier. destruct (RaftTest.CommandValid m); [|done]. rewrite CheckLogs_remote by done. cbn [remote is_open mbind outcome_bind fst snd].
  case_decide; [done|]. rewrite ApplyErr_remote by done. reflexivity.
Qed.

(** ** Runs *)

Context (name : nat -> string).
Implicit Types (s : sys V) (es : list (event V)).
Notation tests s := (t_test (app (s_srv s))).

(** Messages and their servers, in the order they are taken. *)
Definition delivered es : list (nat * RaftTest.ApplyMsg V) :=
  omap (fun e => match e with Deliver i m _ _ => Some (i, m) | Restarted _ => None end) es.

(** What server [i] has taken since it was last started. *)
Definition life (i : nat) es : list (RaftTest.ApplyMsg V) :=
  foldl (fun l e => match e with
    | Deliver j m _ _ => if decide (j = i) then l ++ [m] else l
    | Restarted j => if decide (j = i) then [] else l
    end) [] es.

(** Each life of a server applies an index above 1 only after the one before. *)
Definition lives_in_order es : Prop :=
  forall es1 i m f1 f2 es2, es = es1 ++ Deliver i m f1 f2 :: es2 -> RaftTest.CommandValid m = true -> (1 < RaftTest.CommandIndex m)%Z ->
    exists m', m' ∈ life i es1 /\ RaftTest.CommandValid m' = true /\ RaftTest.CommandIndex m' = (RaftTest.CommandIndex m - 1)%Z.

Definition server_of (e : event V) : nat := match e with Deliver i _ _ _ | Restarted i => i end.

(** The tester runs a Raft test with [n] servers whose timeline has begun. *)
Record sys_ok (n : nat) s : Prop := {
  so_open : length (s_open s) = n;
  so_srvs : length (RaftTest.srvs (tests s)) = n;
  so_tester : is_tester (s_srv s);
  so_finfo : is_Some (Annotation.finfo (t_an (app (s_srv s)))) }.

Lemma BeforeExit_returns desp details w : is_Some (Annotation.finfo (t_an w)) ->
  exists w', AnnotateCheckerFailureBeforeExit range vis desp details w = Ret w' /\ t_test w' = t_test w /\
    is_Some (Annotation.finfo (t_an w')).
Proof.
  intros [fi Hf]. unfold AnnotateCheckerFailureBeforeExit, Annotation.AnnotateCheckerFailure, Annotation.AnnotateCheckerEnd, Annotation.with_finfo.
  rewrite Hf. case_match; eexists; (split; [reflexivity|]); (split; [done|]); cbn; rewrite Hf; by eexists.
Qed.

(** [ApplyErr] returns; over an open connection that stays open the tester has
    the error. *)
Lemma ApplyErr_returns f clnt i err rs :
  is_tester rs -> i < length (RaftTest.srvs (t_test (app rs))) -> is_Some (Annotation.finfo (t_an (app rs))) ->
  exists c ts, ApplyErr f clnt i err (mkConn true rs) = Ret c /\ is_tester (peer c) /\ is_Some (Annotation.finfo (t_an (app (peer c)))) /\
    RaftTest.ApplyErr i err (t_test (app rs)) = Ret ts /\ length (RaftTest.srvs (t_test (app (peer c)))) = length (RaftTest.srvs (t_test (app rs))) /\
    (is_open c = true -> t_test (app (peer c)) = ts).
Proof.
  intros Ht Hi Hf. destruct (lookup_lt_is_Some_2 _ _ Hi) as [me Hme].
  assert (E : exists ts, RaftTest.ApplyErr i err (t_test (app rs)) = Ret ts /\ length (RaftTest.srvs ts) = length (RaftTest.srvs (t_test (app rs)))).
  { unfold RaftTest.ApplyErr. rewrite (idx_Some _ _ _ Hme). eexists. split; [reflexivity|]. cbn. apply length_insert. }
  destruct E as (ts & E & Hl). destruct (BeforeExit_returns "apply error" err (set_test ts (app rs)) Hf) as (w & Ew & Hw & Hfw).
  rewrite ApplyErr_remote by done. unfold remote, ApplyErrRPC. cbn [is_open peer ae_Index ae_Err]. rewrite E. cbn [mbind outcome_bind]. rewrite Ew.
  destruct f; cbn -[served]; do 2 eexists; (split; [reflexivity|]); cbn -[served];
    (split; [by try apply is_tester_served|]); (split; [done|]); (split; [reflexivity|]); cbn; rewrite ?Hw; by split.
Qed.

(** The tester looks at the message or not; it is told of an error only over a
    connection that stays open until then. *)
Lemma applier_open f1 f2 clnt i m rs :
  is_tester rs -> i < length (RaftTest.srvs (t_test (app rs))) -> is_Some (Annotation.finfo (t_an (app rs))) ->
  RaftTest.CommandValid m = true ->
  exists c ts err prevok, applier f1 f2 clnt i m (mkConn true rs) = Ret c /\
    RaftTest.CheckLogs i m (t_test (app rs)) = Ret (ts, (err, prevok)) /\
    is_tester (peer c) /\ is_Some (Annotation.finfo (t_an (app (peer c)))) /\
    length (RaftTest.srvs (t_test (app (peer c)))) = length (RaftTest.srvs (t_test (app rs))) /\
    let rs1 := served 1 rs (set_test ts (app rs)) in
    let err := if (1 <? RaftTest.CommandIndex m)%Z && negb prevok then RaftTest.out_of_order i (RaftTest.CommandIndex m) else err in
    (f1 = Unserved /\ c = mkConn false rs \/ f1 = Lost /\ c = mkConn false rs1 \/
     f1 = Answered /\ err = "" /\ c = mkConn true rs1 \/
     f1 = Answered /\ err <> "" /\ (is_open c = true -> RaftTest.ApplyErr i err ts = Ret (t_test (app (peer c))))).
Proof.
  intros Ht Hi Hf Hv. destruct (RaftTest.CheckLogs_spec i m _ Hi) as (ts & err & prevok & E & Hl & _). unfold applier. rewrite Hv, CheckLogs_remote by done.
  unfold remote. cbn [is_open peer]. unfold CheckLogsRPC. cbn [cl_Index cl_Msg]. rewrite E. set (rs1 := served 1 rs (set_test ts (app rs))).
  assert (Ht1 : is_tester rs1) by by apply is_tester_served.
  destruct f1; cbn [mbind outcome_bind fst snd cl_Err cl_Prevok negb].
  - set (err' := if _ && _ then _ else _). destruct (decide (err' = "")) as [He|He].
    + exists (mkConn true rs1), ts, err, prevok. do 5 (split; [done|]). right. right. left. by rewrite <-He.
    + destruct (ApplyErr_returns f2 clnt i err' rs1 Ht1) as (c & ts' & Ea & Htc & Hfc & Et & Hlc & Ho); [cbn; lia|done|].
      exists c, ts, err, prevok. do 4 (split; [done|]). split; [cbn in Hlc; lia|]. right. right. right. split; [done|]. split; [done|].
      intros Hop. rewrite (Ho Hop). done.
  - exists (mkConn false rs1), ts, err, prevok. rewrite andb_true_r, decide_False by by destruct (1 <? _)%Z.
    rewrite ApplyErr_remote by done. do 5 (split; [done|]). right. by left.
  - exists (mkConn false rs), ts, err, prevok. rewrite andb_true_r, decide_False by by destruct (1 <? _)%Z.
    rewrite ApplyErr_remote by done. do 5 (split; [done|]). by left.
Qed.

(** Every step can be taken. *)
Lemma exec_ok n s e : sys_ok n s -> server_of e < n -> exists s', exec name s e = Ret s' /\ sys_ok n s'.
Proof.
  intros [H1 H2 H3 H4] He. destruct e as [i m f1 f2|i]; cbn in He; [|eexists; split; [reflexivity|]; split; cbn; rewrite ?length_insert; done].
  destruct (lookup_lt_is_Some_2 (s_open s) i) as [b Hb]; [lia|]. unfold exec. rewrite (idx_Some _ _ _ Hb). cbn [mbind outcome_bind].
  destruct b; [|rewrite applier_closed by done; eexists; split; [reflexivity|]; split; cbn; rewrite ?length_insert; done].
  destruct (RaftTest.CommandValid m) eqn:Hv; [|unfold applier; rewrite Hv; eexists; split; [reflexivity|]; split; cbn; rewrite ?length_insert; done].
  destruct (applier_open f1 f2 (name i) i m (s_srv s)) as (c & ts & err & prevok & -> & _ & Ht & Hf & Hl & _); [done|lia|done..|].
  eexists. split; [reflexivity|]. split; cbn; rewrite ?length_insert; first [done|lia].
Qed.

Lemma run_ok n es s : sys_ok n s -> Forall (fun e => server_of e < n) es -> exists s', foldo (exec name) s es = Ret s' /\ sys_ok n s'.
Proof.
  intros Hs Hes. revert s Hs. induction Hes as [|e es He _ IH]; intros s Hs; [by exists s|]. cbn.
  destruct (exec_ok n s e Hs He) as (s1 & -> & Hs1). by apply IH.
Qed.

Lemma sys_start_ok n w : t_test w = RaftTest.makeTest n -> is_Some (Annotation.finfo (t_an w)) -> sys_ok n (start range vis n w).
Proof. intros Hw Hf. split; cbn; [apply length_replicate|rewrite Hw; apply length_replicate|done|done]. Qed.

Definition all_open s : Prop := Forall (fun b => b = true) (s_open s).

(** A step that leaves every connection open is [RaftTest]'s. *)
Lemma exec_open n s s' i m f1 f2 :
  sys_ok n s -> i < n -> exec name s (Deliver i m f1 f2) = Ret s' -> all_open s' ->
  all_open s /\ RaftTest.applier i true true m (tests s) = Ret (tests s').
Proof.
  intros [H1 H2 H3 H4] Hi. destruct (lookup_lt_is_Some_2 (s_open s) i) as [b Hb]; [lia|]. unfold exec. rewrite (idx_Some _ _ _ Hb). cbn [mbind outcome_bind].
  assert (Hop : forall c, applier f1 f2 (name i) i m (mkConn b (s_srv s)) = Ret c -> all_open (mkSys (<[i := is_open c]> (s_open s)) (peer c)) ->
      b = true /\ is_open c = true /\ all_open s).
  { intros c Ec Ho. unfold all_open in *. rewrite Forall_lookup in *. cbn in Ho.
    assert (Hc : is_open c = true) by (apply (Ho i); apply list_lookup_insert_eq; lia).
    assert (Hb1 : b = true) by (destruct b; [done|]; rewrite applier_closed in Ec by done; by injection Ec as <-).
    split; [done|]. split; [done|]. intros j x Hj. destruct (decide (j = i)) as [->|Hji]; [congruence|].
    apply (Ho j). by rewrite list_lookup_insert_ne. }
  destruct (applier _ _ _ _ _ _) as [c| |] eqn:Ec; [|done..]. cbn [mbind outcome_bind]. intros [= <-] Hopen.
  destruct (Hop c eq_refl Hopen) as (-> & Hc & Hs). split; [done|]. unfold RaftTest.applier. destruct (RaftTest.CommandValid m) eqn:Hv.
  - destruct (applier_open f1 f2 (name i) i m (s_srv s)) as (c' & ts & err & prevok & Ec' & E & _ & _ & _ & Hcase); [done|lia|done..|].
    rewrite Ec in Ec'. injection Ec' as <-. unfold RaftTest.CheckLogs_rpc. rewrite E. cbn [mbind outcome_bind]. cbn zeta in Hcase. unfold RaftTest.report.
    destruct Hcase as [[_ ->]|[[_ ->]|[(_ & He & ->)|(_ & He & Ha)]]]; [done..| |].
    + by rewrite decide_True.
    + rewrite decide_False by done. by apply Ha.
  - unfold applier in Ec. rewrite Hv in Ec. by injection Ec as <-.
Qed.

Definition delivery n (e : event V) : Prop := match e with Deliver i _ _ _ => i < n | Restarted _ => False end.

Lemma run_open n es s s' :
  sys_ok n s -> Forall (delivery n) es -> foldo (exec name) s es = Ret s' -> all_open s' ->
  all_open s /\ RaftTest.apply_all (tests s) (delivered es) = Ret (tests s').
Proof.
  intros Hs Hes. revert s Hs. induction Hes as [|e es He _ IH]; intros s Hs; cbn; [by intros [= ->]|].
  destruct e as [i m f1 f2|]; [|done]. destruct (exec_ok n s (Deliver i m f1 f2) Hs He) as (s1 & E & Hs1). rewrite E. cbn [mbind outcome_bind].
  intros Hr Ho. destruct (IH s1 Hs1 Hr Ho) as [Ho1 Ha]. destruct (exec_open n s s1 i m f1 f2 Hs He E Ho1) as [Hos Hap].
  split; [done|]. cbn. rewrite Hap. exact Ha.
Qed.

(** C7: through the RPCs.  Whatever commands the servers apply and whatever
    becomes of their RPCs, the run goes on to its end; and if at the end no
    connection to the tester has been closed, the tester has an error exactly
    when two servers disagree on the command at an index or one of them applied
    an index out of order. *)
Theorem connected_checks_exact n w es :
  t_test w = RaftTest.makeTest n -> is_Some (Annotation.finfo (t_an w)) -> Forall (delivery n) es ->
  exists s, foldo (exec name) (start range vis n w) es = Ret s /\
    (all_open s ->
     (RaftTest.no_errors (tests s) <-> RaftTest.same_commands (delivered es) /\ RaftTest.in_order (delivered es))).
Proof.
  intros Hw Hf Hes. pose proof (sys_start_ok n w Hw Hf) as Hst.
  destruct (run_ok n es _ Hst) as (s & E & _); [by eapply Forall_impl; [exact Hes|intros []]|]. exists s. split; [done|]. intros Ho.
  destruct (run_open n es _ s Hst Hes E Ho) as [_ Ha]. cbn in Ha. rewrite Hw in Ha.
  destruct (RaftTest.apply_all_spec n (delivered es)) as (ts & E' & _ & Hne); [|rewrite Ha in E'; by injection E' as ->].
  apply Forall_forall. intros [j m] (e & He & Hx)%list_elem_of_omap. rewrite Forall_forall in Hes. specialize (Hes e He).
  destruct e as [i m' f1 f2|]; [|done]. by injection Hx as <- <-.
Qed.

(** ** Connections that are closed *)

Definition consistent es : Prop := RaftTest.same_commands (delivered es) /\ lives_in_order es.

Lemma delivered_app es1 es2 : delivered (es1 ++ es2) = delivered es1 ++ delivered es2.
Proof. apply omap_app. Qed.

Lemma life_snoc i es e :
  life i (es ++ [e]) = match e with
    | Deliver j m _ _ => if decide (j = i) then life i es ++ [m] else life i es
    | Restarted j => if decide (j = i) then [] else life i es
    end.
Proof. unfold life. rewrite foldl_app. by destruct e. Qed.

Lemma consistent_prefix es1 es2 : consistent (es1 ++ es2) -> consistent es1.
Proof.
  intros [Hs Hl]. split.
  - intros i m j m' Hi Hj. rewrite delivered_app in Hs. apply (Hs i m j m'); apply elem_of_app; by left.
  - intros l1 i m f1 f2 l2 ->. apply (Hl l1 i m f1 f2 (l2 ++ es2)). by rewrite <-app_assoc.
Qed.

(** After [es]: the tester has no error and no annotation of one; what it knows
    was delivered, and it knows everything a server that can reach it has taken
    in its life. *)
Record quiet (n : nat) w es s : Prop := {
  qt_ok : sys_ok n s;
  qt_err : RaftTest.no_errors (tests s);
  qt_an : t_an (app (s_srv s)) = t_an w;
  qt_src i k v : RaftTest.log_at (tests s) i k = Some v ->
    exists m, (i, m) ∈ delivered es /\ RaftTest.CommandValid m = true /\ RaftTest.CommandIndex m = k /\ RaftTest.Command_ m = v;
  qt_life i m : s_open s !! i = Some true -> m ∈ life i es -> RaftTest.CommandValid m = true ->
    is_Some (RaftTest.log_at (tests s) i (RaftTest.CommandIndex m)) }.

Lemma quiet_start n w : t_test w = RaftTest.makeTest n -> is_Some (Annotation.finfo (t_an w)) -> quiet n w [] (start range vis n w).
Proof.
  intros Hw Hf. split; [by apply sys_start_ok| |done| |].
  - cbn. rewrite Hw. unfold RaftTest.no_errors. apply Forall_forall. by intros rs [-> _]%elem_of_replicate.
  - intros i k v. cbn. rewrite Hw. unfold RaftTest.log_at. cbn. intros (rs & [-> _]%lookup_replicate & Hk)%bind_Some.
    cbn in Hk. by rewrite lookup_empty in Hk.
  - intros i m _ Hm. by apply not_elem_of_nil in Hm.
Qed.

(** The tester does not see the message, over a connection that is closed by
    then or because there is nothing to see. *)
Lemma quiet_unseen n w es s i m f1 f2 o :
  quiet n w es s -> length o = n -> (forall j, o !! j = Some true -> s_open s !! j = Some true) ->
  (o !! i <> Some true \/ RaftTest.CommandValid m = false) ->
  quiet n w (es ++ [Deliver i m f1 f2]) (mkSys o (s_srv s)).
Proof.
  intros [[Q1 Q2 Q3 Q4] Q5 Q6 Q7 Q8] Ho Hop Hi. split; [by split|done|done| |].
  - intros j k v (m' & ? & ?)%Q7. exists m'. rewrite delivered_app, elem_of_app. auto.
  - cbn. intros j m' Hj Hm Hv. rewrite life_snoc in Hm. case_decide as Hd; [|by apply Q8; auto]. subst j.
    destruct Hi as [Hi|Hi]; [done|]. apply elem_of_app in Hm as [Hm| ->%list_elem_of_singleton]; [by apply Q8; auto|congruence].
Qed.

(** The tester sees it, and has nothing to object. *)
Lemma quiet_seen n w es s i m f1 f2 o ts err prevok :
  quiet n w es s -> consistent (es ++ [Deliver i m f1 f2]) -> i < n -> RaftTest.CommandValid m = true -> s_open s !! i = Some true ->
  length o = n -> (forall j, o !! j = Some true -> s_open s !! j = Some true) ->
  RaftTest.CheckLogs i m (tests s) = Ret (ts, (err, prevok)) ->
  err = "" /\ ((1 < RaftTest.CommandIndex m)%Z -> prevok = true) /\
  quiet n w (es ++ [Deliver i m f1 f2]) (mkSys o (served 1 (s_srv s) (set_test ts (app (s_srv s))))).
Proof.
  intros [[Q1 Q2 Q3 Q4] Q5 Q6 Q7 Q8] [Hsame Hord] Hi Hv Hopen Ho Hop E.
  destruct (RaftTest.CheckLogs_spec i m (tests s)) as (ts' & err' & prevok' & E' & Hl & Hlog & Hne & Herr & Hprev); [lia|].
  rewrite E in E'. injection E' as <- <- <-. split; [|split].
  - apply Herr. intros j old (m' & Hm' & Hv' & Hk & <-)%Q7. rewrite delivered_app in Hsame.
    apply (Hsame j m' i m); [apply elem_of_app; by left|apply elem_of_app; right; by apply list_elem_of_singleton|done..].
  - intros H1. apply Hprev. destruct (Hord es i m f1 f2 [] eq_refl Hv H1) as (m' & Hm' & Hv' & <-). by apply Q8.
  - split; [split; cbn; [done|congruence|by apply is_tester_served|done]|by apply Hne|done| |].
    + intros j k v. cbn. rewrite Hlog, delivered_app. setoid_rewrite elem_of_app. case_decide as Hd.
      * destruct Hd as [-> ->]. intros [= <-]. exists m. split; [|done]. right. by apply list_elem_of_singleton.
      * intros (m' & ? & ?)%Q7. exists m'. auto.
    + cbn. intros j m' Hj Hm Hv'. rewrite Hlog. case_decide as Hd; [by eexists|]. rewrite life_snoc in Hm.
      case_decide as Hji; [|by apply Q8; auto]. subst j.
      apply elem_of_app in Hm as [Hm| ->%list_elem_of_singleton]; [by apply Q8; auto|by destruct Hd].
Qed.

Lemma quiet_step n w es s e s' :
  quiet n w es s -> consistent (es ++ [e]) -> server_of e < n -> exec name s e = Ret s' -> quiet n w (es ++ [e]) s'.
Proof.
  intros Hq Hc Hi E. pose proof Hq as [[Q1 Q2 Q3 Q4] Q5 Q6 Q7 Q8]. destruct e as [i m f1 f2|i]; cbn in Hi.
  - destruct (lookup_lt_is_Some_2 (s_open s) i) as [b Hb]; [lia|]. unfold exec in E. rewrite (idx_Some _ _ _ Hb) in E. cbn [mbind outcome_bind] in E.
    assert (Ho : forall b', (b' = true -> b = true) -> length (<[i := b']> (s_open s)) = n /\
        (forall j, <[i := b']> (s_open s) !! j = Some true -> s_open s !! j = Some true)).
    { intros b' Hb'. rewrite length_insert. split; [done|]. intros j. destruct (decide (j = i)) as [->|Hj]; [|by rewrite list_lookup_insert_ne].
      rewrite list_lookup_insert_eq by lia. intros [= ->]. by rewrite Hb, Hb'. }
    destruct (RaftTest.CommandValid m) eqn:Hv.
    2:{ unfold applier in E. rewrite Hv in E. injection E as <-. cbn. destruct (Ho b) as [? ?]; [done|]. apply quiet_unseen; auto. }
    destruct b; [|rewrite applier_closed in E by done; injection E as <-; destruct (Ho false) as [? ?]; [done|];
      apply quiet_unseen; auto; left; rewrite list_lookup_insert_eq by lia; done].
    destruct (applier_open f1 f2 (name i) i m (s_srv s)) as (c & ts & err & prevok & Ec & El & _ & _ & _ & Hcase); [done|lia|done..|].
    rewrite Ec in E. injection E as <-. destruct (Ho (is_open c)) as [Ho1 Ho2]; [done|].
    destruct (quiet_seen n w es s i m f1 f2 (<[i := is_open c]> (s_open s)) ts err prevok) as (-> & Hp & Hq'); try done.
    cbn zeta in Hcase. destruct Hcase as [[_ ->]|[[_ ->]|[(_ & He & ->)|(_ & He & _)]]]; [|done|done|].
    + apply quiet_unseen; auto. left. by rewrite list_lookup_insert_eq by lia.
    + exfalso. apply He. destruct (Z.ltb_spec 1 (RaftTest.CommandIndex m)) as [H1|H1]; [by rewrite (Hp H1)|done].
  - injection E as <-. split; [split; cbn; by rewrite ?length_insert|done|done| |].
    + intros j k v (m & ? & ?)%Q7. exists m. rewrite delivered_app, elem_of_app. auto.
    + cbn. intros j m Hj Hm. rewrite life_snoc in Hm. case_decide as Hd; [by apply not_elem_of_nil in Hm|].
      rewrite list_lookup_insert_ne in Hj by done. by apply Q8.
Qed.

(** C31: closing connections raises no false alarm.  However servers are stopped,
    their connections closed with RPCs under way, and new daemons started in
    their place: as long as no two applied messages disagree on the command at
    an index and each life of a server applies every index above 1 after the one
    before it, the run goes on to its end, the tester has no error for any
    server, and no failure is written on the timeline. *)
Theorem closing_no_false_alarm n w es :
  t_test w = RaftTest.makeTest n -> is_Some (Annotation.finfo (t_an w)) -> Forall (fun e => server_of e < n) es -> consistent es ->
  exists s, foldo (exec name) (start range vis n w) es = Ret s /\
    Forall (fun rs => RaftTest.applyErr rs = "") (RaftTest.srvs (tests s)) /\ t_an (app (s_srv s)) = t_an w.
Proof.
  intros Hw Hf Hes Hc. assert (Hq : exists s, foldo (exec name) (start range vis n w) es = Ret s /\ quiet n w es s).
  { induction es as [|e es IH] using rev_ind; [eexists; split; [reflexivity|]; by apply quiet_start|].
    apply Forall_app in Hes as [Hes He]. apply Forall_cons_1 in He as [He _].
    destruct (IH Hes (consistent_prefix _ _ Hc)) as (s & E & Hq). destruct (exec_ok n s e (qt_ok _ _ _ _ Hq) He) as (s' & E' & _).
    exists s'. rewrite foldo_app, E. cbn. rewrite E'. split; [done|]. by eapply quiet_step. }
  destruct Hq as (s & E & [_ Q2 Q3 _ _]). by exists s.
Qed.

(** ** Annotations of a server *)

(** The interval a server posts for a snapshot is the time the snapshot took, or
    nothing is posted: the timestamp 0 of a failed call never shows. *)
Theorem snapshot_interval f1 f2 clnt me index d c :
  is_tester (peer c) ->
  exists c', announce f1 f2 clnt me index d c = Ret c' /\ is_tester (peer c') /\
    t_test (app (peer c')) = t_test (app (peer c)) /\ t_now (app (peer c')) = (t_now (app (peer c)) + d)%Z /\
    let posted := Annotation.on_an (Annotation.annotateIntervalColor (t_now (app (peer c)) + d) Annotation.TAG_INFO (t_now (app (peer c)))
      ("snapshot created by " +:+ itoa me)
      ("snapshot created by server " +:+ itoa me +:+ " after applying the command at index " +:+ pretty index)
      Annotation.COLOR_INFO) (t_an (app (peer c))) in
    (is_open c' = true -> t_an (app (peer c')) = posted) /\
    (t_an (app (peer c')) = t_an (app (peer c)) \/ t_an (app (peer c')) = posted).
Proof.
  intros Ht. unfold announce. rewrite GetAnnotatorTimestamp_remote by done.
  assert (Hp : forall c1, is_tester (peer c1) -> is_tester (peer (pass d c1))) by by intros ? [].
  destruct c as [[] rs]; cbn [remote is_open peer] in *; [destruct f1|]; cbn -[served pass PostAnnotatorInfoInterval];
    rewrite PostAnnotatorInfoInterval_remote by (apply Hp; try done; by apply is_tester_served); [destruct f2|..];
    eexists; (split; [reflexivity|]); (split; [by apply (Hp (mkConn true rs)) in Ht as []|]); (split; [reflexivity|]); (split; [reflexivity|]);
    (split; [done|]); first [by left|by right].
Qed.
End Laws.

(** ** What the tester's proxies report *)

Section ProxyLaws.
Context `{!Demux.ArgsCodec} {V R M : Type}.
Context `{!Gob unit, !Gob GetStateReply, !Gob (StartArgs V), !Gob StartReply, !Gob SubmitArgs, !Gob SubmitReply, !Gob GetCounterReply}.
Context `{!GobLaws unit, !GobLaws GetStateReply, !GobLaws (StartArgs V), !GobLaws StartReply, !GobLaws SubmitArgs,
  !GobLaws SubmitReply, !GobLaws GetCounterReply}.
Context (raft_Start : V -> R -> R * (Z * Z * bool)) (raft_GetState : R -> Z * bool).
Context (rsm_Submit : Rsm.Req -> M * Rsm.rsmSrv -> outcome (M * Rsm.rsmSrv * (KvServer.Err * option Rsm.Rep))).

(** A call through a proxy that succeeded is one of the server. *)
Lemma remote_Some {W A B} f (h : A -> W -> outcome (W * B)) a (c c' : conn W) b :
  remote f h a c = Ret (c', Some b) -> exists w, h a (app (peer c)) = Ret (w, b) /\ app (peer c') = w /\ is_open c' = true.
Proof.
  unfold remote. destruct (is_open c), f; try done; destruct (h a (app (peer c))) as [[w x]| |]; try done.
  intros [= <- <-]. by exists w.
Qed.

(** A server that claims through its proxy to lead has started the command. *)
Theorem Start_leader_executed f command b rf c' i t :
  Rfproxy_Start f command (mkConn b (daemon_srv "rfsrv" (rfsrv_methods raft_Start raft_GetState) rf)) = Ret (c', (i, t, true)) ->
  exists r r', rf = Some r /\ raft_Start command r = (r', (i, t, true)) /\ app (peer c') = Some r' /\ is_open c' = true.
Proof.
  unfold Rfproxy_Start. erewrite conn_Call_remote; [|done..].
  destruct (remote _ _ _ _) as [[c [rep|]]| |] eqn:E; try done. cbn. intros [= -> <- <- Hl].
  apply remote_Some in E as (w & E & Hw & Ho). unfold StartRPC, rfsrv_Start in E. cbn in E. destruct rf as [r|]; cbn in E.
  - destruct (raft_Start command r) as [r' [[i' t'] l]] eqn:Er. injection E as <- <-. exists r, r'. cbn in *. by subst l.
  - injection E as _ <-. discriminate Hl.
Qed.

(** An operation whose [Submit] is reported to the tester as OK has been
    submitted with that answer. *)
Theorem Submit_OK_executed f req b d c' rep :
  RSMproxy_Submit f req (mkConn b (daemon_srv "rsmSrv" (rsmSrv_methods rsm_Submit) d)) = Ret (c', (KvServer.OK, rep)) ->
  exists d', rsm_Submit req d = Ret (d', (KvServer.OK, rep)) /\ app (peer c') = d' /\ is_open c' = true.
Proof.
  unfold RSMproxy_Submit. erewrite conn_Call_remote; [|done..].
  destruct (remote _ _ _ _) as [[c [x|]]| |] eqn:E; try done. cbn. intros [= -> He <-].
  apply remote_Some in E as (w & E & Hw & Ho). unfold SubmitRPC in E. cbn in E. exists w.
  destruct (rsm_Submit req d) as [[d' [e r]]| |]; try done. injection E as <- <-. cbn in *. by subst e.
Qed.
End ProxyLaws.

(** ** The control connection *)

(** [daemonsrv.go]; [uint64] is [N]. *)
Record CheckpointPersisterReply := mkCheckpointReply { cp_Raftstate : string; cp_Snapshot : string }.
Record StateSizeReply := mkStateSizeReply { sz_RaftSize : nat; sz_SnapSize : nat }.
Record MemSizeReply := mkMemSizeReply { ms_MemSize : N }.

Section Control.
Context `{!Demux.ArgsCodec, !Gob unit, !Gob CheckpointPersisterReply, !Gob StateSizeReply, !Gob MemSizeReply}.

(** What a daemon's control handlers work on: its connection to the tester, its
    RPC server, its persister, and the allocated memory. *)
Record ctl := mkCtl { k_rpcc : bool; k_rpcs : bool; k_persister : Tester.Persister; k_mem : N }.

Definition CheckpointPersister (args : unit) (d : ctl) : outcome (ctl * CheckpointPersisterReply) :=
  let d := mkCtl false (k_rpcs d) (k_persister d) (k_mem d) in
  let d := mkCtl (k_rpcc d) false (k_persister d) (k_mem d) in
  let p := Tester.Checkpoint (k_persister d) in
  Ret (d, mkCheckpointReply (Tester.ReadRaftState p) (Tester.ReadSnapshot p)).
Definition StateSize (args : unit) (d : ctl) : outcome (ctl * StateSizeReply) :=
  Ret (d, mkStateSizeReply (Tester.RaftStateSize (k_persister d)) (Tester.SnapshotSize (k_persister d))).
Definition MemSize (args : unit) (d : ctl) : outcome (ctl * MemSizeReply) := Ret (d, mkMemSizeReply (k_mem d)).
Definition DaemonSrv_methods : Service (St := ctl) :=
  {[ "CheckpointPersister" := handler CheckpointPersister; "StateSize" := handler StateSize; "MemSize" := handler MemSize ]}.

(** [DaemonClnt]; the tester does not go on without an answer. *)
Definition checkpointPersister (f : fate) (c : conn ctl) : outcome (conn ctl * Tester.Persister) :=
  r ← conn_Call (R := CheckpointPersisterReply) f "tester" "DaemonSrv.CheckpointPersister" tt c;
  match r.2 with
  | Some rep => Ret (r.1, Tester.Save (cp_Raftstate rep) (cp_Snapshot rep) Tester.MakePersister)
  | None => Fatal "checkpointPersister: no return"
  end.
Definition stateSize (f : fate) (c : conn ctl) : outcome (conn ctl * (nat * nat)) :=
  r ← conn_Call (R := StateSizeReply) f "tester" "DaemonSrv.StateSize" tt c;
  match r.2 with Some rep => Ret (r.1, (sz_RaftSize rep, sz_SnapSize rep)) | None => Fatal "StateSize: no return" end.
Definition memSize (f : fate) (c : conn ctl) : outcome (conn ctl * N) :=
  r ← conn_Call (R := MemSizeReply) f "tester" "DaemonSrv.MemSize" tt c;
  match r.2 with Some rep => Ret (r.1, ms_MemSize rep) | None => Fatal "MemSize: no return" end.

(** [ServerGrp.MemSize]: the largest answer of the servers. *)
Definition max_mem (sizes : list N) : N := foldl (fun m n => if (m <? n)%N then n else m) 0%N sizes.

Context `{!GobLaws unit, !GobLaws CheckpointPersisterReply, !GobLaws StateSizeReply, !GobLaws MemSizeReply}.

(** Stopping a daemon and starting another hands over its persister: what
    [checkpointPersister] returns is all the old daemon has, which by then can
    talk to nobody, and the new one's [Init] gives it the same; without an answer
    the test ends rather than go on with a state that is not the daemon's. *)
Theorem stop_start_handover f c :
  services (peer c) = services (daemon_srv "DaemonSrv" DaemonSrv_methods (app (peer c))) -> dispatchf (peer c) = None ->
  match checkpointPersister f c with
  | Ret (c', p) => Init_persister p = k_persister (app (peer c)) /\ k_rpcc (app (peer c')) = false /\ k_rpcs (app (peer c')) = false
  | Panic _ => False
  | Fatal _ => is_open c = false \/ f <> Answered
  end.
Proof.
  intros Hs Hd. unfold checkpointPersister. erewrite conn_Call_remote; [|reflexivity|exact Hd|rewrite Hs; reflexivity|reflexivity].
  unfold remote. destruct (is_open c); [|by left]. destruct f; cbn -[served]; [|by right..].
  split; [|done]. by destruct (k_persister (app (peer c))).
Qed.

Lemma max_mem_from m l : foldl (fun m n => if (m <? n)%N then n else m) m l = N.max m (max_mem l).
Proof.
  unfold max_mem. revert m. induction l as [|n l IH]; intros m; cbn -[N.max N.ltb]; [lia|]. rewrite IH, (IH (if (0 <? n)%N then n else 0%N)).
  destruct (N.ltb_spec m n), (N.ltb_spec 0 n); lia.
Qed.

Theorem max_mem_spec l : (forall n, n ∈ l -> (n <= max_mem l)%N) /\ (l <> [] -> max_mem l ∈ l).
Proof.
  induction l as [|n l [IH1 IH2]]; [split; [by intros ? ?%not_elem_of_nil|done]|].
  assert (E : max_mem (n :: l) = N.max n (max_mem l)) by (unfold max_mem at 1; cbn -[N.max N.ltb]; rewrite max_mem_from; destruct (N.ltb_spec 0 n); lia).
  rewrite E. split.
  - intros x [->|Hx]%elem_of_cons; [lia|]. specialize (IH1 x Hx). lia.
  - intros _. destruct (decide (l = [])) as [->|Hl]; [unfold max_mem; cbn; rewrite N.max_0_r; by left|].
    destruct (N.max_spec n (max_mem l)) as [[_ ->]|[_ ->]]; [right; by apply IH2|by left].
Qed.
End Control.

(** ** Witnesses *)

Definition msg_tuple (m : RaftTest.ApplyMsg string) : bool * string * Z * bool * option string * Z :=
  (RaftTest.CommandValid m, RaftTest.Command_ m, RaftTest.CommandIndex m, RaftTest.SnapshotValid m, RaftTest.Snapshot m, RaftTest.SnapshotIndex m).
Definition tuple_msg (x : bool * string * Z * bool * option string * Z) : RaftTest.ApplyMsg string :=
  let '(a, b, c, d, e, f) := x in RaftTest.mkMsg a b c d e f.

#[local] Existing Instance RaftTest.string_command.
#[local] Instance demo_rpc_codec : Demux.ArgsCodec := Demux.str_args_codec.
#[local] Instance demo_codecs : Codecs string := {|
  gob_cl := countable_gob (fun a => (cl_Index a, msg_tuple (cl_Msg a))) (fun x => mkCheckLogsArgs x.1 (tuple_msg x.2));
  gob_clr := countable_gob (fun r => (cl_Err r, cl_Prevok r)) (fun x => mkCheckLogsReply x.1 x.2);
  gob_il := countable_gob (fun a => (il_Index a, il_Log a)) (fun x => mkIngestLogArgs x.1 x.2);
  gob_ae := countable_gob (fun a => (ae_Index a, ae_Err a)) (fun x => mkApplyErrArgs x.1 x.2);
  gob_pt := countable_gob (fun a => (pt_Tag a, pt_Desp a, pt_Details a)) (fun x => mkPointArgs x.1.1 x.1.2 x.2);
  gob_tsr := countable_gob ts_Timestamp mkTimestampReply;
  gob_ii := countable_gob (fun a => (ii_Start a, ii_Desp a, ii_Details a)) (fun x => mkInfoIntervalArgs x.1.1 x.1.2 x.2);
  gob_unit := countable_gob id id |}.

#[local] Instance demo_codecs_laws : CodecsLaws string.
Proof.
  split; apply countable_gob_laws; try by intros [].
  intros [j []]. reflexivity.
Qed.

Definition demo_tester : tester string :=
  mkTester (RaftTest.makeTest 2) (Annotation.mkState Annotation.mkAnnotation (Some (Annotation.mkFrameworkInfo 2))) 7.
Definition demo_run (es : list (event string)) : outcome (sys string) := foldo (exec itoa) (start map_to_list "" 2 demo_tester) es.
Definition demo_view (s : sys string) : list bool * list (list (Z * string)) * list string :=
  (s_open s, (fun rs => map_to_list (RaftTest.logs rs)) <$> RaftTest.srvs (t_test (app (s_srv s))),
   RaftTest.applyErr <$> RaftTest.srvs (t_test (app (s_srv s)))).

(** Server 1's connection closes while the tester looks at its second message;
    it is started again and applies everything from the start. *)
Definition demo_closing : list (event string) :=
  [Deliver 0 (RaftTest.cmd_msg 1 "a") Answered Answered; Deliver 1 (RaftTest.cmd_msg 1 "a") Answered Answered;
   Deliver 1 (RaftTest.cmd_msg 2 "b") Lost Answered; Deliver 0 (RaftTest.cmd_msg 2 "b") Answered Answered;
   Deliver 1 (RaftTest.cmd_msg 3 "c") Answered Answered; Restarted 1; Deliver 1 (RaftTest.cmd_msg 1 "a") Answered Answered;
   Deliver 0 (RaftTest.cmd_msg 3 "c") Unserved Answered; Deliver 1 (RaftTest.cmd_msg 2 "b") Answered Answered].

Example demo_closing_view :
  (s ← demo_run demo_closing; Ret (demo_view s)) =
  Ret ([false; true], [[(2, "b"); (1, "a")]; [(2, "b"); (1, "a")]], [""; ""])%Z.
Proof. vm_compute. reflexivity. Qed.

(** Checkers for the hypotheses on a concrete run. *)
Definition lives_okb (es : list (event string)) : bool :=
  forallb (fun k =>
    match es !! k with
    | Some (Deliver i m _ _) =>
        negb (RaftTest.CommandValid m && (1 <? RaftTest.CommandIndex m)%Z) ||
        existsb (fun m' => RaftTest.CommandValid m' && (RaftTest.CommandIndex m' =? RaftTest.CommandIndex m - 1)%Z) (life i (take k es))
    | _ => true
    end) (seq 0 (length es)).

Lemma lives_okb_ok es : lives_okb es = true -> lives_in_order es.
Proof.
  intros Hb es1 i m f1 f2 es2 -> Hv H1. unfold lives_okb in Hb. rewrite forallb_forall in Hb.
  specialize (Hb (length es1)). rewrite list_lookup_middle, take_app_length in Hb by done. rewrite Hv in Hb.
  rewrite (proj2 (Z.ltb_lt _ _) H1) in Hb. cbn [andb negb orb] in Hb.
  destruct (existsb _ _) eqn:Hx in Hb; [|by discriminate Hb; apply in_seq; rewrite length_app; cbn; lia].
  apply existsb_exists in Hx as (m' & Hm & [Hv' Hi]%andb_true_iff). exists m'. split; [by apply list_elem_of_In|]. split; [done|lia].
Qed.

Lemma same_commands_by (g : Z -> string) (l : list (nat * RaftTest.ApplyMsg string)) :
  Forall (fun im => RaftTest.Command_ im.2 = g (RaftTest.CommandIndex im.2)) l -> RaftTest.same_commands l.
Proof. rewrite Forall_forall. intros Hg i m j m' Hi%Hg Hj%Hg _ _ E. cbn in Hi, Hj. by rewrite Hi, Hj, E. Qed.

Definition letter (k : Z) : string := if (k =? 1)%Z then "a" else if (k =? 2)%Z then "b" else "c".

Lemma demo_closing_consistent : consistent demo_closing.
Proof. split; [apply (same_commands_by letter); by repeat constructor|by apply lives_okb_ok; vm_compute]. Qed.

Lemma closing_no_false_alarm_witness :
  exists s, demo_run demo_closing = Ret s /\
    Forall (fun rs => RaftTest.applyErr rs = "") (RaftTest.srvs (t_test (app (s_srv s)))) /\ t_an (app (s_srv s)) = t_an demo_tester.
Proof.
  apply (closing_no_false_alarm map_to_list "" itoa 2 demo_tester demo_closing);
    [reflexivity|by eexists|repeat constructor|exact demo_closing_consistent].
Defined.

Definition demo_skipping : list (event string) :=
  [Deliver 0 (RaftTest.cmd_msg 1 "a") Answered Answered; Deliver 1 (RaftTest.cmd_msg 1 "a") Answered Answered;
   Deliver 1 (RaftTest.cmd_msg 3 "c") Answered Answered].

Lemma connected_checks_exact_witness :
  exists s, foldo (exec itoa) (start map_to_list "" 2 demo_tester) demo_skipping = Ret s /\ all_open s /\ ~ RaftTest.no_errors (t_test (app (s_srv s))).
Proof.
  destruct (connected_checks_exact map_to_list "" itoa 2 demo_tester demo_skipping) as (s & E & Hs);
    [reflexivity|by eexists|repeat constructor|].
  assert (Hb : match foldo (exec itoa) (start map_to_list "" 2 demo_tester) demo_skipping with Ret s => bool_decide (s_open s = [true; true]) | _ => false end = true) by by vm_compute.
  rewrite E in Hb. apply bool_decide_eq_true in Hb. exists s. split; [exact E|].
  assert (Ho : all_open s) by (unfold all_open; rewrite Hb; by repeat constructor). split; [exact Ho|].
  intros [_ Hord]%(Hs Ho).
  destruct (Hord [(0, RaftTest.cmd_msg 1 "a"); (1, RaftTest.cmd_msg 1 "a")] 1 (RaftTest.cmd_msg 3 "c") [] eq_refl eq_refl eq_refl)
    as (m' & Hm & _ & Hi).
  apply elem_of_cons in Hm as [[=]|Hm].
  apply list_elem_of_singleton in Hm as [= ->]. discriminate Hi.
Defined.
End Stubs.
